(* ===== verification/_CoqProject ===== *)
-Q . S2P
Prelude.v
Simulation.v
Bytes.v
Order.v
Text.v
Utf8.v
Ip.v
SnellWire.v
AsyncIo.v
SnellRecord.v
SnellReader.v
SnellPool.v
Traffic.v
TrafficTime.v
Recorder.v
SnellClient.v
Socks5.v
HttpRequest.v
HttpRelay.v
Trust.v
Diagnostics.v
Nodes.v
Network.v
NetworkPlatforms.v
HappyEyeballs.v
PrivateDns.v
DialTcp.v
Dialer.v
Config.v
Provider.v
RawProvider.v
Subscription.v
Accept.v
Gateway.v
Tunnel.v
HttpSession.v
NodeClient.v
Status.v
HttpServer.v
Api.v
CatalogCache.v
CatalogService.v
Admission.v
Login.v
Control.v
Commands.v
ControlSocket.v
Install.v
ServeMap.v
Cli.v
WindowsService.v
WindowsFiles.v
Limits.v
PerfTrace.v
