(* ===== verification/Prelude.v ===== *)
(** * oixc-proxy in Rocq

    oixc-proxy is a local gateway. It fetches a catalog of Snell nodes from a
    managed API, publishes them as policies for Surge and Clash, and relays its
    clients' SOCKS5 and HTTP connections to the node they name, each over a Snell
    session inside TLS with Encrypted Client Hello. This library models the
    program and proves what makes it correct. Definitions follow the source
    function by function and keep its names; a definition's doc comment says where
    it departs from it.

    ** The program's parts and their files

    The protocol of a node:
    - [SnellWire]: the requests, datagrams and identity preamble
      ([src/snell/request.rs], [src/snell/udp.rs], [src/snell/identity.rs]);
    - [SnellRecord]: the encrypted, padded records ([src/snell/record.rs]), over
      the interface [RecordCrypto] of the two crypto crates and the transports of
      [AsyncIo];
    - [SnellReader]: the reply and the byte stream in the records
      ([SnellReader] of [src/snell/client.rs]), over any [RecordSource];
    - [SnellPool], [SnellClient]: idle connections, dialling, reuse and the TCP
      and UDP sessions (the rest of [src/snell/client.rs]).

    Reaching a node:
    - [Trust]: the root store and its background reloads
      ([src/transport/trust.rs]);
    - [Network], [NetworkPlatforms]: the egress interface and its monitor, for
      Linux and for macOS and Windows ([src/network.rs],
      [src/windows/network.rs]);
    - [PrivateDns]: the signed names and the answers of the private resolver
      ([src/transport/private_dns.rs]);
    - [HappyEyeballs], [DialTcp], [Dialer]: the race of addresses, the TCP
      connection, and the ECH-TLS dial with its retries
      ([src/transport/ech.rs], [src/catalog_refresh.rs]).

    The clients' side:
    - [Socks5]: handshake, replies, UDP ports and datagrams, both directions of a
      relay ([src/socks5.rs]); [Tunnel]: the idle watch, the whole relay, the UDP
      association, and the path of a client to its node;
    - [HttpRequest], [HttpRelay]: the HTTP proxy's requests, and forwarding one
      request and its response ([src/http_proxy.rs]); [HttpSession]: [serve] to
      the end of a session, tunnels and single requests over the halves of a
      Snell session, and the path of an HTTP client to its node;
    - [Accept], [Admission]: taking connections off a listener and the limits on
      them ([src/accept.rs], [src/cli.rs]).

    The catalog and what is published of it:
    - [Nodes], [Provider], [RawProvider], [Subscription]: the nodes, the Surge and
      Clash documents, the raw export and the traffic quota ([src/nodes.rs],
      [src/surge.rs], [src/clash.rs], [src/raw_provider.rs],
      [src/subscription.rs]);
    - [Gateway], [NodeClient]: routers, the runtimes they share, the manager that
      replaces them, and the dialer and client made for a node
      ([src/gateway.rs]);
    - [HttpServer], [Status], [Diagnostics]: the document server, the status
      documents and the classification of failures ([src/http_server.rs],
      [src/diagnostics.rs]);
    - [Api], [CatalogCache], [CatalogService]: the API client, the cache file and
      the service loop with its reloads and refreshes ([src/api.rs],
      [src/catalog_cache.rs], [src/cli.rs]).

    The service around it:
    - [Config]: the configuration file ([src/config.rs]);
    - [Traffic], [TrafficTime], [Recorder]: counters, journal and reports, the
      timestamps, and the recorder's thread ([src/traffic.rs]);
    - [Commands], [Cli], [Login], [Install], [ServeMap]: flags and paths, the
      commands that report, the login, the installers, and one port per node
      ([src/cli.rs]);
    - [Control], [ControlSocket]: the control channel, its socket and its pipe
      ([src/control.rs]);
    - [WindowsService], [WindowsFiles], [Limits], [PerfTrace]: the service manager
      and private files of Windows, the limit on open files, and tracing
      ([src/windows/], [src/rlimit.rs], [src/perftrace.rs]).

    [Prelude], [Simulation], [Bytes], [Order], [Text], [Utf8] and [Ip] hold what
    these share: errors, the state and error monad with its inversion tactics and
    a relational logic for it, machine integers, and the parts of the standard library the source uses.

    ** How code becomes definitions

    A fallible function returns [result]; one that changes state is [M S A], a
    state monad whose errors keep the state reached, as Rust's [?] does. Machine
    integers are [Z] with their bounds and wrap-around written out, bytes are
    [Byte.byte], a [str] is its UTF-8. Code that other tasks can interleave with
    (the connection pool, root reloads, the race of addresses, the recorder's
    thread, admission, the Windows service, the interleaving of reloads with
    runtimes in use) is a step relation whose steps are the accesses to shared
    state, with invariants by induction over runs. What the system answers (a
    socket, a file, a clock, a random byte, the order in which tasks end) is an
    argument: theorems hold for all answers, and a failure at each system call is
    one of them, also where the code ignores it. Crates are parameters or classes; the laws a theorem needs are
    in a class beside them ([RecordCryptoLaws], [Base64UrlLaws],
    [ControlCodecLaws]), and concrete instances show that they can hold.

    ** What the theorems show

    - From end to end ([Tunnel.socks_connect_end_to_end],
      [HttpSession.http_tunnel_end_to_end]): a client with a node's published
      credentials reaches that node, which reads exactly what the client
      sends, and the other way round; the proof composes the gateway, the
      handshake, the dial, the record layer, the stream and the relay. Of a
      forwarded HTTP request the node reads the rewritten head and exactly its
      body, and the client gets the answer with its head rewritten, whether the
      answer ends after the request or, with a failed relay, before it
      ([HttpSession.http_request_end_to_end]); datagrams cross an association
      both ways ([Tunnel.udp_datagrams_cross]). The two directions of a session
      do not interfere, so the model takes them one after the other
      ([Tunnel.directions_commute], [HttpSession.request_directions_commute]). The
      session runs over the very TLS connection that was verified
      ([NodeClient.session_over_verified_tls]), and whatever the configuration and
      the catalog accept can be built ([NodeClient.accepted_catalog_builds]).
    - The Snell protocol: records decode to what was sent, in any batching; no
      nonce is used twice with a key; the stream is exactly the bytes sent,
      whatever records carry them; a pooled connection has one owner, and reuse
      never mixes two sessions.
    - Dialling: a session only results from a verified handshake with the current
      ECH configuration and roots; answers of the private resolver are accepted
      only from its server and for the question asked (names are compared without
      regard to case); every address is tried in the documented order, and the
      first success wins; sockets are bound to the address of the egress.
    - The front ends: the SOCKS5 handshake accepts exactly the protocol's byte
      streams; HTTP requests and responses are forwarded with their framing
      intact, bodies exactly; the idle watch cuts a session exactly when it
      should; limits hold without lost wakeups or starvation.
    - The catalog: answers of the API are used exactly when they are signed, and
      only failures another URL may repair are passed over; fallbacks share one
      deadline; the cache round-trips (within the size and the mode a load
      accepts, which a store does not ensure); reloads and refreshes happen entirely or
      not at all; the documents published are those of the catalog in service;
      runtimes are shared, never leaked, never closed while in use.
    - The service: accepted settings are within their bounds and fit together;
      traffic is counted exactly once, through crashes of an append and through
      the recorder's stop, but for samples repeated after the journal could not be
      unlocked; installers undo what they did as far as the system lets them; the
      control socket is taken over only when it was stale ([ControlSocket.takeover_race]
      shows what the gap before its removal still allows); reports and bundles never overwrite a file
      nor show a secret.

    ** Fuel and bounds

    Loops whose end depends on what the environment sends carry fuel, and running
    out is the error [OutOfFuel] (or [None]), which no code path makes. Where a
    theorem says that a result is reached it gives the fuel: one turn for each
    byte that may come (a stream of [n] bytes has at most [n] records that are not
    empty) and one for the end, the number of idle connections or of addresses for
    the loops that try each, two turns for the idle watch between two events
    ([Tunnel.WATCH_FUEL]), and 301 polls of 200 ms for the minute the Windows
    service manager is given ([WindowsService.WAIT_FUEL]). Decoders of text recurse
    with the length of the text as fuel. The other loops are structural, or the
    theorem holds for any fuel.

    ** Not modelled

    The cryptography, TLS, HTTP client, URL, JSON, YAML and DNS crates, with the
    vendored copy of rustls; module declarations and the start of the runtime
    ([src/main.rs], [src/lib.rs]); the benchmark programs under [src/examples] and
    the benchmark-only transport of [src/snell/client.rs]; the text of [USAGE] and
    most lines printed to the terminal; the built-in constants of the private
    resolver; [shutdown_signal], whose firing is an outcome of the service's run;
    calls of [perftrace] inside other functions, which do not affect them. Time
    passes only where the code looks at it, and a future dropped by a timeout
    leaves its effects to a connection that the code then retires. *)
From Stdlib Require Export ZArith Lia.
From Stdlib Require Export Strings.Byte.
From stdpp Require Export base gmap strings list fin_maps.

(** ** Errors

    [anyhow::Error] values of the source: a message, a context added to a
    cause ([error.context("..")]), a message that interpolates its cause
    ([anyhow!("..: {error}")]), or one of the typed markers the code later
    recognises with [downcast_ref]. *)
Inductive error : Type :=
  | Bail (msg : string)
  | Context (ctx : string) (cause : error)
  | Fmt (prefix : string) (cause : error)
  | ZeroRecord
  | DatagramError (cause : error)
  (** not a value of the source: a loop of the model ran out of fuel *)
  | OutOfFuel.

#[export] Instance error_eq_dec : EqDecision error.
Proof. solve_decision. Defined.

(** [to_string] *)
Fixpoint display (e : error) : string :=
  match e with
  | Bail msg => msg
  | Context ctx _ => ctx
  | Fmt prefix cause => prefix +:+ ": " +:+ display cause
  | ZeroRecord => "Snell zero-length record"
  | DatagramError _ => "Snell UDP datagram was dropped"
  | OutOfFuel => "out of fuel"
  end.

(** [Result<A>] *)
Inductive result (A : Type) : Type :=
  | Ok (a : A)
  | Err (e : error).
Arguments Ok {A} a.
Arguments Err {A} e.

#[export] Instance result_ret : MRet result := λ A a, Ok a.
#[export] Instance result_bind : MBind result := λ A B f r,
  match r with Ok a => f a | Err e => Err e end.
#[export] Instance result_fmap : FMap result := λ A B f r,
  match r with Ok a => Ok (f a) | Err e => Err e end.

#[export] Instance result_eq_dec `{EqDecision A} : EqDecision (result A).
Proof. solve_decision. Defined.

Definition is_ok {A} (r : result A) : bool :=
  match r with Ok _ => true | Err _ => false end.

(** [Result::map_err] *)
Definition map_err {A} (f : error → error) (r : result A) : result A :=
  match r with Ok a => Ok a | Err e => Err (f e) end.

(** [Option::ok_or] *)
Definition ok_or {A} (e : error) (o : option A) : result A :=
  match o with Some a => Ok a | None => Err e end.

(** ** State and errors

    A computation over a mutable state [S] that may fail. A failing
    computation keeps the mutations it made before the failure, as [&mut self]
    methods that return early do. *)
Definition M (S A : Type) : Type := S → result A * S.

#[export] Instance M_ret {S} : MRet (M S) := λ A a s, (Ok a, s).
#[export] Instance M_bind {S} : MBind (M S) := λ A B f m s,
  match m s with
  | (Ok a, s') => f a s'
  | (Err e, s') => (Err e, s')
  end.

Definition throw {S A} (e : error) : M S A := λ s, (Err e, s).
Definition bail {S A} (msg : string) : M S A := throw (Bail msg).
Definition get {S} : M S S := λ s, (Ok s, s).
Definition modify {S} (f : S → S) : M S unit := λ s, (Ok tt, f s).
Definition lift {S A} (r : result A) : M S A := λ s, (r, s).
(** [map_err] on a computation *)
Definition catch_map {S A} (f : error → error) (m : M S A) : M S A := λ s,
  let '(r, s') := m s in (map_err f r, s').
(** Run a computation on a field of the state. *)
Definition zoom {S T A} (proj : S → T) (upd : T → S → S) (m : M T A) : M S A := λ s,
  let '(r, t) := m (proj s) in (r, upd t s).
(** Observe a result instead of propagating its error. *)
Definition try_ {S A} (m : M S A) : M S (result A) := λ s,
  let '(r, s') := m s in (Ok r, s').

Lemma M_bind_ok {S A B} (m : M S A) (f : A → M S B) s a s' :
  m s = (Ok a, s') → (m ≫= f) s = f a s'.
Proof. intros H. unfold mbind, M_bind. by rewrite H. Qed.

Lemma M_bind_err {S A B} (m : M S A) (f : A → M S B) s e s' :
  m s = (Err e, s') → (m ≫= f) s = (Err e, s').
Proof. intros H. unfold mbind, M_bind. by rewrite H. Qed.

Lemma M_bind_inv {S A B} (m : M S A) (f : A → M S B) s b s' :
  (m ≫= f) s = (Ok b, s') →
  ∃ a t, m s = (Ok a, t) ∧ f a t = (Ok b, s').
Proof.
  unfold mbind, M_bind. destruct (m s) as [[a|e] t]; intros H; [eauto|done].
Qed.

Lemma result_bind_inv {A B} (m : result A) (f : A → result B) b :
  m ≫= f = Ok b → ∃ a, m = Ok a ∧ f a = Ok b.
Proof. destruct m; simpl; intros; [eauto|done]. Qed.

(** ** Tactics *)

(** Split the outermost [match]/[if] of the goal or of a hypothesis. *)
Ltac split_match :=
  match goal with
  | |- context [match ?x with _ => _ end] =>
      lazymatch x with context [match _ with _ => _ end] => fail | _ => destruct x eqn:? end
  | H : context [match ?x with _ => _ end] |- _ =>
      lazymatch x with context [match _ with _ => _ end] => fail | _ => destruct x eqn:? end
  end.
Ltac split_matches := repeat (split_match; simplify_eq/=; try done).

(** Turn boolean comparisons in the context into propositions. *)
Ltac reflect_bools :=
  repeat match goal with
  | H : (_ && _)%bool = true |- _ => apply andb_true_iff in H as [??]
  | H : (_ || _)%bool = false |- _ => apply orb_false_iff in H as [??]
  | H : negb _ = true |- _ => apply negb_true_iff in H
  | H : negb _ = false |- _ => apply negb_false_iff in H
  | H : bool_decide _ = true |- _ => apply bool_decide_eq_true in H
  | H : bool_decide _ = false |- _ => apply bool_decide_eq_false in H
  | H : (_ =? _)%Z = true |- _ => apply Z.eqb_eq in H
  | H : (_ =? _)%Z = false |- _ => apply Z.eqb_neq in H
  | H : (_ <? _)%Z = true |- _ => apply Z.ltb_lt in H
  | H : (_ <? _)%Z = false |- _ => apply Z.ltb_ge in H
  | H : (_ <=? _)%Z = true |- _ => apply Z.leb_le in H
  | H : (_ <=? _)%Z = false |- _ => apply Z.leb_gt in H
  | H : (_ =? _)%nat = true |- _ => apply Nat.eqb_eq in H
  | H : (_ =? _)%nat = false |- _ => apply Nat.eqb_neq in H
  | H : (_ <? _)%nat = true |- _ => apply Nat.ltb_lt in H
  | H : (_ <? _)%nat = false |- _ => apply Nat.ltb_ge in H
  | H : (_ <=? _)%nat = true |- _ => apply Nat.leb_le in H
  | H : (_ <=? _)%nat = false |- _ => apply Nat.leb_gt in H
  end.

(** ** Lists *)

(** Rewriting rules on lengths and slices shared by every component. *)
Create Rewrite HintDb slices.

Lemma take_app_len {A} (l k : list A) n : n = length l → take n (l ++ k) = l.
Proof. intros ->. apply take_app_length. Qed.

Lemma drop_app_len {A} (l k : list A) n : n = length l → drop n (l ++ k) = k.
Proof. intros ->. apply drop_app_length. Qed.

#[export] Hint Rewrite @length_app @length_take @length_drop @length_cons
  @length_nil @length_insert @length_replicate @length_reverse @length_fmap : slices.

Ltac slices := autorewrite with slices in *; simpl in *.

(** [slice::split_at]: panics (here [None]) when the index is out of range. *)
Definition split_at {A} (n : nat) (l : list A) : option (list A * list A) :=
  if (n <=? length l)%nat then Some (take n l, drop n l) else None.

Lemma split_at_app {A} (l k : list A) : split_at (length l) (l ++ k) = Some (l, k).
Proof.
  unfold split_at. rewrite length_app.
  replace (_ <=? _)%nat with true by (symmetry; apply Nat.leb_le; lia).
  by rewrite take_app_length, drop_app_length.
Qed.

(** [slice::iter().position] *)
Fixpoint position {A} (p : A → bool) (l : list A) : option nat :=
  match l with
  | [] => None
  | x :: l' => if p x then Some 0 else S <$> position p l'
  end.

Lemma position_Some {A} (p : A → bool) l i :
  position p l = Some i →
  ∃ x, l !! i = Some x ∧ p x = true ∧ forallb (negb ∘ p) (take i l) = true.
Proof.
  revert i; induction l as [|x l IH]; intros i H; simpl in *; [done|].
  destruct (p x) eqn:Hp; simplify_eq/=.
  - by exists x.
  - destruct (position p l) as [j|] eqn:Hj; simplify_eq/=.
    destruct (IH j eq_refl) as (y & ? & ? & Hf). exists y. by rewrite Hp.
Qed.

Lemma position_None {A} (p : A → bool) l :
  position p l = None ↔ forallb (negb ∘ p) l = true.
Proof.
  induction l as [|x l IH]; simpl; [done|].
  destruct (p x); simpl; [done|].
  rewrite <-IH. by destruct (position p l).
Qed.

Lemma position_app {A} (p : A → bool) l k :
  position p (l ++ k) =
    match position p l with
    | Some i => Some i
    | None => (λ j, length l + j) <$> position p k
    end.
Proof.
  induction l as [|x l IH]; simpl; [by destruct (position p k)|].
  destruct (p x); [done|]. rewrite IH.
  destruct (position p l), (position p k); done.
Qed.

Lemma forallb_Forall_true {A} (p : A → bool) l : forallb p l = true ↔ Forall (λ x, p x = true) l.
Proof. rewrite forallb_forall, Forall_forall. by setoid_rewrite list_elem_of_In. Qed.

(** [Iterator::min_by_key] keeps the first of equal minima, [max_by_key] the
    last of equal maxima. *)
Fixpoint min_by_key {A} (key : A → Z) (l : list A) : option A :=
  match l with
  | [] => None
  | x :: l' =>
      match min_by_key key l' with
      | Some y => if (key x <=? key y)%Z then Some x else Some y
      | None => Some x
      end
  end.

Fixpoint max_by_key {A} (key : A → Z) (l : list A) : option A :=
  match l with
  | [] => None
  | x :: l' =>
      match max_by_key key l' with
      | Some y => if (key x <=? key y)%Z then Some y else Some x
      | None => Some x
      end
  end.

Section ByKey.
Context {A : Type} (key : A → Z).

Lemma min_by_key_None l : min_by_key key l = None ↔ l = [].
Proof. destruct l as [|x l]; simpl; [done|]. destruct (min_by_key key l); [case_match|]; done. Qed.
Lemma max_by_key_None l : max_by_key key l = None ↔ l = [].
Proof. destruct l as [|x l]; simpl; [done|]. destruct (max_by_key key l); [case_match|]; done. Qed.

Lemma max_by_key_Some l x :
  max_by_key key l = Some x → x ∈ l ∧ ∀ y, y ∈ l → (key y <= key x)%Z.
Proof.
  revert x; induction l as [|a l IH]; intros x; simpl; [done|].
  destruct (max_by_key key l) as [y|] eqn:E.
  - destruct (IH y eq_refl) as [Hy Hmax].
    destruct (key a <=? key y)%Z eqn:Hk; intros [= <-].
    + apply Z.leb_le in Hk. split; [by right|].
      intros z [->|?]%elem_of_cons; [done|by apply Hmax].
    + apply Z.leb_gt in Hk. split; [by left|].
      intros z [->|?%Hmax]%elem_of_cons; lia.
  - apply max_by_key_None in E as ->. intros [= <-]. split; [by left|].
    intros z Hz%list_elem_of_singleton. subst z. lia.
Qed.

Lemma min_by_key_Some l x :
  min_by_key key l = Some x → x ∈ l ∧ ∀ y, y ∈ l → (key x <= key y)%Z.
Proof.
  revert x; induction l as [|a l IH]; intros x; simpl; [done|].
  destruct (min_by_key key l) as [y|] eqn:E.
  - destruct (IH y eq_refl) as [Hy Hmin].
    destruct (key a <=? key y)%Z eqn:Hk; intros [= <-].
    + apply Z.leb_le in Hk. split; [by left|].
      intros z [->|?%Hmin]%elem_of_cons; lia.
    + apply Z.leb_gt in Hk. split; [by right|].
      intros z [->|?]%elem_of_cons; [lia|by apply Hmin].
  - apply min_by_key_None in E as ->. intros [= <-]. split; [by left|].
    intros z Hz%list_elem_of_singleton. subst z. lia.
Qed.

(** A pass that replaces its best element only by a smaller one ends with the
    first minimum. *)
Lemma fold_min_by_key l best :
  fold_left (λ b x, match b with
                    | Some y => if (key x <? key y)%Z then Some x else b
                    | None => Some x end) l best
  = min_by_key key (option_list best ++ l).
Proof.
  revert best; induction l as [|x l IH]; intros best; simpl.
  - by destruct best.
  - rewrite IH. destruct best as [y|]; simpl; [|done].
    destruct (key x <? key y)%Z eqn:E; simpl; [apply Z.ltb_lt in E|apply Z.ltb_ge in E];
      destruct (min_by_key key l) as [z|]; repeat case_match; reflect_bools; simplify_eq;
      solve [done|lia].
Qed.
End ByKey.

(** ** Running and inverting computations *)

Lemma M_ret_inv {S A} (a b : A) (s t : S) : (mret a : M S A) s = (Ok b, t) → b = a ∧ t = s.
Proof. by intros [= -> ->]. Qed.

Lemma lift_inv {S A} (r : result A) (s t : S) a : lift r s = (Ok a, t) → r = Ok a ∧ t = s.
Proof. by intros [= -> ->]. Qed.

Lemma ok_or_inv {A} e (o : option A) a : ok_or e o = Ok a → o = Some a.
Proof. destruct o; simpl; congruence. Qed.

Lemma catch_map_inv {S A} f (m : M S A) s a t :
  catch_map f m s = (Ok a, t) → m s = (Ok a, t).
Proof. unfold catch_map. destruct (m s) as [[?|?] ?]; simpl; congruence. Qed.

Lemma zoom_inv {S T A} (proj : S → T) upd (m : M T A) s a s' :
  zoom proj upd m s = (Ok a, s') → ∃ t, m (proj s) = (Ok a, t) ∧ s' = upd t s.
Proof. unfold zoom. destruct (m (proj s)) as [r t]. intros [= -> <-]. eauto. Qed.

Lemma M_bind_iff {S A B} (m : M S A) (f : A → M S B) s b s' :
  (m ≫= f) s = (Ok b, s') ↔ ∃ a t, m s = (Ok a, t) ∧ f a t = (Ok b, s').
Proof.
  split; [apply M_bind_inv|]. intros (a & t & Hm & Hf). by rewrite (M_bind_ok _ _ _ _ _ Hm).
Qed.

Lemma catch_map_iff {S A} f (m : M S A) s a t : catch_map f m s = (Ok a, t) ↔ m s = (Ok a, t).
Proof. unfold catch_map. destruct (m s) as [[?|?] ?]; simpl; split; congruence. Qed.

(** Take a successful run apart into its steps. *)
Ltac M_step :=
  match goal with
  | H : (_ ≫= _) _ = (Ok _, _) |- _ => apply M_bind_inv in H as (? & ? & ? & H)
  | H : (match ?p with pair _ _ => _ end) _ = (Ok _, _) |- _ => destruct p eqn:?
  | H : mret _ _ = (Ok _, _) |- _ => apply M_ret_inv in H as [? ?]
  | H : get _ = (Ok _, _) |- _ => injection H as ? ?
  | H : modify _ _ = (Ok _, _) |- _ => injection H as ? ?
  | H : bail _ _ = (Ok _, _) |- _ => discriminate H
  | H : throw _ _ = (Ok _, _) |- _ => discriminate H
  | H : lift _ _ = (Ok _, _) |- _ => apply lift_inv in H as [? ?]
  | H : ok_or _ _ = Ok _ |- _ => apply ok_or_inv in H
  | H : catch_map _ _ _ = (Ok _, _) |- _ => apply catch_map_inv in H
  | H : zoom _ _ _ _ = (Ok _, _) |- _ => apply zoom_inv in H as (? & ? & ?)
  end.
Ltac M_inv := repeat (M_step; simplify_eq/=).

(** ** Invariants of computations

    [preserves P m]: whatever [m] returns, it leaves [P] true if it was. *)
Definition preserves {S A} (P : S → Prop) (m : M S A) : Prop := ∀ s, P s → P (m s).2.

Create HintDb preserve.

Section Preserves.
Context {S : Type} (P : S → Prop).

Lemma preserves_ret {A} (a : A) : preserves P (mret a).
Proof. by intros s. Qed.
Lemma preserves_throw {A} e : preserves P (throw e : M S A).
Proof. by intros s. Qed.
Lemma preserves_bail {A} msg : preserves P (bail msg : M S A).
Proof. by intros s. Qed.
Lemma preserves_get : preserves P get.
Proof. by intros s. Qed.
Lemma preserves_lift {A} (r : result A) : preserves P (lift r).
Proof. by intros s. Qed.
Lemma preserves_modify f : (∀ s, P s → P (f s)) → preserves P (modify f).
Proof. intros Hf s. apply Hf. Qed.
Lemma preserves_bind {A B} (m : M S A) (f : A → M S B) :
  preserves P m → (∀ a, preserves P (f a)) → preserves P (m ≫= f).
Proof.
  intros Hm Hf s Hs. specialize (Hm s Hs). unfold mbind, M_bind.
  destruct (m s) as [[a|e] t]; simpl in *; [by apply Hf|done].
Qed.
Lemma preserves_catch_map {A} f (m : M S A) : preserves P m → preserves P (catch_map f m).
Proof. intros Hm s Hs. specialize (Hm s Hs). unfold catch_map. by destruct (m s). Qed.
Lemma preserves_zoom {T A} proj upd (m : M T A) :
  (∀ s t, P s → P (upd t s)) → preserves P (zoom proj upd m).
Proof. intros Hu s Hs. unfold zoom. destruct (m (proj s)). by apply Hu. Qed.
End Preserves.

#[export] Hint Resolve preserves_ret preserves_throw preserves_bail preserves_get
  preserves_lift : preserve.

(** Follow the structure of a computation down to its primitive steps. *)
Ltac preserve :=
  repeat first
    [ progress intros
    | solve [eauto 3 with preserve]
    | apply preserves_bind
    | match goal with |- preserves _ (match ?x with _ => _ end) => destruct x end
    | apply preserves_catch_map ].

(** [commutes up m]: [m] behaves the same on a state changed by [up], because
    it neither reads nor writes what [up] changes. *)
Definition commutes {S A} (up : S → S) (m : M S A) : Prop :=
  ∀ s, m (up s) = ((m s).1, up (m s).2).

Create HintDb commute.

Section Commutes.
Context {S : Type} (up : S → S).

Lemma commutes_ret {A} (a : A) : commutes up (mret a).
Proof. by intros s. Qed.
Lemma commutes_bail {A} msg : commutes up (bail msg : M S A).
Proof. by intros s. Qed.
Lemma commutes_lift {A} (r : result A) : commutes up (lift r).
Proof. by intros s. Qed.
Lemma commutes_modify f : (∀ s, f (up s) = up (f s)) → commutes up (modify f).
Proof. intros Hf s. unfold modify. simpl. by rewrite Hf. Qed.
Lemma commutes_get_bind {B} (f : S → M S B) :
  (∀ s, f (up s) = f s) → (∀ s, commutes up (f s)) → commutes up (get ≫= f).
Proof. intros Hf Hc s. unfold mbind, M_bind. simpl. rewrite Hf. apply Hc. Qed.
Lemma commutes_bind {A B} (m : M S A) (f : A → M S B) :
  commutes up m → (∀ a, commutes up (f a)) → commutes up (m ≫= f).
Proof.
  intros Hm Hf s. unfold mbind, M_bind. rewrite Hm.
  destruct (m s) as [[a|e] t]; simpl; [apply Hf|done].
Qed.
End Commutes.

#[export] Hint Resolve commutes_ret commutes_bail commutes_lift commutes_modify : commute.

Ltac commute :=
  repeat first
    [ progress intros
    | solve [eauto 3 with commute]
    | apply commutes_get_bind; [done|]
    | apply commutes_bind
    | match goal with |- commutes _ (match ?x with _ => _ end) => destruct x end ].
