(* ===== verification/Simulation.v ===== *)
(** * Simulation: computations that agree on related states

    A relational logic for [M]: one rule for each construct, and a tactic that
    goes through a computation with them and leaves its basic operations. *)
From S2P Require Import Prelude.

(** Two computations that give the same results, and related states from related
    states. *)
Definition related {S T A} (rel : S → T → Prop) (x : result A * S) (y : result A * T) : Prop :=
  x.1 = y.1 ∧ rel x.2 y.2.

Definition simulates {S T A} (rel : S → T → Prop) (m : M S A) (n : M T A) : Prop :=
  ∀ s t, rel s t → related rel (m s) (n t).

Section Simulation.
Context {S T : Type} (rel : S → T → Prop).

Lemma simulates_ret {A} (a : A) : simulates rel (mret a) (mret a).
Proof. by intros s t H. Qed.

Lemma simulates_throw {A} e : simulates (A := A) rel (throw e) (throw e).
Proof. by intros s t H. Qed.

Lemma simulates_lift {A} (r : result A) : simulates rel (lift r) (lift r).
Proof. by intros s t H. Qed.

Lemma simulates_modify f g : (∀ s t, rel s t → rel (f s) (g t)) → simulates rel (modify f) (modify g).
Proof. intros Hf s t H. split; [done|]. by apply Hf. Qed.

Lemma related_bind {A B} (m : M S A) (n : M T A) (f : A → M S B) (g : A → M T B) s t :
  related rel (m s) (n t) → (∀ a, simulates rel (f a) (g a)) → related rel ((m ≫= f) s) ((n ≫= g) t).
Proof.
  intros [Hr Hs] Hf. unfold mbind, M_bind.
  destruct (m s) as [[a|e] s'], (n t) as [[b|e'] t']; simplify_eq/=; [by apply Hf|done].
Qed.

Lemma simulates_bind {A B} (m : M S A) (n : M T A) (f : A → M S B) (g : A → M T B) :
  simulates rel m n → (∀ a, simulates rel (f a) (g a)) → simulates rel (m ≫= f) (n ≫= g).
Proof. intros Hm Hf s t H. apply related_bind; auto. Qed.

Lemma simulates_if {A} (b : bool) (m m' : M S A) (n n' : M T A) :
  (b = true → simulates rel m n) → (b = false → simulates rel m' n') →
  simulates rel (if b then m else m') (if b then n else n').
Proof. destruct b; auto. Qed.
End Simulation.

Lemma simulates_zoom {S T S' T' A} (rel : S → T → Prop) (rel' : S' → T' → Prop) proj upd proj' upd'
    (m : M S' A) (n : M T' A) :
  simulates rel' m n → (∀ s t, rel s t → rel' (proj s) (proj' t)) →
  (∀ s t s' t', rel s t → rel' s' t' → rel (upd s' s) (upd' t' t)) →
  simulates rel (zoom proj upd m) (zoom proj' upd' n).
Proof.
  intros Hm Hp Hu s t H. destruct (Hm _ _ (Hp s t H)) as [Hr Hs]. unfold zoom.
  destruct (m (proj s)) as [r s'], (n (proj' t)) as [r' t']; simplify_eq/=. split; [done|]. by apply Hu.
Qed.

Create HintDb sim.
#[export] Hint Resolve simulates_ret simulates_throw simulates_lift : sim.

(** The structure of a computation; what is left are its basic operations. *)
Ltac simulate :=
  repeat match goal with
  | |- simulates _ (get ≫= _) (get ≫= _) => fail 1
  | |- simulates _ (_ ≫= _) (_ ≫= _) => apply simulates_bind; [|intros ?]
  | |- simulates _ (if ?b then _ else _) (if ?b then _ else _) => apply simulates_if; intros ?
  | |- simulates _ (bail _) (bail _) => apply simulates_throw
  | |- _ => solve [eauto with sim]
  end.
