(* ===== verification/Bytes.v ===== *)
(** * Bytes: the machine-width integers and byte strings of the source

    [u8] is [Byte.byte]; wider unsigned integers are [Z] with their wrap-around
    written out ([u16], [u64] bounds below). A Rust [&str] is its UTF-8 bytes. *)
From S2P Require Import Prelude.
Local Open Scope Z_scope.

(** Conversions between integers and their bytes. *)
Create Rewrite HintDb bytes.

Abbreviation byte := Byte.byte.
Abbreviation bytes := (list Byte.byte).

#[export] Instance byte_eq_dec : EqDecision byte := Byte.byte_eq_dec.

#[export] Instance byte_countable : Countable byte :=
  inj_countable Byte.to_N Byte.of_N Byte.of_to_N.

(** ** [u8] *)

(** [u64::from(b)] *)
Definition b2z (b : byte) : Z := Z.of_N (Byte.to_N b).
(** [z as u8] *)
Definition z2b (z : Z) : byte :=
  match Byte.of_N (Z.to_N (z mod 256)) with Some b => b | None => x00 end.

Definition byteb (a b : byte) : bool := b2z a =? b2z b.

Lemma b2z_range b : 0 <= b2z b < 256.
Proof. unfold b2z. pose proof (Byte.to_N_bounded b). lia. Qed.

Lemma z2b_b2z b : z2b (b2z b) = b.
Proof. by destruct b. Qed.

Lemma b2z_z2b z : b2z (z2b z) = z mod 256.
Proof.
  unfold z2b, b2z. pose proof (Z.mod_pos_bound z 256).
  destruct (Byte.of_N _) as [b|] eqn:E.
  - apply Byte.to_of_N in E. rewrite E. lia.
  - apply Byte.of_N_None_iff in E. lia.
Qed.

#[export] Instance b2z_inj : Inj (=) (=) b2z.
Proof. intros a b H. by rewrite <-(z2b_b2z a), H, z2b_b2z. Qed.

Lemma b2z_z2b_small z : 0 <= z < 256 → b2z (z2b z) = z.
Proof. intros. rewrite b2z_z2b. by apply Z.mod_small. Qed.

Lemma byteb_eq a b : byteb a b = true ↔ a = b.
Proof. unfold byteb. rewrite Z.eqb_eq. split; [apply (inj b2z)|congruence]. Qed.

Lemma byteb_refl a : byteb a a = true.
Proof. by apply byteb_eq. Qed.

(** ** [u16] in network order *)

Definition U16_MAX : Z := 65535.
Definition U64_MAX : Z := 2 ^ 64 - 1.

Definition u16 (z : Z) : Prop := 0 <= z <= U16_MAX.
Definition u64 (z : Z) : Prop := 0 <= z <= U64_MAX.

(** [(z as u16).to_be_bytes()] *)
Definition be16 (z : Z) : bytes := [z2b (z / 256); z2b z].
(** [u16::from_be_bytes([hi, lo])] *)
Definition from_be16 (hi lo : byte) : Z := 256 * b2z hi + b2z lo.

Lemma from_be16_range hi lo : u16 (from_be16 hi lo).
Proof.
  unfold from_be16, u16, U16_MAX. pose proof (b2z_range hi). pose proof (b2z_range lo). lia.
Qed.

Lemma from_be16_be16 z : u16 z → from_be16 (z2b (z / 256)) (z2b z) = z.
Proof.
  unfold u16, U16_MAX, from_be16. intros Hz. rewrite !b2z_z2b.
  rewrite (Z.mod_small (z / 256)); [|split; [apply Z.div_pos; lia|apply Z.div_lt_upper_bound; lia]].
  pose proof (Z.div_mod z 256). lia.
Qed.

Lemma from_be16_hi hi lo : z2b (from_be16 hi lo / 256) = hi.
Proof.
  unfold from_be16. pose proof (b2z_range lo).
  by rewrite Z.add_comm, Z.mul_comm, Z.div_add, Z.div_small, Z.add_0_l, z2b_b2z by lia.
Qed.

Lemma from_be16_lo hi lo : z2b (from_be16 hi lo) = lo.
Proof.
  apply (inj b2z). rewrite b2z_z2b. unfold from_be16. pose proof (b2z_range lo).
  rewrite Z.add_comm, Z.mul_comm, Z.mod_add by lia. by apply Z.mod_small.
Qed.

Lemma be16_from_be16 hi lo : be16 (from_be16 hi lo) = [hi; lo].
Proof. unfold be16. by rewrite from_be16_hi, from_be16_lo. Qed.

#[export] Hint Rewrite from_be16_hi from_be16_lo be16_from_be16 z2b_b2z : bytes.

(** The frames the code builds write a big-endian pair byte by byte. *)
Lemma be16_app z (l : bytes) : be16 z ++ l = z2b (z / 256) :: z2b z :: l.
Proof. done. Qed.

Lemma be16_inj a b : u16 a → u16 b → be16 a = be16 b → a = b.
Proof.
  unfold be16. intros Ha Hb H. injection H as H1 H2.
  by rewrite <-(from_be16_be16 a), <-(from_be16_be16 b), H1, H2.
Qed.

#[global] Arguments b2z : simpl never.
#[global] Arguments z2b : simpl never.
#[global] Arguments from_be16 : simpl never.

(** ** Little-endian counters *)

Fixpoint le_val (l : bytes) : Z :=
  match l with [] => 0 | b :: l' => b2z b + 256 * le_val l' end.

Lemma le_val_range l : 0 <= le_val l < 256 ^ Z.of_nat (length l).
Proof.
  induction l as [|b l IH]; cbn [le_val length]; [done|].
  pose proof (b2z_range b). rewrite Nat2Z.inj_succ, Z.pow_succ_r by lia. lia.
Qed.

Lemma le_val_inj l k : length l = length k → le_val l = le_val k → l = k.
Proof.
  revert k; induction l as [|a l IH]; intros [|b k] Hl H; simplify_eq/=; [done|].
  pose proof (b2z_range a). pose proof (b2z_range b).
  assert (b2z a = b2z b ∧ le_val l = le_val k) as [Hab Hlk] by lia.
  f_equal; [by apply (inj b2z)|].
  apply IH; [lia|done].
Qed.

(** ** Text *)

(** The UTF-8 bytes of an ASCII literal. *)
Definition lit (s : string) : bytes := String.list_byte_of_string s.

Definition is_digit (b : byte) : bool := (48 <=? b2z b) && (b2z b <=? 57).
Definition is_upper (b : byte) : bool := (65 <=? b2z b) && (b2z b <=? 90).
Definition is_lower (b : byte) : bool := (97 <=? b2z b) && (b2z b <=? 122).
(** [u8::is_ascii_alphabetic] *)
Definition is_alpha (b : byte) : bool := is_upper b || is_lower b.
(** [u8::is_ascii_alphanumeric] *)
Definition is_alnum (b : byte) : bool := is_alpha b || is_digit b.
(** [u8::is_ascii_hexdigit] *)
Definition is_hexdigit (b : byte) : bool :=
  is_digit b || ((65 <=? b2z b) && (b2z b <=? 70)) || ((97 <=? b2z b) && (b2z b <=? 102)).

(** [u8::to_ascii_lowercase] *)
Definition lower_byte (b : byte) : byte := if is_upper b then z2b (b2z b + 32) else b.
Definition lower (l : bytes) : bytes := lower_byte <$> l.

Definition bytes_eqb (a b : bytes) : bool := bool_decide (a = b).
(** [str::eq_ignore_ascii_case] *)
Definition eq_ignore_case (a b : bytes) : bool := bytes_eqb (lower a) (lower b).

Lemma lower_byte_idemp b : lower_byte (lower_byte b) = lower_byte b.
Proof. by destruct b. Qed.

Lemma lower_idemp l : lower (lower l) = lower l.
Proof. unfold lower. induction l; csimpl; f_equal; [apply lower_byte_idemp|done]. Qed.

Lemma length_lower l : length (lower l) = length l.
Proof. apply length_fmap. Qed.

(** [<[u8]>::starts_with] *)
Fixpoint starts_with (prefix l : bytes) : bool :=
  match prefix, l with
  | [], _ => true
  | p :: ps, b :: bs => byteb p b && starts_with ps bs
  | _ :: _, [] => false
  end.

Lemma starts_with_spec p l : starts_with p l = true ↔ p `prefix_of` l.
Proof.
  revert l; induction p as [|a p IH]; intros [|b l]; simpl.
  - split; [intros; apply prefix_nil|done].
  - split; [intros; apply prefix_nil|done].
  - split; [done|]. intros [k Hk]; done.
  - rewrite andb_true_iff, byteb_eq, IH. split.
    + intros [-> ?]. by apply prefix_cons.
    + intros Hp. split; [by eapply prefix_cons_inv_1|by eapply prefix_cons_inv_2].
Qed.

(** [<[u8]>::split(|b| b == sep)]: always at least one piece. *)
Fixpoint split_on (sep : byte) (l : bytes) : list bytes :=
  match l with
  | [] => [[]]
  | b :: l' =>
      if byteb b sep then [] :: split_on sep l'
      else match split_on sep l' with
           | p :: ps => (b :: p) :: ps
           | [] => [[b]]
           end
  end.

(** The pieces joined by a separator. *)
Fixpoint join (sep : bytes) (ls : list bytes) : bytes :=
  match ls with
  | [] => []
  | [l] => l
  | l :: ls' => l ++ sep ++ join sep ls'
  end.

Lemma split_on_nonempty sep l : split_on sep l ≠ [].
Proof. destruct l; simpl; repeat case_match; done. Qed.

Lemma join_split_on sep l : join [sep] (split_on sep l) = l.
Proof.
  induction l as [|b l IH]; simpl; [done|].
  destruct (byteb b sep) eqn:E.
  - apply byteb_eq in E as ->. destruct (split_on sep l) as [|p ps] eqn:Es.
    + by apply split_on_nonempty in Es.
    + simpl in *. by rewrite IH.
  - destruct (split_on sep l) as [|p ps] eqn:Es; [by apply split_on_nonempty in Es|].
    destruct ps; simpl in *; by rewrite <-IH.
Qed.

Lemma split_on_no_sep sep l : Forall (λ p, sep ∉ p) (split_on sep l).
Proof.
  induction l as [|b l IH]; simpl; [repeat constructor; set_solver|].
  destruct (byteb b sep) eqn:E; [constructor; [set_solver|done]|].
  assert (b ≠ sep) by (intros ->; by rewrite byteb_refl in E).
  destruct (split_on sep l) as [|p ps]; [repeat constructor; set_solver|].
  apply Forall_cons in IH as [? ?]. constructor; [set_solver|done].
Qed.

Lemma split_on_free sep p : sep ∉ p → split_on sep p = [p].
Proof.
  induction p as [|b p IH]; intros Hp; simpl; [done|]. apply not_elem_of_cons in Hp as [Hb Hp].
  rewrite IH by done. destruct (byteb b sep) eqn:E; [by apply byteb_eq in E|done].
Qed.

Lemma split_on_app sep p r : sep ∉ p → split_on sep (p ++ sep :: r) = p :: split_on sep r.
Proof.
  induction p as [|b p IH]; intros Hp; simpl; [by rewrite byteb_refl|].
  apply not_elem_of_cons in Hp as [Hb Hp]. rewrite IH by done.
  destruct (byteb b sep) eqn:E; [by apply byteb_eq in E|done].
Qed.

Lemma split_on_join sep ls :
  ls ≠ [] → Forall (λ p, sep ∉ p) ls → split_on sep (join [sep] ls) = ls.
Proof.
  intros Hne Hf. induction Hf as [|p ls Hp Hls IH]; [done|].
  destruct ls as [|q ls]; [by apply split_on_free|].
  change (join [sep] (p :: q :: ls)) with (p ++ sep :: join [sep] (q :: ls)).
  by rewrite split_on_app, IH.
Qed.

Lemma join_forall (P : byte → Prop) sep ls :
  Forall P sep → Forall (Forall P) ls → Forall P (join sep ls).
Proof.
  intros Hs. induction 1 as [|l ls Hl Hls IH]; [constructor|].
  destruct ls as [|k ls]; [done|]. cbn [join]. rewrite !Forall_app. done.
Qed.

(** [str::split_once(sep)] *)
Definition split_once (sep : byte) (l : bytes) : option (bytes * bytes) :=
  (λ i, (take i l, drop (S i) l)) <$> position (λ b, byteb b sep) l.

(** [str::strip_prefix] *)
Definition strip_prefix (p l : bytes) : option bytes :=
  if starts_with p l then Some (drop (length p) l) else None.

(** *** The position of a byte *)

Lemma position_byte_None c l : position (byteb c) l = None ↔ c ∉ l.
Proof.
  induction l as [|b l IH]; cbn [position]; [set_solver|].
  destruct (byteb c b) eqn:E.
  - apply byteb_eq in E as ->. set_solver.
  - assert (c ≠ b) by (intros ->; by rewrite byteb_refl in E).
    rewrite not_elem_of_cons, <-IH. destruct (position _ l); naive_solver.
Qed.

Lemma position_byte_app c a r : c ∉ a → position (byteb c) (a ++ c :: r) = Some (length a).
Proof.
  intros Ha. rewrite position_app. apply position_byte_None in Ha as ->.
  cbn [position]. rewrite byteb_refl. simpl. by rewrite Nat.add_0_r.
Qed.

Lemma position_byte_Some c l i :
  position (byteb c) l = Some i → ∃ a r, l = a ++ c :: r ∧ c ∉ a ∧ length a = i.
Proof.
  intros H. destruct (decide (c ∈ l)) as [Hin|Hin]; [|by apply position_byte_None in Hin as Hn; rewrite Hn in H].
  apply list_elem_of_split_l in Hin as (a & r & -> & Ha). exists a, r.
  rewrite position_byte_app in H by done. by injection H.
Qed.

(** *** Searching and cutting *)

(** The position of the first occurrence of a pattern. *)
Fixpoint find_sub (pat l : bytes) : option nat :=
  if starts_with pat l then Some 0%nat
  else match l with [] => None | _ :: l' => S <$> find_sub pat l' end.

Lemma split_once_spec sep l a b :
  split_once sep l = Some (a, b) ↔ l = a ++ sep :: b ∧ sep ∉ a.
Proof.
  unfold split_once. revert a; induction l as [|x l IH]; intros a; cbn [position].
  - split; [done|]. intros [Heq _]. by destruct a.
  - destruct (byteb x sep) eqn:E.
    + apply byteb_eq in E as ->. simpl. split.
      * intros [= <- <-]. split; [done|set_solver].
      * intros [Heq Hn]. destruct a as [|y a]; simplify_eq/=; [done|set_solver].
    + assert (x ≠ sep) by (intros ->; by rewrite byteb_refl in E).
      destruct (position (λ b, byteb b sep) l) as [i|] eqn:Ep; simpl in *.
      * split.
        -- intros [= <- <-]. destruct (proj1 (IH (take i l)) eq_refl) as [Hl Hn].
           split; [by rewrite Hl at 1|]. rewrite not_elem_of_cons. split; [congruence|done].
        -- intros [Heq Hn]. destruct a as [|y a]; simplify_eq/=.
           rewrite not_elem_of_cons in Hn. destruct Hn as [_ Hn].
           pose proof (proj2 (IH a) (conj eq_refl Hn)) as Hi. injection Hi as Hi1 Hi2.
           by rewrite Hi1, Hi2.
      * split; [done|]. intros [Heq Hn]. destruct a as [|y a]; simplify_eq/=.
        rewrite not_elem_of_cons in Hn. destruct Hn as [_ Hn].
        by pose proof (proj2 (IH a) (conj eq_refl Hn)).
Qed.

Lemma starts_with_app pat l k :
  (length pat <= length l)%nat → starts_with pat (l ++ k) = starts_with pat l.
Proof.
  revert l; induction pat as [|p pat IH]; intros [|b l] Hl; simpl in *; try done; try lia.
  rewrite IH by lia. done.
Qed.

Lemma starts_with_length pat l : starts_with pat l = true → (length pat <= length l)%nat.
Proof.
  revert l; induction pat as [|p pat IH]; intros [|b l] H; simpl in *; try done; try lia.
  apply andb_true_iff in H as [_ H]. apply IH in H. lia.
Qed.

Lemma find_sub_bound pat l i : find_sub pat l = Some i → (i + length pat <= length l)%nat.
Proof.
  revert i; induction l as [|b l IH]; intros i; cbn [find_sub].
  - destruct (starts_with pat []) eqn:E; [|done]. intros [= <-].
    apply starts_with_length in E. simpl in *. lia.
  - destruct (starts_with pat (b :: l)) eqn:E.
    + intros [= <-]. apply starts_with_length in E. lia.
    + destruct (find_sub pat l) as [j|] eqn:Ej; [|done]. intros [= <-].
      specialize (IH j eq_refl). simpl. lia.
Qed.

Lemma find_sub_app pat l k i : find_sub pat l = Some i → find_sub pat (l ++ k) = Some i.
Proof.
  revert i; induction l as [|b l IH]; intros i Hf; pose proof (find_sub_bound _ _ _ Hf) as Hb;
    cbn [find_sub] in Hf; cbn [app].
  - destruct (starts_with pat []) eqn:E; [|done]. injection Hf as <-.
    destruct pat; [by destruct k|done].
  - cbn [find_sub]. change (b :: l ++ k) with ((b :: l) ++ k).
    rewrite starts_with_app by lia. destruct (starts_with pat (b :: l)); [done|].
    destruct (find_sub pat l) as [j|]; [|done]. injection Hf as <-. by rewrite (IH j).
Qed.

(** An occurrence that lies inside the first part is found there. *)
Lemma find_sub_inside pat l k i :
  find_sub pat (l ++ k) = Some i → (i + length pat <= length l)%nat → find_sub pat l = Some i.
Proof.
  revert i; induction l as [|b l IH]; intros i Hf Hl; cbn [app] in Hf.
  - simpl in Hl. destruct pat; [|simpl in Hl; lia]. assert (i = 0)%nat as -> by lia. done.
  - cbn [find_sub] in *. destruct (starts_with pat (b :: l ++ k)) eqn:E.
    + injection Hf as <-. change (b :: l ++ k) with ((b :: l) ++ k) in E.
      rewrite starts_with_app in E by lia. by rewrite E.
    + destruct (find_sub pat (l ++ k)) as [j|]; [|done]. injection Hf as <-.
      change (b :: l ++ k) with ((b :: l) ++ k) in E.
      simpl in Hl. rewrite starts_with_app in E by (simpl; lia). rewrite E.
      by rewrite (IH j) by (simpl in *; lia || done).
Qed.

(** [str::rsplit_once] *)
Definition rsplit_once (sep : byte) (l : bytes) : option (bytes * bytes) :=
  '(r, h) ← split_once sep (reverse l); Some (reverse h, reverse r).

Lemma rsplit_once_spec sep l a b :
  rsplit_once sep l = Some (a, b) ↔ l = a ++ sep :: b ∧ sep ∉ b.
Proof.
  unfold rsplit_once. destruct (split_once sep (reverse l)) as [[r h]|] eqn:E; simpl.
  - apply split_once_spec in E as [El Hr].
    assert (Hl : l = reverse h ++ sep :: reverse r).
    { rewrite <-(reverse_involutive l), El, reverse_app, reverse_cons, <-app_assoc. done. }
    split.
    + intros [= <- <-]. split; [done|]. by rewrite elem_of_reverse.
    + intros [Heq Hb]. assert (split_once sep (reverse l) = Some (reverse b, reverse a)) as Hs.
      { apply split_once_spec. rewrite elem_of_reverse. split; [|done].
        by rewrite Heq, reverse_app, reverse_cons, <-app_assoc. }
      rewrite El in Hs. rewrite (proj2 (split_once_spec sep _ r h)) in Hs by done.
      injection Hs as -> ->. by rewrite !reverse_involutive.
  - split; [done|]. intros [Heq Hb].
    assert (split_once sep (reverse l) = Some (reverse b, reverse a)) as Hs; [|congruence].
    apply split_once_spec. rewrite elem_of_reverse. split; [|done].
    by rewrite Heq, reverse_app, reverse_cons, <-app_assoc.
Qed.

(** [str::contains] *)
Definition contains_sub (pat l : bytes) : bool :=
  match find_sub pat l with Some _ => true | None => false end.
