(* ===== verification/Order.v ===== *)
(** * Order: the order of strings and byte strings

    [Ord] of [str] and [[u8]], which sorting uses: a decidable total order, so
    that sorting a list depends on its elements only. *)
From stdpp Require Import sorting.
From S2P Require Import Prelude Bytes.
Local Open Scope Z_scope.

Fixpoint bytes_leb (a b : bytes) : bool :=
  match a, b with
  | [], _ => true
  | _ :: _, [] => false
  | x :: a', y :: b' =>
      if b2z x <? b2z y then true else if b2z y <? b2z x then false else bytes_leb a' b'
  end.

Definition bytes_le (a b : bytes) : Prop := bytes_leb a b = true.

#[export] Instance bytes_le_dec : RelDecision bytes_le.
Proof. intros a b. unfold bytes_le. apply _. Defined.

(** The comparison of two nonempty strings. *)
Lemma bytes_leb_cons x y a b :
  bytes_leb (x :: a) (y :: b) = true ↔ b2z x < b2z y ∨ (x = y ∧ bytes_leb a b = true).
Proof.
  simpl. destruct (b2z x <? b2z y) eqn:E1; [|destruct (b2z y <? b2z x) eqn:E2]; reflect_bools.
  - split; [by left|done].
  - split; [done|]. intros [?|[-> _]]; lia.
  - assert (x = y) as -> by (apply (inj b2z); lia). split; [by right|]. by intros [?|[_ ?]]; [lia|].
Qed.

#[export] Instance bytes_le_total : Total bytes_le.
Proof.
  intros a. induction a as [|x a IH]; intros b; [by left|]. destruct b as [|y b]; [by right|].
  unfold bytes_le. rewrite !bytes_leb_cons.
  destruct (Z.lt_trichotomy (b2z x) (b2z y)) as [|[Hxy|]]; [by left; left| |by right; left].
  apply (inj b2z) in Hxy as ->. destruct (IH b); [left|right]; by right.
Qed.

#[export] Instance bytes_le_trans : Transitive bytes_le.
Proof.
  intros a. unfold bytes_le. induction a as [|x a IH]; intros [|y b] [|z c]; try done.
  rewrite !bytes_leb_cons. intros [?|[-> ?]] [?|[-> ?]]; [left; lia..|by left|]. right. eauto.
Qed.

#[export] Instance bytes_le_antisymm : AntiSymm (=) bytes_le.
Proof.
  intros a. unfold bytes_le. induction a as [|x a IH]; intros [|y b]; try done.
  rewrite !bytes_leb_cons. intros [?|[-> ?]] [?|[Hy ?]]; [lia|subst; lia|lia|]. f_equal. auto.
Qed.

Definition sort_bytes (l : list bytes) : list bytes := merge_sort bytes_le l.

Lemma sort_bytes_Permutation l : sort_bytes l ≡ₚ l.
Proof. apply merge_sort_Permutation. Qed.

Lemma sort_bytes_unique l k : l ≡ₚ k → sort_bytes l = sort_bytes k.
Proof.
  intros Hp. apply (StronglySorted_unique bytes_le); [apply StronglySorted_merge_sort; apply _..|].
  by rewrite !sort_bytes_Permutation.
Qed.
