(* ===== verification/Text.v ===== *)
(** * Text: the parts of Rust's [str] and number formatting the source uses

    Decimal printing and [str::parse] of unsigned integers, UTF-8 decoding
    ([String::from_utf8], [String::from_utf8_lossy], [str::chars]), and the
    trimming and splitting functions that work on characters. *)
From S2P Require Import Prelude Bytes.
Local Open Scope Z_scope.

(** ** Decimal numbers *)

Definition digit (z : Z) : byte := z2b (48 + z).
Definition digit_val (b : byte) : Z := b2z b - 48.

Lemma digit_range z : 0 <= z < 10 → is_digit (digit z) = true.
Proof.
  intros. unfold is_digit, digit. rewrite b2z_z2b_small by lia.
  apply andb_true_iff; split; apply Z.leb_le; lia.
Qed.

Lemma digit_val_digit z : 0 <= z < 10 → digit_val (digit z) = z.
Proof. intros. unfold digit_val, digit. rewrite b2z_z2b_small; lia. Qed.

Lemma is_digit_val b : is_digit b = true → 0 <= digit_val b < 10.
Proof. unfold is_digit, digit_val. intros ?. reflect_bools. lia. Qed.

(** Decimal digits of a non-negative number; [fuel] bounds their count. *)
Fixpoint dec_fuel (fuel : nat) (z : Z) : bytes :=
  match fuel with
  | O => []
  | S n => if z <? 10 then [digit z] else dec_fuel n (z / 10) ++ [digit (z mod 10)]
  end.
(** [u64::to_string]: twenty digits are enough for every [u64]. *)
Definition dec (z : Z) : bytes := dec_fuel 20 z.

Definition digits_val (l : bytes) : Z :=
  fold_left (λ n b, n * 10 + digit_val b) l 0.

Lemma digits_val_snoc l b : digits_val (l ++ [b]) = digits_val l * 10 + digit_val b.
Proof. unfold digits_val. by rewrite fold_left_app. Qed.

Lemma dec_fuel_spec n z :
  0 <= z < 10 ^ Z.of_nat n →
  digits_val (dec_fuel n z) = z ∧ Forall (λ b, is_digit b = true) (dec_fuel n z)
  ∧ (n ≠ 0%nat → dec_fuel n z ≠ []).
Proof.
  revert z; induction n as [|n IH]; intros z Hz; cbn [dec_fuel].
  - simpl in Hz. split_and!; [unfold digits_val; simpl; lia|done|done].
  - rewrite Nat2Z.inj_succ, Z.pow_succ_r in Hz by lia.
    destruct (z <? 10) eqn:E; reflect_bools.
    + split_and!; [|constructor; [apply digit_range; lia|done]|done].
      unfold digits_val; simpl. rewrite digit_val_digit; lia.
    + pose proof (Z.mod_pos_bound z 10). pose proof (Z.div_mod z 10).
      destruct (IH (z / 10)) as (Hv & Hd & _).
      { split; [apply Z.div_pos; lia|apply Z.div_lt_upper_bound; lia]. }
      split_and!.
      * rewrite digits_val_snoc, Hv, digit_val_digit by lia. lia.
      * apply Forall_app; split; [done|]. constructor; [apply digit_range; lia|done].
      * intros _ Hnil. by destruct (dec_fuel n (z / 10)).
Qed.

Lemma u64_pow z : u64 z → 0 <= z < 10 ^ Z.of_nat 20.
Proof. unfold u64, U64_MAX. change (10 ^ Z.of_nat 20) with 100000000000000000000. lia. Qed.

Lemma dec_digits z : u64 z → Forall (λ b, is_digit b = true) (dec z).
Proof. intros ?%u64_pow. by apply dec_fuel_spec. Qed.

Lemma dec_nonempty z : u64 z → dec z ≠ [].
Proof. intros ?%u64_pow. by apply dec_fuel_spec. Qed.

Lemma digits_val_dec z : u64 z → digits_val (dec z) = z.
Proof. intros ?%u64_pow. by apply dec_fuel_spec. Qed.

Lemma length_dec_fuel n z : (length (dec_fuel n z) <= n)%nat.
Proof.
  revert z; induction n as [|n IH]; intros z; cbn [dec_fuel]; [done|].
  case_match; [simpl; lia|]. rewrite length_app. specialize (IH (z / 10)). simpl. lia.
Qed.

Lemma length_dec z : (length (dec z) <= 20)%nat.
Proof. apply length_dec_fuel. Qed.

(** [str::parse::<uN>()] for the unsigned type with the given maximum: an
    optional [+], then at least one digit, and no overflow. *)
Definition parse_uint (max : Z) (s : bytes) : option Z :=
  let d := match s with b :: r => if byteb b "+" then r else s | [] => s end in
  if bool_decide (d = []) then None
  else if forallb is_digit d then
    if digits_val d <=? max then Some (digits_val d) else None
  else None.

Lemma parse_uint_dec max z : u64 z → z <= max → parse_uint max (dec z) = Some z.
Proof.
  intros Hz Hm. unfold parse_uint.
  pose proof (dec_digits z Hz) as Hd. pose proof (dec_nonempty z Hz) as Hne.
  pose proof (digits_val_dec z Hz) as Hv.
  destruct (dec z) as [|b r] eqn:E; [done|].
  assert (byteb b "+" = false) as ->.
  { apply Forall_cons in Hd as [Hb _]. apply not_true_is_false. intros ->%byteb_eq. done. }
  rewrite bool_decide_eq_false_2 by done.
  replace (forallb is_digit (b :: r)) with true.
  - rewrite Hv. by apply Z.leb_le in Hm as ->.
  - symmetry. apply forallb_forall. intros x Hx.
    rewrite <-list_elem_of_In in Hx. by eapply Forall_forall in Hd.
Qed.

Lemma digits_val_nonneg l : Forall (λ b, is_digit b = true) l → 0 <= digits_val l.
Proof.
  induction l as [|b l IH] using rev_ind; [done|]. intros [Hl Hb]%Forall_app.
  rewrite digits_val_snoc. apply Forall_singleton, is_digit_val in Hb. specialize (IH Hl). lia.
Qed.

Lemma parse_uint_range max s z : parse_uint max s = Some z → 0 <= z <= max.
Proof.
  unfold parse_uint. set (d := match s with [] => _ | _ => _ end). clearbody d.
  case_bool_decide; [done|]. destruct (forallb is_digit d) eqn:Hd; [|done].
  destruct (digits_val d <=? max) eqn:Hm; [|done]. intros [= <-]. reflect_bools. split; [|done].
  apply digits_val_nonneg, Forall_forall. intros x Hx%list_elem_of_In. by rewrite forallb_forall in Hd; apply Hd.
Qed.

(** ** Hexadecimal digits *)

Definition hex_val (b : byte) : option Z :=
  if is_digit b then Some (b2z b - 48)
  else if (65 <=? b2z b) && (b2z b <=? 70) then Some (b2z b - 55)
  else if (97 <=? b2z b) && (b2z b <=? 102) then Some (b2z b - 87)
  else None.
Definition hex_digit (z : Z) : byte := if z <? 10 then digit z else z2b (87 + z).

Definition hex_fold (l : bytes) : Z :=
  fold_left (λ n b, n * 16 + default 0 (hex_val b)) l 0.

(** [{:x}] of a 16-bit number *)
Definition hex16 (z : Z) : bytes :=
  let ds := [hex_digit (z / 4096 mod 16); hex_digit (z / 256 mod 16);
             hex_digit (z / 16 mod 16); hex_digit (z mod 16)] in
  if z <? 16 then drop 3 ds else if z <? 256 then drop 2 ds
  else if z <? 4096 then drop 1 ds else ds.

(** [uN::from_str_radix(_, 16)] for the unsigned type with the given maximum *)
Definition parse_hex (max : Z) (s : bytes) : option Z :=
  let d := match s with b :: r => if byteb b "+" then r else s | [] => s end in
  if bool_decide (d = []) then None
  else if forallb is_hexdigit d then
    if hex_fold d <=? max then Some (hex_fold d) else None
  else None.

(** ** Lines

    [str::lines]: a line ends with LF or CR LF, the last one may end with the
    text; a bare CR at the end of the text stays. *)
Definition strip_suffix_byte (b : byte) (l : bytes) : bytes :=
  match reverse l with c :: r => if byteb b c then reverse r else l | [] => l end.
Fixpoint lines_of (pieces : list bytes) : list bytes :=
  match pieces with
  | [] => []
  | [last] => if bool_decide (last = []) then [] else [last]
  | piece :: rest => strip_suffix_byte x0d piece :: lines_of rest
  end.
Definition lines (l : bytes) : list bytes := lines_of (split_on x0a l).

(** ** UTF-8 *)

Definition is_cont (b : byte) : bool := (128 <=? b2z b) && (b2z b <? 192).
Definition in_range (lo hi : Z) (b : byte) : bool := (lo <=? b2z b) && (b2z b <=? hi).

(** One decoding step at the front of a byte string: a character and the number
    of bytes it takes, or the length of the ill-formed prefix that
    [from_utf8_lossy] replaces by one U+FFFD. *)
Inductive decoded : Type := Char (c : Z) (n : nat) | Invalid (n : nat).

Definition decode_step (l : bytes) : option decoded :=
  match l with
  | [] => None
  | b0 :: r =>
      let v0 := b2z b0 in
      if v0 <? 128 then Some (Char v0 1)
      else if in_range 194 223 b0 then
        match r with
        | b1 :: _ => if is_cont b1 then Some (Char ((v0 - 192) * 64 + (b2z b1 - 128)) 2)
                     else Some (Invalid 1)
        | [] => Some (Invalid 1)
        end
      else if in_range 224 239 b0 then
        let lo := if v0 =? 224 then 160 else 128 in
        let hi := if v0 =? 237 then 159 else 191 in
        match r with
        | b1 :: r1 =>
            if in_range lo hi b1 then
              match r1 with
              | b2 :: _ =>
                  if is_cont b2 then
                    Some (Char ((v0 - 224) * 4096 + (b2z b1 - 128) * 64 + (b2z b2 - 128)) 3)
                  else Some (Invalid 2)
              | [] => Some (Invalid 2)
              end
            else Some (Invalid 1)
        | [] => Some (Invalid 1)
        end
      else if in_range 240 244 b0 then
        let lo := if v0 =? 240 then 144 else 128 in
        let hi := if v0 =? 244 then 143 else 191 in
        match r with
        | b1 :: r1 =>
            if in_range lo hi b1 then
              match r1 with
              | b2 :: r2 =>
                  if is_cont b2 then
                    match r2 with
                    | b3 :: _ =>
                        if is_cont b3 then
                          Some (Char ((v0 - 240) * 262144 + (b2z b1 - 128) * 4096
                                      + (b2z b2 - 128) * 64 + (b2z b3 - 128)) 4)
                        else Some (Invalid 3)
                    | [] => Some (Invalid 3)
                    end
                  else Some (Invalid 2)
              | [] => Some (Invalid 2)
              end
            else Some (Invalid 1)
        | [] => Some (Invalid 1)
        end
      else Some (Invalid 1)
  end.

(** U+FFFD *)
Definition replacement : bytes := [xef; xbf; xbd].

Fixpoint decode_fuel (fuel : nat) (l : bytes) : list (result Z * bytes) :=
  match fuel, decode_step l with
  | S n, Some (Char c k) => (Ok c, take k l) :: decode_fuel n (drop k l)
  | S n, Some (Invalid k) => (Err (Bail "invalid utf-8"), take k l) :: decode_fuel n (drop k l)
  | _, _ => []
  end.
(** The characters and ill-formed pieces of a byte string, left to right; every
    step consumes at least one byte, so the length is enough fuel. *)
Definition decode_utf8 (l : bytes) : list (result Z * bytes) := decode_fuel (length l) l.

(** [String::from_utf8] *)
Definition from_utf8 (l : bytes) : option bytes :=
  if forallb (is_ok ∘ fst) (decode_utf8 l) then Some l else None.
(** [String::from_utf8_lossy] *)
Definition from_utf8_lossy (l : bytes) : bytes :=
  concat ((λ p : result Z * bytes, if is_ok p.1 then p.2 else replacement) <$> decode_utf8 l).
(** [str::chars], each with its encoding *)
Definition chars (l : bytes) : list (Z * bytes) :=
  omap (λ p : result Z * bytes, match p.1 with Ok c => Some (c, p.2) | Err _ => None end)
    (decode_utf8 l).

(** ASCII text is its own UTF-8 decoding. *)
Definition ascii (l : bytes) : Prop := Forall (λ b, b2z b < 128) l.

Lemma decode_fuel_ascii n l :
  ascii l → (length l <= n)%nat → decode_fuel n l = (λ b, (Ok (b2z b), [b])) <$> l.
Proof.
  revert n; induction l as [|b l IH]; intros [|n] Ha Hn; simpl in *; try done; try lia.
  apply Forall_cons in Ha as [Hb Ha]. apply Z.ltb_lt in Hb as ->.
  f_equal. apply IH; [done|lia].
Qed.

Lemma decode_utf8_ascii l : ascii l → decode_utf8 l = (λ b, (Ok (b2z b), [b])) <$> l.
Proof. intros. by apply decode_fuel_ascii. Qed.

Lemma from_utf8_lossy_ascii l : ascii l → from_utf8_lossy l = l.
Proof.
  intros H. unfold from_utf8_lossy. rewrite decode_utf8_ascii by done.
  rewrite <-list_fmap_compose. induction l as [|b l IH]; csimpl; [done|].
  f_equal. apply IH. by apply Forall_cons in H as [_ ?].
Qed.

Lemma from_utf8_ascii l : ascii l → from_utf8 l = Some l.
Proof.
  intros H. unfold from_utf8. rewrite decode_utf8_ascii by done.
  replace (forallb _ _) with true; [done|]. symmetry. apply forallb_forall.
  intros x [b [-> _]]%list_elem_of_In%list_elem_of_fmap. done.
Qed.

(** A step takes one ASCII byte, or only bytes that are not ASCII. *)
Lemma decode_step_bytes l d :
  decode_step l = Some d →
  let k := match d with Char _ k | Invalid k => k end in
  (∃ b r, l = b :: r ∧ b2z b < 128 ∧ d = Char (b2z b) 1) ∨
  (1 <= k)%nat ∧ Forall (λ b, 128 <= b2z b) (take k l).
Proof.
  unfold decode_step, is_cont, in_range. destruct l as [|b0 r]; [done|].
  destruct (b2z b0 <? 128) eqn:E0.
  { intros [= <-]. reflect_bools. left. eauto. }
  reflect_bools. intros H. right.
  repeat match type of H with
  | context [match ?x with _ => _ end] =>
      lazymatch x with context [match _ with _ => _ end] => fail | _ => destruct x eqn:? end; try done
  end; injection H as <-; reflect_bools; simpl; (split; [lia|]); repeat constructor; simpl; try lia;
    repeat match goal with
    | Hx : (if ?b then 160 else 128) <= _ |- _ => destruct b; [lia|]
    | Hx : (if ?b then 144 else 128) <= _ |- _ => destruct b; [lia|]
    end; try lia.
Qed.

(** Every ASCII byte of a text is one of its characters, however ill-formed the
    rest is. *)
Lemma chars_ascii_elem l b : b ∈ l → b2z b < 128 → (b2z b, [b]) ∈ chars l.
Proof.
  intros Hb Hlt. unfold chars, decode_utf8. apply list_elem_of_omap. exists (Ok (b2z b), [b]). split; [|done].
  remember (length l) as n eqn:Hn. assert (Hle : (length l <= n)%nat) by lia. clear Hn.
  revert l Hb Hle; induction n as [|n IH]; intros l Hb Hle.
  { destruct l; [by apply not_elem_of_nil in Hb|simpl in Hle; lia]. }
  cbn [decode_fuel]. destruct (decode_step l) as [d|] eqn:E.
  2: { exfalso. destruct l as [|c r]; [by apply not_elem_of_nil in Hb|]. clear -E. unfold decode_step in E.
       repeat case_match; done. }
  apply decode_step_bytes in E as [(c & r & -> & Hc & ->)|[Hk Hhigh]].
  - simpl. rewrite drop_0. apply elem_of_cons in Hb as [->|Hb]; [left|right]. apply IH; [done|simpl in Hle; lia].
  - assert (Hrest : ∀ k, (1 <= k)%nat → Forall (λ b, 128 <= b2z b) (take k l) → (Ok (b2z b), [b]) ∈ decode_fuel n (drop k l)).
    { intros k Hk' Hf. apply IH; [|rewrite length_drop; lia].
      rewrite <-(take_drop k l) in Hb. apply elem_of_app in Hb as [Hb|Hb]; [|done].
      rewrite Forall_forall in Hf. specialize (Hf b Hb). simpl in Hf. lia. }
    destruct d as [c k|k]; right; by apply Hrest.
Qed.

(** ** Character classes and the functions built on them *)

(** [char::is_control]: general category Cc *)
Definition is_control (c : Z) : bool := (c <? 32) || ((127 <=? c) && (c <? 160)).
(** [char::is_whitespace]: the White_Space property *)
Definition is_whitespace (c : Z) : bool :=
  ((9 <=? c) && (c <=? 13)) || (c =? 32) || (c =? 133) || (c =? 160) || (c =? 5760)
  || ((8192 <=? c) && (c <=? 8202)) || (c =? 8232) || (c =? 8233) || (c =? 8239)
  || (c =? 8287) || (c =? 12288).

Definition unchars (l : list (Z * bytes)) : bytes := concat (snd <$> l).

Fixpoint drop_while {A} (p : A → bool) (l : list A) : list A :=
  match l with [] => [] | x :: l' => if p x then drop_while p l' else l end.
Definition trim_list {A} (p : A → bool) (l : list A) : list A :=
  reverse (drop_while p (reverse (drop_while p l))).

(** [str::trim] *)
Definition trim (l : bytes) : bytes := unchars (trim_list (is_whitespace ∘ fst) (chars l)).
(** [str::trim_matches([' ', '\t'])]: both are ASCII, so bytes suffice *)
Definition is_blank (b : byte) : bool := byteb b x20 || byteb b x09.
Definition trim_blanks (l : bytes) : bytes := trim_list is_blank l.
(** [<[u8]>::trim_ascii] *)
Definition is_ascii_ws (b : byte) : bool :=
  byteb b x20 || byteb b x09 || byteb b x0a || byteb b x0c || byteb b x0d.
Definition trim_ascii (l : bytes) : bytes := trim_list is_ascii_ws l.
(** [str::trim_end_matches] *)
Definition trim_end_matches (p : byte → bool) (l : bytes) : bytes :=
  reverse (drop_while p (reverse l)).

Fixpoint split_by {A} (p : A → bool) (l : list A) : list (list A) :=
  match l with
  | [] => [[]]
  | x :: l' =>
      if p x then [] :: split_by p l'
      else match split_by p l' with q :: qs => (x :: q) :: qs | [] => [[x]] end
  end.
(** [str::split_whitespace] *)
Definition split_whitespace (l : bytes) : list bytes :=
  filter (λ w, w ≠ []) (unchars <$> split_by (is_whitespace ∘ fst) (chars l)).
