(* ===== verification/Utf8.v ===== *)
(** * Utf8: well-formed UTF-8 text and its characters

    Text the code holds in a [str] is well formed. Such a text falls apart into
    its characters, at every ASCII byte, and characters put together decode to
    themselves; so the functions on characters ([trim], [split_once]) commute
    with cutting at ASCII bytes. *)
From S2P Require Import Prelude Bytes Text.
Local Open Scope Z_scope.

(** ** Decoding *)

(** A character is decoded from its own bytes, whatever follows. *)
Lemma decode_step_own l c n :
  decode_step l = Some (Char c n) → (1 <= n <= length l)%nat ∧ ∀ r, decode_step (take n l ++ r) = Some (Char c n).
Proof.
  unfold decode_step. destruct l as [|b0 r0]; [done|]. destruct (b2z b0 <? 128) eqn:E0.
  { intros [= <- <-]. split; [simpl; lia|]. intros r. simpl. by rewrite E0. }
  intros H.
  repeat match type of H with
  | context [match ?x with _ => _ end] =>
      lazymatch x with context [match _ with _ => _ end] => fail | _ => destruct x eqn:? end; try done
  end; injection H as <- <-; (split; [simpl; lia|]); intros r; simpl;
    repeat match goal with
    | Hx : ?a = true |- context [?a] => rewrite Hx
    | Hx : ?a = false |- context [?a] => rewrite Hx
    end; done.
Qed.

(** The decoded pieces, and what makes them a text. *)
Abbreviation piece := (result Z * bytes)%type.
Definition own (p : piece) : Prop :=
  ∃ c, p.1 = Ok c ∧ (1 <= length p.2)%nat ∧ ∀ r, decode_step (p.2 ++ r) = Some (Char c (length p.2)).
Definition utf8 (l : bytes) : Prop := Forall own (decode_utf8 l).

Lemma decode_fuel_own n l :
  Forall (λ p : piece, is_ok p.1 = true) (decode_fuel n l) → Forall own (decode_fuel n l).
Proof.
  revert l; induction n as [|n IH]; intros l; cbn [decode_fuel]; [constructor|].
  destruct (decode_step l) as [[c k|k]|] eqn:E; [| |constructor]; intros [Hp Hrest]%Forall_cons.
  - constructor; [|by apply IH]. destruct (decode_step_own l c k E) as [Hk Hown].
    exists c. cbn [fst snd]. rewrite length_take_le by lia. split_and!; [done|lia|exact Hown].
  - done.
Qed.

Lemma from_utf8_iff l : from_utf8 l = Some l ↔ utf8 l.
Proof.
  unfold from_utf8. split.
  - destruct (forallb _ _) eqn:E; [|done]. intros _. apply decode_fuel_own.
    apply Forall_forall. intros p Hp%list_elem_of_In. rewrite forallb_forall in E. exact (E p Hp).
  - intros Hl. rewrite (proj2 (forallb_forall _ _)); [done|]. intros p Hp%list_elem_of_In.
    eapply Forall_forall in Hl as (c & Hc & _); [|done]. simpl. by rewrite Hc.
Qed.

(** Pieces that are their own decode one after the other. *)
Lemma decode_fuel_pieces n ps r :
  Forall own ps → (length (concat ps.*2) + length r <= n)%nat →
  ∃ m, (length r <= m)%nat ∧ decode_fuel n (concat ps.*2 ++ r) = ps ++ decode_fuel m r.
Proof.
  revert n; induction ps as [|[o enc] ps IH]; intros n Hps Hn; [by exists n|].
  apply Forall_cons in Hps as [(c & Hc & Hlen & Hown) Hps]. csimpl in *. subst o. rewrite length_app in Hn.
  destruct n as [|n]; [lia|]. cbn [decode_fuel]. rewrite <-app_assoc, Hown, take_app_length, drop_app_length.
  destruct (IH n Hps) as (m & Hm & ->); [lia|]. by exists m.
Qed.

Lemma decode_step_length l d :
  decode_step l = Some d → let k := match d with Char _ k | Invalid k => k end in (1 <= k)%nat.
Proof. intros [(b & r & _ & _ & ->)|[Hk _]]%decode_step_bytes; simpl; lia. Qed.

Lemma decode_fuel_enough n m l : (length l <= n)%nat → (length l <= m)%nat → decode_fuel n l = decode_fuel m l.
Proof.
  revert m l; induction n as [|n IH]; intros m l Hn Hm.
  { destruct l; [|simpl in Hn; lia]. by destruct m. }
  destruct m as [|m]; [destruct l; [done|simpl in Hm; lia]|]. cbn [decode_fuel].
  destruct (decode_step l) as [d|] eqn:E; [|done]. pose proof (decode_step_length _ _ E) as Hk.
  assert (l ≠ []) as Hl by (by intros ->). destruct l as [|b l]; [done|]. simpl in Hn, Hm.
  destruct d as [c k|k]; simpl in Hk; f_equal; apply IH; rewrite length_drop; simpl; lia.
Qed.

Lemma decode_pieces ps r : Forall own ps → decode_utf8 (concat ps.*2 ++ r) = ps ++ decode_utf8 r.
Proof.
  intros Hps. unfold decode_utf8. rewrite length_app.
  destruct (decode_fuel_pieces (length (concat ps.*2) + length r) ps r Hps) as (m & Hm & ->); [lia|].
  f_equal. by apply decode_fuel_enough.
Qed.

(** A byte string is what its pieces hold. *)
Lemma concat_decode_fuel n l : (length l <= n)%nat → concat (decode_fuel n l).*2 = l.
Proof.
  revert l; induction n as [|n IH]; intros l Hn.
  { destruct l; [done|simpl in Hn; lia]. }
  cbn [decode_fuel]. destruct (decode_step l) as [d|] eqn:E.
  - pose proof (decode_step_length _ _ E) as Hk. assert (l ≠ []) as Hl by (by intros ->).
    destruct l as [|b l]; [done|]. simpl in Hn.
    destruct d as [c k|k]; simpl in Hk; csimpl; rewrite IH by (rewrite length_drop; simpl; lia); apply take_drop.
  - destruct l as [|b l]; [done|]. unfold decode_step in E. repeat case_match; done.
Qed.

Lemma concat_decode l : concat (decode_utf8 l).*2 = l.
Proof. by apply concat_decode_fuel. Qed.

Lemma decode_app a b : utf8 a → decode_utf8 (a ++ b) = decode_utf8 a ++ decode_utf8 b.
Proof. intros Ha. rewrite <-(concat_decode a) at 1. by apply decode_pieces. Qed.

Lemma utf8_app a b : utf8 a → utf8 b → utf8 (a ++ b).
Proof. intros Ha Hb. unfold utf8. rewrite decode_app by done. by apply Forall_app. Qed.

Lemma utf8_pieces ps : Forall own ps → decode_utf8 (concat ps.*2) = ps.
Proof. intros Hps. rewrite <-(app_nil_r (concat _)), decode_pieces by done. by rewrite app_nil_r. Qed.

Lemma utf8_nil : utf8 [].
Proof. constructor. Qed.

Lemma ascii_utf8 l : ascii l → utf8 l.
Proof. intros Hl. by apply from_utf8_iff, from_utf8_ascii. Qed.

(** ** Cutting at ASCII bytes *)

Lemma decode_cons l d : decode_step l = Some d →
  decode_utf8 l = match d with
                  | Char c k => (Ok c, take k l) :: decode_utf8 (drop k l)
                  | Invalid k => (Err (Bail "invalid utf-8"), take k l) :: decode_utf8 (drop k l)
                  end.
Proof.
  intros Hd. pose proof (decode_step_length _ _ Hd) as Hk. unfold decode_utf8.
  destruct l as [|b l]; [done|]. cbn [length decode_fuel]. rewrite Hd.
  destruct d as [c k|k]; simpl in Hk; f_equal; apply decode_fuel_enough; rewrite length_drop; simpl; lia.
Qed.

Lemma utf8_cut a s b : b2z s < 128 → utf8 (a ++ s :: b) → utf8 a ∧ utf8 b.
Proof.
  intros Hs. remember (length a) as n eqn:Hn. assert (length a <= n)%nat as Hle by lia. clear Hn.
  revert a Hle; induction n as [|n IH]; intros a Hle Hl.
  { destruct a; [|simpl in Hle; lia]. split; [apply utf8_nil|]. unfold utf8 in Hl.
    rewrite (decode_cons _ (Char (b2z s) 1)) in Hl; [by apply Forall_cons in Hl as [_ ?]|].
    simpl. by apply Z.ltb_lt in Hs as ->. }
  destruct a as [|a0 a']; [apply (IH []); [simpl; lia|done]|]. set (a := a0 :: a') in *.
  destruct (decode_step (a ++ s :: b)) as [[c k|k]|] eqn:E.
  - pose proof (decode_step_own _ _ _ E) as [[Hk _] Hown].
    assert (k <= length a)%nat as Hka.
    { apply decode_step_bytes in E as [(b0 & r & _ & _ & [= _ ->])|[_ Hhigh]]; [simpl; lia|].
      destruct (decide (k <= length a)%nat) as [|Hka]; [done|exfalso].
      rewrite take_app, (take_ge a) in Hhigh by lia. apply Forall_app in Hhigh as [_ Hhigh].
      destruct (k - length a)%nat eqn:Ek; [lia|]. apply Forall_cons in Hhigh as [? _]. lia. }
    unfold utf8 in Hl. rewrite (decode_cons _ _ E) in Hl. apply Forall_cons in Hl as [_ Hl].
    rewrite drop_app_le in Hl by lia.
    destruct (IH (drop k a)) as [Ha Hb]; [rewrite length_drop; simpl in Hle; simpl; lia|done|]. split; [|done].
    unfold utf8. specialize (Hown (drop k a)). rewrite take_app_le, take_drop in Hown by lia.
    rewrite (decode_cons _ _ Hown). constructor; [|done]. apply decode_step_own in Hown as [_ Hown].
    exists c. cbn [fst snd]. rewrite length_take_le by lia. split_and!; [done|lia|done].
  - unfold utf8 in Hl. rewrite (decode_cons _ _ E) in Hl. by apply Forall_cons in Hl as [(c & Hc & _) _].
  - exfalso. simpl in E. unfold decode_step in E. repeat case_match; done.
Qed.

Lemma utf8_split_on s l : b2z s < 128 → utf8 l → Forall utf8 (split_on s l).
Proof.
  intros Hs. remember (split_on s l) as ps eqn:Hps. revert l Hps. induction ps as [|p ps IH]; intros l Hps Hl; [done|].
  pose proof (join_split_on s l) as Hj. pose proof (split_on_no_sep s l) as Hno. rewrite <-Hps in Hj, Hno.
  destruct ps as [|q ps].
  - simpl in Hj. subst. by repeat constructor.
  - apply Forall_cons in Hno as [Hp _]. change (p ++ [s] ++ join [s] (q :: ps) = l) in Hj. subst l.
    simpl in Hl. apply utf8_cut in Hl as [Hup Hur]; [|done]. constructor; [done|]. apply (IH (join [s] (q :: ps))); [|done].
    simpl in Hps. rewrite split_on_app in Hps by done. by injection Hps.
Qed.

(** ** Characters *)

(** The characters of a text, as pairs of a code and its bytes. *)
Definition own_char (c : Z * bytes) : Prop := own (Ok c.1, c.2).

Lemma chars_own l : utf8 l → Forall own_char (chars l).
Proof.
  unfold utf8, chars. induction 1 as [|[o enc] ps (c & Hc & Hown) _ IH]; csimpl; [done|]. simpl in Hc. subst o.
  constructor; [|done]. by exists c.
Qed.

Lemma unchars_chars l : utf8 l → unchars (chars l) = l.
Proof.
  intros Hl. rewrite <-(concat_decode l) at 2. unfold unchars, chars. f_equal. unfold utf8 in Hl.
  induction Hl as [|[o enc] ps (c & Hc & _) _ IH]; csimpl; [done|]. simpl in Hc. subst o. csimpl. by rewrite IH.
Qed.

Lemma chars_unchars cs : Forall own_char cs → chars (unchars cs) = cs ∧ utf8 (unchars cs).
Proof.
  intros Hcs. set (ps := (λ c : Z * bytes, (Ok c.1 : result Z, c.2)) <$> cs).
  assert (unchars cs = concat ps.*2) as -> by (unfold unchars, ps; by rewrite <-list_fmap_compose).
  assert (Forall own ps) as Hps by (by apply Forall_fmap). unfold utf8, chars. rewrite utf8_pieces by done. split; [|done].
  unfold ps. clear. induction cs as [|[c e] cs IH]; csimpl; [done|]. by rewrite IH.
Qed.

Lemma chars_app a b : utf8 a → chars (a ++ b) = chars a ++ chars b.
Proof. intros Ha. unfold chars. by rewrite decode_app, omap_app. Qed.

Lemma chars_cons s b : b2z s < 128 → chars (s :: b) = (b2z s, [s]) :: chars b.
Proof.
  intros Hs. unfold chars. rewrite (decode_cons _ (Char (b2z s) 1)); [done|]. simpl. by apply Z.ltb_lt in Hs as ->.
Qed.

Lemma unchars_app a b : unchars (a ++ b) = unchars a ++ unchars b.
Proof. unfold unchars. by rewrite fmap_app, concat_app. Qed.

(** ** Trimming *)

Section Trim.
Context {A : Type} (p : A → bool).

Definition rtrim (l : list A) : list A := reverse (drop_while p (reverse l)).

Lemma trim_list_rtrim l : trim_list p l = rtrim (drop_while p l).
Proof. done. Qed.

Lemma drop_while_stop a x b : p x = false → drop_while p (a ++ x :: b) = drop_while p a ++ x :: b.
Proof. intros Hx. induction a as [|y a IH]; simpl; [by rewrite Hx|]. by destruct (p y). Qed.

Lemma drop_while_pass a l : Forall (λ x, p x = true) a → drop_while p (a ++ l) = drop_while p l.
Proof. induction 1 as [|x a Hx _ IH]; simpl; [done|]. by rewrite Hx. Qed.

Lemma rtrim_stop a x b : p x = false → rtrim (a ++ x :: b) = a ++ x :: rtrim b.
Proof.
  intros Hx. unfold rtrim. rewrite reverse_app, reverse_cons, <-app_assoc. simpl.
  rewrite drop_while_stop by done. rewrite reverse_app, reverse_cons, reverse_involutive. by rewrite <-app_assoc.
Qed.

Lemma rtrim_pass l b : Forall (λ x, p x = true) b → rtrim (l ++ b) = rtrim l.
Proof.
  intros Hb. unfold rtrim. rewrite reverse_app, drop_while_pass; [done|].
  apply Forall_forall. intros x Hx. rewrite elem_of_reverse in Hx. rewrite Forall_forall in Hb. exact (Hb x Hx).
Qed.

(** A list is passed over, or it has a first element that stops. *)
Lemma pass_or_stop l :
  Forall (λ x, p x = true) l ∨ ∃ a x b, l = a ++ x :: b ∧ Forall (λ x, p x = true) a ∧ p x = false.
Proof.
  induction l as [|y l [IH|(a & x & b & -> & Ha & Hx)]]; [by left| |].
  - destruct (p y) eqn:Hy; [left; by constructor|right]. by exists [], y, l.
  - destruct (p y) eqn:Hy; [|by right; exists [], y, (a ++ x :: b)].
    right. exists (y :: a), x, b. split_and!; [done|by constructor|done].
Qed.

Lemma drop_while_all l : Forall (λ x, p x = true) l → drop_while p l = [].
Proof. intros Hl. rewrite <-(app_nil_r l), drop_while_pass by done. done. Qed.
Lemma rtrim_all l : Forall (λ x, p x = true) l → rtrim l = [].
Proof. intros Hl. apply (rtrim_pass []) in Hl. by simpl in Hl. Qed.

Lemma trim_list_stop a x b : p x = false → trim_list p (a ++ x :: b) = drop_while p a ++ x :: rtrim b.
Proof. intros Hx. by rewrite trim_list_rtrim, drop_while_stop, rtrim_stop. Qed.

Lemma drop_while_first a x b : Forall (λ y, p y = true) a → p x = false → drop_while p (a ++ x :: b) = x :: b.
Proof. intros Ha Hx. rewrite drop_while_pass by done. simpl. by rewrite Hx. Qed.

Lemma trim_list_drop l : trim_list p (drop_while p l) = trim_list p l.
Proof.
  destruct (pass_or_stop l) as [Hl|(a & x & b & -> & Ha & Hx)].
  - by rewrite (drop_while_all l Hl), !trim_list_rtrim, (drop_while_all l Hl).
  - rewrite !trim_list_rtrim, !(drop_while_first a x b Ha Hx). simpl. by rewrite Hx.
Qed.

Lemma rtrim_rtrim l : rtrim (rtrim l) = rtrim l.
Proof.
  unfold rtrim. rewrite reverse_involutive. f_equal. destruct (pass_or_stop (reverse l)) as [Hl|(a & x & b & -> & Ha & Hx)].
  - by rewrite (drop_while_all _ Hl).
  - rewrite (drop_while_first a x b Ha Hx). simpl. by rewrite Hx.
Qed.

Lemma trim_list_of_rtrim l : trim_list p (rtrim l) = trim_list p l.
Proof.
  destruct (pass_or_stop l) as [Hl|(a & x & b & -> & Ha & Hx)].
  - rewrite rtrim_all by done. rewrite !trim_list_rtrim, (drop_while_all l Hl). done.
  - rewrite rtrim_stop by done. rewrite !trim_list_stop by done. by rewrite rtrim_rtrim.
Qed.

Lemma trim_list_last l w : p w = true → trim_list p (l ++ [w]) = trim_list p l.
Proof.
  intros Hw. rewrite <-(trim_list_of_rtrim (l ++ [w])), rtrim_pass by (by repeat constructor). apply trim_list_of_rtrim.
Qed.

Lemma drop_while_sub l x : x ∈ drop_while p l → x ∈ l.
Proof. induction l as [|y l IH]; simpl; [done|]. destruct (p y); [|done]. intros Hx. right. by apply IH. Qed.
Lemma rtrim_sub l x : x ∈ rtrim l → x ∈ l.
Proof. unfold rtrim. rewrite elem_of_reverse. intros Hx%drop_while_sub. by rewrite elem_of_reverse in Hx. Qed.
End Trim.

(** ** Lines and settings *)

Abbreviation ws := (is_whitespace ∘ fst : Z * bytes → bool).

(** [str::trim_start] *)
Definition trim_start (l : bytes) : bytes := unchars (drop_while ws (chars l)).

Lemma own_drop l : utf8 l → Forall own_char (drop_while ws (chars l)).
Proof.
  intros Hl%chars_own. rewrite Forall_forall in *. intros c Hc. exact (Hl c (drop_while_sub ws _ c Hc)).
Qed.
Lemma own_rtrim l : utf8 l → Forall own_char (rtrim ws (chars l)).
Proof. intros Hl%chars_own. rewrite Forall_forall in *. intros c Hc. exact (Hl c (rtrim_sub ws _ c Hc)). Qed.

(** Cutting at an ASCII byte that is no space, before and after trimming. *)
Lemma trim_cut k s v : b2z s < 128 → is_whitespace (b2z s) = false → utf8 (k ++ s :: v) →
  trim (k ++ s :: v) = unchars (drop_while ws (chars k)) ++ s :: unchars (rtrim ws (chars v)).
Proof.
  intros Hs Hws Hl. destruct (utf8_cut k s v Hs Hl) as [Hk Hv]. unfold trim.
  rewrite chars_app, chars_cons, trim_list_stop by done. by rewrite unchars_app.
Qed.

Lemma unchars_elem b cs : b ∈ unchars cs ↔ ∃ c, c ∈ cs ∧ b ∈ c.2.
Proof.
  induction cs as [|c cs IH].
  - unfold unchars. simpl. split; [by intros ?%not_elem_of_nil|by intros (c & ?%not_elem_of_nil & _)].
  - change (unchars (c :: cs)) with (c.2 ++ unchars cs). rewrite elem_of_app, IH. setoid_rewrite elem_of_cons. naive_solver.
Qed.

Lemma unchars_sub l cs : utf8 l → (∀ c, c ∈ cs → c ∈ chars l) → ∀ b, b ∈ unchars cs → b ∈ l.
Proof.
  intros Hl Hsub b (c & Hc & Hb)%unchars_elem. rewrite <-(unchars_chars l) by done. apply unchars_elem.
  exists c. split; [by apply Hsub|done].
Qed.

(** Splitting a trimmed text at an ASCII byte, and splitting the text itself. *)
Lemma split_once_trim s l : b2z s < 128 → is_whitespace (b2z s) = false → utf8 l →
  match split_once s l with
  | Some (k, v) => ∃ k' v', split_once s (trim l) = Some (k', v') ∧ trim k' = trim k ∧ trim v' = trim v
  | None => split_once s (trim l) = None
  end.
Proof.
  intros Hs Hws Hl. destruct (split_once s l) as [[k v]|] eqn:E.
  - apply split_once_spec in E as [-> Hk]. destruct (utf8_cut k s v Hs Hl) as [Huk Huv].
    rewrite (trim_cut k s v) by done.
    exists (unchars (drop_while ws (chars k))), (unchars (rtrim ws (chars v))). split_and!.
    + apply split_once_spec. split; [done|]. intros Hin. apply Hk. revert Hin.
      apply (unchars_sub k); [done|]. intros c. apply drop_while_sub.
    + unfold trim. rewrite (proj1 (chars_unchars _ (own_drop k Huk))). by rewrite trim_list_drop.
    + unfold trim. rewrite (proj1 (chars_unchars _ (own_rtrim v Huv))). by rewrite trim_list_of_rtrim.
  - destruct (split_once s (trim l)) as [[k v]|] eqn:E'; [|done]. exfalso.
    apply split_once_spec in E' as [E' _].
    assert (s ∈ l) as Hin.
    { apply (unchars_sub l (trim_list ws (chars l))); [done| |].
      - intros c Hc. rewrite trim_list_rtrim in Hc. by apply rtrim_sub, drop_while_sub in Hc.
      - change (s ∈ trim l). rewrite E', elem_of_app. right. by left. }
    apply list_elem_of_split in Hin as (a & b & Hab). clear E'.
    assert (∃ a b, l = a ++ s :: b ∧ s ∉ a) as (a' & b' & Hl' & Ha').
    { clear -Hab. revert a b l Hab. induction a as [|x a IH]; intros b l ->; [by exists [], b; split; [|apply not_elem_of_nil]|].
      destruct (decide (x = s)) as [->|Hx]; [by exists [], (a ++ s :: b); split; [|apply not_elem_of_nil]|].
      destruct (IH b (a ++ s :: b) eq_refl) as (a' & b' & Heq & Hn). exists (x :: a'), b'. simpl. rewrite Heq.
      split; [done|]. rewrite not_elem_of_cons. by split. }
    rewrite (proj2 (split_once_spec s l a' b')) in E by done. done.
Qed.

(** A text begins with an ASCII byte that is no space whether trimmed at its end
    or not. *)
Lemma starts_trim_start s l : b2z s < 128 → is_whitespace (b2z s) = false → utf8 l →
  starts_with [s] (trim_start l) = starts_with [s] (trim l).
Proof.
  intros Hs Hws Hl. unfold trim_start, trim. rewrite trim_list_rtrim.
  destruct (drop_while ws (chars l)) as [|c cs] eqn:E; [done|].
  assert (ws c = false) as Hc.
  { destruct (pass_or_stop ws (chars l)) as [Hall|(a & x & b & Hab & Ha & Hx)].
    - by rewrite (drop_while_all _ _ Hall) in E.
    - rewrite Hab, (drop_while_first _ _ _ _ Ha Hx) in E. by injection E as <- _. }
  rewrite (rtrim_stop ws [] c cs Hc : rtrim ws (c :: cs) = c :: rtrim ws cs).
  pose proof (own_drop l Hl) as Hown. rewrite E in Hown. apply Forall_cons in Hown as [(_ & _ & Hlen & _) _].
  destruct c as [c [|e enc]]; simpl in Hlen; [lia|]. unfold unchars. csimpl. done.
Qed.

(** A carriage return at the end goes when the text is trimmed. *)
Lemma trim_strip_cr l : utf8 l → trim (strip_suffix_byte x0d l) = trim l ∧ utf8 (strip_suffix_byte x0d l).
Proof.
  intros Hl. unfold strip_suffix_byte. destruct (reverse l) as [|c r] eqn:E; [done|].
  destruct (byteb x0d c) eqn:Hc; [|done]. apply byteb_eq in Hc as <-.
  assert (l = reverse r ++ [x0d]) as -> by (by rewrite <-(reverse_involutive l), E, reverse_cons).
  destruct (utf8_cut (reverse r) x0d [] ltac:(done) Hl) as [Hr _]. split; [|done].
  unfold trim. rewrite chars_app, chars_cons by done. change (chars []) with (@nil (Z * bytes)). by rewrite trim_list_last.
Qed.

Lemma lines_of_utf8 ps : Forall utf8 ps → Forall utf8 (lines_of ps).
Proof.
  induction 1 as [|p ps Hp Hps IH]; [constructor|]. destruct ps as [|q ps]; simpl.
  - case_bool_decide; by repeat constructor.
  - constructor; [by apply trim_strip_cr|done].
Qed.

Lemma lines_utf8 l : utf8 l → Forall utf8 (lines l).
Proof. intros Hl. apply lines_of_utf8. by apply utf8_split_on. Qed.

Lemma strip_suffix_byte_sub s l b : b ∈ strip_suffix_byte s l → b ∈ l.
Proof.
  unfold strip_suffix_byte. destruct (reverse l) as [|c r] eqn:E; [done|]. destruct (byteb s c); [|done].
  rewrite elem_of_reverse. intros Hb. rewrite <-elem_of_reverse, E. by right.
Qed.

Lemma lines_no_lf l : Forall (λ line, x0a ∉ line) (lines l).
Proof.
  unfold lines. pose proof (split_on_no_sep x0a l) as Hno. induction Hno as [|p ps Hp Hps IH]; [constructor|].
  destruct ps as [|q ps]; simpl; [case_bool_decide; by repeat constructor|].
  constructor; [|done]. intros Hb%strip_suffix_byte_sub. done.
Qed.

(** A text written line by line has those lines, save the carriage returns. *)
Definition unlines (ls : list bytes) : bytes := ls ≫= λ line, line ++ [x0a].

Lemma lines_unlines ls : Forall (λ line, x0a ∉ line) ls → lines (unlines ls) = strip_suffix_byte x0d <$> ls.
Proof.
  unfold lines, unlines. induction 1 as [|l ls Hl _ IH]; csimpl; [done|].
  rewrite <-app_assoc. simpl. rewrite split_on_app by done.
  destruct (split_on x0a _) as [|q qs] eqn:E; [by apply split_on_nonempty in E|].
  change (lines_of (l :: q :: qs)) with (strip_suffix_byte x0d l :: lines_of (q :: qs)). by rewrite IH.
Qed.

Lemma utf8_unlines ls : Forall utf8 ls → utf8 (unlines ls).
Proof.
  unfold unlines. induction 1 as [|l ls Hl _ IH]; csimpl; [apply utf8_nil|].
  repeat apply utf8_app; [done|by apply ascii_utf8; repeat constructor|done].
Qed.
