(* ===== verification/Ip.v ===== *)
(** * Ip: [std::net] addresses

    [Ipv4Addr], [Ipv6Addr], [IpAddr] and [SocketAddr] by their octets, their
    [Display] text, [FromStr] parser and classification methods. *)
From S2P Require Import Prelude Bytes Text.
Local Open Scope Z_scope.

(** An IPv6 address is its sixteen octets. *)
Inductive IpAddr : Type :=
  | V4 (a b c d : byte)
  | V6 (octets : bytes).

#[export] Instance ip_eq_dec : EqDecision IpAddr.
Proof. solve_decision. Defined.

Definition wf_ip (ip : IpAddr) : Prop :=
  match ip with V4 _ _ _ _ => True | V6 o => length o = 16%nat end.

Record SocketAddr : Type := MkSocketAddr { sa_ip : IpAddr; sa_port : Z }.

#[export] Instance sa_eq_dec : EqDecision SocketAddr.
Proof. solve_decision. Defined.

Definition wf_sa (a : SocketAddr) : Prop := wf_ip (sa_ip a) ∧ u16 (sa_port a).

(** ** Classification *)

Definition octets (ip : IpAddr) : bytes :=
  match ip with V4 a b c d => [a; b; c; d] | V6 o => o end.
Definition is_ipv4 (ip : IpAddr) : bool := match ip with V4 _ _ _ _ => true | V6 _ => false end.
Definition is_ipv6 (ip : IpAddr) : bool := negb (is_ipv4 ip).

Definition ipv6_localhost : bytes := replicate 15 x00 ++ [x01].

Definition is_unspecified (ip : IpAddr) : bool := forallb (byteb x00) (octets ip).
Definition is_loopback (ip : IpAddr) : bool :=
  match ip with V4 a _ _ _ => b2z a =? 127 | V6 o => bytes_eqb o ipv6_localhost end.
Definition is_multicast (ip : IpAddr) : bool :=
  match ip with
  | V4 a _ _ _ => (224 <=? b2z a) && (b2z a <=? 239)
  | V6 o => match o with x :: _ => b2z x =? 255 | [] => false end
  end.
(** [Ipv6Addr::to_ipv4_mapped] *)
Definition to_ipv4_mapped (o : bytes) : option IpAddr :=
  if bytes_eqb (take 12 o) (replicate 10 x00 ++ [xff; xff]) then
    match drop 12 o with [a; b; c; d] => Some (V4 a b c d) | _ => None end
  else None.

(** ** Segments *)

Fixpoint segments (o : bytes) : list Z :=
  match o with hi :: lo :: o' => from_be16 hi lo :: segments o' | _ => [] end.
Definition from_segments (s : list Z) : bytes := s ≫= be16.

Lemma from_segments_segments o n :
  length o = (2 * n)%nat → from_segments (segments o) = o.
Proof.
  revert o; induction n as [|n IH]; intros o Hl.
  - destruct o; [done|]. simpl in Hl; lia.
  - destruct o as [|a [|b o]]; simpl in Hl; [lia|lia|].
    cbn [segments]. unfold from_segments in *. cbn [mbind list_bind].
    rewrite be16_from_be16. simpl. f_equal. f_equal. apply IH. lia.
Qed.

(** ** Text *)

Definition ipv4_to_string (a b c d : byte) : bytes :=
  dec (b2z a) ++ lit "." ++ dec (b2z b) ++ lit "." ++ dec (b2z c) ++ lit "." ++ dec (b2z d).

(** The longest run of zero segments as (start, length), the first of equals. *)
Fixpoint zero_run (i : nat) (cur best : nat * nat) (s : list Z) : nat * nat :=
  match s with
  | [] => best
  | x :: s' =>
      if x =? 0 then
        let cur := (if (cur.2 =? 0)%nat then i else cur.1, S cur.2) in
        zero_run (S i) cur (if (best.2 <? cur.2)%nat then cur else best) s'
      else zero_run (S i) (0, 0)%nat best s'
  end.

Definition hex_groups (s : list Z) : bytes := join (lit ":") (hex16 <$> s).

Definition ipv6_to_string (o : bytes) : bytes :=
  match to_ipv4_mapped o with
  | Some (V4 a b c d) => lit "::ffff:" ++ ipv4_to_string a b c d
  | _ =>
      let s := segments o in
      let '(start, len) := zero_run 0 (0, 0)%nat (0, 0)%nat s in
      if (1 <? len)%nat
      then hex_groups (take start s) ++ lit "::" ++ hex_groups (drop (start + len) s)
      else hex_groups s
  end.

Definition ip_to_string (ip : IpAddr) : bytes :=
  match ip with V4 a b c d => ipv4_to_string a b c d | V6 o => ipv6_to_string o end.

(** ** Parsing: every reader returns its value and the rest of the input *)

Fixpoint span_digits (p : byte → bool) (l : bytes) : bytes * bytes :=
  match l with
  | [] => ([], [])
  | b :: l' => if p b then let '(d, r) := span_digits p l' in (b :: d, r) else ([], l)
  end.

(** [read_number::<u8>(10, Some(3), false)] *)
Definition read_octet (l : bytes) : option (byte * bytes) :=
  let '(d, r) := span_digits is_digit l in
  if bool_decide (d = []) || (3 <? length d)%nat || (255 <? digits_val d) then None
  else match d with
       | z :: _ :: _ => if byteb z "0" then None else Some (z2b (digits_val d), r)
       | _ => Some (z2b (digits_val d), r)
       end.

(** [read_number::<u16>(16, Some(4), true)] *)
Definition read_group (l : bytes) : option (Z * bytes) :=
  let '(d, r) := span_digits is_hexdigit l in
  if bool_decide (d = []) || (4 <? length d)%nat then None else Some (hex_fold d, r).

Definition read_char (c : byte) (l : bytes) : option bytes :=
  match l with b :: r => if byteb b c then Some r else None | [] => None end.

Definition read_ipv4 (l : bytes) : option (IpAddr * bytes) :=
  '(a, l) ← read_octet l; l ← read_char "." l;
  '(b, l) ← read_octet l; l ← read_char "." l;
  '(c, l) ← read_octet l; l ← read_char "." l;
  '(d, l) ← read_octet l; Some (V4 a b c d, l).

(** [read_groups]: up to [limit] groups from index [i], and whether they end
    with an embedded IPv4 address. *)
Fixpoint read_groups (limit i : nat) (l : bytes) : list Z * bool * bytes :=
  match limit with
  | O => ([], false, l)
  | S n =>
      let sep l := if (i =? 0)%nat then Some l else read_char ":" l in
      let v4 := if (0 <? n)%nat then l' ← sep l; read_ipv4 l' else None in
      match v4 with
      | Some (ip, r) => (segments (octets ip), true, r)
      | None =>
          match l' ← sep l; read_group l' with
          | Some (g, r) => let '(gs, v, r) := read_groups n (S i) r in (g :: gs, v, r)
          | None => ([], false, l)
          end
      end
  end.

Definition read_ipv6 (l : bytes) : option (IpAddr * bytes) :=
  let '(head, head_v4, l1) := read_groups 8 0 l in
  if (length head =? 8)%nat then Some (V6 (from_segments head), l1)
  else if head_v4 then None
  else
    l2 ← read_char ":" l1; l3 ← read_char ":" l2;
    let '(tail, _, r) := read_groups (8 - (length head + 1)) 0 l3 in
    Some (V6 (from_segments
      (head ++ replicate (8 - length head - length tail) 0 ++ tail)), r).

(** [str::parse::<IpAddr>()]: the whole input, IPv4 first. *)
Definition parse_ip (l : bytes) : option IpAddr :=
  match read_ipv4 l with
  | Some (ip, []) => Some ip
  | Some (_, _ :: _) => None
  | None => match read_ipv6 l with Some (ip, []) => Some ip | _ => None end
  end.

(** [read_number::<u16>(10, None, true)] *)
Definition read_port (l : bytes) : option (Z * bytes) :=
  let '(d, r) := span_digits is_digit l in
  if bool_decide (d = []) || (U16_MAX <? digits_val d) then None else Some (digits_val d, r).

(** The scope of an IPv6 socket address, which nothing here looks at. *)
Definition read_scope_id (l : bytes) : option bytes :=
  match read_char "%" l with
  | None => Some l
  | Some l' =>
      let '(d, r) := span_digits is_digit l' in
      if bool_decide (d = []) || (2 ^ 32 - 1 <? digits_val d) then None else Some r
  end.

Definition read_socket_addr (l : bytes) : option (SocketAddr * bytes) :=
  match '(ip, l) ← read_ipv4 l; l ← read_char ":" l; '(port, l) ← read_port l; Some (MkSocketAddr ip port, l) with
  | Some p => Some p
  | None =>
      l ← read_char "[" l; '(ip, l) ← read_ipv6 l; l ← read_scope_id l; l ← read_char "]" l;
      l ← read_char ":" l; '(port, l) ← read_port l; Some (MkSocketAddr ip port, l)
  end.

(** [str::parse::<SocketAddr>()]: [a.b.c.d:port] or [[v6]:port], the whole text. *)
Definition parse_socket_addr (l : bytes) : option SocketAddr :=
  match read_socket_addr l with Some (a, []) => Some a | _ => None end.

(** ** Round trip of the IPv4 text *)

Lemma span_digits_app p d r :
  forallb p d = true → match r with b :: _ => p b = false | [] => True end →
  span_digits p (d ++ r) = (d, r).
Proof.
  intros Hd Hr. induction d as [|b d IH]; simpl in *.
  - destruct r; [done|]. simpl. by rewrite Hr.
  - apply andb_true_iff in Hd as [-> ?]. by rewrite IH.
Qed.

(** Facts about the text of one octet, by evaluation on all 256 of them. *)
Definition octet_text_ok (b : byte) : bool :=
  let d := dec (b2z b) in
  forallb is_digit d && negb (bool_decide (d = [])) && (length d <=? 3)%nat
  && bool_decide (read_octet d = Some (b, [])).

Lemma octet_text b : octet_text_ok b = true.
Proof. by destruct b; vm_compute. Qed.

Lemma read_octet_dec b r :
  match r with x :: _ => is_digit x = false | [] => True end →
  read_octet (dec (b2z b) ++ r) = Some (b, r).
Proof.
  intros Hr. pose proof (octet_text b) as H. unfold octet_text_ok in H.
  apply andb_true_iff in H as [H Hrd]. apply andb_true_iff in H as [H _].
  apply andb_true_iff in H as [Hd _]. apply bool_decide_eq_true in Hrd.
  unfold read_octet in *. rewrite span_digits_app by done.
  rewrite <-(app_nil_r (dec (b2z b))) in Hrd.
  rewrite span_digits_app in Hrd by done.
  repeat case_match; simplify_eq; done.
Qed.

Lemma read_ipv4_to_string a b c d r :
  match r with x :: _ => is_digit x = false | [] => True end →
  read_ipv4 (ipv4_to_string a b c d ++ r) = Some (V4 a b c d, r).
Proof.
  intros Hr. unfold ipv4_to_string, read_ipv4. rewrite <-!app_assoc.
  rewrite read_octet_dec by done. simpl.
  rewrite read_octet_dec by done. simpl.
  rewrite read_octet_dec by done. simpl.
  rewrite read_octet_dec by done. done.
Qed.

Lemma parse_ip_v4 a b c d : parse_ip (ip_to_string (V4 a b c d)) = Some (V4 a b c d).
Proof.
  unfold parse_ip, ip_to_string.
  pose proof (read_ipv4_to_string a b c d [] I) as H.
  rewrite app_nil_r in H. by rewrite H.
Qed.

Lemma octets_length ip : wf_ip ip → length (octets ip) = if is_ipv4 ip then 4%nat else 16%nat.
Proof. by destruct ip. Qed.

(** ** What the parser can return *)

Lemma span_digits_all p l : Forall (λ b, p b = true) (span_digits p l).1.
Proof.
  induction l as [|b l IH]; simpl; [done|]. destruct (p b) eqn:Hp; [|done].
  destruct (span_digits p l). by constructor.
Qed.

Lemma read_ipv4_is_v4 l ip r : read_ipv4 l = Some (ip, r) → is_ipv4 ip = true.
Proof.
  unfold read_ipv4. intros H.
  repeat match goal with
  | H : (_ ≫= _) = Some _ |- _ => apply bind_Some in H as (? & _ & H)
  | p : byte * bytes |- _ => destruct p
  end.
  by simplify_eq.
Qed.

Lemma read_groups_length limit i l :
  (length (read_groups limit i l).1.1 ≤ limit)%nat.
Proof.
  revert i l; induction limit as [|n IH]; intros i l; [done|]. cbn [read_groups].
  set (v4 := if (0 <? n)%nat then _ else _).
  destruct v4 as [[ip r]|] eqn:Ev.
  - subst v4. destruct (0 <? n)%nat eqn:En; [|done]. reflect_bools.
    apply bind_Some in Ev as (l' & _ & Hip%read_ipv4_is_v4).
    destruct ip; [simpl; lia|done].
  - clearbody v4. destruct (_ ≫= _) as [[g r]|]; simpl; [|lia].
    specialize (IH (S i) r). destruct (read_groups n (S i) r) as [[gs v] r']. simpl in *. lia.
Qed.

Lemma length_from_segments s : length (from_segments s) = (2 * length s)%nat.
Proof.
  unfold from_segments. induction s as [|x s IH]; [done|].
  cbn [mbind list_bind]. rewrite length_app. change (length (be16 x)) with 2%nat.
  change (list_bind _ _ be16 s) with (s ≫= be16). rewrite IH. simpl. lia.
Qed.

Lemma parse_ip_wf l ip : parse_ip l = Some ip → wf_ip ip.
Proof.
  unfold parse_ip. destruct (read_ipv4 l) as [[ip4 [|]]|] eqn:E4; try done.
  { intros [= <-]. apply read_ipv4_is_v4 in E4. by destruct ip4. }
  unfold read_ipv6. pose proof (read_groups_length 8 0 l) as Hh.
  destruct (read_groups 8 0 l) as [[head v4] l1]. simpl in Hh.
  destruct (length head =? 8)%nat eqn:E8; reflect_bools.
  { destruct l1; [|done]. intros [= <-]. unfold wf_ip. rewrite length_from_segments. lia. }
  destruct v4; [done|].
  destruct (read_char ":" l1) as [l2|]; [|done]; simpl.
  destruct (read_char ":" l2) as [l3|]; [|done]; simpl.
  pose proof (read_groups_length (8 - (length head + 1)) 0 l3) as Ht.
  destruct (read_groups _ 0 l3) as [[tail ?] r]. simpl in Ht.
  destruct r; [|done]. intros [= <-]. unfold wf_ip.
  rewrite length_from_segments, !length_app, length_replicate. lia.
Qed.

Lemma read_port_u16 l p r : read_port l = Some (p, r) → u16 p.
Proof.
  unfold read_port. pose proof (span_digits_all is_digit l) as Hd.
  destruct (span_digits is_digit l) as [d r']. destruct (_ || _) eqn:E; [done|]. intros [= <- <-].
  reflect_bools. split; [by apply digits_val_nonneg|done].
Qed.

Lemma parse_socket_addr_u16 l a : parse_socket_addr l = Some a → u16 (sa_port a).
Proof.
  unfold parse_socket_addr, read_socket_addr. intros Ha.
  destruct (match _ with Some p => Some p | None => _ end) as [[b [|]]|] eqn:Hb; try done.
  injection Ha as <-. destruct ('(ip, l) ← read_ipv4 l; _) as [p4|] eqn:E4.
  - injection Hb as ->. apply bind_Some in E4 as ([ip l1] & _ & E4). apply bind_Some in E4 as (l2 & _ & E4).
    apply bind_Some in E4 as ([port l3] & Hp%read_port_u16 & [= <- _]); done.
  - apply bind_Some in Hb as (l1 & _ & Hb). apply bind_Some in Hb as ([ip l2] & _ & Hb).
    do 3 apply bind_Some in Hb as (? & _ & Hb).
    apply bind_Some in Hb as ([port l3] & Hp%read_port_u16 & [= <- _]); done.
Qed.

(** ** The bytes of an address *)

Definition ip_byte (b : byte) : bool := is_hexdigit b || byteb b ":" || byteb b ".".
Abbreviation ip_text := (Forall (λ b, ip_byte b = true)).

Lemma is_digit_ip b : is_digit b = true → ip_byte b = true.
Proof. by destruct b. Qed.
Lemma is_hexdigit_ip b : is_hexdigit b = true → ip_byte b = true.
Proof. by destruct b. Qed.

(** A reader that takes bytes of an address off the front. *)
Definition takes (l r : bytes) : Prop := ∃ c, l = c ++ r ∧ ip_text c.

Lemma takes_refl l : takes l l.
Proof. by exists []. Qed.
Lemma takes_trans l m r : takes l m → takes m r → takes l r.
Proof. intros (c & -> & Hc) (d & -> & Hd). exists (c ++ d). by rewrite <-app_assoc, Forall_app. Qed.

Lemma read_char_takes c l r : read_char c l = Some r → ip_byte c = true → takes l r.
Proof.
  unfold read_char. destruct l as [|b l]; [done|]. destruct (byteb b c) eqn:E; [|done].
  apply byteb_eq in E as ->. intros [= <-] Hc. exists [c]. split; [done|by constructor].
Qed.

Lemma span_digits_takes p l :
  (∀ b, p b = true → ip_byte b = true) → takes l (span_digits p l).2.
Proof.
  intros Hp. pose proof (span_digits_all p l) as Hall. exists (span_digits p l).1.
  split; [|by eapply Forall_impl; [exact Hall|]]. clear Hall. induction l as [|b l IH]; [done|]. simpl.
  destruct (p b); [|done]. destruct (span_digits p l). simpl in *. by rewrite <-IH.
Qed.

Lemma read_octet_takes l b r : read_octet l = Some (b, r) → takes l r.
Proof.
  unfold read_octet. pose proof (span_digits_takes is_digit l is_digit_ip) as Ht.
  destruct (span_digits is_digit l) as [d r']. destruct (_ || _); [done|].
  destruct d as [|? [|? ?]]; [by intros [= _ <-]..|]. destruct (byteb _ _); [done|by intros [= _ <-]].
Qed.

Lemma read_group_takes l g r : read_group l = Some (g, r) → takes l r.
Proof.
  unfold read_group. pose proof (span_digits_takes is_hexdigit l is_hexdigit_ip) as Ht.
  destruct (span_digits is_hexdigit l) as [d r']. destruct (_ || _); [done|by intros [= _ <-]].
Qed.

Ltac takes :=
  repeat match goal with
  | H : (_ ≫= _) = Some _ |- _ => apply bind_Some in H as (? & ? & H)
  | p : (_ * _)%type |- _ => destruct p
  | H : Some _ = Some _ |- _ => injection H as ? ?; subst
  | H : Some _ = Some _ |- _ => injection H as ?; subst
  | H : read_char _ _ = Some _ |- _ => apply read_char_takes in H; [|done]
  | H : read_octet _ = Some _ |- _ => apply read_octet_takes in H
  | H : read_group _ = Some _ |- _ => apply read_group_takes in H
  end; eauto 10 using takes_refl, takes_trans.

Lemma read_ipv4_takes l ip r : read_ipv4 l = Some (ip, r) → takes l r.
Proof. unfold read_ipv4. intros H. takes. Qed.

Lemma read_groups_takes limit i l : takes l (read_groups limit i l).2.
Proof.
  revert i l; induction limit as [|n IH]; intros i l; [apply takes_refl|]. cbn [read_groups].
  assert (Hsep : ∀ k, (if (i =? 0)%nat then Some l else read_char ":" l) = Some k → takes l k).
  { intros k. destruct (i =? 0)%nat; [intros [= <-]; apply takes_refl|]. intros Hk. takes. }
  destruct (if (0 <? n)%nat then _ else _) as [[ip r]|] eqn:E.
  - destruct (0 <? n)%nat; [|done]. apply bind_Some in E as (k & Hk%Hsep & Hr%read_ipv4_takes). simpl.
    by eapply takes_trans.
  - destruct (l' ← (if (i =? 0)%nat then Some l else read_char ":" l); read_group l') as [[g r]|] eqn:E'; [|apply takes_refl].
    apply bind_Some in E' as (k & Hk%Hsep & Hr%read_group_takes). specialize (IH (S i) r).
    destruct (read_groups n (S i) r) as [[gs v] r']. simpl in *. by eapply takes_trans, takes_trans.
Qed.

(** The text of an address has hexadecimal digits, colons and dots only. *)
Lemma parse_ip_text l ip : parse_ip l = Some ip → ip_text l.
Proof.
  assert (Hnil : takes l [] → ip_text l) by by intros (c & -> & Hc); rewrite app_nil_r.
  unfold parse_ip. destruct (read_ipv4 l) as [[ip4 [|]]|] eqn:E4; try done.
  { intros _. apply Hnil. by eapply read_ipv4_takes. }
  unfold read_ipv6. pose proof (read_groups_takes 8 0 l) as H1. destruct (read_groups 8 0 l) as [[head v4] l1].
  simpl in H1. destruct (length head =? 8)%nat; [destruct l1; [intros _; by apply Hnil|done]|].
  destruct v4; [done|]. destruct (read_char ":" l1) as [l2|] eqn:E2; [|done]; simpl.
  destruct (read_char ":" l2) as [l3|] eqn:E3; [|done]; simpl.
  pose proof (read_groups_takes (8 - (length head + 1)) 0 l3) as H3.
  destruct (read_groups _ 0 l3) as [[tail ?] r]. simpl in H3. destruct r; [|done]. intros _. apply Hnil. takes.
Qed.

Lemma dec_ip_text b : ip_text (dec (b2z b)).
Proof. by destruct b; repeat constructor. Qed.

Lemma lit_dot_ip : ip_text (lit ".").
Proof. by repeat constructor. Qed.

Lemma ipv4_ip_text a b c d : ip_text (ipv4_to_string a b c d).
Proof. unfold ipv4_to_string. rewrite !Forall_app. split_and!; by auto using dec_ip_text, lit_dot_ip. Qed.

Lemma hex_digit_ip z : 0 <= z < 16 → ip_byte (hex_digit z) = true.
Proof.
  intros Hz. assert (z ∈ [0;1;2;3;4;5;6;7;8;9;10;11;12;13;14;15]) as Hin by (rewrite !elem_of_cons; lia).
  repeat (apply elem_of_cons in Hin as [->|Hin]; [done|]). by apply not_elem_of_nil in Hin.
Qed.

Lemma hex16_ip_text z : ip_text (hex16 z).
Proof.
  assert (ip_text [hex_digit (z / 4096 mod 16); hex_digit (z / 256 mod 16); hex_digit (z / 16 mod 16); hex_digit (z mod 16)]).
  { repeat constructor; apply hex_digit_ip, Z.mod_pos_bound; lia. }
  unfold hex16. repeat case_match; try apply Forall_drop; done.
Qed.

Lemma hex_groups_ip_text s : ip_text (hex_groups s).
Proof.
  unfold hex_groups. apply join_forall; [by repeat constructor|].
  apply Forall_fmap, Forall_true. intros z. apply hex16_ip_text.
Qed.

Lemma ip_to_string_text ip : ip_text (ip_to_string ip).
Proof.
  destruct ip as [a b c d|o]; simpl; [apply ipv4_ip_text|]. unfold ipv6_to_string.
  destruct (to_ipv4_mapped o) as [[a b c d|?]|].
  { apply Forall_app. split; [by repeat constructor|apply ipv4_ip_text]. }
  all: destruct (zero_run 0 (0, 0)%nat (0, 0)%nat (segments o)) as [start len];
    destruct (1 <? len)%nat; rewrite ?Forall_app; split_and?; try apply hex_groups_ip_text; by repeat constructor.
Qed.
