(* ===== verification/SnellWire.v ===== *)
(** * SnellWire: the Snell request and datagram formats

    [src/snell/request.rs] (CONNECT and UDP ASSOCIATE requests),
    [src/snell/udp.rs] (datagram requests and responses) and
    [src/snell/identity.rs] (the Identity v2 preamble). HMAC-SHA256 and SHA-256
    are the [hmac] and [sha2] crates: parameters. *)
From S2P Require Import Prelude Bytes Text Ip.
Local Open Scope Z_scope.

Definition MAX_RECORD_PAYLOAD_SIZE : Z := 2 ^ 14 - 1.

(** [slice.len()] *)
Abbreviation zlen l := (Z.of_nat (length l)).

(** ** Requests *)

Definition build_connect_request (host : bytes) (port : Z) (reuse : bool) : result bytes :=
  if bool_decide (host = []) then Err (Bail "target host cannot be empty")
  else if 255 <? zlen host then Err (Bail "target host is longer than 255 bytes")
  else if port =? 0 then Err (Bail "target port cannot be zero")
  else
    let command := if reuse then x05 else x01 in
    Ok ([x01; command; x00; z2b (zlen host)] ++ host ++ be16 port).

Definition build_udp_associate_request : bytes := [x01; x06; x00].

(** The server's reading of a CONNECT request: version, command, client id
    length, host, port, and the bytes after it. *)
Definition parse_connect_request (l : bytes) : option (bool * bytes * Z * bytes) :=
  match l with
  | x01 :: cmd :: x00 :: n :: r =>
      let n := Z.to_nat (b2z n) in
      match drop n r with
      | hi :: lo :: rest =>
          if byteb cmd x05 then Some (true, take n r, from_be16 hi lo, rest)
          else if byteb cmd x01 then Some (false, take n r, from_be16 hi lo, rest)
          else None
      | _ => None
      end
  | _ => None
  end.

(** ** Datagrams *)

Definition encode_udp_request (host : bytes) (port : Z) (payload : bytes) : result bytes :=
  if bool_decide (host = []) then Err (Bail "Snell UDP target host cannot be empty")
  else if port =? 0 then Err (Bail "Snell UDP target port cannot be zero")
  else
    let frame := [x01] in
    frame ←
      match parse_ip host with
      | Some (V4 a b c d) => Ok (frame ++ [x00; x04] ++ octets (V4 a b c d))
      | Some (V6 o) => Ok (frame ++ [x00; x06] ++ octets (V6 o))
      | None =>
          if 255 <? zlen host then Err (Bail "Snell UDP target host is longer than 255 bytes")
          else Ok (frame ++ [z2b (zlen host)] ++ host)
      end;
    let frame := frame ++ be16 port in
    if MAX_RECORD_PAYLOAD_SIZE <? zlen frame + zlen payload
    then Err (Bail "Snell UDP datagram is too large")
    else Ok (frame ++ payload).

Definition decode_udp_response (frame : bytes) : result (SocketAddr * bytes) :=
  match frame with
  | [] => Err (Bail "Snell UDP response is empty")
  | address_type :: _ =>
      if b2z address_type =? 4 then
        match frame with
        | _ :: a :: b :: c :: d :: hi :: lo :: rest =>
            let port := from_be16 hi lo in
            if port =? 0 then Err (Bail "Snell UDP response port is zero")
            else Ok (MkSocketAddr (V4 a b c d) port, rest)
        | _ => Err (Bail "Snell UDP response is truncated")
        end
      else if b2z address_type =? 6 then
        match drop 17 frame with
        | hi :: lo :: rest =>
            let port := from_be16 hi lo in
            if port =? 0 then Err (Bail "Snell UDP response port is zero")
            else Ok (MkSocketAddr (V6 (take 16 (drop 1 frame))) port, rest)
        | _ => Err (Bail "Snell UDP response is truncated")
        end
      else Err (Bail "Snell UDP response address type is invalid")
  end.

(** The target of a datagram request as the server reads it. *)
Inductive target : Type := TargetIp (ip : IpAddr) | TargetHost (host : bytes).

(** What the client's text names: a numeric address or a host name. *)
Definition target_of (host : bytes) : target :=
  match parse_ip host with Some ip => TargetIp ip | None => TargetHost host end.

Definition parse_udp_request (l : bytes) : option (target * Z * bytes) :=
  match l with
  | x01 :: x00 :: x04 :: a :: b :: c :: d :: hi :: lo :: rest =>
      Some (TargetIp (V4 a b c d), from_be16 hi lo, rest)
  | x01 :: x00 :: x06 :: r =>
      match drop 16 r with
      | hi :: lo :: rest => Some (TargetIp (V6 (take 16 r)), from_be16 hi lo, rest)
      | _ => None
      end
  | x01 :: n :: r =>
      let n := Z.to_nat (b2z n) in
      match drop n r with
      | hi :: lo :: rest =>
          if (n =? 0)%nat then None else Some (TargetHost (take n r), from_be16 hi lo, rest)
      | _ => None
      end
  | _ => None
  end.

(** The server's encoding of a datagram response. *)
Definition udp_response (source : SocketAddr) (payload : bytes) : bytes :=
  (if is_ipv4 (sa_ip source) then x04 else x06)
    :: octets (sa_ip source) ++ be16 (sa_port source) ++ payload.

(** ** Identity v2 *)

Section Identity.
(** [hmac_sha256 key message] and [Sha256::digest] *)
Context (hmac_sha256 : bytes → bytes → bytes) (sha256 : bytes → bytes).

Definition IDENTITY_V2_MAGIC : bytes := lit "DLSNID02".
Definition IDENTITY_V2_ROOT_LABEL : bytes := lit "oix/snell-ech/2/auth-root".
Definition IDENTITY_COMPONENT_SIZE : nat := 16.

Record IdentityV2Key : Type := MkIdentity {
  identity : bytes;
  authentication_key : bytes
}.

Definition derive_key (root label : bytes) : bytes := hmac_sha256 root (label ++ [x01]).

Definition identity_new (psk : bytes) : result IdentityV2Key :=
  if bool_decide (psk = []) then Err (Bail "PSK cannot be empty")
  else
    let root_label_hash := sha256 IDENTITY_V2_ROOT_LABEL in
    let root := hmac_sha256 root_label_hash psk in
    let identity_key := derive_key root (lit "identity") in
    let authentication_key := derive_key root (lit "authentication") in
    Ok (MkIdentity (take IDENTITY_COMPONENT_SIZE identity_key) authentication_key).

Definition identity_build (k : IdentityV2Key) (exporter nonce : bytes) : bytes :=
  let context := IDENTITY_V2_MAGIC ++ exporter ++ nonce ++ identity k in
  let authentication := hmac_sha256 (authentication_key k) context in
  nonce ++ IDENTITY_V2_MAGIC ++ identity k ++ take IDENTITY_COMPONENT_SIZE authentication.

Definition build_identity_v2 (psk exporter nonce : bytes) : result bytes :=
  k ← identity_new psk; Ok (identity_build k exporter nonce).

(** The peer's check of a preamble against its own key. *)
Definition identity_accepts (k : IdentityV2Key) (exporter preamble : bytes) : bool :=
  let nonce := take 16 preamble in
  bytes_eqb preamble (identity_build k exporter nonce).
End Identity.

(** ** Lemmas on the formats *)

Lemma length_be16 z : length (be16 z) = 2%nat.
Proof. done. Qed.
#[export] Hint Rewrite length_be16 : slices.

Lemma zlen_byte (l : bytes) : zlen l <= 255 → Z.to_nat (b2z (z2b (zlen l))) = length l.
Proof. intros. rewrite b2z_z2b_small by lia. lia. Qed.

Lemma drop_1_octets ip r : wf_ip ip →
  take (length (octets ip)) (octets ip ++ r) = octets ip ∧
  drop (length (octets ip)) (octets ip ++ r) = r.
Proof. intros. by rewrite take_app_length, drop_app_length. Qed.

Lemma decode_udp_response_encode source payload :
  wf_sa source → sa_port source ≠ 0 →
  decode_udp_response (udp_response source payload) = Ok (source, payload).
Proof.
  destruct source as [ip port]. unfold wf_sa, udp_response, sa_ip, sa_port.
  intros [Hip Hp] Hz. apply Z.eqb_neq in Hz.
  destruct ip as [a b c d|o]; cbn [is_ipv4 octets].
  - rewrite be16_app. cbn. by rewrite from_be16_be16, Hz.
  - cbn in Hip. unfold decode_udp_response.
    change (b2z x06 =? 4) with false. change (b2z x06 =? 6) with true. cbn iota.
    change (drop 17 (x06 :: ?r)) with (drop 16 r). change (drop 1 (x06 :: ?r)) with r.
    rewrite drop_app_len, take_app_len by done. rewrite be16_app. cbn. by rewrite from_be16_be16, Hz.
Qed.

Lemma decode_udp_response_sound frame source payload :
  decode_udp_response frame = Ok (source, payload) →
  wf_sa source ∧ sa_port source ≠ 0 ∧ frame = udp_response source payload.
Proof.
  unfold decode_udp_response. destruct frame as [|t r]; [done|].
  destruct (b2z t =? 4) eqn:E4.
  { reflect_bools. assert (t = x04) as -> by (by apply (inj b2z)).
    destruct r as [|a [|b [|c [|d [|hi [|lo r]]]]]]; try done.
    destruct (from_be16 hi lo =? 0) eqn:Hp; [done|]. intros [= <- <-]. reflect_bools.
    pose proof (from_be16_range hi lo).
    unfold udp_response, wf_sa; simpl. by autorewrite with bytes. }
  destruct (b2z t =? 6) eqn:E6; [|done]. reflect_bools.
  assert (t = x06) as -> by (by apply (inj b2z)).
  change (drop 17 (x06 :: r)) with (drop 16 r). change (drop 1 (x06 :: r)) with r.
  destruct (drop 16 r) as [|hi [|lo rest]] eqn:Ed; try done.
  destruct (from_be16 hi lo =? 0) eqn:Hp; [done|]. intros [= <- <-]. reflect_bools.
  pose proof (from_be16_range hi lo).
  assert (16 < length r)%nat.
  { apply (f_equal length) in Ed. rewrite length_drop in Ed. simpl in Ed. lia. }
  unfold udp_response, wf_sa; simpl. autorewrite with bytes. rewrite length_take.
  split_and!; [lia|done|done|]. f_equal. change ([hi; lo] ++ rest) with (hi :: lo :: rest).
  by rewrite <-Ed, take_drop.
Qed.

(** ** Properties *)

(** a CONNECT request is built exactly for a host of 1 to 255 bytes and a
    nonzero port, and the server reads back the same reuse flag, host and port
    and finds the bytes that follow the request untouched. *)
Theorem connect_request_roundtrip host port reuse rest :
  u16 port →
  (is_ok (build_connect_request host port reuse) = true ↔
    host ≠ [] ∧ zlen host <= 255 ∧ port ≠ 0) ∧
  (∀ req, build_connect_request host port reuse = Ok req →
    parse_connect_request (req ++ rest) = Some (reuse, host, port, rest)).
Proof.
  intros Hp. unfold build_connect_request.
  destruct (bool_decide (host = [])) eqn:Eh; reflect_bools; [naive_solver|].
  destruct (255 <? zlen host) eqn:El; reflect_bools.
  { split; [|done]. split; [done|]. intros (_ & ? & _). lia. }
  destruct (port =? 0) eqn:Ez; reflect_bools; [naive_solver|].
  split; [done|]. intros req [= <-].
  simpl. rewrite <-app_assoc, zlen_byte by lia.
  rewrite drop_app_length, take_app_length, be16_app. simpl.
  rewrite from_be16_be16 by done. by destruct reuse.
Qed.

Lemma connect_request_roundtrip_witness :
  u16 443 ∧ parse_connect_request
    (match build_connect_request (lit "example.com") 443 true with Ok r => r | _ => [] end
      ++ lit "next") = Some (true, lit "example.com", 443, lit "next").
Proof.
  split; [unfold u16, U16_MAX; lia|].
  pose proof (connect_request_roundtrip (lit "example.com") 443 true (lit "next")) as H.
  destruct H as [_ H]; [unfold u16, U16_MAX; lia|].
  exact (H _ eq_refl).
Defined.

(** a datagram request that is built fits one Snell record, and the server
    reads back the address or host name the client's text names, the port and
    the payload; it is refused only for an empty or overlong host, a zero port
    or a datagram over the record limit. *)
Theorem udp_request_roundtrip host port payload frame :
  u16 port →
  encode_udp_request host port payload = Ok frame →
  parse_udp_request frame = Some (target_of host, port, payload) ∧
  zlen frame <= MAX_RECORD_PAYLOAD_SIZE ∧ host ≠ [] ∧ port ≠ 0.
Proof.
  intros Hp. unfold encode_udp_request, target_of.
  destruct (bool_decide (host = [])) eqn:Eh; reflect_bools; [done|].
  destruct (port =? 0) eqn:Ez; reflect_bools; [done|].
  intros H. apply result_bind_inv in H as (pre & Hpre & H).
  destruct (MAX_RECORD_PAYLOAD_SIZE <? _) eqn:El; reflect_bools; [done|].
  injection H as <-. split; [|slices; split_and!; [lia|done|done]].
  clear El. rewrite <-app_assoc.
  destruct (parse_ip host) as [[a b c d|o]|] eqn:Eip; simplify_eq/=.
  - by rewrite from_be16_be16.
  - apply parse_ip_wf in Eip. unfold wf_ip in Eip.
    rewrite drop_app_len, take_app_len by done.
    rewrite ?be16_app. simpl. by rewrite from_be16_be16.
  - destruct (255 <? zlen host) eqn:E5; [done|]. reflect_bools. injection Hpre as <-.
    assert (z2b (zlen host) ≠ x00) as Hn.
    { intros Hz%(f_equal b2z). rewrite b2z_z2b_small in Hz by lia.
      change (b2z x00) with 0 in Hz. by destruct host. }
    simpl. pose proof (zlen_byte host) as Hzl.
    destruct (z2b (zlen host)); try done;
      rewrite Hzl by lia; rewrite drop_app_length, take_app_length, ?be16_app; simpl;
      (rewrite from_be16_be16 by done); by destruct host.
Qed.

Lemma udp_request_roundtrip_witness :
  u16 53 ∧
  (∀ frame, encode_udp_request (lit "2001:db8::1") 53 (lit "q") = Ok frame →
    parse_udp_request frame = Some (target_of (lit "2001:db8::1"), 53, lit "q")) ∧
  is_ok (encode_udp_request (lit "2001:db8::1") 53 (lit "q")) = true.
Proof.
  assert (u16 53) as Hp by (unfold u16, U16_MAX; lia).
  split_and!; [done| |vm_compute; done].
  intros frame H. exact (proj1 (udp_request_roundtrip _ _ _ _ Hp H)).
Defined.

(** datagram responses are decoded exactly when they are the encoding of a
    source address with a nonzero port followed by the payload; every other
    frame is an error, never a panic. *)
Theorem udp_response_decode_iff frame source payload :
  decode_udp_response frame = Ok (source, payload) ↔
    wf_sa source ∧ sa_port source ≠ 0 ∧ frame = udp_response source payload.
Proof.
  split; [apply decode_udp_response_sound|].
  intros (? & ? & ->). by apply decode_udp_response_encode.
Qed.
