(* ===== verification/AsyncIo.v ===== *)
(** * AsyncIo: the transports the protocol code is generic over

    The [AsyncRead] and [AsyncWrite] traits as interfaces, the in-memory
    implementations the theorems run on, and the chunked reader that models
    [AsyncBufRead]. *)
From S2P Require Import Prelude Bytes.

(** [W: AsyncWrite] with the extension methods the code calls. *)
Class AsyncWrite (W : Type) : Type := {
  write_all : bytes → M W unit;
  flush : M W unit;
  shutdown : M W unit
}.

(** [R: AsyncRead] with [read_exact]. *)
Class AsyncRead (R : Type) : Type := {
  read_exact : nat → M R bytes
}.

#[global] Arguments read_exact {_ _} _ : simpl never.
#[global] Arguments write_all {_ _} _ : simpl never.
#[global] Arguments flush {_ _} : simpl never.
#[global] Arguments shutdown {_ _} : simpl never.

(** A transport that exposes written bytes to the peer only when flushed, as a
    TLS stream whose send buffer is full does. *)
Record Gated : Type := MkGated { pending : bytes; committed : bytes; gate_closed : bool }.

#[export] Instance gated_write : AsyncWrite Gated := {
  write_all b := λ g,
    if gate_closed g then (Err (Bail "closed"), g)
    else (Ok tt, MkGated (pending g ++ b) (committed g) false);
  flush := λ g,
    if gate_closed g then (Err (Bail "closed"), g)
    else (Ok tt, MkGated [] (committed g ++ pending g) false);
  shutdown := λ g, (Ok tt, MkGated [] (committed g ++ pending g) true)
}.

(** [impl AsyncRead for &[u8]]: the rest of the input. *)
Definition eof : error := Bail "unexpected end of file".

#[export] Instance bytes_read : AsyncRead bytes := {
  read_exact n := λ s,
    if (n <=? length s)%nat then (Ok (take n s), drop n s) else (Err eof, [])
}.

Lemma read_exact_app (l r : bytes) n :
  n = length l → read_exact n (l ++ r) = (Ok l, r).
Proof.
  intros ->. unfold read_exact; simpl. rewrite length_app.
  replace (_ <=? _)%nat with true by (symmetry; apply Nat.leb_le; lia).
  by rewrite take_app_length, drop_app_length.
Qed.

Lemma read_exact_inv (s l r : bytes) n :
  read_exact n s = (Ok l, r) → s = l ++ r ∧ length l = n.
Proof.
  unfold read_exact; simpl. destruct (n <=? length s)%nat eqn:E; [|done].
  intros [= <- <-]. reflect_bools. by rewrite take_drop, length_take_le.
Qed.
