(* ===== verification/SnellRecord.v ===== *)
(** * SnellRecord: the encrypted record layer ([src/snell/record.rs])

    [RecordWriter] and [RecordReader] with their nonce counters, the padding
    interleaving, and the batching writer. Argon2 and AES-GCM are the [argon2]
    and [ring] crates, [getrandom] the source of padding bytes: parameters. *)
From S2P Require Import Prelude Bytes AsyncIo SnellWire.
Local Open Scope Z_scope.

Definition RECORD_NONCE_SIZE : nat := 12.
Definition RECORD_HEADER_PLAIN_SIZE : nat := 7.
Definition RECORD_HEADER_CIPHER_SIZE : nat := RECORD_HEADER_PLAIN_SIZE + 16.
Definition WRITE_BATCH_LIMIT : Z := 65536.

Inductive RecordKind : Type := Payload | Zero.

#[export] Instance record_kind_eq_dec : EqDecision RecordKind.
Proof. solve_decision. Defined.

(** ** The cryptographic crates *)

Class RecordCrypto : Type := {
  (** [Argon2::hash_password_into] with the parameters of the source *)
  argon2id : bytes → bytes → option bytes;
  (** [seal_in_place_separate_tag key nonce plaintext]: ciphertext and tag *)
  aead_seal : bytes → bytes → bytes → option (bytes * bytes);
  (** [open_in_place key nonce (ciphertext ++ tag)] *)
  aead_open : bytes → bytes → bytes → option bytes
}.

(** Their documented behaviour: 32 derived bytes, length-preserving encryption
    with a 16-byte tag, and decryption accepting exactly what encryption under
    the same key and nonce produces. *)
Class RecordCryptoLaws (C : RecordCrypto) : Prop := {
  argon2id_length psk salt d : argon2id psk salt = Some d → length d = 32%nat;
  aead_seal_length k n p c t :
    aead_seal k n p = Some (c, t) → length c = length p ∧ length t = 16%nat;
  aead_open_iff k n ct p :
    aead_open k n ct = Some p ↔
      ∃ c t, aead_seal k n p = Some (c, t) ∧ ct = c ++ t
}.

(** ** Nonces *)

(** [increment_nonce]: little-endian, wrapping in every byte *)
Fixpoint increment_nonce (nonce : bytes) : bytes :=
  match nonce with
  | [] => []
  | value :: rest =>
      let value := z2b (b2z value + 1) in
      if b2z value =? 0 then value :: increment_nonce rest else value :: rest
  end.

Lemma length_increment_nonce n : length (increment_nonce n) = length n.
Proof. induction n as [|b n IH]; simpl; [done|]. by case_match; simpl; rewrite ?IH. Qed.

Lemma le_val_increment n :
  le_val (increment_nonce n) = (le_val n + 1) mod 256 ^ Z.of_nat (length n).
Proof.
  induction n as [|b n IH]; [done|].
  cbn [increment_nonce length]. rewrite Nat2Z.inj_succ, Z.pow_succ_r by lia.
  pose proof (b2z_range b). pose proof (le_val_range n). rewrite b2z_z2b.
  set (m := 256 ^ Z.of_nat (length n)) in *. cbn [le_val].
  destruct ((b2z b + 1) mod 256 =? 0) eqn:E; reflect_bools; cbn [le_val]; rewrite b2z_z2b.
  - assert (b2z b = 255) as ->.
    { destruct (Z.eq_dec (b2z b) 255); [done|]. rewrite Z.mod_small in E; lia. }
    rewrite IH. change ((255 + 1) mod 256) with 0.
    replace (255 + 256 * le_val n + 1) with (256 * (le_val n + 1)) by lia.
    rewrite Z.mul_mod_distr_l by lia. lia.
  - assert (b2z b <> 255) by (intros Hb; rewrite Hb in E; by compute in E).
    rewrite (Z.mod_small (b2z b + 1)) by lia. rewrite Z.mod_small by lia. lia.
Qed.

(** ** Padding interleaving *)

(** [std::mem::swap(&mut padding[index], &mut payload_ciphertext[index])] *)
Definition swap_index (pc : bytes * bytes) (index : nat) : bytes * bytes :=
  match pc.1 !! index, pc.2 !! index with
  | Some x, Some y => (<[index := y]> pc.1, <[index := x]> pc.2)
  | _, _ => pc
  end.

(** [(0..limit).step_by(2)] *)
Definition even_indices (limit : nat) : list nat := filter (λ i, Nat.even i = true) (seq 0 limit).

Definition swap_padding (padding payload_ciphertext : bytes) : bytes * bytes :=
  let limit := Nat.min (length padding) (length payload_ciphertext) in
  fold_left swap_index (even_indices limit) (padding, payload_ciphertext).

(** The same interleaving as one pass over both lists. *)
Fixpoint interleave (p c : bytes) : bytes * bytes :=
  match p, c with
  | p0 :: p1 :: p', c0 :: c1 :: c' =>
      let '(a, b) := interleave p' c' in (c0 :: p1 :: a, p0 :: c1 :: b)
  | p0 :: p', c0 :: c' => (c0 :: p', p0 :: c')
  | _, _ => (p, c)
  end.

Lemma swap_index_length pc i :
  length (swap_index pc i).1 = length pc.1 ∧ length (swap_index pc i).2 = length pc.2.
Proof. unfold swap_index. repeat case_match; simpl; by rewrite ?length_insert. Qed.

Lemma swap_index_cons x y p c i :
  swap_index (x :: p, y :: c) (S i) =
    (x :: (swap_index (p, c) i).1, y :: (swap_index (p, c) i).2).
Proof. unfold swap_index; simpl. by destruct (p !! i), (c !! i). Qed.

Lemma fold_swap_cons2 x0 x1 y0 y1 p c idx :
  fold_left swap_index ((λ i, S (S i)) <$> idx) (x0 :: x1 :: p, y0 :: y1 :: c) =
    (λ r, (x0 :: x1 :: r.1, y0 :: y1 :: r.2)) (fold_left swap_index idx (p, c)).
Proof.
  revert p c; induction idx as [|i idx IH]; intros p c; csimpl; [done|].
  rewrite !swap_index_cons. cbn [fst snd]. rewrite IH.
  by destruct (swap_index (p, c) i).
Qed.

Lemma even_indices_SS n : even_indices (S (S n)) = 0%nat :: ((λ i, S (S i)) <$> even_indices n).
Proof.
  unfold even_indices. cbn [seq]. rewrite filter_cons_True, filter_cons_False by done.
  f_equal. rewrite <-(fmap_S_seq 1), <-(fmap_S_seq 0), <-list_fmap_compose.
  generalize (seq 0 n) as l. induction l as [|i l IH]; csimpl; [done|].
  destruct (decide (Nat.even i = true)).
  - rewrite !filter_cons_True by done. csimpl. by f_equal.
  - by rewrite !filter_cons_False.
Qed.

Lemma swap_padding_interleave p c : swap_padding p c = interleave p c.
Proof.
  revert c. induction p as [p IH] using (induction_ltof1 _ (@length _)); unfold ltof in IH.
  intros c. destruct p as [|p0 [|p1 p]]; [by destruct c|by destruct c|].
  destruct c as [|c0 [|c1 c]]; [done|done|].
  unfold swap_padding. cbn [length Nat.min]. rewrite even_indices_SS.
  cbn [fold_left interleave]. unfold swap_index at 2; simpl.
  rewrite fold_swap_cons2. change (fold_left _ _ _) with (swap_padding p c).
  rewrite IH by (simpl; lia). by destruct (interleave p c).
Qed.

Lemma interleave_involutive p c :
  interleave (interleave p c).1 (interleave p c).2 = (p, c).
Proof.
  revert c. induction p as [p IH] using (induction_ltof1 _ (@length _)); unfold ltof in IH.
  intros c. destruct p as [|p0 [|p1 p]]; [by destruct c|by destruct c as [|? [|]]|].
  destruct c as [|c0 [|c1 c]]; [done|done|]. cbn [interleave].
  specialize (IH p ltac:(simpl; lia) c). destruct (interleave p c) as [a b].
  simpl in *. by rewrite IH.
Qed.

Lemma interleave_length p c :
  length (interleave p c).1 = length p ∧ length (interleave p c).2 = length c.
Proof.
  revert c. induction p as [p IH] using (induction_ltof1 _ (@length _)); unfold ltof in IH.
  intros c. destruct p as [|p0 [|p1 p]]; [by destruct c|by destruct c|].
  destruct c as [|c0 [|c1 c]]; [done|done|]. cbn [interleave].
  specialize (IH p ltac:(simpl; lia) c). destruct (interleave p c) as [a b].
  simpl in *. lia.
Qed.

Lemma swap_padding_involutive p c :
  swap_padding (swap_padding p c).1 (swap_padding p c).2 = (p, c).
Proof. rewrite !swap_padding_interleave. apply interleave_involutive. Qed.

Lemma swap_padding_length p c :
  length (swap_padding p c).1 = length p ∧ length (swap_padding p c).2 = length c.
Proof. rewrite swap_padding_interleave. apply interleave_length. Qed.

(** ** Operations *)

Section Record.
Context `{RecordCrypto}.

Definition derive_record_key (psk salt : bytes) : result bytes :=
  if bool_decide (psk = []) then Err (Bail "PSK cannot be empty")
  else match argon2id psk salt with
       | Some derived => Ok (take 16 derived)
       | None => Err (Bail "derive Snell record key")
       end.

(** [UnboundKey::new(&AES_128_GCM, key)] refuses keys of another length. *)
Definition record_aead (key : bytes) : result bytes :=
  if (length key =? 16)%nat then Ok key else Err (Bail "create Snell AES-GCM").

(** *** Writing

    [scratch] is a reused allocation, cleared before every use, and is left
    out. [sealed] is a ghost log of the nonces handed to the cipher. *)
Record RecordWriter (W : Type) : Type := MkWriter {
  w_writer : W;
  w_aead : bytes;
  w_salt : bytes;
  w_salt_sent : bool;
  w_nonce : bytes;
  w_sealed : list bytes
}.
#[local] Arguments MkWriter {W}.
#[local] Arguments w_writer {W}.
#[local] Arguments w_aead {W}.
#[local] Arguments w_salt {W}.
#[local] Arguments w_salt_sent {W}.
#[local] Arguments w_nonce {W}.
#[local] Arguments w_sealed {W}.

Definition writer_new {W} (writer : W) (psk salt : bytes) : result (RecordWriter W) :=
  key ← derive_record_key psk salt;
  aead ← record_aead key;
  Ok (MkWriter writer aead salt false (replicate RECORD_NONCE_SIZE x00) []).

Definition mark_salt_sent {W} (w : RecordWriter W) : RecordWriter W :=
  MkWriter (w_writer w) (w_aead w) (w_salt w) true (w_nonce w) (w_sealed w).

Definition set_writer {W} (t : W) (w : RecordWriter W) : RecordWriter W :=
  MkWriter t (w_aead w) (w_salt w) (w_salt_sent w) (w_nonce w) (w_sealed w).

(** [seal_in_place_separate_tag] under the current nonce, which is then
    incremented; a failure leaves the nonce. *)
Definition seal {W} (msg : string) (plain : bytes) : M (RecordWriter W) (bytes * bytes) :=
  w ← get;
  match aead_seal (w_aead w) (w_nonce w) plain with
  | None => bail msg
  | Some ct =>
      modify (λ w, MkWriter (w_writer w) (w_aead w) (w_salt w) (w_salt_sent w)
        (increment_nonce (w_nonce w)) (w_sealed w ++ [w_nonce w]));;
      mret ct
  end.

(** The plain header: version 4, two reserved bytes, padding and payload
    lengths as [u16]. *)
Definition frame_header (r1 r2 : byte) (padding_length payload_length : nat) : bytes :=
  [x04; r1; r2] ++ be16 (Z.of_nat padding_length) ++ be16 (Z.of_nat payload_length).

(** [fill n] is what [getrandom::fill] puts into an [n]-byte buffer. *)
Definition encode_frame_append {W} (fill : nat → option bytes)
    (frame payload : bytes) (padding_length : nat) : M (RecordWriter W) bytes :=
  if (MAX_RECORD_PAYLOAD_SIZE <? zlen payload)
     || (MAX_RECORD_PAYLOAD_SIZE <? Z.of_nat padding_length)
  then bail "Snell record size is invalid"
  else if bool_decide (payload = []) && negb (padding_length =? 0)%nat
  then bail "zero-length Snell record cannot contain padding"
  else
    w ← get;
    frame ←
      (if w_salt_sent w then mret frame
       else modify mark_salt_sent;; mret (frame ++ w_salt w));
    '(header, tag) ← seal "encrypt Snell record header"
      (frame_header x00 x00 padding_length (length payload));
    let frame := frame ++ header ++ tag in
    padding ←
      (if (padding_length =? 0)%nat then mret []
       else lift (ok_or (Bail "generate Snell record padding") (fill padding_length)));
    payload_ciphertext ←
      (if bool_decide (payload = []) then mret []
       else '(ciphertext, tag) ← seal "encrypt Snell record payload" payload;
            mret (ciphertext ++ tag));
    let '(padding, payload_ciphertext) := swap_padding padding payload_ciphertext in
    mret (frame ++ padding ++ payload_ciphertext).

Definition encode_frame {W} fill (payload : bytes) (padding_length : nat) :
    M (RecordWriter W) bytes :=
  encode_frame_append fill [] payload padding_length.

(** [&mut self.writer] *)
Definition on_writer {W A} : M W A → M (RecordWriter W) A := zoom w_writer set_writer.

Definition write_and_flush {W} `{AsyncWrite W} (content : bytes) (context : string) :
    M (RecordWriter W) unit :=
  (if bool_decide (content = []) then mret tt
   else catch_map (Fmt context) (on_writer (write_all content)));;
  catch_map (Fmt context) (on_writer flush).

Definition write_frame {W} `{AsyncWrite W} fill (payload : bytes) (padding_length : nat) :
    M (RecordWriter W) unit :=
  frame ← encode_frame_append fill [] payload padding_length;
  write_and_flush frame "write Snell record".

(** [content.chunks(n)]: [fuel] bounds the number of chunks *)
Fixpoint chunks_fuel (fuel n : nat) (content : bytes) : list bytes :=
  match fuel, content with
  | S fuel', _ :: _ => take n content :: chunks_fuel fuel' n (drop n content)
  | _, _ => []
  end.
Definition chunks (n : nat) (content : bytes) : list bytes :=
  chunks_fuel (length content) n content.

(** The loop of [write_payload]: frames are batched and written whenever a
    batch reaches [WRITE_BATCH_LIMIT]; the last batch is returned. *)
Fixpoint write_chunks {W} `{AsyncWrite W} (fill : nat → option bytes)
    (frame : bytes) (cs : list bytes) : M (RecordWriter W) bytes :=
  match cs with
  | [] => mret frame
  | chunk :: cs' =>
      frame ← encode_frame_append fill frame chunk 0;
      if WRITE_BATCH_LIMIT <=? zlen frame then
        catch_map (Fmt "write Snell record") (on_writer (write_all frame));;
        write_chunks fill [] cs'
      else write_chunks fill frame cs'
  end.

Definition write_payload {W} `{AsyncWrite W} (fill : nat → option bytes)
    (content : bytes) : M (RecordWriter W) unit :=
  frame ← write_chunks fill [] (chunks (Z.to_nat MAX_RECORD_PAYLOAD_SIZE) content);
  write_and_flush frame "write Snell record".

Definition write_raw_all {W} `{AsyncWrite W} (content : bytes) : M (RecordWriter W) unit :=
  write_and_flush content "write Snell initial flight".

Definition writer_shutdown {W} `{AsyncWrite W} : M (RecordWriter W) unit :=
  catch_map (Fmt "close Snell transport") (on_writer shutdown).

(** *** Reading *)

Record RecordReader (R : Type) : Type := MkReader {
  r_reader : R;
  r_psk : bytes;
  r_aead : option bytes;
  r_nonce : bytes
}.
#[local] Arguments MkReader {R}.
#[local] Arguments r_reader {R}.
#[local] Arguments r_psk {R}.
#[local] Arguments r_aead {R}.
#[local] Arguments r_nonce {R}.

Definition reader_new {R} (reader : R) (psk : bytes) : RecordReader R :=
  MkReader reader psk None (replicate RECORD_NONCE_SIZE x00).

Definition reader_with_salt {R} (reader : R) (psk salt : bytes) : result (RecordReader R) :=
  key ← derive_record_key psk salt;
  aead ← record_aead key;
  Ok (MkReader reader psk (Some aead) (replicate RECORD_NONCE_SIZE x00)).

Definition set_reader {R} (t : R) (r : RecordReader R) : RecordReader R :=
  MkReader t (r_psk r) (r_aead r) (r_nonce r).
Definition set_aead {R} (k : bytes) (r : RecordReader R) : RecordReader R :=
  MkReader (r_reader r) (r_psk r) (Some k) (r_nonce r).
Definition reader_step_nonce {R} (r : RecordReader R) : RecordReader R :=
  MkReader (r_reader r) (r_psk r) (r_aead r) (increment_nonce (r_nonce r)).

(** The state of [read_frame_into]: the reader and the caller's buffer. *)
Abbreviation ReadM R := (M (RecordReader R * bytes)).
Definition on_reader {R A} : M (RecordReader R) A → ReadM R A :=
  zoom fst (λ r s, (r, s.2)).
Definition on_io {R A} : M R A → ReadM R A :=
  zoom (λ s, r_reader s.1) (λ t s, (set_reader t s.1, s.2)).
Definition set_frame {R} (f : bytes → bytes) : ReadM R unit :=
  modify (λ s, (s.1, f s.2)).

(** The cipher of the stream, established by the 16-byte salt that precedes
    the first record. *)
Definition ensure_aead {R} `{AsyncRead R} : ReadM R bytes :=
  '(r, _) ← get;
  match r_aead r with
  | Some aead => mret aead
  | None =>
      salt ← catch_map (Fmt "read Snell record salt") (on_io (read_exact 16));
      key ← lift (derive_record_key (r_psk r) salt);
      aead ← lift (record_aead key);
      on_reader (modify (set_aead aead));;
      mret aead
  end.

(** [open_in_place] under the current nonce, which is incremented on success. *)
Definition open_next {R} (aead : bytes) (msg : string) (ciphertext : bytes) : ReadM R bytes :=
  '(r, _) ← get;
  plain ← lift (ok_or (Bail msg) (aead_open aead (r_nonce r) ciphertext));
  on_reader (modify reader_step_nonce);;
  mret plain.

(** The payload of a record whose header announced nonzero [payload_length].
    After a failed [open_in_place] the contents of the buffer are
    unspecified; here they keep the ciphertext, with the length the code gave
    the buffer. *)
Definition read_body {R} `{AsyncRead R} (aead : bytes) (padding_length payload_length : nat) :
    ReadM R RecordKind :=
  set_frame (λ _, replicate (padding_length + payload_length + 16) x00);;
  body ← catch_map (Fmt "read Snell record payload")
    (on_io (read_exact (padding_length + payload_length + 16)));
  let '(padding, encrypted_payload) :=
    swap_padding (take padding_length body) (drop padding_length body) in
  set_frame (λ _, padding ++ encrypted_payload);;
  payload ← open_next aead "authenticate Snell record payload" encrypted_payload;
  set_frame (λ _, payload);;
  mret Payload.

Definition read_frame_into {R} `{AsyncRead R} : ReadM R RecordKind :=
  set_frame (λ _, []);;
  aead ← ensure_aead;
  encrypted_header ← catch_map (Fmt "read Snell record header")
    (on_io (read_exact RECORD_HEADER_CIPHER_SIZE));
  header ← open_next aead "authenticate Snell record header" encrypted_header;
  match header with
  | [h0; _; _; p1; p0; l1; l0] =>
      if negb (b2z h0 =? 4) then bail "Snell record header is invalid"
      else
        let padding_length := from_be16 p1 p0 in
        let payload_length := from_be16 l1 l0 in
        if (MAX_RECORD_PAYLOAD_SIZE <? payload_length)
           || (MAX_RECORD_PAYLOAD_SIZE <? padding_length)
        then bail "Snell record size is invalid"
        else if payload_length =? 0 then
          if negb (padding_length =? 0)
          then bail "zero-length Snell record contains padding"
          else mret Zero
        else read_body aead (Z.to_nat padding_length) (Z.to_nat payload_length)
  | _ => bail "authenticate Snell record header"
  end.

Definition read_frame {R} `{AsyncRead R} : M (RecordReader R) bytes := λ r,
  match read_frame_into (r, []) with
  | (Ok Payload, (r', frame)) => (Ok frame, r')
  | (Ok Zero, (r', _)) => (Err ZeroRecord, r')
  | (Err e, (r', _)) => (Err e, r')
  end.
End Record.

#[global] Arguments MkWriter {W}.
#[global] Arguments w_writer {W}.
#[global] Arguments w_aead {W}.
#[global] Arguments w_salt {W}.
#[global] Arguments w_salt_sent {W}.
#[global] Arguments w_nonce {W}.
#[global] Arguments w_sealed {W}.
#[global] Arguments MkReader {R}.
#[global] Arguments r_reader {R}.
#[global] Arguments r_psk {R}.
#[global] Arguments r_aead {R}.
#[global] Arguments r_nonce {R}.

(** ** The wire format *)

Section Wire.
Context `{C : RecordCrypto}.

(** [wire] is the frame of [payload] and [padding] under [key] starting at
    [nonce], with reserved header bytes [r1 r2]; [nonce'] follows it. *)
Definition frame_wire (key nonce : bytes) (r1 r2 : byte) (payload padding wire nonce' : bytes) :
    Prop :=
  zlen payload <= MAX_RECORD_PAYLOAD_SIZE ∧ zlen padding <= MAX_RECORD_PAYLOAD_SIZE ∧
  ∃ h ht, aead_seal key nonce (frame_header r1 r2 (length padding) (length payload))
            = Some (h, ht) ∧
    if bool_decide (payload = []) then
      padding = [] ∧ wire = h ++ ht ∧ nonce' = increment_nonce nonce
    else ∃ c t, aead_seal key (increment_nonce nonce) payload = Some (c, t) ∧
      wire = h ++ ht ++ (swap_padding padding (c ++ t)).1
               ++ (swap_padding padding (c ++ t)).2 ∧
      nonce' = increment_nonce (increment_nonce nonce).

(** The nonces one frame hands to the cipher. *)
Definition frame_nonces (nonce payload : bytes) : list bytes :=
  if bool_decide (payload = []) then [nonce] else [nonce; increment_nonce nonce].

(** A random source that fills the buffer it is given. *)
Definition fills (fill : nat → option bytes) : Prop :=
  ∀ n b, fill n = Some b → length b = n.

Lemma seal_inv {W} msg p (w w' : RecordWriter W) ct :
  seal msg p w = (Ok ct, w') →
  aead_seal (w_aead w) (w_nonce w) p = Some ct ∧
  w' = MkWriter (w_writer w) (w_aead w) (w_salt w) (w_salt_sent w)
         (increment_nonce (w_nonce w)) (w_sealed w ++ [w_nonce w]).
Proof.
  unfold seal. intros Hs. M_inv. destruct (aead_seal _ _ p) eqn:E; by M_inv.
Qed.

(** Everything a successful encoding does. *)
Lemma encode_frame_append_inv {W} fill frame payload pl (w w' : RecordWriter W) out :
  fills fill →
  encode_frame_append fill frame payload pl w = (Ok out, w') →
  ∃ padding wire,
    out = frame ++ (if w_salt_sent w then [] else w_salt w) ++ wire ∧
    frame_wire (w_aead w) (w_nonce w) x00 x00 payload padding wire (w_nonce w') ∧
    length padding = pl ∧
    w' = MkWriter (w_writer w) (w_aead w) (w_salt w) true (w_nonce w')
           (w_sealed w ++ frame_nonces (w_nonce w) payload).
Proof.
  intros Hfill. unfold encode_frame_append.
  destruct ((_ <? zlen payload) || _) eqn:Esz; [done|].
  destruct (bool_decide (payload = []) && _) eqn:Ez; [done|]. intros Hrun.
  M_inv.
  rename select (seal _ (frame_header _ _ _ _) _ = _) into Hseal.
  lazymatch goal with Hs : (if w_salt_sent ?w then _ else _) _ = (Ok ?f, ?s1) |- _ =>
    assert (f = frame ++ (if w_salt_sent w then [] else w_salt w) ∧
            s1 = mark_salt_sent w) as [-> ->]
      by (destruct w as [? ? ? [] ? ?]; simpl in *; M_inv; rewrite ?app_nil_r; done)
  end.
  apply seal_inv in Hseal as [Hh ->].
  lazymatch goal with Hp : (if (pl =? 0)%nat then _ else _) ?s0 = (Ok ?p, ?s) |- _ =>
    assert (length p = pl ∧ s = s0) as [Hpl ->]
      by (destruct (pl =? 0)%nat eqn:?; M_inv; reflect_bools; eauto)
  end.
  simpl in *.
  eexists _, _. split; [by rewrite <-!app_assoc|]. unfold frame_wire, frame_nonces.
  reflect_bools. rewrite Hpl. destruct (bool_decide (payload = [])) eqn:Ep; M_inv.
  - destruct x3; [|done]. injection Heqp as <- <-. split_and!; try done.
    eexists _, _. split; [done|]. by rewrite app_nil_r.
  - rename select (seal _ payload _ = _) into Hs. apply seal_inv in Hs as [Hc ->]. simpl in *.
    split_and!; try done; [|by rewrite <-app_assoc].
    eexists _, _. split; [done|]. eexists _, _. by rewrite Heqp.
Qed.

(** *** Reading back *)

Context `{!RecordCryptoLaws C}.

Lemma record_aead_inv k a : record_aead k = Ok a → a = k ∧ length k = 16%nat.
Proof. unfold record_aead. destruct (_ =? _)%nat eqn:E; [|done]. intros [= <-]. by reflect_bools. Qed.

Lemma derive_record_key_length psk salt k :
  derive_record_key psk salt = Ok k → length k = 16%nat.
Proof.
  unfold derive_record_key. destruct (bool_decide _); [done|].
  destruct (argon2id psk salt) as [d|] eqn:E; [|done]. intros [= <-].
  apply argon2id_length in E. rewrite length_take. lia.
Qed.

Lemma record_aead_derived psk salt k :
  derive_record_key psk salt = Ok k → record_aead k = Ok k.
Proof. unfold record_aead. intros ->%derive_record_key_length. done. Qed.

(** One [open_next] of a sealed text. *)
Lemma open_next_sealed {R} aead msg p c t (r : RecordReader R) buf :
  aead_seal aead (r_nonce r) p = Some (c, t) →
  open_next aead msg (c ++ t) (r, buf) = (Ok p, (reader_step_nonce r, buf)).
Proof.
  intros Hs. unfold open_next, mbind, M_bind; simpl.
  replace (aead_open aead (r_nonce r) (c ++ t)) with (Some p)
    by (symmetry; apply aead_open_iff; eauto). done.
Qed.

Lemma open_next_inv {R} aead msg ct (s s' : RecordReader R * bytes) p :
  open_next aead msg ct s = (Ok p, s') →
  (∃ c t, aead_seal aead (r_nonce s.1) p = Some (c, t) ∧ ct = c ++ t) ∧
  s' = (reader_step_nonce s.1, s.2).
Proof.
  unfold open_next. intros H. destruct s as [r b]. M_inv. simpl in *.
  split; [by apply aead_open_iff|]. unfold on_reader, zoom in *. simpl in *. congruence.
Qed.

(** Reading a frame that is at the front of the input, the cipher known. *)
Lemma header_lengths r1 r2 (padding payload : bytes) :
  zlen payload <= MAX_RECORD_PAYLOAD_SIZE → zlen padding <= MAX_RECORD_PAYLOAD_SIZE →
  ∃ p1 p0 l1 l0,
    frame_header r1 r2 (length padding) (length payload) = [x04; r1; r2; p1; p0; l1; l0] ∧
    from_be16 p1 p0 = zlen padding ∧ from_be16 l1 l0 = zlen payload.
Proof.
  unfold MAX_RECORD_PAYLOAD_SIZE. intros Hl Hp. eexists _, _, _, _. split; [done|].
  split; apply from_be16_be16; unfold u16, U16_MAX; lia.
Qed.

Lemma read_body_app key (r : RecordReader bytes) buf padding payload c t rest :
  aead_seal key (r_nonce r) payload = Some (c, t) →
  r_reader r = (swap_padding padding (c ++ t)).1 ++ (swap_padding padding (c ++ t)).2 ++ rest →
  read_body key (length padding) (length payload) (r, buf) =
    (Ok Payload, (reader_step_nonce (set_reader rest r), payload)).
Proof.
  intros Hs Hr. destruct (aead_seal_length _ _ _ _ _ Hs) as [Hc Ht].
  destruct (swap_padding_length padding (c ++ t)) as [H1 H2].
  pose proof (swap_padding_involutive padding (c ++ t)) as Hinv.
  destruct (swap_padding padding (c ++ t)) as [a b]; simpl in *.
  unfold read_body. erewrite M_bind_ok by done.
  erewrite M_bind_ok.
  2: { unfold catch_map, on_io, zoom; simpl. rewrite Hr, app_assoc.
       rewrite read_exact_app by (rewrite length_app, H1, H2, length_app; lia). done. }
  rewrite take_app_len, drop_app_len, Hinv by done. simpl.
  erewrite M_bind_ok by done.
  erewrite M_bind_ok by (apply open_next_sealed; exact Hs). done.
Qed.

Lemma read_frame_known key r1 r2 (r : RecordReader bytes) buf payload padding wire nonce' rest :
  r_aead r = Some key →
  frame_wire key (r_nonce r) r1 r2 payload padding wire nonce' →
  r_reader r = wire ++ rest →
  read_frame_into (r, buf) =
    (Ok (if bool_decide (payload = []) then Zero else Payload),
     (MkReader rest (r_psk r) (Some key) nonce', payload)).
Proof.
  intros Hk (Hl & Hp & h & ht & Hh & Hrest) Hr.
  destruct (aead_seal_length _ _ _ _ _ Hh) as [Hhl Htl].
  destruct (header_lengths r1 r2 padding payload Hl Hp) as (p1&p0&l1&l0&Hhd&Hpl&Hll).
  rewrite Hhd in Hh, Hhl. simpl in Hhl.
  set (body := if bool_decide (payload = []) then [] else drop (length (h ++ ht)) wire).
  assert (Hw : wire = (h ++ ht) ++ drop (length (h ++ ht)) wire).
  { destruct (bool_decide _); destruct_and?.
    - subst wire. by rewrite drop_all, app_nil_r.
    - destruct Hrest as (? & ? & _ & -> & _). by rewrite app_assoc, drop_app_length. }
  unfold read_frame_into. erewrite M_bind_ok by done.
  erewrite M_bind_ok.
  2: { unfold ensure_aead. erewrite M_bind_ok by done. simpl. by rewrite Hk. }
  rewrite Hw, <-app_assoc in Hr.
  erewrite M_bind_ok.
  2: { unfold catch_map, on_io, zoom; simpl. rewrite Hr.
       rewrite read_exact_app by (rewrite length_app, Hhl, Htl; done). done. }
  erewrite M_bind_ok by (apply open_next_sealed; exact Hh). simpl.
  change (b2z x04 =? 4) with true. cbn [negb]. rewrite Hpl, Hll.
  replace ((MAX_RECORD_PAYLOAD_SIZE <? zlen payload)
           || (MAX_RECORD_PAYLOAD_SIZE <? zlen padding)) with false
    by (symmetry; apply orb_false_iff; split; apply Z.ltb_ge; done).
  destruct (bool_decide (payload = [])) eqn:E; reflect_bools.
  - subst payload. destruct Hrest as (-> & -> & ->). simpl.
    rewrite drop_all, app_nil_l. unfold mret, M_ret, reader_step_nonce; simpl. by rewrite Hk.
  - destruct Hrest as (c & t & Hc & -> & ->).
    replace (zlen payload =? 0) with false
      by (symmetry; apply Z.eqb_neq; destruct payload; simpl; [done|lia]).
    rewrite !Nat2Z.id.
    erewrite read_body_app; [|exact Hc|].
    + unfold reader_step_nonce; simpl. by rewrite Hk.
    + simpl. by rewrite (app_assoc h), drop_app_length, <-app_assoc.
Qed.

Definition kind_of (payload : bytes) : RecordKind :=
  if bool_decide (payload = []) then Zero else Payload.

(** *** Reading accepts only frames *)

Lemma on_io_read_exact_inv n (s s' : RecordReader bytes * bytes) b :
  on_io (read_exact n) s = (Ok b, s') →
  length b = n ∧ ∃ rest, r_reader s.1 = b ++ rest ∧ s' = (set_reader rest s.1, s.2).
Proof.
  unfold on_io. intros (t & Hr & ->)%zoom_inv. apply read_exact_inv in Hr as [-> <-]. eauto.
Qed.

Lemma header_bytes r1 r2 p1 p0 l1 l0 (padding payload : bytes) :
  zlen padding = from_be16 p1 p0 → zlen payload = from_be16 l1 l0 →
  frame_header r1 r2 (length padding) (length payload) = [x04; r1; r2; p1; p0; l1; l0].
Proof. intros Hp Hl. unfold frame_header. rewrite Hp, Hl. by rewrite !be16_from_be16. Qed.

Lemma ensure_aead_known {R} `{AsyncRead R} key (r : RecordReader R) buf :
  r_aead r = Some key → ensure_aead (r, buf) = (Ok key, (r, buf)).
Proof. intros Hk. unfold ensure_aead. erewrite M_bind_ok by done. simpl. by rewrite Hk. Qed.

Lemma read_body_inv key pl ll (r r' : RecordReader bytes) buf frame kind :
  read_body key pl ll (r, buf) = (Ok kind, (r', frame)) →
  kind = Payload ∧ length frame = ll ∧
  ∃ padding c t, length padding = pl ∧ aead_seal key (r_nonce r) frame = Some (c, t) ∧
    r_reader r = (swap_padding padding (c ++ t)).1 ++ (swap_padding padding (c ++ t)).2
                 ++ r_reader r' ∧
    r' = reader_step_nonce (set_reader (r_reader r') r).
Proof.
  unfold read_body, set_frame. intros H. M_inv.
  rename select (on_io _ _ = _) into Hio. apply on_io_read_exact_inv in Hio as (Hlen & rest & Hr & ->).
  simpl in *. rename select (swap_padding _ _ = _) into Hsw.
  match type of Hsw with _ = (?a, _) => rename a into padding end.
  rename select (open_next _ _ _ _ = _) into Hop.
  apply open_next_inv in Hop as [(c & t & Hs & ->) ->]. simpl in *.
  destruct (aead_seal_length _ _ _ _ _ Hs) as [Hc Ht].
  match type of Hr with _ = ?b ++ _ => rename b into body end.
  pose proof (swap_padding_length (take pl body) (drop pl body)) as [H1 H2].
  rewrite Hsw in H1, H2. simpl in *. rewrite length_take in H1. rewrite length_drop in H2.
  rewrite length_app in H2. split_and!; [done|lia|].
  exists padding, c, t. split; [lia|]. split; [done|].
  pose proof (swap_padding_involutive (take pl body) (drop pl body)) as Hinv.
  rewrite Hsw in Hinv. simpl in Hinv. rewrite Hinv. simpl.
  split; [|done]. by rewrite app_assoc, take_drop.
Qed.

Lemma read_frame_accepts key (r r' : RecordReader bytes) buf kind frame :
  r_aead r = Some key →
  read_frame_into (r, buf) = (Ok kind, (r', frame)) →
  kind = kind_of frame ∧ r_aead r' = Some key ∧ r_psk r' = r_psk r ∧
  ∃ r1 r2 padding wire,
    frame_wire key (r_nonce r) r1 r2 frame padding wire (r_nonce r') ∧
    r_reader r = wire ++ r_reader r'.
Proof.
  intros Hk. unfold read_frame_into.
  rewrite (M_bind_ok (set_frame _) _ _ tt (r, [])) by done.
  erewrite M_bind_ok by (by apply ensure_aead_known). intros H. M_inv.
  rename select (on_io _ _ = _) into Hio. apply on_io_read_exact_inv in Hio as (Hlen & rest & Hr & ->).
  rename select (open_next _ _ _ _ = _) into Hop.
  apply open_next_inv in Hop as [(h & ht & Hh & ->) ->]. simpl in *.
  match type of Hh with aead_seal _ _ ?x = _ =>
    destruct x as [|h0 [|r1 [|r2 [|p1 [|p0 [|l1 [|l0 [|]]]]]]]]; try done
  end.
  destruct (negb _) eqn:Hv in H; [done|]. apply negb_false_iff, Z.eqb_eq in Hv.
  apply (inj b2z _ x04) in Hv as ->.
  destruct (_ || _) eqn:Hb in H; [done|]. reflect_bools. unfold kind_of.
  pose proof (from_be16_range p1 p0) as [Hp0 _]. pose proof (from_be16_range l1 l0) as [Hl0 _].
  destruct (from_be16 l1 l0 =? 0) eqn:Hz in H; reflect_bools.
  - destruct (negb _) eqn:Hz' in H; [done|]. reflect_bools. M_inv. split_and!; try done.
    exists r1, r2, [], (h ++ ht). split; [|done]. split; [done|]. split; [done|].
    exists h, ht. rewrite (header_bytes _ _ p1 p0 l1 l0); [done..|]; simpl; lia.
  - apply read_body_inv in H as (-> & Hfl & padding & c & t & Hpl & Hs & Hrd & Hr'). simpl in *.
    assert (frame ≠ []) as Hne by (intros ->; simpl in *; lia).
    rewrite bool_decide_eq_false_2 by done. rewrite Hr'. simpl. split_and!; try done.
    exists r1, r2, padding, ((h ++ ht) ++ (swap_padding padding (c ++ t)).1
                             ++ (swap_padding padding (c ++ t)).2).
    split; [|by rewrite Hr, Hrd, <-!app_assoc].
    split; [lia|]. split; [lia|]. exists h, ht. rewrite bool_decide_eq_false_2 by done.
    rewrite (header_bytes _ _ p1 p0 l1 l0) by lia. split; [done|].
    exists c, t. by rewrite <-app_assoc.
Qed.

(** *** Whole streams *)

(** A reader ready to read what the writer sends next: the same nonce, and
    either the same cipher or the salt still to come. *)
Definition in_sync {W} (w : RecordWriter W) (r : RecordReader bytes) : Prop :=
  r_nonce r = w_nonce w ∧ length (w_salt w) = 16%nat ∧
  derive_record_key (r_psk r) (w_salt w) = Ok (w_aead w) ∧
  r_aead r = if w_salt_sent w then Some (w_aead w) else None.

(** Frames encoded one after the other, each with its padding length. *)
Fixpoint encode_frames {W} (fill : nat → option bytes) (frames : list (bytes * nat)) :
    M (RecordWriter W) bytes :=
  match frames with
  | [] => mret []
  | (payload, padding_length) :: frames' =>
      frame ← encode_frame fill payload padding_length;
      rest ← encode_frames fill frames';
      mret (frame ++ rest)
  end.

(** [count] calls of [read_frame_into] with one reused buffer. *)
Fixpoint read_frames {R} `{AsyncRead R} (count : nat) (buf : bytes) :
    M (RecordReader R) (list (RecordKind * bytes)) := λ r,
  match count with
  | O => (Ok [], r)
  | S n =>
      match read_frame_into (r, buf) with
      | (Ok kind, (r', frame)) => ((λ l, (kind, frame) :: l) <$> (read_frames n frame r').1,
                                  (read_frames n frame r').2)
      | (Err e, (r', _)) => (Err e, r')
      end
  end.

Lemma ensure_aead_salt (r : RecordReader bytes) buf salt rest key :
  r_aead r = None → r_reader r = salt ++ rest → length salt = 16%nat →
  derive_record_key (r_psk r) salt = Ok key →
  ensure_aead (r, buf) = (Ok key, (set_aead key (set_reader rest r), buf)).
Proof.
  intros Hn Hr Hl Hk. unfold ensure_aead. erewrite M_bind_ok by done. simpl. rewrite Hn.
  erewrite M_bind_ok.
  2: { unfold catch_map, on_io, zoom; simpl. by rewrite Hr, read_exact_app. }
  erewrite M_bind_ok by (unfold lift; rewrite Hk; done).
  erewrite M_bind_ok by (unfold lift; rewrite (record_aead_derived _ _ _ Hk); done).
  done.
Qed.

(** The salt step and a known cipher lead to the same reading. *)
Lemma read_frame_salt (r : RecordReader bytes) buf salt rest key :
  r_aead r = None → r_reader r = salt ++ rest → length salt = 16%nat →
  derive_record_key (r_psk r) salt = Ok key →
  read_frame_into (r, buf) = read_frame_into (set_aead key (set_reader rest r), buf).
Proof.
  intros Hn Hr Hl Hk. unfold read_frame_into.
  rewrite !(M_bind_ok (set_frame _) _ _ tt (_, [])) by done.
  erewrite (M_bind_ok _ _ (r, [])) by (by eapply ensure_aead_salt).
  by rewrite (M_bind_ok ensure_aead _ _ key (set_aead key (set_reader rest r), [])).
Qed.

Lemma frame_step {W} fill payload pl (w w' : RecordWriter W) wire (r : RecordReader bytes) rest :
  fills fill → in_sync w r →
  encode_frame fill payload pl w = (Ok wire, w') → r_reader r = wire ++ rest →
  ∃ r', (∀ buf, read_frame_into (r, buf) = (Ok (kind_of payload), (r', payload))) ∧
        r_reader r' = rest ∧ in_sync w' r'.
Proof.
  intros Hfill (Hn & Hsl & Hkey & Ha) Henc Hr.
  apply encode_frame_append_inv in Henc as (padding & body & -> & Hw & Hpl & ->); [|done].
  rewrite <-Hn in Hw. rewrite app_nil_l in Hr. unfold kind_of.
  destruct (w_salt_sent w) eqn:Es; simpl in *.
  - eexists. split; [intros buf; by eapply read_frame_known|]. done.
  - rewrite <-app_assoc in Hr. eexists. split.
    { intros buf. erewrite read_frame_salt; [|done|exact Hr|done|exact Hkey].
      by eapply read_frame_known. }
    done.
Qed.

Lemma read_encode_frames {W} fill frames (w w' : RecordWriter W) wire (r : RecordReader bytes)
    buf rest :
  fills fill → in_sync w r →
  encode_frames fill frames w = (Ok wire, w') → r_reader r = wire ++ rest →
  ∃ r', read_frames (length frames) buf r
          = (Ok ((λ f, (kind_of f.1, f.1)) <$> frames), r') ∧
        r_reader r' = rest ∧ in_sync w' r'.
Proof.
  intros Hfill. revert w wire r buf; induction frames as [|[payload pl] frames IH];
    intros w wire r buf Hsync Henc Hr; cbn [encode_frames] in Henc.
  - M_inv. by eexists.
  - M_inv. rename select (encode_frame _ _ _ _ = _) into H1.
    rename select (encode_frames _ _ _ = _) into H2. rewrite <-app_assoc in Hr.
    eapply frame_step in H1 as (r1 & Hread & Hr1 & Hs1); [|done..]. specialize (Hread buf).
    eapply IH in H2 as (r' & Hrd & ? & ?); [|done..].
    exists r'. cbn [length read_frames]. rewrite Hread, Hrd. done.
Qed.

Lemma writer_new_inv {W} (t : W) psk salt w :
  writer_new t psk salt = Ok w →
  ∃ key, derive_record_key psk salt = Ok key ∧ record_aead key = Ok key ∧
    w = MkWriter t key salt false (replicate RECORD_NONCE_SIZE x00) [].
Proof.
  unfold writer_new. destruct (derive_record_key psk salt) as [key|] eqn:E; [|done]. simpl.
  rewrite (record_aead_derived _ _ _ E). simpl. intros [= <-]. eauto using record_aead_derived.
Qed.

(** *** Nonces *)

Fixpoint inc_n (k : nat) (n : bytes) : bytes :=
  match k with O => n | S k' => inc_n k' (increment_nonce n) end.

Lemma length_inc_n k n : length (inc_n k n) = length n.
Proof. revert n; induction k as [|k IH]; intros; simpl; [done|]. by rewrite IH, length_increment_nonce. Qed.

Lemma le_val_inc_n k n :
  le_val (inc_n k n) = (le_val n + Z.of_nat k) mod 256 ^ Z.of_nat (length n).
Proof.
  revert n; induction k as [|k IH]; intros n; cbn [inc_n].
  - rewrite Z.add_0_r. symmetry. apply Z.mod_small, le_val_range.
  - rewrite IH, length_increment_nonce, le_val_increment, Zplus_mod_idemp_l. f_equal. lia.
Qed.

Lemma inc_n_add j k n : inc_n (j + k) n = inc_n k (inc_n j n).
Proof. revert n; induction j as [|j IH]; intros; simpl; [done|apply IH]. Qed.

(** The nonces used since [start] are its first successors. *)
Definition nonces_from (start : bytes) {W} (w : RecordWriter W) : Prop :=
  w_sealed w = (λ k, inc_n k start) <$> seq 0 (length (w_sealed w)) ∧
  w_nonce w = inc_n (length (w_sealed w)) start.

Lemma nonces_from_seal {W} start msg p (w : RecordWriter W) :
  nonces_from start w → nonces_from start (seal msg p w).2.
Proof.
  intros [Hs Hn]. unfold seal, mbind, M_bind; simpl.
  destruct (aead_seal _ _ p) as [ct|]; simpl; [|done].
  unfold nonces_from; simpl. rewrite length_app, seq_app, fmap_app; simpl. split.
  - by rewrite <-Hs, Hn.
  - by rewrite inc_n_add, <-Hn.
Qed.

Lemma nonces_distinct start n :
  Z.of_nat n <= 256 ^ Z.of_nat (length start) →
  NoDup ((λ k, inc_n k start) <$> seq 0 n).
Proof.
  intros Hn. apply NoDup_fmap_2_strong; [|apply NoDup_seq].
  intros i j [_ Hi]%elem_of_seq [_ Hj]%elem_of_seq Heq%(f_equal le_val).
  rewrite !le_val_inc_n in Heq. pose proof (le_val_range start).
  set (m := 256 ^ Z.of_nat (length start)) in *.
  assert (((Z.of_nat i - Z.of_nat j) mod m) = 0) as Hd.
  { replace (Z.of_nat i - Z.of_nat j) with
      ((le_val start + Z.of_nat i) - (le_val start + Z.of_nat j)) by lia.
    rewrite Zminus_mod, Heq, Z.sub_diag. apply Zmod_0_l. }
  apply Z.div_exact in Hd; [|lia].
  set (q := (Z.of_nat i - Z.of_nat j) / m) in *. clearbody q.
  assert (-m < m * q < m) by lia. assert (q = 0) as -> by nia. lia.
Qed.

(** Every operation of the writer keeps the counter discipline. *)
Section Discipline.
Context {W : Type} `{AsyncWrite W} (start : bytes).
Abbreviation Inv := (nonces_from start (W := W)).

Lemma preserves_seal msg p : preserves Inv (seal msg p).
Proof. intros w. apply nonces_from_seal. Qed.
#[local] Hint Resolve preserves_seal : preserve.

Lemma preserves_mark : preserves Inv (modify mark_salt_sent).
Proof. by intros w. Qed.
#[local] Hint Resolve preserves_mark : preserve.

Lemma preserves_encode fill frame payload pl :
  preserves Inv (encode_frame_append fill frame payload pl).
Proof. unfold encode_frame_append. preserve. Qed.
#[local] Hint Resolve preserves_encode : preserve.

Lemma preserves_on_writer {A} (m : M W A) : preserves Inv (on_writer m).
Proof. by apply preserves_zoom. Qed.
#[local] Hint Resolve preserves_on_writer : preserve.

Lemma preserves_write_and_flush content ctx : preserves Inv (write_and_flush content ctx).
Proof. unfold write_and_flush. preserve. Qed.
#[local] Hint Resolve preserves_write_and_flush : preserve.

Lemma preserves_write_frame fill payload pl : preserves Inv (write_frame fill payload pl).
Proof. unfold write_frame. preserve. Qed.

Lemma preserves_write_chunks fill frame cs : preserves Inv (write_chunks fill frame cs).
Proof. revert frame; induction cs; intros frame; cbn [write_chunks]; preserve. Qed.
#[local] Hint Resolve preserves_write_chunks : preserve.

Lemma preserves_write_payload fill content : preserves Inv (write_payload fill content).
Proof. unfold write_payload. preserve. Qed.

Lemma preserves_shutdown : preserves Inv writer_shutdown.
Proof. unfold writer_shutdown. preserve. Qed.
End Discipline.
End Wire.

(** ** Sequences of writer calls *)

(** One call on a writer, with what the random source would give it. *)
Inductive writer_op : Type :=
  | OpMarkSaltSent
  | OpFrame (fill : nat → option bytes) (payload : bytes) (padding_length : nat)
  | OpPayload (fill : nat → option bytes) (content : bytes)
  | OpRaw (content : bytes)
  | OpShutdown.

Definition run_op `{RecordCrypto} {W} `{AsyncWrite W} (op : writer_op) : M (RecordWriter W) unit :=
  match op with
  | OpMarkSaltSent => modify mark_salt_sent
  | OpFrame fill payload pl => write_frame fill payload pl
  | OpPayload fill content => write_payload fill content
  | OpRaw content => write_raw_all content
  | OpShutdown => writer_shutdown
  end.

(** The writer after a sequence of calls, going on after calls that failed. *)
Definition run_ops `{RecordCrypto} {W} `{AsyncWrite W} (ops : list writer_op)
    (w : RecordWriter W) : RecordWriter W :=
  fold_left (λ w op, (run_op op w).2) ops w.

Lemma preserves_run_op `{RecordCrypto} {W} `{AsyncWrite W} start op :
  preserves (nonces_from start (W := W)) (run_op op).
Proof.
  destruct op; simpl; [apply preserves_mark|apply preserves_write_frame|
    apply preserves_write_payload|apply preserves_write_and_flush|apply preserves_shutdown].
Qed.

(** ** Delivery: what reaches the peer *)

Section Delivery.
Context `{C : RecordCrypto}.

(** Encoding neither reads nor writes the transport. *)
Lemma commutes_seal {W} t msg p : commutes (set_writer (W := W) t) (seal msg p).
Proof.
  intros w. unfold seal, mbind, M_bind; simpl. by destruct (aead_seal _ _ p).
Qed.

Lemma encode_frame_transport {W} fill payload pl (w : RecordWriter W) t :
  encode_frame fill payload pl (set_writer t w) =
    ((encode_frame fill payload pl w).1, set_writer t (encode_frame fill payload pl w).2).
Proof.
  unfold encode_frame, encode_frame_append. do 2 (case_match; [done|]).
  destruct w as [wr ae sa b no sd].
  unfold seal, mbind, M_bind, get, modify, lift, bail, throw, mret, M_ret; simpl.
  destruct b; simpl; destruct (aead_seal ae no _) as [[? ?]|]; simpl; try done;
    destruct (if (pl =? 0)%nat then _ else _) as [[?|?] ?] eqn:E; destruct (pl =? 0)%nat;
    simplify_eq/=; try (destruct (ok_or _ _)); simplify_eq/=; try done;
    destruct (bool_decide (payload = [])); simpl;
    try (destruct (aead_seal ae _ payload) as [[? ?]|]; simpl); try done;
    by destruct (swap_padding _ _).
Qed.

Lemma encode_frame_append_prefix {W} fill frame payload pl (w : RecordWriter W) :
  encode_frame_append fill frame payload pl w =
    ((λ x, frame ++ x) <$> (encode_frame fill payload pl w).1,
     (encode_frame fill payload pl w).2).
Proof.
  unfold encode_frame, encode_frame_append.
  do 2 (case_match; [done|]).
  unfold mbind, M_bind, get, modify, lift, mret, M_ret; simpl.
  destruct w as [wr ae sa [] no sd]; simpl;
  repeat (case_match; simplify_eq/=; try done); by rewrite <-?app_assoc.
Qed.

Lemma encode_frames_transport {W} fill frames (w : RecordWriter W) t :
  encode_frames fill frames (set_writer t w) =
    ((encode_frames fill frames w).1, set_writer t (encode_frames fill frames w).2).
Proof.
  revert w; induction frames as [|[payload pl] frames IH]; intros w; cbn [encode_frames]; [done|].
  unfold mbind, M_bind. rewrite encode_frame_transport.
  destruct (encode_frame fill payload pl w) as [[x|e] w1]; simpl; [|done].
  rewrite IH. by destruct (encode_frames fill frames w1) as [[y|e] w2].
Qed.

Lemma set_writer_id {W} (w : RecordWriter W) : set_writer (w_writer w) w = w.
Proof. by destruct w. Qed.

Lemma write_all_inv b (g g' : Gated) :
  write_all b g = (Ok tt, g') →
  gate_closed g = false ∧ g' = MkGated (pending g ++ b) (committed g) false.
Proof. unfold write_all; simpl. by destruct (gate_closed g); intros [= <-]. Qed.

Lemma flush_inv (g g' : Gated) :
  flush g = (Ok tt, g') → gate_closed g = false ∧ g' = MkGated [] (committed g ++ pending g) false.
Proof. unfold flush; simpl. by destruct (gate_closed g); intros [= <-]. Qed.

(** Every successful [write_and_flush] leaves nothing behind in the transport. *)
Lemma write_and_flush_inv content ctx (w w' : RecordWriter Gated) u :
  write_and_flush content ctx w = (Ok u, w') →
  w' = set_writer (MkGated [] (committed (w_writer w) ++ pending (w_writer w) ++ content) false) w.
Proof.
  unfold write_and_flush, on_writer. intros H.
  destruct (bool_decide (content = [])) eqn:E; reflect_bools; M_inv; destruct u;
    repeat match goal with x : unit |- _ => destruct x end;
    repeat match goal with
    | H : write_all _ _ = _ |- _ => apply write_all_inv in H as [? ->]
    | H : flush _ = _ |- _ => apply flush_inv in H as [? ->]
    end; unfold set_writer; simpl; by rewrite ?app_nil_r, ?app_assoc.
Qed.

(** The batches of [write_payload] carry the frames in order. *)
Lemma write_chunks_inv fill cs frame (w w' : RecordWriter Gated) last :
  write_chunks fill frame cs w = (Ok last, w') →
  ∃ wire w1 t, encode_frames fill ((λ c, (c, 0%nat)) <$> cs) w = (Ok wire, w1) ∧
    w' = set_writer t w1 ∧ committed t = committed (w_writer w) ∧
    pending t ++ last = pending (w_writer w) ++ frame ++ wire.
Proof.
  revert frame w; induction cs as [|c cs IH]; intros frame w H; cbn [write_chunks] in H.
  - M_inv. exists [], w, (w_writer w). by rewrite set_writer_id, app_nil_r.
  - csimpl. cbn [encode_frames]. M_inv.
    rename select (encode_frame_append _ _ _ _ _ = _) into Henc.
    rewrite encode_frame_append_prefix in Henc.
    destruct (encode_frame fill c 0 w) as [[enc|e] w1'] eqn:Ew; simplify_eq/=.
    match type of Ew with _ = (_, ?v) => rename v into w1 end.
    assert (Hw1 : w_writer w1 = w_writer w).
    { pose proof (encode_frame_transport fill c 0 w (w_writer w)) as Ht.
      rewrite set_writer_id, Ew in Ht. simpl in Ht. injection Ht as Ht. by rewrite Ht. }
    rewrite (M_bind_ok _ _ _ _ _ Ew).
    destruct (WRITE_BATCH_LIMIT <=? _).
    + M_inv. unfold on_writer in *. M_inv.
      match goal with u : unit |- _ => destruct u end.
      rename select (write_all _ _ = _) into Hwr. apply write_all_inv in Hwr as [? ->].
      apply IH in H as (wire & w2 & t & He & -> & Hc & Hp).
      rewrite encode_frames_transport in He.
      destruct (encode_frames _ _ w1) as [[y|e] w3] eqn:Ew3; simplify_eq/=.
      rewrite (M_bind_ok _ _ _ _ _ Ew3).
      eexists _, _, t. split; [done|]. split_and!; [done|by rewrite Hc, Hw1|].
      rewrite Hp, Hw1. by rewrite <-!app_assoc.
    + apply IH in H as (wire & w2 & t & He & -> & Hc & Hp).
      rewrite (M_bind_ok _ _ _ _ _ He).
      eexists _, _, t. split; [done|]. split_and!; [done|by rewrite Hc, Hw1|].
      by rewrite Hp, Hw1, <-!app_assoc.
Qed.

(** [chunks] cuts the content without loss into nonempty pieces. *)
Lemma chunks_spec n content :
  n ≠ 0%nat → concat (chunks n content) = content ∧
  Forall (λ c, c ≠ [] ∧ (length c <= n)%nat) (chunks n content).
Proof.
  intros Hn. unfold chunks. assert (Hf : (length content <= length content)%nat) by lia.
  revert Hf. generalize (length content) at 2 3 4 as fuel. intros fuel.
  revert content; induction fuel as [|fuel IH]; intros [|b l] Hf; simpl in *; try done; try lia.
  destruct n as [|n]; [done|]. simpl. destruct (IH (drop n l)) as [Hc Ha].
  { rewrite length_drop. lia. }
  split; [by rewrite Hc, take_drop|]. constructor; [|done].
  split; [done|]. simpl. rewrite length_take. lia.
Qed.

(** A cipher that seals whatever it is given and an open transport leave no
    reason for a payload write to fail. *)
Definition seals : Prop := ∀ k n p, is_Some (aead_seal k n p).

Lemma encode_frame_append_total {W} fill frame payload pl (w : RecordWriter W) :
  seals → zlen payload <= MAX_RECORD_PAYLOAD_SIZE → Z.of_nat pl <= MAX_RECORD_PAYLOAD_SIZE →
  (pl ≠ 0%nat → payload ≠ [] ∧ is_Some (fill pl)) →
  ∃ out w', encode_frame_append fill frame payload pl w = (Ok out, w') ∧
    w_writer w' = w_writer w.
Proof.
  intros Hs Hl Hp Hpad. unfold encode_frame_append.
  replace (_ || _) with false by (symmetry; apply orb_false_iff; split; by apply Z.ltb_ge).
  assert (bool_decide (payload = []) && negb (pl =? 0)%nat = false) as ->.
  { destruct (pl =? 0)%nat eqn:E; reflect_bools; [apply andb_false_r|].
    destruct (Hpad E) as [? _]. by rewrite bool_decide_eq_false_2. }
  destruct w as [wr ae sa b no sd].
  unfold seal, mbind, M_bind, get, modify, lift, mret, M_ret; simpl.
  destruct b; simpl;
    destruct (Hs ae no (frame_header x00 x00 pl (length payload))) as [[h ht] ->]; simpl;
    destruct (pl =? 0)%nat eqn:E; reflect_bools;
    try (destruct (Hpad E) as [_ [padding ->]]); simpl;
    destruct (bool_decide (payload = [])); simpl;
    try (destruct (Hs ae (increment_nonce no) payload) as [[c t] ->]; simpl);
    try match goal with |- context [swap_padding ?a ?b] => destruct (swap_padding a b) end; eauto.
Qed.

Lemma write_chunks_total fill cs frame (w : RecordWriter Gated) :
  seals → Forall (λ c, zlen c <= MAX_RECORD_PAYLOAD_SIZE) cs →
  gate_closed (w_writer w) = false →
  ∃ last w', write_chunks fill frame cs w = (Ok last, w') ∧ gate_closed (w_writer w') = false.
Proof.
  intros Hs. revert frame w; induction cs as [|c cs IH]; intros frame w Hf Ho;
    cbn [write_chunks]; [by eexists _, _|].
  apply Forall_cons in Hf as [Hc Hf].
  destruct (encode_frame_append_total fill frame c 0 w Hs Hc) as (out & w1 & He & Hw1); [done..|].
  rewrite (M_bind_ok _ _ _ _ _ He). destruct (WRITE_BATCH_LIMIT <=? zlen out).
  - unfold on_writer, catch_map, zoom, mbind, M_bind. simpl.
    unfold write_all; simpl. rewrite Hw1, Ho. simpl. by apply IH.
  - apply IH; [done|by rewrite Hw1].
Qed.

Lemma write_and_flush_total content ctx (w : RecordWriter Gated) :
  gate_closed (w_writer w) = false → ∃ w', write_and_flush content ctx w = (Ok tt, w').
Proof.
  intros Ho. unfold write_and_flush, on_writer, catch_map, zoom, mbind, M_bind.
  destruct (bool_decide _); unfold write_all, flush; simpl; rewrite Ho; simpl; eauto.
Qed.

Lemma write_payload_total fill content (w : RecordWriter Gated) :
  seals → gate_closed (w_writer w) = false → ∃ w', write_payload fill content w = (Ok tt, w').
Proof.
  intros Hs Ho. unfold write_payload.
  destruct (chunks_spec (Z.to_nat MAX_RECORD_PAYLOAD_SIZE) content) as [_ Hf]; [done|].
  destruct (write_chunks_total fill (chunks (Z.to_nat MAX_RECORD_PAYLOAD_SIZE) content) [] w Hs)
    as (last & w1 & Hrun & Ho1); [|done|].
  - eapply Forall_impl; [exact Hf|]. intros c [_ Hc].
    unfold MAX_RECORD_PAYLOAD_SIZE in *. lia.
  - rewrite (M_bind_ok _ _ _ _ _ Hrun). by apply write_and_flush_total.
Qed.

(** What [write_payload] puts on an open transport: the frames of its chunks. *)
Lemma write_payload_open fill content (w : RecordWriter Gated) :
  seals → gate_closed (w_writer w) = false →
  ∃ wire w1,
    encode_frames fill ((λ c, (c, 0%nat)) <$> chunks (Z.to_nat MAX_RECORD_PAYLOAD_SIZE) content) w
      = (Ok wire, w1) ∧
    write_payload fill content w =
      (Ok tt, set_writer (MkGated [] (committed (w_writer w) ++ pending (w_writer w) ++ wire) false) w1).
Proof.
  intros Hs Ho. destruct (write_payload_total fill content w Hs Ho) as [w' Hrun].
  pose proof Hrun as Hinv. unfold write_payload in Hinv.
  apply M_bind_inv in Hinv as (last & w1 & Hchunks & Hflush).
  apply write_chunks_inv in Hchunks as (wire & w2 & t2 & Henc & -> & Hc & Hp).
  apply write_and_flush_inv in Hflush as ->. simpl in *.
  exists wire, w2. split; [done|]. rewrite Hrun. simpl. by rewrite Hc, Hp.
Qed.

Lemma encode_frames_app {W} fill fs gs (w : RecordWriter W) wire1 w1 wire2 w2 :
  encode_frames fill fs w = (Ok wire1, w1) → encode_frames fill gs w1 = (Ok wire2, w2) →
  encode_frames fill (fs ++ gs) w = (Ok (wire1 ++ wire2), w2).
Proof.
  revert w wire1; induction fs as [|[payload pl] fs IH]; intros w wire1 Hf Hg; cbn [encode_frames app] in *.
  - by M_inv.
  - apply M_bind_inv in Hf as (a & t & Ha & Hf). apply M_bind_inv in Hf as (b & t' & Hb & Hf). M_inv.
    rewrite (M_bind_ok _ _ _ _ _ Ha), (M_bind_ok _ _ _ _ _ (IH _ _ Hb Hg)). by rewrite <-app_assoc.
Qed.
End Delivery.

(** ** A concrete cipher

    Not secret, but it has every law above: it shows the hypotheses can hold
    and runs the examples. *)
Definition toy_tag (key nonce plain : bytes) : bytes :=
  let sum l := z2b (fold_left (λ n b, (n * 31 + b2z b + 7) mod 65536) l 0) in
  let s := sum (key ++ nonce ++ plain) in
  take 16 (s :: (nonce ++ replicate 16 x2a)).
Definition toy_cipher (plain : bytes) : bytes := (λ b, z2b (255 - b2z b)) <$> plain.

#[export] Instance toy_crypto : RecordCrypto := {
  argon2id psk salt := Some (take 32 (salt ++ psk ++ replicate 32 x00));
  aead_seal k n p := Some (toy_cipher p, toy_tag k n p);
  aead_open k n ct :=
    let p := toy_cipher (take (length ct - 16) ct) in
    if bool_decide (ct = toy_cipher p ++ toy_tag k n p) then Some p else None
}.

Lemma toy_cipher_involutive p : toy_cipher (toy_cipher p) = p.
Proof.
  unfold toy_cipher. rewrite <-list_fmap_compose. induction p as [|b p IH]; csimpl; [done|].
  rewrite IH. f_equal. apply (inj b2z). pose proof (b2z_range b).
  rewrite !b2z_z2b_small; rewrite ?b2z_z2b_small; lia.
Qed.

Lemma length_toy_tag k n p : length (toy_tag k n p) = 16%nat.
Proof. unfold toy_tag. rewrite length_take, length_cons, length_app, length_replicate. lia. Qed.

#[export] Instance toy_laws : RecordCryptoLaws toy_crypto.
Proof.
  split.
  - intros psk salt d Hd. cbv beta iota delta [argon2id toy_crypto] in Hd.
    apply Some_inj in Hd as <-. rewrite length_take, !length_app, length_replicate. lia.
  - intros k n p c t [= <- <-]. unfold toy_cipher. by rewrite length_fmap, length_toy_tag.
  - intros k n ct p. simpl. split.
    + case_bool_decide as Hct; [|done]. intros [= <-]. eauto.
    + intros (c & t & [= <- <-] & ->). rewrite length_app, length_toy_tag.
      replace (_ + 16 - 16)%nat with (length (toy_cipher p)) by lia.
      rewrite take_app_length, !toy_cipher_involutive. by rewrite bool_decide_eq_true_2.
Qed.

(** ** Properties *)

(** C4: Frames written by one [RecordWriter] with any padding lengths and read
    by a fresh [RecordReader] with the same PSK come back as the same payloads,
    in order, a zero record exactly where an empty payload was written, and the
    reader stops at the first byte that follows them. *)
Theorem record_stream_roundtrip `{C : RecordCrypto} `{!RecordCryptoLaws C} {W}
    (t : W) psk salt fill frames w w' wire rest buf :
  length salt = 16%nat → fills fill →
  writer_new t psk salt = Ok w →
  encode_frames fill frames w = (Ok wire, w') →
  ∃ r', read_frames (length frames) buf (reader_new (wire ++ rest) psk)
          = (Ok ((λ f, (kind_of f.1, f.1)) <$> frames), r') ∧
        r_reader r' = rest.
Proof.
  intros Hsalt Hfill (key & Hk & Ha & ->)%writer_new_inv Henc.
  eapply (read_encode_frames _ _ _ _ _ (reader_new (wire ++ rest) psk) buf) in Henc
    as (r' & ? & ? & _); [by exists r'|done| |done].
  by split_and!.
Qed.

Definition demo_salt : bytes := lit "sixteen-byte-key".
Definition demo_fill (n : nat) : option bytes := Some (replicate n x2a).
Definition demo_frames : list (bytes * nat) := [(lit "hello", 3%nat); ([], 0%nat); (lit "bye", 0%nat)].

Lemma record_stream_roundtrip_witness :
  ∃ w wire w', writer_new (MkGated [] [] false) (lit "psk") demo_salt = Ok w ∧
    encode_frames demo_fill demo_frames w = (Ok wire, w') ∧
    ∃ r', read_frames 3 [] (reader_new (wire ++ lit "tail") (lit "psk"))
          = (Ok [(Payload, lit "hello"); (Zero, []); (Payload, lit "bye")], r') ∧
        r_reader r' = lit "tail".
Proof.
  eexists _, _, _. split; [vm_compute; reflexivity|]. split; [vm_compute; reflexivity|].
  refine (record_stream_roundtrip (MkGated [] [] false) (lit "psk") demo_salt demo_fill
            demo_frames _ _ _ (lit "tail") [] _ _ _ _); [reflexivity| |vm_compute; reflexivity|vm_compute; reflexivity].
  intros n b [= <-]. apply length_replicate.
Defined.

(** C9: Whatever sequence of calls a writer serves, failed ones included, it
    never seals twice under one nonce before 2^96 seals. *)
Theorem nonce_never_reused `{C : RecordCrypto} `{!RecordCryptoLaws C} {W} `{AsyncWrite W}
    (t : W) psk salt w ops :
  writer_new t psk salt = Ok w →
  let sealed := w_sealed (run_ops ops w) in
  Z.of_nat (length sealed) <= 2 ^ 96 → NoDup sealed.
Proof.
  intros (key & _ & _ & ->)%writer_new_inv; simpl.
  set (start := replicate RECORD_NONCE_SIZE x00).
  set (w0 := MkWriter _ _ _ _ _ _).
  assert (Hinv : nonces_from start (run_ops ops w0)).
  { assert (nonces_from start w0) as Hw by by split. clearbody w0.
    revert w0 Hw; induction ops as [|op ops IH]; intros w Hw; [done|].
    apply IH. by apply preserves_run_op. }
  destruct Hinv as [Hs _]. intros Hlen. rewrite Hs. by apply nonces_distinct.
Qed.

Lemma nonce_never_reused_witness :
  ∃ w, writer_new (MkGated [] [] false) (lit "psk") demo_salt = Ok w ∧
    let sealed := w_sealed (run_ops [OpFrame demo_fill (lit "a") 2; OpMarkSaltSent;
                     OpPayload demo_fill (lit "bc"); OpShutdown; OpPayload demo_fill (lit "d")] w) in
    length sealed = 6%nat ∧ NoDup sealed.
Proof.
  eexists. split; [vm_compute; reflexivity|]. split; [vm_compute; reflexivity|].
  refine (nonce_never_reused (MkGated [] [] false) (lit "psk") demo_salt _ _ _ _);
    [vm_compute; reflexivity|vm_compute; discriminate].
Defined.

(** A reader whose cipher is established accepts exactly the records sealed
    under its key at its next nonce: what it returns is the sealed payload, the
    input it consumed is one frame within the size limits, and the nonce moves
    past the one or two seals of that frame. *)
Theorem read_frame_accepts_iff `{C : RecordCrypto} `{!RecordCryptoLaws C}
    key (r r' : RecordReader bytes) buf kind frame :
  r_aead r = Some key →
  read_frame_into (r, buf) = (Ok kind, (r', frame)) ↔
  kind = kind_of frame ∧
  ∃ r1 r2 padding wire nonce',
    frame_wire key (r_nonce r) r1 r2 frame padding wire nonce' ∧
    r_reader r = wire ++ r_reader r' ∧
    r' = MkReader (r_reader r') (r_psk r) (Some key) nonce'.
Proof.
  intros Hk. split.
  - intros Hrd. apply read_frame_accepts with (key := key) in Hrd
      as (-> & Hk' & Hp & r1 & r2 & padding & wire & Hw & Hr); [|done].
    split; [done|]. exists r1, r2, padding, wire, (r_nonce r'). split_and!; [done..|].
    destruct r'; simpl in *; congruence.
  - intros (-> & r1 & r2 & padding & wire & nonce' & Hw & Hr & ->). simpl in *.
    by eapply read_frame_known.
Qed.

Definition demo_reader : RecordReader bytes :=
  let w := MkWriter (MkGated [] [] false) demo_salt demo_salt true (replicate 12 x00) [] in
  match encode_frame demo_fill (lit "hi") 3 w with
  | (Ok wire, _) => MkReader (wire ++ lit "next") (lit "psk") (Some demo_salt) (replicate 12 x00)
  | _ => reader_new [] []
  end.

Lemma read_frame_accepts_iff_witness :
  ∃ r', read_frame_into (demo_reader, []) = (Ok Payload, (r', lit "hi")) ∧
  r_reader r' = lit "next" ∧
  ∃ r1 r2 padding wire nonce',
    frame_wire demo_salt (replicate 12 x00) r1 r2 (lit "hi") padding wire nonce' ∧
    r_reader demo_reader = wire ++ r_reader r'.
Proof.
  eexists. split; [vm_compute; reflexivity|]. split; [reflexivity|].
  destruct (read_frame_accepts_iff demo_salt demo_reader
    (MkReader (lit "next") (lit "psk") (Some demo_salt) (inc_n 2 (replicate 12 x00))) []
    Payload (lit "hi") eq_refl) as [Hrd _].
  destruct Hrd as [_ (r1 & r2 & padding & wire & nonce' & Hw & Hr & _)];
    [vm_compute; reflexivity|].
  exists r1, r2, padding, wire, nonce'. split; [exact Hw|exact Hr].
Defined.

(** On an open transport with a cipher that seals, [write_payload] always
    succeeds, leaves nothing unflushed, and the peer that reads the bytes the
    transport committed gets nonempty payloads within the record limit whose
    concatenation is the content, whatever follows on the wire. *)
Theorem write_payload_delivers `{C : RecordCrypto} `{!RecordCryptoLaws C}
    fill (t : Gated) psk salt w content :
  seals → fills fill → length salt = 16%nat → gate_closed t = false →
  writer_new t psk salt = Ok w →
  ∃ w' wire payloads,
    write_payload fill content w = (Ok tt, w') ∧
    w_writer w' = MkGated [] (committed t ++ pending t ++ wire) false ∧
    concat payloads = content ∧
    Forall (λ p, p ≠ [] ∧ zlen p <= MAX_RECORD_PAYLOAD_SIZE) payloads ∧
    ∀ rest buf, ∃ r',
      read_frames (length payloads) buf (reader_new (wire ++ rest) psk)
        = (Ok ((λ p, (Payload, p)) <$> payloads), r') ∧ r_reader r' = rest.
Proof.
  intros Hs Hf Hsalt Ho (key & Hk & Ha & ->)%writer_new_inv.
  set (w := MkWriter _ _ _ _ _ _).
  set (payloads := chunks (Z.to_nat MAX_RECORD_PAYLOAD_SIZE) content).
  destruct (chunks_spec (Z.to_nat MAX_RECORD_PAYLOAD_SIZE) content) as [Hcat Hall]; [done|].
  destruct (write_payload_open fill content w Hs Ho) as (wire & w2 & Henc & Hrun).
  eexists _, wire, payloads. split; [exact Hrun|]. split; [done|].
  split; [done|]. split.
  { eapply Forall_impl; [exact Hall|]. intros p [Hne Hl]. split; [done|].
    unfold MAX_RECORD_PAYLOAD_SIZE in *. lia. }
  intros rest buf.
  destruct (read_encode_frames fill ((λ c, (c, 0%nat)) <$> payloads) w w2 wire
              (reader_new (wire ++ rest) psk) buf rest Hf)
    as (r' & Hrd & Hr' & _); [by split_and!|exact Henc|done|].
  exists r'. split; [|done]. rewrite length_fmap in Hrd. rewrite Hrd. f_equal. f_equal.
  rewrite <-list_fmap_compose. apply list_fmap_ext. intros i p Hi. simpl. unfold kind_of.
  rewrite bool_decide_eq_false_2; [done|].
  apply (Forall_lookup_1 _ _ _ _ Hall) in Hi. apply Hi.
Qed.

Lemma write_payload_delivers_witness :
  let t := MkGated (lit "p") (lit "c") false in
  ∃ w, writer_new t (lit "psk") demo_salt = Ok w ∧
  ∃ w' wire payloads,
    write_payload demo_fill (lit "content") w = (Ok tt, w') ∧
    w_writer w' = MkGated [] (lit "c" ++ lit "p" ++ wire) false ∧
    concat payloads = lit "content" ∧
    Forall (λ p, p ≠ [] ∧ zlen p <= MAX_RECORD_PAYLOAD_SIZE) payloads ∧
    ∀ rest buf, ∃ r',
      read_frames (length payloads) buf (reader_new (wire ++ rest) (lit "psk"))
        = (Ok ((λ p, (Payload, p)) <$> payloads), r') ∧ r_reader r' = rest.
Proof.
  eexists. split; [vm_compute; reflexivity|].
  refine (write_payload_delivers demo_fill (MkGated (lit "p") (lit "c") false) (lit "psk")
            demo_salt _ (lit "content") _ _ _ _ _); try reflexivity.
  - intros k n p. eexists. reflexivity.
  - intros n b [= <-]. apply length_replicate.
Defined.
