(* ===== verification/SnellReader.v ===== *)
(** * SnellReader: the application side of a Snell stream ([src/snell/client.rs])

    [SnellReader] turns the records of the server into the CONNECT reply and the
    byte stream that follows it. It is modelled over any source of records, so
    that its theorems use only what the record layer promises. *)
From stdpp Require Import pretty.
From S2P Require Import Prelude Bytes Text AsyncIo SnellWire SnellRecord.
Local Open Scope Z_scope.

(** ** The interface of the record layer *)

Class RecordSource (S : Type) : Type := {
  (** [read_frame_into], on the source and the caller's buffer *)
  read_record_into : M (S * bytes) RecordKind
}.

#[export] Instance record_reader_source `{RecordCrypto} {R} `{AsyncRead R} :
  RecordSource (RecordReader R) := { read_record_into := read_frame_into }.

(** A source that holds its records in memory. *)
#[export] Instance list_source : RecordSource (list bytes) := {
  read_record_into := λ s,
    match s.1 with
    | [] => (Err eof, ([], []))
    | p :: ps => (Ok (kind_of p), (ps, p))
    end
}.

(** [read_frame] *)
Definition read_record {S} `{RecordSource S} : M S bytes := λ s,
  match read_record_into (s, []) with
  | (Ok Payload, (s', frame)) => (Ok frame, s')
  | (Ok Zero, (s', _)) => (Err ZeroRecord, s')
  | (Err e, (s', _)) => (Err e, s')
  end.

(** The next records of [s] are [ps], the empty one standing for a zero
    record, and [s'] is what follows them. *)
Fixpoint delivers {S} `{RecordSource S} (s : S) (ps : list bytes) (s' : S) : Prop :=
  match ps with
  | [] => s = s'
  | p :: ps' => ∃ s1, (∀ buf, read_record_into (s, buf) = (Ok (kind_of p), (s1, p))) ∧
                      delivers s1 ps' s'
  end.

Lemma delivers_list ps rest : delivers (ps ++ rest) ps rest.
Proof. induction ps as [|p ps IH]; simpl; [done|]. by exists (ps ++ rest). Qed.

Lemma delivers_app {S} `{RecordSource S} s ps qs s2 :
  delivers s (ps ++ qs) s2 ↔ ∃ s1, delivers s ps s1 ∧ delivers s1 qs s2.
Proof.
  revert s; induction ps as [|p ps IH]; intros s; simpl.
  - split; [by eauto|]. by intros (? & -> & ?).
  - setoid_rewrite IH. naive_solver.
Qed.

#[global] Arguments delivers : simpl never.

(** The record layer keeps its promise: what the peer's writer encodes is
    delivered. *)
Lemma delivers_frames `{C : RecordCrypto} `{!RecordCryptoLaws C} {W} fill frames
    (w w' : RecordWriter W) wire (r : RecordReader bytes) rest :
  fills fill → in_sync w r →
  encode_frames fill frames w = (Ok wire, w') → r_reader r = wire ++ rest →
  ∃ r', delivers r (frames.*1) r' ∧ r_reader r' = rest ∧ in_sync w' r'.
Proof.
  intros Hf. revert w wire r; induction frames as [|[payload pl] frames IH];
    intros w wire r Hsync Henc Hr; cbn [encode_frames] in Henc.
  - M_inv. by eexists.
  - M_inv. rename select (encode_frame _ _ _ _ = _) into H1.
    rename select (encode_frames _ _ _ = _) into H2. rewrite <-app_assoc in Hr.
    destruct (frame_step _ _ _ _ _ _ _ _ Hf Hsync H1 Hr) as (r1 & Hrd & Hr1 & Hs1).
    destruct (IH _ _ _ Hs1 H2 Hr1) as (r' & Hd & ? & ?).
    exists r'. split; [|done]. csimpl. by exists r1.
Qed.

(** ** State *)

Record SnellReader (S : Type) : Type := MkSnellReader {
  records : S;
  buffered : bytes;
  buffered_offset : nat;
  server_eof : bool;
  reply_pending : bool;
  reply_error : option string
}.
#[global] Arguments MkSnellReader {S}.
#[global] Arguments records {S}.
#[global] Arguments buffered {S}.
#[global] Arguments buffered_offset {S}.
#[global] Arguments server_eof {S}.
#[global] Arguments reply_pending {S}.
#[global] Arguments reply_error {S}.

Section Setters.
Context {S : Type}.
Implicit Types r : SnellReader S.

Definition set_records (s : S) r : SnellReader S :=
  MkSnellReader s (buffered r) (buffered_offset r) (server_eof r) (reply_pending r) (reply_error r).
Definition set_buffered (b : bytes) r : SnellReader S :=
  MkSnellReader (records r) b (buffered_offset r) (server_eof r) (reply_pending r) (reply_error r).
Definition set_offset (n : nat) r : SnellReader S :=
  MkSnellReader (records r) (buffered r) n (server_eof r) (reply_pending r) (reply_error r).
Definition set_server_eof (b : bool) r : SnellReader S :=
  MkSnellReader (records r) (buffered r) (buffered_offset r) b (reply_pending r) (reply_error r).
Definition set_reply_pending (b : bool) r : SnellReader S :=
  MkSnellReader (records r) (buffered r) (buffered_offset r) (server_eof r) b (reply_error r).
Definition set_reply_error (e : option string) r : SnellReader S :=
  MkSnellReader (records r) (buffered r) (buffered_offset r) (server_eof r) (reply_pending r) e.
End Setters.

(** The reader of a new connection ([open_command]). *)
Definition snell_reader_new {S} (s : S) : SnellReader S :=
  MkSnellReader s [] 0 false true None.

(** ** Operations

    [fuel] bounds the number of records one call may read. *)
Section Reader.
Context {S : Type} `{RecordSource S}.

Definition buffered_remaining (r : SnellReader S) : nat :=
  length (buffered r) - buffered_offset r.

(** [&self.buffered[start..start + length]] *)
Definition slice (start len : nat) (l : bytes) : bytes := take len (drop start l).

Definition fill_buffer : M (SnellReader S) RecordKind :=
  modify (set_offset 0);;
  zoom (λ r, (records r, buffered r)) (λ t r, set_records t.1 (set_buffered t.2 r))
    read_record_into.

Definition read_frame : M (SnellReader S) bytes := zoom records set_records read_record.

Fixpoint wait_payload (fuel : nat) : M (SnellReader S) bool :=
  match fuel with
  | O => throw OutOfFuel
  | Datatypes.S fuel' =>
      r ← get;
      if (buffered_remaining r =? 0)%nat then
        kind ← fill_buffer;
        if bool_decide (kind = Zero) then modify (set_server_eof true);; mret false
        else wait_payload fuel'
      else mret true
  end.

Fixpoint read_exact_payload_into (fuel length : nat) : M (SnellReader S) bytes :=
  match fuel with
  | O => throw OutOfFuel
  | Datatypes.S fuel' =>
      r ← get;
      if (buffered_remaining r <? length)%nat then
        if (buffered_remaining r =? 0)%nat then
          kind ← catch_map (Fmt "read Snell CONNECT response") fill_buffer;
          if bool_decide (kind = Zero)
          then bail "read Snell CONNECT response: Snell zero-length record"
          else read_exact_payload_into fuel' length
        else
          payload ← catch_map (Fmt "read Snell CONNECT response") read_frame;
          modify (λ r, set_buffered (buffered r ++ payload) r);;
          read_exact_payload_into fuel' length
      else
        modify (set_offset (buffered_offset r + length));;
        mret (slice (buffered_offset r) length (buffered r))
  end.

Definition read_reply (fuel : nat) : M (SnellReader S) unit :=
  status ← read_exact_payload_into fuel 1;
  match status with
  | [x00] => mret tt
  | [x02] =>
      detail ← read_exact_payload_into fuel 2;
      match detail with
      | [code; len] =>
          _ ← read_exact_payload_into fuel (Z.to_nat (b2z len));
          bail ("Snell server rejected the request with code " +:+ pretty (b2z code))
      | _ => bail "unreachable"
      end
  | _ => bail "Snell server returned an unexpected status"
  end.

Definition ensure_reply (fuel : nat) : M (SnellReader S) unit :=
  r ← get;
  match reply_error r with
  | Some error => bail error
  | None =>
      if negb (reply_pending r) then mret tt
      else
        modify (set_reply_pending false);;
        result ← try_ (read_reply fuel);
        match result with
        | Ok _ => mret tt
        | Err error => modify (set_reply_error (Some (display error)));; throw error
        end
  end.

(** The bytes copied to the front of a destination of [len] bytes. *)
Definition read_application (fuel len : nat) : M (SnellReader S) bytes :=
  ensure_reply fuel;;
  if (len =? 0)%nat then mret []
  else
    more ← wait_payload fuel;
    if negb more then mret []
    else
      r ← get;
      let length := Nat.min len (buffered_remaining r) in
      modify (set_offset (buffered_offset r + length));;
      mret (slice (buffered_offset r) length (buffered r)).

Definition read_application_chunk (fuel : nat) : M (SnellReader S) bytes :=
  ensure_reply fuel;;
  more ← wait_payload fuel;
  if negb more then mret []
  else
    r ← get;
    modify (set_offset (length (buffered r)));;
    mret (drop (buffered_offset r) (buffered r)).

Definition read_packet_frame (frame : bytes) : M (SnellReader S) bytes := λ r,
  match read_record_into (records r, frame) with
  | (Ok Payload, (s, frame)) => (Ok frame, set_records s r)
  | (Ok Zero, (s, _)) => (Err ZeroRecord, set_records s r)
  | (Err e, (s, _)) => (Err e, set_records s r)
  end.

Fixpoint drain_records (fuel : nat) : M (SnellReader S) unit :=
  match fuel with
  | O => throw OutOfFuel
  | Datatypes.S fuel' =>
      r ← get;
      if server_eof r then mret tt
      else
        kind ← catch_map (Context "finish Snell reused session") fill_buffer;
        match kind with
        | Payload => drain_records fuel'
        | Zero => modify (set_server_eof true);; drain_records fuel'
        end
  end.

Definition complete_reuse_close (fuel : nat) : M (SnellReader S) unit :=
  modify (λ r, set_offset 0 (set_buffered [] r));;
  ensure_reply fuel;;
  drain_records fuel.
End Reader.

(** ** The abstract stream

    What a reader stands for: the bytes that are still to come before the
    server's zero record, whatever records they are cut into. *)
Section Stream.
Context {S : Type} `{RecordSource S}.
Implicit Types r : SnellReader S.

Definition unread r : bytes := drop (buffered_offset r) (buffered r).

(** [d] is to come and then a zero record, after which the source is [s'];
    [pending] tells whether [d] starts with the CONNECT reply. *)
Definition holds (pending : bool) r (d : bytes) (s' : S) : Prop :=
  reply_pending r = pending ∧ reply_error r = None ∧ server_eof r = false ∧
  (buffered_offset r <= length (buffered r))%nat ∧
  ∃ ps, delivers (records r) (ps ++ [[]]) s' ∧ Forall (.≠ []) ps ∧
        unread r ++ concat ps = d.

(** The reply is consumed and [d] is the rest of the application data. *)
Definition stream r d s' : Prop := holds false r d s'.
(** A reply is due first. *)
Definition awaiting r d s' : Prop := holds true r d s'.

Lemma remaining_unread r : buffered_remaining r = length (unread r).
Proof. unfold buffered_remaining, unread. by rewrite length_drop. Qed.

Lemma slice_unread r n : slice (buffered_offset r) n (buffered r) = take n (unread r).
Proof. done. Qed.

Lemma unread_advance r n : unread (set_offset (buffered_offset r + n) r) = drop n (unread r).
Proof. unfold unread; simpl. by rewrite drop_drop. Qed.

Lemma fill_buffer_delivers r p ps s' :
  delivers (records r) (p :: ps) s' →
  ∃ s1, fill_buffer r = (Ok (kind_of p), set_records s1 (set_buffered p (set_offset 0 r))) ∧
        delivers s1 ps s'.
Proof.
  intros (s1 & Hr & Hd). exists s1. split; [|done].
  unfold fill_buffer, mbind, M_bind, zoom; simpl. by rewrite Hr.
Qed.

Lemma read_frame_delivers r p ps s' :
  p ≠ [] → delivers (records r) (p :: ps) s' →
  ∃ s1, read_frame r = (Ok p, set_records s1 r) ∧ delivers s1 ps s'.
Proof.
  intros Hp (s1 & Hr & Hd). exists s1. split; [|done].
  unfold read_frame, zoom, read_record. rewrite Hr. unfold kind_of.
  by rewrite bool_decide_eq_false_2.
Qed.

Lemma kind_of_payload p : p ≠ [] → kind_of p = Payload.
Proof. intros. unfold kind_of. by rewrite bool_decide_eq_false_2. Qed.

Lemma wait_payload_stream pending r d s' fuel :
  holds pending r d s' → (2 <= fuel)%nat →
  ∃ r', wait_payload fuel r = (Ok (negb (bool_decide (d = []))), r') ∧
    if bool_decide (d = []) then server_eof r' = true ∧ records r' = s' ∧ buffered_remaining r' = 0%nat ∧
           reply_pending r' = pending ∧ reply_error r' = None
    else holds pending r' d s' ∧ unread r' ≠ [].
Proof.
  intros (Hp & He & Hs & Ho & ps & Hd & Hne & Hc) Hf. destruct fuel as [|[|fuel]]; [lia|lia|].
  cbn [wait_payload]. unfold get, mbind, M_bind.
  destruct (buffered_remaining r =? 0)%nat eqn:E; reflect_bools; rewrite remaining_unread in E.
  - apply length_zero_iff_nil in E. rewrite E in Hc. simpl in Hc.
    destruct ps as [|p ps]; simpl in *.
    + destruct (fill_buffer_delivers r _ _ _ Hd) as (s1 & -> & <-). subst d. simpl.
      eexists. split; [done|]. by split_and!.
    + destruct (fill_buffer_delivers r _ _ _ Hd) as (s1 & -> & Hd1).
      apply Forall_cons in Hne as [Hp0 Hne]. rewrite kind_of_payload by done. simpl.
      unfold get, mbind, M_bind, buffered_remaining; simpl.
      assert (Hl : (length p - 0 =? 0)%nat = false) by (apply Nat.eqb_neq; destruct p; simpl; [done|lia]).
      rewrite Hl. rewrite bool_decide_eq_false_2 by (intros ->; by destruct p).
      eexists. split; [done|]. split; [|by destruct p].
      split_and!; simpl; try done; [lia|]. by exists ps.
  - rewrite bool_decide_eq_false_2.
    + eexists. split; [done|]. split; [|intros Hu; by rewrite Hu in E]. split_and!; eauto.
    + intros ->. apply app_eq_nil in Hc as [Hu _]. by rewrite Hu in E.
Qed.

Lemma read_exact_payload_stream pending fuel r ps s' len :
  delivers (records r) (ps ++ [[]]) s' → Forall (.≠ []) ps →
  (buffered_offset r <= length (buffered r))%nat →
  reply_pending r = pending → reply_error r = None → server_eof r = false →
  (length ps < fuel)%nat → (len <= length (unread r ++ concat ps))%nat →
  ∃ r', read_exact_payload_into fuel len r = (Ok (take len (unread r ++ concat ps)), r') ∧
        holds pending r' (drop len (unread r ++ concat ps)) s'.
Proof.
  revert r ps; induction fuel as [|fuel IH]; intros r ps Hd Hne Ho Hp He Hs Hf Hl; [lia|].
  cbn [read_exact_payload_into]. unfold get, mbind, M_bind.
  destruct (buffered_remaining r <? len)%nat eqn:E; reflect_bools; rewrite remaining_unread in E.
  - destruct ps as [|p ps]; [simpl in Hl; rewrite app_nil_r in Hl; lia|].
    apply Forall_cons in Hne as [Hp0 Hne].
    destruct (buffered_remaining r =? 0)%nat eqn:E0; reflect_bools.
    + rewrite remaining_unread in E0. apply length_zero_iff_nil in E0. rewrite E0 in *.
      destruct (fill_buffer_delivers r _ _ _ Hd) as (s1 & Hfb & Hd1).
      unfold catch_map. rewrite Hfb, kind_of_payload by done. simpl.
      destruct (IH (set_records s1 (set_buffered p (set_offset 0 r))) ps) as (r' & Hr & Hh);
        simpl; try done; [lia|simpl in Hf; lia|].
      by exists r'.
    + destruct (read_frame_delivers r _ _ _ Hp0 Hd) as (s1 & Hrf & Hd1).
      unfold catch_map. rewrite Hrf. simpl.
      assert (Hu : unread (set_buffered (buffered r ++ p) (set_records s1 r)) = unread r ++ p).
      { unfold unread; simpl. rewrite drop_app. f_equal.
        replace (_ - _)%nat with 0%nat by lia. done. }
      destruct (IH (set_buffered (buffered r ++ p) (set_records s1 r)) ps) as (r' & Hr & Hh);
        rewrite ?Hu, <-?app_assoc in *; simpl in *; try done; [rewrite length_app; lia|lia|].
      by exists r'.
  - rewrite slice_unread. eexists. split.
    { unfold modify, mret, M_ret. rewrite take_app_le by lia. done. }
    split_and!; simpl; try done.
    { unfold unread in *. rewrite length_drop in *. lia. }
    exists ps. rewrite unread_advance, drop_app_le by lia. done.
Qed.

Lemma length_concat_nonempty (ps : list bytes) :
  Forall (.≠ []) ps → (length ps <= length (concat ps))%nat.
Proof.
  induction 1 as [|p ps Hp _ IH]; simpl; [lia|]. rewrite length_app.
  destruct p; [done|]. simpl. lia.
Qed.

Lemma read_exact_holds pending fuel r D s' len :
  holds pending r D s' → (length D < fuel)%nat → (len <= length D)%nat →
  ∃ r', read_exact_payload_into fuel len r = (Ok (take len D), r') ∧
        holds pending r' (drop len D) s'.
Proof.
  intros (Hp & He & Hs & Ho & ps & Hd & Hne & <-) Hf Hl.
  eapply read_exact_payload_stream; try done.
  pose proof (length_concat_nonempty _ Hne). rewrite length_app in *. lia.
Qed.

Lemma holds_pending b r D s' : holds true r D s' → holds b (set_reply_pending b r) D s'.
Proof. intros (_ & ? & ? & ? & ps & ?). split_and!; eauto. Qed.

(** An accepting reply is consumed, whatever records carry it. *)
Lemma ensure_reply_accepted fuel r d s' :
  awaiting r (x00 :: d) s' → (length d + 1 < fuel)%nat →
  ∃ r', ensure_reply fuel r = (Ok tt, r') ∧ stream r' d s'.
Proof.
  intros Ha Hf. pose proof Ha as (Hp & He & _).
  unfold ensure_reply, get, mbind, M_bind. rewrite Hp, He. cbn [negb modify]. unfold modify.
  apply (holds_pending false) in Ha.
  apply (read_exact_holds _ fuel _ _ _ 1) in Ha as (r' & Hr & Hh); [|simpl; lia..].
  unfold try_, read_reply, mbind, M_bind. rewrite Hr. simpl.
  eexists. split; [done|]. exact Hh.
Qed.

Lemma ensure_reply_done fuel r d s' : stream r d s' → ensure_reply fuel r = (Ok tt, r).
Proof.
  intros (Hp & He & _). unfold ensure_reply, get, mbind, M_bind. by rewrite He, Hp.
Qed.

Definition rejected (code : byte) : error :=
  Bail ("Snell server rejected the request with code " +:+ pretty (b2z code)).

Lemma ensure_reply_rejected fuel r code len msg d s' :
  awaiting r (x02 :: code :: len :: msg ++ d) s' → length msg = Z.to_nat (b2z len) →
  (length (msg ++ d) + 3 < fuel)%nat →
  ∃ r', ensure_reply fuel r = (Err (rejected code), r') ∧
        reply_error r' = Some (display (rejected code)).
Proof.
  intros Ha Hm Hf. pose proof Ha as (Hp & He & _).
  unfold ensure_reply, get, mbind, M_bind. rewrite Hp, He. cbn [negb]. unfold modify.
  apply (holds_pending false) in Ha.
  apply (read_exact_holds _ fuel _ _ _ 1) in Ha as (r1 & Hr1 & Ha); [|simpl; lia..].
  apply (read_exact_holds _ fuel _ _ _ 2) in Ha as (r2 & Hr2 & Ha); [|simpl; lia..].
  apply (read_exact_holds _ fuel _ _ _ (Z.to_nat (b2z len))) in Ha as (r3 & Hr3 & Ha); [|simpl; rewrite ?drop_0, ?length_app in *; lia..].
  unfold try_, read_reply, mbind, M_bind. rewrite Hr1. simpl. rewrite Hr2. simpl.
  rewrite Hr3. simpl. unfold throw. by eexists.
Qed.

Lemma ensure_reply_error fuel r e : reply_error r = Some e → ensure_reply fuel r = (Err (Bail e), r).
Proof. intros He. unfold ensure_reply, get, mbind, M_bind. by rewrite He. Qed.

(** One read of [n] bytes is one step of the abstract stream: some of the
    bytes to come, or none and the end. *)
Lemma read_application_stream fuel n r d s' :
  stream r d s' → (0 < n)%nat → (2 <= fuel)%nat →
  ∃ c r', read_application fuel n r = (Ok c, r') ∧ (length c <= n)%nat ∧
    match d with
    | [] => c = [] ∧ server_eof r' = true ∧ records r' = s' ∧ buffered_remaining r' = 0%nat
    | _ => c ≠ [] ∧ ∃ d', d = c ++ d' ∧ stream r' d' s'
    end.
Proof.
  intros Hst Hn Hf. unfold read_application, mbind, M_bind.
  rewrite (ensure_reply_done _ _ _ _ Hst).
  replace (n =? 0)%nat with false by (symmetry; apply Nat.eqb_neq; lia).
  destruct (wait_payload_stream _ _ _ _ _ Hst Hf) as (r1 & -> & Hr1).
  destruct d as [|b d]; simpl in *.
  - eexists _, _. split; [done|]. simpl. split; [lia|]. by destruct Hr1 as (? & ? & ? & _).
  - destruct Hr1 as [(Hp & He & Hs & Ho & ps & Hd & Hne & Hc) Hu].
    unfold get, modify, mret, M_ret. rewrite slice_unread, remaining_unread.
    eexists _, _. split; [done|]. split; [rewrite length_take; lia|]. split.
    { intros Ht. destruct (unread r1); [done|]. destruct n; [lia|]. done. }
    exists (drop (Nat.min n (length (unread r1))) (unread r1) ++ concat ps).
    split; [by rewrite app_assoc, take_drop, Hc|].
    split_and!; simpl; try done.
    { unfold unread in *. rewrite length_drop in *. lia. }
    exists ps. by rewrite unread_advance.
Qed.

(** The same for a borrowed chunk: the rest of a record. *)
Lemma read_application_chunk_stream fuel r d s' :
  stream r d s' → (2 <= fuel)%nat →
  ∃ c r', read_application_chunk fuel r = (Ok c, r') ∧
    match d with
    | [] => c = [] ∧ server_eof r' = true ∧ records r' = s' ∧ reply_pending r' = false ∧ reply_error r' = None
    | _ => c ≠ [] ∧ ∃ d', d = c ++ d' ∧ stream r' d' s'
    end.
Proof.
  intros Hst Hf. unfold read_application_chunk, mbind, M_bind.
  rewrite (ensure_reply_done _ _ _ _ Hst).
  destruct (wait_payload_stream _ _ _ _ _ Hst Hf) as (r1 & -> & Hr1).
  destruct d as [|b d]; simpl in *.
  - eexists _, _. split; [done|]. by destruct Hr1 as (? & ? & ? & ? & ?).
  - destruct Hr1 as [(Hp & He & Hs & Ho & ps & Hd & Hne & Hc) Hu].
    unfold get, modify, mret, M_ret. eexists _, _. split; [done|]. split; [done|].
    exists (concat ps). split; [done|]. split_and!; simpl; try done.
    exists ps. unfold unread at 1; simpl. by rewrite drop_all.
Qed.

Lemma read_application_awaiting fuel n r d s' :
  awaiting r (x00 :: d) s' → (length d + 1 < fuel)%nat →
  ∃ r', stream r' d s' ∧ read_application fuel n r = read_application fuel n r'.
Proof.
  intros Ha Hf. destruct (ensure_reply_accepted _ _ _ _ Ha Hf) as (r' & Hr & Hst).
  exists r'. split; [done|]. unfold read_application, mbind, M_bind.
  by rewrite Hr, (ensure_reply_done _ _ _ _ Hst).
Qed.

Lemma read_application_chunk_awaiting fuel r d s' :
  awaiting r (x00 :: d) s' → (length d + 1 < fuel)%nat →
  ∃ r', stream r' d s' ∧ read_application_chunk fuel r = read_application_chunk fuel r'.
Proof.
  intros Ha Hf. destruct (ensure_reply_accepted _ _ _ _ Ha Hf) as (r' & Hr & Hst).
  exists r'. split; [done|]. unfold read_application_chunk, mbind, M_bind.
  by rewrite Hr, (ensure_reply_done _ _ _ _ Hst).
Qed.

(** Reads with the given destination sizes until one returns nothing. *)
Fixpoint read_until_eof (fuel : nat) (sizes : list nat) : M (SnellReader S) bytes :=
  match sizes with
  | [] => throw OutOfFuel
  | n :: sizes' =>
      c ← read_application fuel n;
      if bool_decide (c = []) then mret []
      else rest ← read_until_eof fuel sizes'; mret (c ++ rest)
  end.

Lemma read_until_eof_stream fuel sizes r d s' :
  stream r d s' → Forall (λ n, 0 < n)%nat sizes → (length d < length sizes)%nat →
  (2 <= fuel)%nat →
  ∃ r', read_until_eof fuel sizes r = (Ok d, r') ∧
        server_eof r' = true ∧ records r' = s' ∧ buffered_remaining r' = 0%nat.
Proof.
  intros Hst Hsz Hl Hf. revert r d Hst Hl; induction Hsz as [|n sizes Hn _ IH];
    intros r d Hst Hl; [simpl in Hl; lia|].
  cbn [read_until_eof]. unfold mbind, M_bind.
  destruct (read_application_stream _ _ _ _ _ Hst Hn Hf) as (c & r1 & -> & _ & Hc).
  destruct d as [|b d].
  - destruct Hc as (-> & ? & ? & ?). by eexists.
  - destruct Hc as (Hne & d' & Heq & Hst1). rewrite bool_decide_eq_false_2 by done.
    destruct (IH _ _ Hst1) as (r' & -> & ?).
    { apply (f_equal length) in Heq. destruct c; [done|]. simpl in *.
      rewrite length_app in Heq. lia. }
    rewrite Heq. by exists r'.
Qed.

(** Closing discards what is left of the session, up to the zero record. *)
Lemma drain_records_delivers fuel r ps s' :
  delivers (records r) (ps ++ [[]]) s' → Forall (.≠ []) ps → server_eof r = false →
  (length ps + 1 < fuel)%nat →
  ∃ r', drain_records fuel r = (Ok tt, r') ∧ server_eof r' = true ∧ records r' = s' ∧
        buffered r' = [] ∧ buffered_offset r' = 0%nat.
Proof.
  revert r ps; induction fuel as [|fuel IH]; intros r ps Hd Hne Hs Hf; [lia|].
  cbn [drain_records]. unfold get, catch_map, mbind, M_bind. rewrite Hs.
  destruct ps as [|p ps].
  - destruct (fill_buffer_delivers r _ _ _ Hd) as (s1 & -> & Hd1). simpl.
    destruct fuel as [|fuel]; [simpl in Hf; lia|]. simpl. by eexists.
  - destruct (fill_buffer_delivers r _ _ _ Hd) as (s1 & -> & Hd1).
    apply Forall_cons in Hne as [Hp Hne]. rewrite kind_of_payload by done. simpl.
    apply (IH _ ps); simpl in *; try done; lia.
Qed.

Lemma complete_reuse_close_stream fuel r d s' :
  stream r d s' → (length d + 1 < fuel)%nat →
  ∃ r', complete_reuse_close fuel r = (Ok tt, r') ∧ server_eof r' = true ∧ records r' = s' ∧
        buffered r' = [] ∧ buffered_offset r' = 0%nat.
Proof.
  intros (Hp & He & Hs & Ho & ps & Hd & Hne & Hc) Hf.
  unfold complete_reuse_close, modify, mbind, M_bind.
  unfold ensure_reply, get, mbind, M_bind; simpl. rewrite He, Hp. simpl.
  apply (drain_records_delivers _ _ ps); simpl; try done.
  pose proof (length_concat_nonempty _ Hne). subst d. rewrite length_app in *. lia.
Qed.
End Stream.

(** ** Readiness for reuse *)

(** What [start_reuse] asks of the reader ([client.rs]). *)
Definition ready_for_reuse {S} (r : SnellReader S) : bool :=
  (buffered_remaining r =? 0)%nat && server_eof r.

(** A source clears the caller's buffer before it reports a zero record. *)
Class RecordSourceLaws (S : Type) `{RecordSource S} : Prop := {
  zero_clears (s s' : S) buf frame :
    read_record_into (s, buf) = (Ok Zero, (s', frame)) → frame = []
}.

#[export] Instance list_source_laws : RecordSourceLaws (list bytes).
Proof.
  split. intros [|p ps] s' buf frame; simpl; [done|]. unfold kind_of.
  destruct (bool_decide (p = [])) eqn:E; [|done]. intros [= <- <-]. by reflect_bools.
Qed.

Lemma on_io_buf {R A} (m : M R A) (s s' : RecordReader R * bytes) a :
  on_io m s = (Ok a, s') → s'.2 = s.2.
Proof. unfold on_io. by intros (t & _ & ->)%zoom_inv. Qed.

Lemma on_reader_buf {R A} (m : M (RecordReader R) A) s s' a :
  on_reader m s = (Ok a, s') → s'.2 = s.2.
Proof. unfold on_reader. by intros (t & _ & ->)%zoom_inv. Qed.

#[export] Instance record_reader_laws `{RecordCrypto} {R} `{AsyncRead R} :
  RecordSourceLaws (RecordReader R).
Proof.
  split. intros r r' buf frame Hr. simpl in Hr. unfold read_frame_into, set_frame in Hr. M_inv.
  assert (Hb : ∀ (s s' : RecordReader R * bytes) a, ensure_aead s = (Ok a, s') → s'.2 = s.2).
  { intros s s' a He. unfold ensure_aead in He. destruct s as [r0 b0]. M_inv.
    destruct (r_aead _) in He; M_inv; [done|].
    repeat match goal with
    | H : on_io _ _ = (Ok _, _) |- _ => apply on_io_buf in H
    | H : on_reader _ _ = (Ok _, _) |- _ => apply on_reader_buf in H
    end. simpl in *. congruence. }
  assert (Ho : ∀ k m c (s s' : RecordReader R * bytes) a,
             open_next k m c s = (Ok a, s') → s'.2 = s.2).
  { intros k m c s s' a He. unfold open_next in He. destruct s as [r0 b0]. M_inv.
    rename select (on_reader _ _ = _) into Hx. by apply on_reader_buf in Hx. }
  rename select (ensure_aead _ = _) into H1. apply Hb in H1.
  rename select (on_io _ _ = _) into H2. apply on_io_buf in H2.
  rename select (open_next _ _ _ _ = _) into H3. apply Ho in H3. simpl in *.
  match type of Hr with (match ?l with _ => _ end) _ = _ =>
    destruct l as [|? [|? [|? [|? [|? [|? [|? [|]]]]]]]]; try done end.
  destruct (negb _) in Hr; [done|]. destruct (_ || _) in Hr; [done|].
  destruct (_ =? 0) in Hr.
  - destruct (negb _) in Hr; [done|]. M_inv. congruence.
  - unfold read_body in Hr. by M_inv.
Qed.

Section Reuse.
Context {S : Type} `{RecordSource S} `{!RecordSourceLaws S}.
Implicit Types r : SnellReader S.

(** A reply is due only before the server's end of the session. *)
Definition reply_before_eof r : Prop := reply_pending r = true → server_eof r = false.

Lemma fill_buffer_inv r r' kind :
  fill_buffer r = (Ok kind, r') →
  server_eof r' = server_eof r ∧ (kind = Zero → buffered_remaining r' = 0%nat).
Proof.
  unfold fill_buffer. intros Hf. M_inv. unfold zoom in *.
  destruct (read_record_into _) as [k [s' b]] eqn:E. simplify_eq/=. split; [done|].
  intros ->. apply zero_clears in E as ->. done.
Qed.

Lemma drain_records_inv fuel r r' :
  drain_records fuel r = (Ok tt, r') →
  (server_eof r = true → buffered_remaining r = 0%nat) → ready_for_reuse r' = true.
Proof.
  unfold ready_for_reuse.
  revert r; induction fuel as [|fuel IH]; intros r Hr Hi; [done|].
  cbn [drain_records] in Hr. M_inv. destruct (server_eof x0) eqn:Es; M_inv.
  - by rewrite Hi, Es.
  - rename select (fill_buffer _ = _) into Hfb. apply fill_buffer_inv in Hfb as [Hs Hz].
    match type of Hr with (match ?k with _ => _ end) _ = _ => destruct k end.
    + apply IH in Hr; [done|]. by rewrite Hs, Es.
    + M_inv. apply IH in Hr; [done|]. intros _. by apply Hz.
Qed.

Definition keeps_eof {A} (m : M (SnellReader S) A) : Prop :=
  ∀ r, server_eof (m r).2 = server_eof r.

Lemma keeps_eof_preserves {A} (m : M (SnellReader S) A) :
  keeps_eof m ↔ ∀ b, preserves (λ r, server_eof r = b) m.
Proof. split; [by intros Hk b r <-|intros Hk r; by apply (Hk (server_eof r))]. Qed.

Lemma ensure_reply_eof fuel b : preserves (λ r, server_eof r = b) (ensure_reply (S := S) fuel).
Proof.
  assert (Hf : preserves (λ r, server_eof r = b) (fill_buffer (S := S))).
  { unfold fill_buffer. apply preserves_bind; [by apply preserves_modify|].
    intros _. by apply preserves_zoom. }
  assert (Hre : ∀ n len, preserves (λ r, server_eof r = b) (read_exact_payload_into (S := S) n len)).
  { induction n as [|n IH]; intros len; cbn [read_exact_payload_into]; [apply preserves_throw|].
    apply preserves_bind; [apply preserves_get|]. intros r.
    destruct (_ <? _)%nat; [destruct (_ =? _)%nat|].
    - apply preserves_bind; [by apply preserves_catch_map|]. intros k.
      destruct (bool_decide _); [apply preserves_bail|apply IH].
    - apply preserves_bind; [apply preserves_catch_map; by apply preserves_zoom|]. intros p.
      apply preserves_bind; [by apply preserves_modify|]. intros _. apply IH.
    - apply preserves_bind; [by apply preserves_modify|]. intros _. apply preserves_ret. }
  assert (Hrr : preserves (λ r, server_eof r = b) (read_reply (S := S) fuel)).
  { unfold read_reply. apply preserves_bind; [apply Hre|]. intros st.
    repeat case_match; try apply preserves_bail; try apply preserves_ret.
    apply preserves_bind; [apply Hre|]. intros dt.
    repeat case_match; try apply preserves_bail.
    apply preserves_bind; [apply Hre|]. intros. apply preserves_bail. }
  unfold ensure_reply. apply preserves_bind; [apply preserves_get|]. intros r.
  destruct (reply_error r); [apply preserves_bail|]. destruct (negb _); [apply preserves_ret|].
  apply preserves_bind; [by apply preserves_modify|]. intros _.
  apply preserves_bind.
  { intros s Hs. specialize (Hrr s Hs). unfold try_. by destruct (read_reply fuel s). }
  intros [u|e]; [apply preserves_ret|].
  apply preserves_bind; [by apply preserves_modify|]. intros _. apply preserves_throw.
Qed.

Lemma ensure_reply_not_pending fuel r :
  reply_pending r = false → (ensure_reply fuel r).2 = r.
Proof.
  intros Hp. unfold ensure_reply, get, mbind, M_bind.
  destruct (reply_error r); [done|]. by rewrite Hp.
Qed.

(** Whatever the server sends and in whatever way, a session whose close
    completes without error leaves its connection ready for the next CONNECT:
    nothing is buffered and the server's end of session has been read. *)
Theorem closed_session_ready fuel r r' :
  reply_before_eof r → complete_reuse_close fuel r = (Ok tt, r') → ready_for_reuse r' = true.
Proof.
  intros Hi Hc. unfold complete_reuse_close in Hc. M_inv.
  rename select (ensure_reply _ _ = _) into He.
  eapply drain_records_inv; [done|]. intros Hs.
  destruct (reply_pending r) eqn:Hp.
  - specialize (Hi Hp). pose proof (ensure_reply_eof fuel false (set_offset 0 (set_buffered [] r)) Hi) as Hk.
    rewrite He in Hk. simpl in Hk. congruence.
  - pose proof (ensure_reply_not_pending fuel (set_offset 0 (set_buffered [] r)) Hp) as Hk.
    rewrite He in Hk. simpl in Hk. by subst.
Qed.
End Reuse.

Lemma closed_session_ready_witness :
  let r := MkSnellReader [lit "rest"; []] (lit "abc") 1 false false None in
  ∃ r', complete_reuse_close 5 r = (Ok tt, r') ∧ ready_for_reuse r' = true.
Proof.
  eexists. split; [vm_compute; reflexivity|].
  eapply (closed_session_ready 5 (MkSnellReader [lit "rest"; []] (lit "abc") 1 false false None));
    [intros ?; reflexivity|vm_compute; reflexivity].
Defined.

(** C5: However the server cuts an accepting reply and its data into records,
    reading with any nonempty destinations until the first empty read returns
    exactly the data, marks the end of the session, and consumes the records up
    to the zero record and none after it. *)
Theorem application_stream_exact {S} `{RecordSource S} fuel sizes (r : SnellReader S) d s' :
  awaiting r (x00 :: d) s' → Forall (λ n, 0 < n)%nat sizes →
  (length d < length sizes)%nat → (length d + 1 < fuel)%nat →
  ∃ r', read_until_eof fuel sizes r = (Ok d, r') ∧
        server_eof r' = true ∧ records r' = s' ∧ buffered_remaining r' = 0%nat.
Proof.
  intros Ha Hsz Hl Hf. destruct sizes as [|n sizes]; [simpl in Hl; lia|].
  destruct (read_application_awaiting fuel n r d s' Ha Hf) as (r1 & Hst & Heq).
  destruct (read_until_eof_stream fuel (n :: sizes) r1 d s' Hst Hsz Hl) as (r' & Hrd & ?); [lia|].
  exists r'. split; [|done]. rewrite <-Hrd. cbn [read_until_eof]. unfold mbind, M_bind.
  by rewrite Heq.
Qed.

Definition demo_records : list bytes := [[x00]; lit "hel"; lit "lo w"; lit "orld"; []; lit "next"].

Lemma application_stream_exact_witness :
  ∃ r', read_until_eof 20 (replicate 14 2%nat) (snell_reader_new demo_records)
          = (Ok (lit "hello world"), r') ∧
        server_eof r' = true ∧ records r' = [lit "next"] ∧ buffered_remaining r' = 0%nat.
Proof.
  refine (application_stream_exact 20 (replicate 14 2%nat) (snell_reader_new demo_records)
            (lit "hello world") [lit "next"] _ _ _ _).
  - split; [reflexivity|]. split; [reflexivity|]. split; [reflexivity|]. split; [simpl; lia|].
    exists [[x00]; lit "hel"; lit "lo w"; lit "orld"].
    split; [exact (delivers_list [[x00]; lit "hel"; lit "lo w"; lit "orld"; []] [lit "next"])|].
    split; [repeat constructor; discriminate|reflexivity].
  - apply Forall_replicate. lia.
  - simpl. lia.
  - simpl. lia.
Defined.

(** A rejecting reply (code and message, cut into records in any way) is
    an error that names the code, and every later read or close of the session
    repeats it without touching the connection. *)
Theorem rejected_reply_sticky {S} `{RecordSource S} fuel (r : SnellReader S) code len msg d s' :
  awaiting r (x02 :: code :: len :: msg ++ d) s' → length msg = Z.to_nat (b2z len) →
  (length (msg ++ d) + 3 < fuel)%nat →
  ∃ r', ensure_reply fuel r = (Err (rejected code), r') ∧
    ∀ fuel' n, read_application fuel' n r' = (Err (rejected code), r') ∧
               read_application_chunk fuel' r' = (Err (rejected code), r') ∧
               (complete_reuse_close fuel' r').1 = Err (rejected code).
Proof.
  intros Ha Hm Hf. destruct (ensure_reply_rejected fuel r code len msg d s' Ha Hm Hf)
    as (r' & Hr & He).
  exists r'. split; [done|]. intros fuel' n.
  pose proof (ensure_reply_error fuel' r' _ He) as Hx.
  unfold read_application, read_application_chunk, complete_reuse_close, modify, mbind, M_bind.
  rewrite Hx. split; [done|]. split; [done|].
  by rewrite (ensure_reply_error fuel' (set_offset 0 (set_buffered [] r')) _ He).
Qed.

Lemma rejected_reply_sticky_witness :
  ∃ r', ensure_reply 20 (snell_reader_new [[x02; x07]; [x03; x6e]; lit "ope"; []])
          = (Err (Bail "Snell server rejected the request with code 7"), r') ∧
    ∀ fuel' n, read_application fuel' n r' = (Err (rejected x07), r') ∧
               read_application_chunk fuel' r' = (Err (rejected x07), r') ∧
               (complete_reuse_close fuel' r').1 = Err (rejected x07).
Proof.
  refine (rejected_reply_sticky 20 (snell_reader_new [[x02; x07]; [x03; x6e]; lit "ope"; []])
            x07 x03 (lit "nop") (lit "e") [] _ _ _).
  - split; [reflexivity|]. split; [reflexivity|]. split; [reflexivity|]. split; [simpl; lia|].
    exists [[x02; x07]; [x03; x6e]; lit "ope"].
    split; [exact (delivers_list [[x02; x07]; [x03; x6e]; lit "ope"; []] [])|].
    split; [repeat constructor; discriminate|reflexivity].
  - reflexivity.
  - simpl. lia.
Defined.
