(* ===== verification/SnellPool.v ===== *)
(** * SnellPool: the idle connections of a Snell client ([src/snell/client.rs])

    [dial_tcp], [finish], [release], [take_idle] and [close] of [SnellClient]
    run concurrently on a list behind a lock and an atomic flag. Each access to
    either is one atomic step here; the calls are first composed as a single
    task runs them, then interleaved in a step relation. *)
From S2P Require Import Prelude Bytes.
Local Open Scope Z_scope.

(** The options of [SnellClientOptions] the pool depends on; durations in
    milliseconds. *)
Record PoolOptions : Type := MkPoolOptions {
  max_idle : nat;
  max_uses : nat;
  idle_timeout : Z
}.

(** [C] is a physical connection, [generation] its [network_generation]. *)
Record IdleConnection (C : Type) : Type := MkIdle {
  physical : C;
  uses : nat;
  idle_since : Z
}.
#[global] Arguments MkIdle {C}.
#[global] Arguments physical {C}.
#[global] Arguments uses {C}.
#[global] Arguments idle_since {C}.

(** [ClientInner]: the last element of [idle] is the next to be popped. *)
Record Pool (C : Type) : Type := MkPool {
  idle : list (IdleConnection C);
  closed : bool
}.
#[global] Arguments MkPool {C}.
#[global] Arguments idle {C}.
#[global] Arguments closed {C}.

Section Pool.
Context {C : Type} (generation : C → Z) (options : PoolOptions).

(** ** Atomic steps *)

(** [idle.lock().await.pop()] *)
Definition pop_idle (p : Pool C) : option (IdleConnection C) * Pool C :=
  match rev (idle p) with
  | [] => (None, p)
  | entry :: before => (Some entry, MkPool (rev before) (closed p))
  end.

(** The entry is recent and belongs to the current network. *)
Definition entry_usable (now network_generation : Z) (entry : IdleConnection C) : bool :=
  (now - idle_since entry <=? idle_timeout options)
  && (generation (physical entry) =? network_generation).

(** The first check of [release], outside the lock. *)
Definition release_refused (p : Pool C) (u : nat) : bool :=
  closed p || (max_uses options <=? u)%nat.

(** The rest of [release], under the lock: [None] when the connection is
    retired instead. *)
Definition push_idle (p : Pool C) (c : C) (u : nat) (now : Z) : option (Pool C) :=
  if closed p || (max_idle options <=? length (idle p))%nat then None
  else Some (MkPool (idle p ++ [MkIdle c u now]) (closed p)).

(** [closed.swap(true)] *)
Definition swap_closed (p : Pool C) : bool * Pool C := (closed p, MkPool (idle p) true).

(** [std::mem::take] of the list, under the lock *)
Definition take_all (p : Pool C) : list (IdleConnection C) * Pool C :=
  (idle p, MkPool [] (closed p)).

(** ** The calls, run by one task

    Each returns the connections it retired with the new pool. *)

Fixpoint take_idle_loop (fuel : nat) (now network_generation : Z) (p : Pool C) :
    option (IdleConnection C) * list C * Pool C :=
  match fuel with
  | O => (None, [], p)
  | S fuel' =>
      match pop_idle p with
      | (None, p) => (None, [], p)
      | (Some entry, p) =>
          if entry_usable now network_generation entry then (Some entry, [], p)
          else
            let '(found, retired, p) := take_idle_loop fuel' now network_generation p in
            (found, physical entry :: retired, p)
      end
  end.

(** Every pop shortens the list. *)
Definition take_idle (now network_generation : Z) (p : Pool C) :
    option (IdleConnection C) * list C * Pool C :=
  take_idle_loop (S (length (idle p))) now network_generation p.

Definition release (c : C) (u : nat) (now : Z) (p : Pool C) : list C * Pool C :=
  if release_refused p u then ([c], p)
  else match push_idle p c u now with
       | None => ([c], p)
       | Some p => ([], p)
       end.

Definition close (p : Pool C) : list C * Pool C :=
  let '(was_closed, p) := swap_closed p in
  if was_closed then ([], p)
  else let '(entries, p) := take_all p in (physical <$> entries, p).
End Pool.

(** ** The calls, interleaved *)

(** What a task is about to do, and the connection it owns meanwhile. *)
Inductive task (C : Type) : Type :=
  (** between calls, owning no connection *)
  | Resting
  (** in [take_idle], about to pop *)
  | Popping
  (** in [dial_tcp], calling [start_reuse] on a popped entry *)
  | Starting (c : C) (u : nat)
  (** a [SnellSession] in use, for the [u]-th time *)
  | InUse (c : C) (u : nat)
  (** in [release], before its first check *)
  | Releasing (c : C) (u : nat)
  (** in [release], waiting for the lock *)
  | Pushing (c : C) (u : nat)
  (** in [close], before [take] *)
  | Taking.
Arguments Resting {C}.
Arguments Popping {C}.
Arguments Starting {C}.
Arguments InUse {C}.
Arguments Releasing {C}.
Arguments Pushing {C}.
Arguments Taking {C}.

Definition task_connection {C} (t : task C) : list C :=
  match t with
  | Starting c _ | InUse c _ | Releasing c _ | Pushing c _ => [c]
  | _ => []
  end.

Record config (C : Type) : Type := MkConfig {
  pool : Pool C;
  tasks : list (task C);
  retired : list C
}.
#[global] Arguments MkConfig {C}.
#[global] Arguments pool {C}.
#[global] Arguments tasks {C}.
#[global] Arguments retired {C}.

Section Interleaving.
Context {C : Type} (generation : C → Z) (options : PoolOptions).

(** One atomic step of one task: its next phase, the pool it leaves and what it
    retired. *)
Inductive task_step (p : Pool C) : task C → task C → Pool C → list C → Prop :=
  (** [dial_tcp]: the client is open and reuses connections *)
  | step_dial : closed p = false → task_step p Resting Popping p []
  | step_pop_none p' : pop_idle p = (None, p') → task_step p Popping Resting p' []
  | step_pop_usable entry now gen p' :
      pop_idle p = (Some entry, p') → entry_usable generation options now gen entry = true →
      task_step p Popping (Starting (physical entry) (uses entry)) p' []
  | step_pop_stale entry now gen p' :
      pop_idle p = (Some entry, p') → entry_usable generation options now gen entry = false →
      task_step p Popping Popping p' [physical entry]
  (** [start_reuse] succeeded or failed *)
  | step_started c u : task_step p (Starting c u) (InUse c (S u)) p []
  | step_start_failed c u : task_step p (Starting c u) Popping p [c]
  (** [finish]: reusable, clean and closed in time, or not *)
  | step_finish c u : task_step p (InUse c u) (Releasing c u) p []
  | step_finish_unclean c u : task_step p (InUse c u) Resting p [c]
  (** [release] *)
  | step_refused c u :
      release_refused options p u = true → task_step p (Releasing c u) Resting p [c]
  | step_admitted c u :
      release_refused options p u = false → task_step p (Releasing c u) (Pushing c u) p []
  | step_push c u now p' :
      push_idle options p c u now = Some p' → task_step p (Pushing c u) Resting p' []
  | step_full c u now :
      push_idle options p c u now = None → task_step p (Pushing c u) Resting p [c]
  (** [close] *)
  | step_close p' : swap_closed p = (false, p') → task_step p Resting Taking p' []
  | step_close_again p' : swap_closed p = (true, p') → task_step p Resting Resting p' []
  | step_take entries p' :
      take_all p = (entries, p') → task_step p Taking Resting p' (physical <$> entries).

(** The connections of a configuration, wherever they are. *)
Definition connections (k : config C) : list C :=
  (physical <$> idle (pool k)) ++ (tasks k ≫= task_connection) ++ retired k.

(** A step of the client: some task moves, or a dialled connection starts its
    first session. *)
Inductive step : config C → config C → Prop :=
  | step_task p before t after rs t' p' rs' :
      task_step p t t' p' rs' →
      step (MkConfig p (before ++ t :: after) rs) (MkConfig p' (before ++ t' :: after) (rs ++ rs'))
  | step_new p ts rs c :
      c ∉ connections (MkConfig p ts rs) →
      step (MkConfig p ts rs) (MkConfig p (InUse c 1 :: ts) rs).

Inductive reachable : config C → Prop :=
  | reach_new n : reachable (MkConfig (MkPool [] false) (replicate n Resting) [])
  | reach_step k k' : reachable k → step k k' → reachable k'.
End Interleaving.

(** ** Lemmas *)

Section PoolLemmas.
Context {C : Type} (generation : C → Z) (options : PoolOptions).
Implicit Types p : Pool C.

Lemma pop_idle_None p p' : pop_idle p = (None, p') → idle p = [] ∧ p' = p.
Proof.
  unfold pop_idle. destruct (rev (idle p)) eqn:E; [|done]. intros [= <-].
  split; [|done]. apply (f_equal (@rev _)) in E. by rewrite rev_involutive in E.
Qed.

Lemma pop_idle_Some p p' e :
  pop_idle p = (Some e, p') → idle p = idle p' ++ [e] ∧ closed p' = closed p.
Proof.
  unfold pop_idle. destruct (rev (idle p)) eqn:E; [done|]. intros [= -> <-]. simpl.
  split; [|done]. apply (f_equal (@rev _)) in E. by rewrite rev_involutive in E.
Qed.

Lemma pop_idle_snoc p es e : idle p = es ++ [e] → pop_idle p = (Some e, MkPool es (closed p)).
Proof. intros H. unfold pop_idle. by rewrite H, rev_unit, rev_involutive. Qed.

Lemma push_idle_Some p c u now p' :
  push_idle options p c u now = Some p' →
  closed p = false ∧ (length (idle p) < max_idle options)%nat ∧
  p' = MkPool (idle p ++ [MkIdle c u now]) false.
Proof.
  unfold push_idle. destruct (_ || _) eqn:E; [done|]. intros [= <-]. reflect_bools.
  by match goal with H : closed p = _ |- _ => rewrite H end.
Qed.

(** What [take_idle] does: it pops entries that are too old or of another
    network until it finds a usable one. *)
Lemma take_idle_loop_spec now gen fuel p :
  (length (idle p) < fuel)%nat →
  ∃ found rs p' stale,
    take_idle_loop generation options fuel now gen p = (found, rs, p') ∧
    closed p' = closed p ∧
    idle p = idle p' ++ option_list found ++ stale ∧
    Forall (λ e, entry_usable generation options now gen e = false) stale ∧
    rs = physical <$> rev stale ∧
    match found with
    | Some e => entry_usable generation options now gen e = true
    | None => idle p' = []
    end.
Proof.
  revert p; induction fuel as [|fuel IH]; intros p Hl; [lia|]. cbn [take_idle_loop].
  destruct (pop_idle p) as [[e|] p1] eqn:E.
  - apply pop_idle_Some in E as [Hi Hc].
    destruct (entry_usable generation options now gen e) eqn:Eu.
    + exists (Some e), [], p1, []. by rewrite Hi.
    + destruct (IH p1) as (found & rs & p' & stale & -> & Hc' & Hi' & Hst & -> & Hf).
      { rewrite Hi, length_app in Hl. simpl in Hl. lia. }
      exists found, (physical e :: (physical <$> rev stale)), p', (stale ++ [e]).
      split_and!; try done.
      * by rewrite Hc'.
      * by rewrite Hi, Hi', <-!app_assoc.
      * apply Forall_app. by rewrite Forall_singleton.
      * by rewrite rev_unit.
  - apply pop_idle_None in E as [Hi ->]. exists None, [], p, []. by rewrite Hi.
Qed.
End PoolLemmas.

(** ** The invariant of the interleaving *)

Section Invariant.
Context {C : Type} (generation : C → Z) (options : PoolOptions).
Implicit Types k : config C.

Definition task_uses (t : task C) : Prop :=
  match t with
  | Starting _ u | Pushing _ u => (u < max_uses options)%nat
  | InUse _ u | Releasing _ u => (u <= max_uses options)%nat
  | _ => True
  end.

Record pool_inv (k : config C) : Prop := {
  inv_idle : (length (idle (pool k)) <= max_idle options)%nat;
  inv_uses : Forall (λ e, (uses e < max_uses options)%nat) (idle (pool k));
  inv_tasks : Forall task_uses (tasks k);
  inv_closed : closed (pool k) = true → idle (pool k) = [] ∨ Taking ∈ tasks k;
  inv_taking : Taking ∈ tasks k → closed (pool k) = true;
  inv_owned : NoDup (connections k)
}.

(** A task step changes the pool, the task's connection and the retired ones;
    together they hold the same connections. *)
Lemma task_step_connections p t t' p' rs :
  task_step generation options p t t' p' rs →
  (physical <$> idle p') ++ task_connection t' ++ rs ≡ₚ (physical <$> idle p) ++ task_connection t.
Proof.
  destruct 1; simpl; rewrite ?app_nil_r; try done;
    repeat match goal with
    | H : pop_idle _ = (None, _) |- _ => apply pop_idle_None in H as [? ->]
    | H : pop_idle _ = (Some _, _) |- _ => apply pop_idle_Some in H as [-> _]
    | H : push_idle _ _ _ _ _ = Some _ |- _ => apply push_idle_Some in H as (_ & _ & ->)
    | H : swap_closed _ = _ |- _ => unfold swap_closed in H; simplify_eq/=
    | H : take_all _ = _ |- _ => unfold take_all in H; simplify_eq/=
    end; simpl; rewrite ?fmap_app, ?app_nil_r; done.
Qed.

Lemma step_connections k k' :
  step generation options k k' →
  connections k' ≡ₚ connections k ∨
  ∃ c, c ∉ connections k ∧ connections k' ≡ₚ c :: connections k.
Proof.
  destruct 1 as [p before t after rs t' p' rs' Hs|p ts rs c ?].
  - left. apply task_step_connections in Hs. unfold connections; simpl.
    rewrite !bind_app, !bind_cons.
    set (a := before ≫= task_connection). set (b := after ≫= task_connection).
    transitivity (((physical <$> idle p') ++ task_connection t' ++ rs') ++ a ++ b ++ rs);
      [solve_Permutation|]. rewrite Hs. solve_Permutation.
  - right. exists c. split; [done|]. unfold connections; simpl. solve_Permutation.
Qed.


Lemma elem_of_tasks (t u : task C) before after :
  u ∈ before ++ t :: after ↔ u ∈ before ++ after ∨ u = t.
Proof. set_solver. Qed.

Lemma Forall_tasks (P : task C → Prop) t before after :
  Forall P (before ++ t :: after) ↔ Forall P (before ++ after) ∧ P t.
Proof. rewrite !Forall_app, Forall_cons. tauto. Qed.

(** What one task step does to the parts of the invariant but ownership. *)
Lemma task_step_local p t t' p' rs :
  task_step generation options p t t' p' rs →
  (length (idle p) <= max_idle options)%nat →
  Forall (λ e, (uses e < max_uses options)%nat) (idle p) → task_uses t →
  (t = Taking → closed p = true) →
  (length (idle p') <= max_idle options)%nat ∧
  Forall (λ e, (uses e < max_uses options)%nat) (idle p') ∧ task_uses t' ∧
  (closed p = true → closed p' = true) ∧
  (closed p' = true → closed p = true ∧ (idle p = [] ∨ t = Taking → idle p' = []) ∨ t' = Taking) ∧
  (t' = Taking → closed p' = true).
Proof.
  destruct 1; intros Hi Hu Ht Hk; simpl in *;
    repeat match goal with
    | H : pop_idle _ = (None, _) |- _ => apply pop_idle_None in H as [? ->]
    | H : pop_idle _ = (Some _, _) |- _ => apply pop_idle_Some in H as [Hq ->]; rewrite Hq in *
    | H : push_idle _ _ _ _ _ = Some _ |- _ => apply push_idle_Some in H as (? & ? & ->)
    | H : swap_closed _ = _ |- _ => unfold swap_closed in H; simplify_eq/=
    | H : take_all _ = _ |- _ => unfold take_all in H; simplify_eq/=
    | H : Forall _ (_ ++ [_]) |- _ => rewrite Forall_app, Forall_singleton in H; destruct H
    | H : release_refused _ _ _ = false |- _ => unfold release_refused in H
    end; rewrite ?length_app in *; simpl in *; reflect_bools.
  all: split_and!; try lia; try done; try (rewrite length_app; simpl; lia); try (apply Forall_app; by rewrite Forall_singleton).
  all: intros; simplify_eq; try congruence; try by right.
  all: left; split; [congruence|]; intros [Hnil|Hnil]; simplify_eq/=; try done.
  all: by apply app_eq_nil in Hnil as [? ?].
Qed.

Lemma step_inv k k' : (1 <= max_uses options)%nat →
  pool_inv k → step generation options k k' → pool_inv k'.
Proof.
  intros Hmax [Hi Hu Ht Hc Htk Ho] Hs.
  assert (NoDup (connections k')) as Ho'.
  { destruct (step_connections _ _ Hs) as [->|(c & Hnew & ->)]; [done|by constructor]. }
  destruct Hs as [p before t after rs t' p' rs' Hs|p ts rs c Hnew]; simpl in *.
  - apply Forall_tasks in Ht as [Ht0 Ht]. setoid_rewrite elem_of_tasks in Hc.
    setoid_rewrite elem_of_tasks in Htk.
    destruct (task_step_local _ _ _ _ _ Hs Hi Hu Ht) as (Hi' & Hu' & Ht' & Hm & Hc' & Hk').
    { intros ->. apply Htk. by right. }
    split; simpl; try done.
    + by apply Forall_tasks.
    + rewrite elem_of_tasks. intros Hcl.
      destruct (Hc' Hcl) as [[Hcl0 He]|Hcl0]; [|by subst; eauto].
      destruct (Hc Hcl0) as [?|[?|?]]; eauto.
    + rewrite elem_of_tasks. intros [Hin|Heq]; [|by apply Hk'].
      apply Hm, Htk. by left.
  - split; simpl; try done.
    + by constructor.
    + intros Hcl. destruct (Hc Hcl); [by left|]. right. by constructor.
    + intros [?|?]%elem_of_cons; [done|by apply Htk].
Qed.

Lemma reachable_inv k : (1 <= max_uses options)%nat → reachable generation options k → pool_inv k.
Proof.
  intros Hmax. induction 1 as [n|k k' _ IH Hs]; [|by eapply step_inv].
  assert (Hr : replicate n Resting ≫= task_connection (C := C) = []) by (by induction n).
  split; simpl; try done.
  - lia.
  - apply Forall_replicate. done.
  - intros Hin. by apply elem_of_replicate in Hin as [? _].
  - unfold connections; simpl. rewrite Hr. constructor.
Qed.

(** Once closed and emptied, a pool stays so. *)
Lemma closed_stays k k' :
  pool_inv k → step generation options k k' → closed (pool k) = true → Taking ∉ tasks k →
  closed (pool k') = true ∧ Taking ∉ tasks k'.
Proof.
  intros [Hi Hu Ht Hc Htk Ho] Hs Hcl Hnt.
  destruct Hs as [p before t after rs t' p' rs' Hs|p ts rs c Hnew]; simpl in *.
  - apply Forall_tasks in Ht as [_ Ht].
    destruct (task_step_local _ _ _ _ _ Hs Hi Hu Ht) as (_ & _ & _ & Hm & _ & _).
    { intros ->. done. }
    split; [by apply Hm|]. rewrite elem_of_tasks in *. intros [Hin|Heq]; [by eauto|]. subst t'.
    inversion Hs as [| | | | | | | | | | | |p1 Hsw| |]; simplify_eq.
    unfold swap_closed in Hsw. congruence.
  - split; [done|]. by intros [?|?]%elem_of_cons.
Qed.

Lemma closed_stays_empty k k' :
  (1 <= max_uses options)%nat → pool_inv k → rtc (step generation options) k k' →
  closed (pool k) = true → Taking ∉ tasks k → idle (pool k') = [].
Proof.
  intros Hmax Hinv Hs. induction Hs as [k|k k1 k' Hs _ IH]; intros Hcl Hnt.
  - by destruct (inv_closed _ Hinv Hcl).
  - destruct (closed_stays _ _ Hinv Hs Hcl Hnt). apply IH; [|done..]. by eapply step_inv.
Qed.
End Invariant.

(** ** Properties *)

(** C7: However the calls of any number of tasks interleave, the pool never
    holds more than [max_idle] connections, no connection serves more than
    [max_uses] sessions, no connection is in two places at once, and once the
    client is closed and its list taken the pool is empty forever. *)
Theorem pool_invariant {C} (generation : C → Z) options k :
  (1 <= max_uses options)%nat → reachable generation options k →
  (length (idle (pool k)) <= max_idle options)%nat ∧
  Forall (task_uses options) (tasks k) ∧
  NoDup (connections k) ∧
  (closed (pool k) = true → Taking ∉ tasks k →
   ∀ k', rtc (step generation options) k k' → idle (pool k') = []).
Proof.
  intros Hmax Hr. pose proof (reachable_inv generation options k Hmax Hr) as Hinv.
  destruct (Hinv) as [Hi Hu Ht Hc _ Ho]. split_and!; try done.
  intros Hcl Hnt k' Hs. by eapply closed_stays_empty.
Qed.

Definition demo_options : PoolOptions := MkPoolOptions 1 2 1000.

Lemma pool_invariant_witness :
  ∃ k : config Z, reachable (λ _, 0) demo_options k ∧
    idle (pool k) = [MkIdle 7 1 5] ∧ length (tasks k) = 2%nat ∧
    NoDup (connections k).
Proof.
  exists (MkConfig (MkPool [MkIdle 7 1 5] false) [Resting; Resting] []).
  assert (Hr : reachable (λ _, 0) demo_options
    (MkConfig (MkPool [MkIdle 7 1 5] false) [Resting; Resting] [])).
  { eapply reach_step.
    2: { refine (step_task _ _ _ [] (Pushing 7 1) [Resting] [] Resting _ [] _).
         by apply (step_push _ _ (MkPool [] false) 7 1 5). }
    eapply reach_step.
    2: { refine (step_task _ _ _ [] (Releasing 7 1) [Resting] [] (Pushing 7 1) _ [] _).
         by apply step_admitted. }
    eapply reach_step.
    2: { refine (step_task _ _ _ [] (InUse 7 1) [Resting] [] (Releasing 7 1) _ [] _).
         by apply step_finish. }
    eapply reach_step; [apply (reach_new _ _ 1)|]. apply step_new. by apply not_elem_of_nil. }
  split; [exact Hr|]. split; [reflexivity|]. split; [reflexivity|].
  refine (proj1 (proj2 (proj2 (pool_invariant (λ _, 0) demo_options _ _ Hr)))).
  simpl. lia.
Defined.

(** [take_idle] pops the newest connection that is recent enough and
    belongs to the current network, retires exactly the newer ones that are
    not, and leaves the older ones in place; it fails only when none is
    usable. *)
Theorem take_idle_newest_usable {C} (generation : C → Z) options now gen (p : Pool C) :
  ∃ found rs p' stale,
    take_idle generation options now gen p = (found, rs, p') ∧
    closed p' = closed p ∧
    idle p = idle p' ++ option_list found ++ stale ∧
    Forall (λ e, entry_usable generation options now gen e = false) stale ∧
    rs = physical <$> rev stale ∧
    match found with
    | Some e => entry_usable generation options now gen e = true
    | None => idle p' = []
    end.
Proof. apply take_idle_loop_spec. lia. Qed.
