(* ===== verification/Traffic.v ===== *)
(** * Traffic: application traffic accounting ([src/traffic.rs])

    The counters, the sampling into an append-only journal with its rollback
    and recovery, the report over a time range, and timestamps. The JSON codec
    is the [serde_json] crate and the file system is what the service runs on:
    both are parameters, the file as its contents and the outcome of each
    system call. *)
From S2P Require Import Prelude Bytes Text.
Local Open Scope Z_scope.

Definition NL : byte := x0a.
Definition MAX_LINE : nat := 1024.

(** ** Counters *)

Inductive Direction : Type := TcpUpload | TcpDownload | UdpUpload | UdpDownload.

Record Bytes : Type := MkBytes {
  tcp_upload : Z;
  tcp_download : Z;
  udp_upload : Z;
  udp_download : Z
}.

#[export] Instance traffic_bytes_eq_dec : EqDecision Bytes.
Proof. solve_decision. Defined.

Definition bytes_zero : Bytes := MkBytes 0 0 0 0.

Definition map2 (f : Z → Z → Z) (a b : Bytes) : Bytes :=
  MkBytes (f (tcp_upload a) (tcp_upload b)) (f (tcp_download a) (tcp_download b))
    (f (udp_upload a) (udp_upload b)) (f (udp_download a) (udp_download b)).

Definition bytes_all (P : Z → Prop) (a : Bytes) : Prop :=
  P (tcp_upload a) ∧ P (tcp_download a) ∧ P (udp_upload a) ∧ P (udp_download a).

Definition wrap64 (z : Z) : Z := z mod 2 ^ 64.

(** [ACTIVE]: no recorder, or its [enabled] flag and its four counters, which
    [snapshot] reads as [Bytes]. *)
Record Counters : Type := MkCounters { enabled : bool; values : Bytes }.

Definition fetch_add (d : Direction) (n : Z) (v : Bytes) : Bytes :=
  match d with
  | TcpUpload => MkBytes (wrap64 (tcp_upload v + n)) (tcp_download v) (udp_upload v) (udp_download v)
  | TcpDownload => MkBytes (tcp_upload v) (wrap64 (tcp_download v + n)) (udp_upload v) (udp_download v)
  | UdpUpload => MkBytes (tcp_upload v) (tcp_download v) (wrap64 (udp_upload v + n)) (udp_download v)
  | UdpDownload => MkBytes (tcp_upload v) (tcp_download v) (udp_upload v) (wrap64 (udp_download v + n))
  end.

Definition record (direction : Direction) (n : Z) (active : option Counters) : option Counters :=
  match active with
  | Some c => if negb (n =? 0) && enabled c
              then Some (MkCounters true (fetch_add direction n (values c)))
              else Some c
  | None => None
  end.

Definition snapshot (c : Counters) : Bytes := values c.

(** [wrapping_sub] *)
Definition delta (current previous : Bytes) : Bytes :=
  map2 (λ a b, wrap64 (a - b)) current previous.

Definition checked_add (a b : Z) : result Z :=
  if a + b <=? U64_MAX then Ok (a + b) else Err (Bail "traffic total exceeds u64").

(** [Bytes::add]; on overflow the report is abandoned with its error. *)
Definition bytes_add (a b : Bytes) : result Bytes :=
  tu ← checked_add (tcp_upload a) (tcp_upload b);
  td ← checked_add (tcp_download a) (tcp_download b);
  uu ← checked_add (udp_upload a) (udp_upload b);
  ud ← checked_add (udp_download a) (udp_download b);
  Ok (MkBytes tu td uu ud).

(** ** Samples *)

Record Sample : Type := MkSample {
  version : Z;
  timestamp : Z;
  since : Z;
  sample_bytes : Bytes
}.

Definition sample_wf (s : Sample) : Prop :=
  version s = 1 ∧ u64 (timestamp s) ∧ u64 (since s) ∧ bytes_all u64 (sample_bytes s).

Definition quote : bytes := [x22].

(** [b"{\"version\":1,"] *)
Definition sample_header : bytes := lit "{" ++ quote ++ lit "version" ++ quote ++ lit ":1,".

Class SampleCodec : Type := {
  (** [serde_json::to_vec] *)
  encode_sample : Sample → bytes;
  (** [serde_json::from_slice] *)
  parse_sample : bytes → option Sample
}.

(** JSON with the fields in the order of the struct and no line break; parsing
    skips the whitespace after the value. *)
Class SampleCodecLaws (C : SampleCodec) : Prop := {
  parse_encoded s : sample_wf s → parse_sample (encode_sample s ++ [NL]) = Some s;
  encode_no_newline s : sample_wf s → NL ∉ encode_sample s;
  encode_length s : sample_wf s → (length (encode_sample s) < MAX_LINE)%nat;
  encode_header s : sample_wf s → sample_header `prefix_of` encode_sample s
}.

Section Journal.
Context `{C : SampleCodec}.

Definition decode_sample (line : bytes) : result Sample :=
  sample ← ok_or (Bail "invalid traffic record") (parse_sample line);
  if negb (version sample =? 1) then Err (Bail "unsupported traffic format at record")
  else Ok sample.

(** [reader.take(limit).read_until(b'\n')] *)
Definition read_until (limit : nat) (content : bytes) : bytes :=
  let window := take limit content in
  match position (λ b, byteb b NL) window with
  | Some i => take (S i) window
  | None => window
  end.

(** [iter().rposition] *)
Definition rposition (p : byte → bool) (l : bytes) : option nat :=
  (λ i, length l - 1 - i)%nat <$> position p (rev l).

Definition last_is_newline (l : bytes) : bool :=
  match last l with Some b => byteb b NL | None => false end.

(** ** Opening *)

(** The outcomes of the system calls [Journal::open] makes. *)
Record OpenIo : Type := MkOpenIo {
  io_open_lock : result unit;
  io_writer_lock : bool;
  io_open_file : result unit;
  io_lock : result unit;
  io_truncate : result unit;
  io_unlock : result unit
}.

Definition open_io_ok : OpenIo := MkOpenIo (Ok tt) true (Ok tt) (Ok tt) (Ok tt) (Ok tt).

(** The last [MAX_LINE] bytes and where they start. *)
Definition journal_tail (content : bytes) : nat * bytes :=
  let start := (length content - MAX_LINE)%nat in (start, drop start content).

Definition check_first (content : bytes) : result unit :=
  let first := read_until (MAX_LINE + 1) content in
  if (MAX_LINE <? length first)%nat then Err (Bail "traffic journal has an oversized first record")
  else if last_is_newline first then _ ← decode_sample first; Ok tt
  else if negb (bool_decide (first = [])) && negb (starts_with sample_header first)
  then Err (Bail "existing file is not an oixc-proxy traffic journal")
  else Ok tt.

(** Where to cut an incomplete final record. *)
Definition recover_point (content : bytes) : result (option nat) :=
  let '(start, tail) := journal_tail content in
  if negb (bool_decide (tail = [])) && negb (last_is_newline tail) then
    match rposition (λ b, byteb b NL) tail with
    | Some index => Ok (Some (start + index + 1)%nat)
    | None => if (start =? 0)%nat then Ok (Some 0%nat)
              else Err (Bail "traffic journal has an oversized or corrupt final record")
    end
  else Ok None.

Definition check_last (content : bytes) : result unit :=
  let '(_, tail) := journal_tail content in
  if bool_decide (tail = []) then Ok tt
  else
    let finish := (length tail - 1)%nat in
    let begin := match rposition (λ b, byteb b NL) (take finish tail) with
                 | Some i => (i + 1)%nat | None => 0%nat end in
    _ ← map_err (Context "invalid final traffic record") (decode_sample (drop begin tail));
    Ok tt.

(** The open file. *)
Record Journal : Type := MkJournal { content : bytes; poisoned : bool }.

(** The state is the contents of the file, which recovery may cut. *)
Definition journal_open (io : OpenIo) : M bytes Journal :=
  lift (io_open_lock io);;
  (if negb (io_writer_lock io)
   then bail "another process is recording to this traffic file; use --traffic-file for a separate instance"
   else mret tt);;
  lift (io_open_file io);;
  lift (io_lock io);;
  file ← get;
  lift (check_first file);;
  keep ← lift (recover_point file);
  match keep with
  | Some n => lift (io_truncate io);; modify (take n)
  | None => mret tt
  end;;
  file ← get;
  lift (check_last file);;
  lift (io_unlock io);;
  mret (MkJournal file false).

(** ** Appending *)

(** The outcomes of the system calls of one [append]; [io_write] is the number
    of bytes written before a failure. *)
Record AppendIo : Type := MkAppendIo {
  io_append_lock : result unit;
  io_seek : result unit;
  io_write : option nat;
  io_sync : bool;
  io_set_len : bool;
  io_set_len_sync : bool;
  io_seek_back : result unit;
  io_append_unlock : result unit
}.

Definition append_io_ok : AppendIo :=
  MkAppendIo (Ok tt) (Ok tt) None true true true (Ok tt) (Ok tt).

Definition sample_line (s : Sample) : bytes := encode_sample s ++ [NL].

(** The closure: write at the end, or put the file back. *)
Definition append_locked (io : AppendIo) (line : bytes) : M Journal unit :=
  lift (io_seek io);;
  j ← get;
  let offset := length (content j) in
  let written := match io_write io with Some n => take n line | None => line end in
  modify (λ j, MkJournal (content j ++ written) (poisoned j));;
  if bool_decide (io_write io = None) && io_sync io then mret tt
  else
    (if io_set_len io then modify (λ j, MkJournal (take offset (content j)) (poisoned j))
     else mret tt);;
    if io_set_len io && io_set_len_sync io then
      lift (io_seek_back io);;
      throw (Context "persist traffic sample" (Bail "write"))
    else
      modify (λ j, MkJournal (content j) true);;
      bail "traffic append and rollback both failed; restart required for recovery".

Definition append (io : AppendIo) (sample : Sample) : M Journal unit :=
  j ← get;
  if poisoned j then bail "traffic journal requires recovery after a failed rollback"
  else
    lift (io_append_lock io);;
    result ← try_ (append_locked io (sample_line sample));
    (** [result.and(unlock)] *)
    lift (match result with Ok _ => io_append_unlock io | Err e => Err e end).

(** ** Sampling *)

Record Sampler : Type := MkSampler { previous : Bytes; sampler_since : Z }.

Definition sampler_flush (io : AppendIo) (c : Counters) (now : Z) : M (Sampler * Journal) unit :=
  '(s, _) ← get;
  let current := snapshot c in
  let sample := MkSample 1 now (sampler_since s) (delta current (previous s)) in
  zoom snd (λ j s, (s.1, j)) (append io sample);;
  modify (λ s, (MkSampler current now, s.2)).

(** One wake-up of the recorder thread: the clock, the counters, whether it was
    asked to stop, and what the system calls will do. *)
Record Tick : Type := MkTick {
  tick_now : Z;
  tick_counters : Counters;
  tick_stopping : bool;
  tick_io : AppendIo
}.

(** [collect]: a failed flush is retried with the next sample, unless the
    recorder is stopping. *)
Fixpoint collect (ticks : list Tick) : M (Sampler * Journal) unit :=
  match ticks with
  | [] => mret tt
  | t :: ticks' =>
      flushed ← try_ (sampler_flush (tick_io t) (tick_counters t) (tick_now t));
      match flushed with
      | Err e => if tick_stopping t then throw e else collect ticks'
      | Ok _ => if tick_stopping t then mret tt else collect ticks'
      end
  end.

(** ** The report *)

Record Report : Type := MkReport {
  report_from : option Z;
  report_to : option Z;
  samples : Z;
  first_sample_at : option Z;
  last_sample_at : option Z;
  report_bytes : Bytes;
  upload_bytes : Z;
  download_bytes : Z;
  total_bytes : Z;
  sampling_interval_seconds : Z;
  extended_windows : Z;
  clock_reversals : Z;
  incomplete_tail_ignored : bool
}.

Definition report_new (from to : option Z) : Report :=
  MkReport from to 0 None None bytes_zero 0 0 0 60 0 0 false.

(** [u64::saturating_sub] *)
Definition saturating_sub (a b : Z) : Z := Z.max 0 (a - b).

Definition option_with (f : Z → Z → Z) (o : option Z) (z : Z) : option Z :=
  Some (match o with Some t => f t z | None => z end).

Definition out_of_range (from to : option Z) (t : Z) : bool :=
  match from with Some start => t <? start | None => false end
  || match to with Some finish => finish <=? t | None => false end.

Definition report_add (r : Report) (s : Sample) : result Report :=
  total ← bytes_add (report_bytes r) (sample_bytes s);
  Ok (MkReport (report_from r) (report_to r) (samples r + 1)
    (option_with Z.min (first_sample_at r) (timestamp s))
    (option_with Z.max (last_sample_at r) (timestamp s))
    total (upload_bytes r) (download_bytes r) (total_bytes r) (sampling_interval_seconds r)
    (extended_windows r + Z.b2z (65 <? saturating_sub (timestamp s) (since s)))
    (clock_reversals r + Z.b2z (timestamp s <? since s))
    (incomplete_tail_ignored r)).

Definition set_incomplete (r : Report) : Report :=
  MkReport (report_from r) (report_to r) (samples r) (first_sample_at r) (last_sample_at r)
    (report_bytes r) (upload_bytes r) (download_bytes r) (total_bytes r)
    (sampling_interval_seconds r) (extended_windows r) (clock_reversals r) true.

(** The reading loop; every line read shortens [file]. *)
Fixpoint query_loop (fuel : nat) (from to : option Z) (file : bytes) (report : Report) :
    result Report :=
  match fuel with
  | O => Err OutOfFuel
  | S fuel' =>
      let line := read_until (MAX_LINE + 1) file in
      if bool_decide (line = []) then Ok report
      else if (MAX_LINE <? length line)%nat then Err (Bail "traffic record exceeds size limit")
      else if negb (last_is_newline line) then Ok (set_incomplete report)
      else
        sample ← decode_sample line;
        let rest := drop (length line) file in
        if out_of_range from to (timestamp sample) then query_loop fuel' from to rest report
        else report ← report_add report sample; query_loop fuel' from to rest report
  end.

Definition report_totals (r : Report) : result Report :=
  upload ← checked_add (tcp_upload (report_bytes r)) (udp_upload (report_bytes r));
  download ← checked_add (tcp_download (report_bytes r)) (udp_download (report_bytes r));
  total ← checked_add upload download;
  Ok (MkReport (report_from r) (report_to r) (samples r) (first_sample_at r) (last_sample_at r)
    (report_bytes r) upload download total (sampling_interval_seconds r) (extended_windows r) (clock_reversals r) (incomplete_tail_ignored r)).

(** [file] is the content of the journal when the query took its snapshot. *)
Definition query (file : bytes) (from to : option Z) : result Report :=
  if match from, to with Some a, Some b => b <=? a | _, _ => false end
  then Err (Bail "--from must precede --to")
  else
    report ← query_loop (S (length file)) from to file (report_new from to);
    report_totals report.
End Journal.

(** ** Lines *)

Definition is_nl (b : byte) : bool := byteb b NL.

Lemma position_no_newline l : NL ∉ l → position is_nl l = None.
Proof.
  intros Hn. apply position_None. apply forallb_forall. intros b Hb.
  rewrite <-list_elem_of_In in Hb. simpl. apply negb_true_iff, not_true_is_false.
  intros ->%byteb_eq. done.
Qed.

Lemma position_newline l r : NL ∉ l → position is_nl (l ++ NL :: r) = Some (length l).
Proof. intros Hn. rewrite position_app, position_no_newline by done. simpl. f_equal. lia. Qed.

Lemma last_is_newline_snoc l : last_is_newline (l ++ [NL]) = true.
Proof. unfold last_is_newline. by rewrite last_snoc. Qed.

Lemma last_is_newline_none l : NL ∉ l → last_is_newline l = false.
Proof.
  unfold last_is_newline. destruct (last l) as [b|] eqn:E; [|done]. intros Hn.
  apply not_true_is_false. intros ->%byteb_eq. apply Hn.
  apply last_Some_elem_of in E. done.
Qed.

Lemma read_until_line l rest :
  NL ∉ l → (length l < MAX_LINE)%nat → read_until (MAX_LINE + 1) ((l ++ [NL]) ++ rest) = l ++ [NL].
Proof.
  intros Hn Hl. unfold read_until. rewrite <-app_assoc. simpl app.
  rewrite take_app_ge by lia.
  destruct (MAX_LINE + 1 - length l)%nat as [|n] eqn:E; [lia|]. cbn [take].
  change (λ b, byteb b NL) with is_nl. rewrite position_newline by done.
  rewrite (cons_middle NL), app_assoc. rewrite take_app_len; [done|].
  rewrite length_app. simpl. lia.
Qed.

Lemma read_until_partial l :
  NL ∉ l → (length l <= MAX_LINE)%nat → read_until (MAX_LINE + 1) l = l.
Proof.
  intros Hn Hl. unfold read_until. rewrite take_ge by lia.
  change (λ b, byteb b NL) with is_nl. by rewrite position_no_newline.
Qed.

Lemma rposition_snoc l r : NL ∉ r → rposition is_nl (l ++ NL :: r) = Some (length l).
Proof.
  intros Hn. unfold rposition. rewrite rev_app_distr. simpl rev. rewrite <-app_assoc. simpl.
  rewrite position_newline by (by rewrite list_elem_of_In, <-in_rev, <-list_elem_of_In).
  simpl. f_equal. rewrite length_rev, length_app. simpl. lia.
Qed.

Lemma rposition_none l : NL ∉ l → rposition is_nl l = None.
Proof.
  intros Hn. unfold rposition. rewrite position_no_newline; [done|].
  by rewrite list_elem_of_In, <-in_rev, <-list_elem_of_In.
Qed.

(** ** Journals *)

Section JournalTheory.
Context `{C : SampleCodec} `{!SampleCodecLaws C}.

(** The file that holds exactly the given samples. *)
Definition journal_of (ss : list Sample) : bytes := concat (sample_line <$> ss).

Lemma journal_of_app ss ts : journal_of (ss ++ ts) = journal_of ss ++ journal_of ts.
Proof. unfold journal_of. by rewrite fmap_app, concat_app. Qed.

Lemma decode_sample_line s : sample_wf s → decode_sample (sample_line s) = Ok s.
Proof.
  intros Hs. unfold decode_sample, sample_line. rewrite parse_encoded by done. simpl.
  destruct Hs as (-> & _). done.
Qed.

Lemma sample_line_nonempty s : sample_line s ≠ [].
Proof. unfold sample_line. by destruct (encode_sample s). Qed.

Lemma length_sample_line s : sample_wf s → (length (sample_line s) <= MAX_LINE)%nat.
Proof.
  intros Hs. unfold sample_line. rewrite length_app. apply encode_length in Hs. simpl. lia.
Qed.

Lemma read_until_sample s rest :
  sample_wf s → read_until (MAX_LINE + 1) (sample_line s ++ rest) = sample_line s.
Proof. intros Hs. apply read_until_line; [by apply encode_no_newline|by apply encode_length]. Qed.

(** *** The report *)

Definition in_range (from to : option Z) (s : Sample) : Prop :=
  out_of_range from to (timestamp s) = false.
#[export] Instance in_range_dec from to s : Decision (in_range from to s).
Proof. unfold in_range. apply _. Defined.

Definition report_fold (r : result Report) (ss : list Sample) : result Report :=
  fold_left (λ acc s, acc ≫= λ r, report_add r s) ss r.

Lemma report_fold_err e ss : report_fold (Err e) ss = Err e.
Proof. by induction ss. Qed.

Lemma query_loop_journal fuel from to ss part r :
  Forall sample_wf ss → NL ∉ part → (length part <= MAX_LINE)%nat → (length ss < fuel)%nat →
  query_loop fuel from to (journal_of ss ++ part) r =
    (λ r, if bool_decide (part = []) then r else set_incomplete r) <$>
      report_fold (Ok r) (filter (in_range from to) ss).
Proof.
  intros Hss Hnl Hl. revert fuel r; induction Hss as [|s ss Hs _ IH]; intros fuel r Hf;
    (destruct fuel as [|fuel]; [simpl in Hf; lia|]); cbn [query_loop].
  - unfold journal_of; simpl. rewrite read_until_partial by done.
    destruct (bool_decide (part = [])) eqn:E; [done|].
    replace (MAX_LINE <? length part)%nat with false by (symmetry; by apply Nat.ltb_ge).
    by rewrite last_is_newline_none.
  - change (journal_of (s :: ss)) with (sample_line s ++ journal_of ss).
    rewrite <-app_assoc, read_until_sample by done.
    rewrite bool_decide_eq_false_2 by apply sample_line_nonempty.
    pose proof (length_sample_line s Hs) as Hlen.
    replace (MAX_LINE <? length (sample_line s))%nat with false by (symmetry; by apply Nat.ltb_ge).
    unfold sample_line at 1. rewrite last_is_newline_snoc. cbn [negb].
    rewrite decode_sample_line, drop_app_length by done. cbn [mbind result_bind].
    simpl in Hf. destruct (out_of_range from to (timestamp s)) eqn:E.
    + rewrite filter_cons_False by (unfold in_range; by rewrite E). apply IH. lia.
    + rewrite filter_cons_True by done. unfold report_fold. cbn [fold_left mbind result_bind].
      destruct (report_add r s) as [r'|e]; [apply IH; lia|].
      change (fold_left _ _ (Err e)) with (report_fold (Err e) (filter (in_range from to) ss)).
      by rewrite report_fold_err.
Qed.

Definition bytes_sum (ss : list Sample) : Bytes :=
  fold_left (λ b s, map2 Z.add b (sample_bytes s)) ss bytes_zero.

Definition bytes_total (b : Bytes) : Z :=
  tcp_upload b + tcp_download b + udp_upload b + udp_download b.

(** The report of the given samples. *)
Definition report_of (from to : option Z) (ss : list Sample) (partial : bool) : Report :=
  let b := bytes_sum ss in
  let up := tcp_upload b + udp_upload b in
  let down := tcp_download b + udp_download b in
  MkReport from to (Z.of_nat (length ss))
    (fold_left (option_with Z.min) (timestamp <$> ss) None)
    (fold_left (option_with Z.max) (timestamp <$> ss) None)
    b up down (up + down) 60
    (Z.of_nat (length (filter (λ s, 65 < timestamp s - since s) ss)))
    (Z.of_nat (length (filter (λ s, timestamp s < since s) ss))) partial.

Lemma checked_add_ok a b : a + b <= U64_MAX → checked_add a b = Ok (a + b).
Proof. intros H. unfold checked_add. by apply Z.leb_le in H as ->. Qed.

Lemma checked_add_err a b : U64_MAX < a + b → ∃ e, checked_add a b = Err e.
Proof. intros H. unfold checked_add. apply Z.leb_gt in H as ->. eauto. Qed.

Lemma bytes_add_cases a b :
  bytes_add a b = Ok (map2 Z.add a b) ∧ bytes_all (λ z, z <= U64_MAX) (map2 Z.add a b) ∨
  (∃ e, bytes_add a b = Err e) ∧ ¬ bytes_all (λ z, z <= U64_MAX) (map2 Z.add a b).
Proof.
  unfold bytes_add, checked_add, bytes_all, map2; simpl.
  repeat (match goal with |- context [?x <=? ?y] => destruct (x <=? y) eqn:? end; simpl);
    reflect_bools; [left; done|right; split; [eauto|lia]..].
Qed.

Lemma bytes_sum_snoc ss s : bytes_sum (ss ++ [s]) = map2 Z.add (bytes_sum ss) (sample_bytes s).
Proof. unfold bytes_sum. by rewrite fold_left_app. Qed.

Lemma bytes_sum_nonneg ss : Forall sample_wf ss → bytes_all (λ z, 0 <= z) (bytes_sum ss).
Proof.
  induction ss as [|s ss IH] using rev_ind; intros Hss; [done|].
  apply Forall_app in Hss as [Hss Hs]. rewrite Forall_singleton in Hs.
  destruct (IH Hss) as (?&?&?&?). destruct Hs as (_&_&_&[??]&[??]&[??]&[??]).
  rewrite bytes_sum_snoc. unfold bytes_all, map2; simpl. lia.
Qed.

Lemma bytes_sum_mono ss ts : Forall sample_wf (ss ++ ts) →
  bytes_total (bytes_sum ss) <= bytes_total (bytes_sum (ss ++ ts)).
Proof.
  induction ts as [|s ts IH] using rev_ind; intros Hss; [rewrite app_nil_r; lia|].
  rewrite app_assoc in *. apply Forall_app in Hss as [Hss Hs]. rewrite Forall_singleton in Hs.
  specialize (IH Hss). destruct Hs as (_&_&_&[??]&[??]&[??]&[??]).
  rewrite bytes_sum_snoc. unfold bytes_total, map2 in *; simpl. lia.
Qed.

(** A report before its totals are computed. *)
Definition partial_report (from to : option Z) (ss : list Sample) : Report :=
  MkReport from to (Z.of_nat (length ss))
    (fold_left (option_with Z.min) (timestamp <$> ss) None)
    (fold_left (option_with Z.max) (timestamp <$> ss) None)
    (bytes_sum ss) 0 0 0 60
    (Z.of_nat (length (filter (λ s, 65 < timestamp s - since s) ss)))
    (Z.of_nat (length (filter (λ s, timestamp s < since s) ss))) false.

Lemma report_add_partial from to ss s :
  report_add (partial_report from to ss) s =
    (λ _, partial_report from to (ss ++ [s])) <$> bytes_add (bytes_sum ss) (sample_bytes s).
Proof.
  unfold report_add. cbn [report_bytes partial_report].
  destruct (bytes_add_cases (bytes_sum ss) (sample_bytes s)) as [[-> _]|[[e ->] _]]; [|done].
  cbn [mbind result_bind fmap result_fmap]. f_equal.
  unfold partial_report; simpl.
  rewrite !fmap_app, !fold_left_app, !filter_app, !length_app, bytes_sum_snoc. simpl.
  unfold saturating_sub. f_equal; try lia.
  - destruct (65 <? Z.max 0 (timestamp s - since s)) eqn:E; reflect_bools;
      [rewrite filter_cons_True by lia|rewrite filter_cons_False by lia]; simpl; lia.
  - destruct (timestamp s <? since s) eqn:E; reflect_bools;
      [rewrite filter_cons_True by lia|rewrite filter_cons_False by lia]; simpl; lia.
Qed.

Lemma report_fold_spec from to ss : Forall sample_wf ss →
  report_fold (Ok (report_new from to)) ss = Ok (partial_report from to ss) ∨
  (∃ e, report_fold (Ok (report_new from to)) ss = Err e ∧
        U64_MAX < bytes_total (bytes_sum ss)).
Proof.
  induction ss as [|s ss IH] using rev_ind; intros Hss; [by left|].
  pose proof (bytes_sum_mono ss [s] Hss) as Hm. pose proof (bytes_sum_nonneg _ Hss) as Hn.
  apply Forall_app in Hss as [Hss Hs].
  unfold report_fold in *. rewrite fold_left_app. simpl.
  destruct (IH Hss) as [->|(e & -> & ?)]; [|right; exists e; split; [done|lia]].
  simpl. rewrite report_add_partial.
  destruct (bytes_add_cases (bytes_sum ss) (sample_bytes s)) as [[-> _]|[[e ->] Hb]];
    [by left|right; exists e; split; [done|]].
  rewrite bytes_sum_snoc in Hn |- *. unfold bytes_all, bytes_total in *. simpl in *. lia.
Qed.

Lemma report_totals_spec from to ss : Forall sample_wf ss →
  match report_totals (partial_report from to ss) with
  | Ok r => bytes_total (bytes_sum ss) <= U64_MAX ∧ r = report_of from to ss false
  | Err _ => U64_MAX < bytes_total (bytes_sum ss)
  end.
Proof.
  intros Hss. pose proof (bytes_sum_nonneg _ Hss) as Hn. unfold bytes_all, bytes_total in *.
  unfold report_totals, checked_add; simpl. unfold report_of.
  repeat (match goal with |- context [?x <=? ?y] => destruct (x <=? y) eqn:? end; simpl);
    reflect_bools; try lia. split; [lia|done].
Qed.

Lemma report_totals_incomplete r :
  report_totals (set_incomplete r) = set_incomplete <$> report_totals r.
Proof.
  unfold report_totals. simpl.
  repeat (match goal with |- context [checked_add ?x ?y] => destruct (checked_add x y) end; simpl);
    done.
Qed.

(** *** Recovery *)

Lemma elem_of_NL_cut (l : bytes) : NL ∈ l → ∃ a b, l = a ++ NL :: b ∧ NL ∉ b.
Proof.
  induction l as [|x l IH]; [by intros ?%elem_of_nil|].
  intros Hin. destruct (decide (NL ∈ l)) as [Hl|Hl].
  - destruct (IH Hl) as (a & b & -> & ?). by exists (x :: a), b.
  - apply elem_of_cons in Hin as [<-|?]; [|done]. by exists [], l.
Qed.

Lemma last_newline_inv l : last_is_newline l = true → ∃ a, l = a ++ [NL].
Proof.
  unfold last_is_newline. destruct (last l) as [b|] eqn:E; [|done].
  intros ->%byteb_eq. apply last_Some in E as [a ->]. eauto.
Qed.

(** Recovery only ever drops bytes after the last newline. *)
Lemma recover_point_inv file n :
  recover_point file = Ok (Some n) → NL ∉ drop n file.
Proof.
  unfold recover_point, journal_tail.
  set (start := (length file - MAX_LINE)%nat). set (tail := drop start file).
  destruct (negb _ && negb _) eqn:E; [|done]. change (λ b, byteb b NL) with is_nl.
  destruct (decide (NL ∈ tail)) as [Hin|Hin].
  - destruct (elem_of_NL_cut _ Hin) as (a & b & Heq & Hb).
    rewrite Heq at 1. rewrite rposition_snoc by done. intros [= <-].
    rewrite <-Nat.add_assoc, <-drop_drop. fold tail. rewrite Heq.
    rewrite (cons_middle NL), app_assoc, drop_app_len; [done|]. rewrite length_app. simpl. lia.
  - rewrite rposition_none by done. destruct (start =? 0)%nat eqn:Es; [|done].
    intros [= <-]. reflect_bools. rewrite drop_0. unfold tail in Hin. by rewrite Es in Hin.
Qed.

Lemma journal_open_file io file r file' :
  journal_open io file = (r, file') → ∃ dropped, file = file' ++ dropped ∧ NL ∉ dropped.
Proof.
  assert (Hid : ∃ dropped, file = file ++ dropped ∧ NL ∉ dropped).
  { exists []. rewrite app_nil_r. split; [done|]. by apply not_elem_of_nil. }
  unfold journal_open, lift, get, modify, bail, throw, mret, M_ret, mbind, M_bind.
  destruct (io_open_lock io); [|by intros [= _ <-]].
  destruct (io_writer_lock io); simpl; [|by intros [= _ <-]].
  destruct (io_open_file io); [|by intros [= _ <-]].
  destruct (io_lock io); [|by intros [= _ <-]].
  destruct (check_first file); [|by intros [= _ <-]].
  destruct (recover_point file) as [[n|]|] eqn:Er; [| |by intros [= _ <-]].
  - destruct (io_truncate io); [|by intros [= _ <-]].
    apply recover_point_inv in Er.
    intros Hr. assert (file' = take n file) as ->.
    { destruct (check_last _); [destruct (io_unlock io)|]; by simplify_eq/=. }
    exists (drop n file). by rewrite take_drop.
  - intros Hr. assert (file' = file) as ->; [|done].
    destruct (check_last _); [destruct (io_unlock io)|]; by simplify_eq/=.
Qed.

Lemma journal_of_snoc ss s : journal_of (ss ++ [s]) = journal_of ss ++ encode_sample s ++ [NL].
Proof. rewrite journal_of_app. unfold journal_of at 2; simpl. by rewrite app_nil_r. Qed.

Lemma journal_of_last ss : ss ≠ [] → ∃ a, journal_of ss = a ++ [NL].
Proof.
  destruct ss as [|s ss] using rev_ind; [done|]. intros _.
  rewrite journal_of_snoc, app_assoc. eauto.
Qed.

(** The part of a journal after any position before its end ends in a newline. *)
Lemma drop_journal_last ss n :
  drop n (journal_of ss) = [] ∨ ∃ a, drop n (journal_of ss) = a ++ [NL].
Proof.
  destruct (decide (ss = [])) as [->|Hne]; [left; apply drop_nil|].
  destruct (journal_of_last ss Hne) as [a ->].
  destruct (decide (n <= length a)%nat).
  - right. exists (drop n a). by rewrite drop_app_le.
  - left. apply drop_ge. rewrite length_app. simpl. lia.
Qed.

Lemma check_first_journal ss part :
  Forall sample_wf ss → NL ∉ part → (length part <= MAX_LINE)%nat →
  ss ≠ [] ∨ part = [] ∨ sample_header `prefix_of` part →
  check_first (journal_of ss ++ part) = Ok tt.
Proof.
  intros Hss Hn Hl Hc. unfold check_first. destruct ss as [|s ss].
  - change (journal_of [] ++ part) with part.
    rewrite read_until_partial, last_is_newline_none by done.
    replace (MAX_LINE <? length part)%nat with false by (symmetry; by apply Nat.ltb_ge).
    destruct Hc as [?|[->|Hh]]; [done|done|]. apply starts_with_spec in Hh.
    by rewrite Hh, andb_false_r.
  - apply Forall_cons in Hss as [Hs Hss].
    change (journal_of (s :: ss)) with (sample_line s ++ journal_of ss).
    rewrite <-app_assoc, read_until_sample by done. pose proof (length_sample_line s Hs).
    replace (MAX_LINE <? length (sample_line s))%nat with false by (symmetry; by apply Nat.ltb_ge).
    unfold sample_line at 1. rewrite last_is_newline_snoc. by rewrite decode_sample_line.
Qed.

Lemma recover_point_journal ss part :
  NL ∉ part → (length part < MAX_LINE)%nat →
  recover_point (journal_of ss ++ part) =
    Ok (if bool_decide (part = []) then None else Some (length (journal_of ss))).
Proof.
  intros Hn Hl. unfold recover_point, journal_tail. rewrite length_app.
  change (λ b, byteb b NL) with is_nl.
  set (J := journal_of ss). set (start := (length J + length part - MAX_LINE)%nat).
  assert (Hst : (start <= length J)%nat) by lia. rewrite drop_app_le by done.
  destruct (bool_decide (part = [])) eqn:E; reflect_bools.
  - subst part. rewrite app_nil_r. destruct (drop_journal_last ss start) as [H0|[a Ha]];
      [fold J in H0; by rewrite H0|fold J in Ha]. rewrite Ha, last_is_newline_snoc. by rewrite andb_false_r.
  - assert (last_is_newline (drop start J ++ part) = false) as ->.
    { unfold last_is_newline. rewrite last_app. destruct (last part) eqn:El.
      - apply not_true_is_false. intros ->%byteb_eq. apply Hn. by apply last_Some_elem_of.
      - by apply last_None in El. }
    rewrite bool_decide_eq_false_2 by (intros [_ ?]%app_eq_nil; done). cbn [negb andb].
    destruct (decide (ss = [])) as [->|Hne].
    + unfold J, journal_of in *; simpl in *. rewrite drop_nil. simpl.
      rewrite rposition_none by done. by replace start with 0%nat by lia.
    + destruct (journal_of_last ss Hne) as [a Ha]. fold J in Ha.
      assert (Hla : (start <= length a)%nat).
      { rewrite Ha, length_app in Hst. unfold start. rewrite Ha, length_app. simpl. lia. }
      rewrite Ha, drop_app_le, <-app_assoc by done. simpl app.
      rewrite rposition_snoc by done. do 2 f_equal. rewrite length_drop, length_app. simpl. lia.
Qed.

Lemma check_last_journal ss : Forall sample_wf ss → check_last (journal_of ss) = Ok tt.
Proof.
  intros Hss. destruct ss as [|s ss _] using rev_ind; [done|].
  apply Forall_app in Hss as [_ Hs]. rewrite Forall_singleton in Hs.
  unfold check_last, journal_tail. change (λ b, byteb b NL) with is_nl.
  rewrite journal_of_snoc. fold (sample_line s).
  set (J := journal_of ss). set (start := (length (J ++ sample_line s) - MAX_LINE)%nat).
  pose proof (length_sample_line s Hs).
  assert (Hst : (start <= length J)%nat) by (unfold start; rewrite length_app; lia).
  rewrite drop_app_le by done.
  rewrite bool_decide_eq_false_2.
  2: { intros [_ ?]%app_eq_nil. by eapply sample_line_nonempty. }
  assert (Ht : take (length (drop start J ++ sample_line s) - 1) (drop start J ++ sample_line s)
               = drop start J ++ encode_sample s).
  { unfold sample_line. rewrite app_assoc. apply take_app_len.
    rewrite !length_app. simpl. lia. }
  rewrite Ht. assert (NL ∉ encode_sample s) as Hnl by by apply encode_no_newline.
  destruct (drop_journal_last ss start) as [H0|[a Ha]]; [fold J in H0|fold J in Ha].
  - rewrite H0, !app_nil_l, rposition_none by done. cbv zeta. rewrite drop_0.
    by rewrite decode_sample_line.
  - rewrite Ha, <-!app_assoc. simpl app. rewrite rposition_snoc by done. cbv zeta.
    rewrite (cons_middle NL), app_assoc, drop_app_len by (rewrite length_app; simpl; lia).
    by rewrite decode_sample_line.
Qed.

Lemma journal_open_recovers ss part :
  Forall sample_wf ss → NL ∉ part → (length part < MAX_LINE)%nat →
  ss ≠ [] ∨ part = [] ∨ sample_header `prefix_of` part →
  journal_open open_io_ok (journal_of ss ++ part) =
    (Ok (MkJournal (journal_of ss) false), journal_of ss).
Proof.
  intros Hss Hn Hl Hc. unfold journal_open, lift, get, modify, mret, M_ret, mbind, M_bind; simpl.
  rewrite check_first_journal by (done || lia). rewrite recover_point_journal by done.
  destruct (bool_decide (part = [])) eqn:E; reflect_bools.
  - subst part. rewrite app_nil_r. by rewrite check_last_journal.
  - rewrite take_app_length. by rewrite check_last_journal.
Qed.

(** *** Appending *)

Lemma append_ok io s j : poisoned j = false → io = append_io_ok →
  append io s j = (Ok tt, MkJournal (content j ++ sample_line s) false).
Proof.
  intros Hp ->. unfold append, append_locked, try_, lift, get, modify, mbind, M_bind; simpl.
  rewrite Hp. simpl. by rewrite Hp.
Qed.

(** Every outcome of an append: nothing changed, the line is in the file, or
    the journal is poisoned with a part of the line at its end. *)
Lemma append_cases io s j :
  poisoned j = false →
  let '(r, j') := append io s j in
  (is_ok r = false ∧ j' = j) ∨
  (r = io_append_unlock io ∧ j' = MkJournal (content j ++ sample_line s) false) ∨
  (is_ok r = false ∧ poisoned j' = true ∧
   ∃ part, part `prefix_of` sample_line s ∧ content j' = content j ++ part).
Proof.
  intros Hp. unfold append, append_locked, try_, lift, get, modify, throw, bail, mret, M_ret, mbind, M_bind.
  rewrite Hp. destruct j as [ct po]; simpl in *. subst po.
  destruct (io_append_lock io); simpl; [|by left].
  destruct (io_seek io); simpl; [|by left].
  destruct (bool_decide (io_write io = None) && io_sync io) eqn:E; reflect_bools.
  - match goal with H : io_write io = None |- _ => rewrite H end. simpl. right. by left.
  - destruct (io_set_len io); simpl; [destruct (io_set_len_sync io); simpl|].
    + rewrite take_app_length. destruct (io_seek_back io); simpl; left; by split.
    + right. right. split; [done|]. split; [done|]. exists [].
      rewrite take_app_length, app_nil_r. split; [apply prefix_nil|done].
    + right. right. split; [done|]. split; [done|]. eexists. split; [|done].
      destruct (io_write io); [apply prefix_take|done].
Qed.

(** *** Accounting *)

(** The counter values a list of samples leads to. *)
Definition replay (b : Bytes) (ss : list Sample) : Bytes :=
  fold_left (λ b s, map2 (λ x y, wrap64 (x + y)) b (sample_bytes s)) ss b.

Lemma replay_snoc b ss s :
  replay b (ss ++ [s]) = map2 (λ x y, wrap64 (x + y)) (replay b ss) (sample_bytes s).
Proof. unfold replay. by rewrite fold_left_app. Qed.

Lemma wrap64_delta a b : u64 a → wrap64 (b + wrap64 (a - b)) = a.
Proof.
  intros Ha. unfold wrap64. rewrite Zplus_mod_idemp_r.
  replace (b + (a - b)) with a by lia. apply Z.mod_small. unfold u64, U64_MAX in Ha. lia.
Qed.

Lemma map2_delta a b : bytes_all u64 a → map2 (λ x y, wrap64 (x + y)) b (delta a b) = a.
Proof.
  intros (?&?&?&?). unfold map2, delta; simpl. rewrite !wrap64_delta by done. by destruct a.
Qed.

(** The journal accounts for everything up to the sampler's last sample. *)
Definition ledger (old : bytes) (b0 : Bytes) (st : Sampler * Journal) : Prop :=
  ∃ ss part, content st.2 = old ++ journal_of ss ++ part ∧
    previous st.1 = replay b0 ss ∧ (poisoned st.2 = false → part = []).

Lemma sampler_flush_ledger old b0 io c now st :
  bytes_all u64 (values c) → io_append_unlock io = Ok tt → ledger old b0 st →
  let '(r, st') := sampler_flush io c now st in
  ledger old b0 st' ∧ (r = Ok tt → previous st'.1 = values c).
Proof.
  intros Hc Hul. destruct st as [sm j]. intros Hled. pose proof Hled as (ss & part & Hct & Hpv & Hpo).
  unfold sampler_flush, zoom, get, modify, mbind, M_bind; simpl in *.
  set (s := MkSample 1 now _ _). destruct (poisoned j) eqn:Ep.
  - unfold append, get, mbind, M_bind. rewrite Ep. simpl. split; [done|done].
  - pose proof (append_cases io s j Ep) as Hcases. destruct (append io s j) as [r j'].
    destruct Hcases as [[Hr ->]|[[-> ->]|(Hr & Hp' & tail & _ & Hct')]].
    + destruct r; [done|]. simpl. done.
    + rewrite Hul. simpl. split; [|done]. exists (ss ++ [s]), []. simpl. split_and!; [|..|done].
      * rewrite Hct, (Hpo eq_refl), journal_of_app, !app_nil_r.
        rewrite <-app_assoc. do 2 f_equal. unfold journal_of. simpl. by rewrite app_nil_r.
      * rewrite replay_snoc, <-Hpv. simpl. by rewrite map2_delta.
    + destruct r; [done|]. simpl. split; [|done]. exists ss, (part ++ tail). simpl.
      rewrite Hct', Hct, <-!app_assoc. split_and!; [done|done|congruence].
Qed.

(** Every outcome of a flush: nothing changed; the sample is in the file, and the
    sampler goes on from it if that was reported; or the journal is poisoned. *)
Lemma sampler_flush_cases io c now st :
  let s := MkSample 1 now (sampler_since st.1) (delta (values c) (previous st.1)) in
  let '(r, st') := sampler_flush io c now st in
  (is_ok r = false ∧ st' = st) ∨
  (r = io_append_unlock io ∧ poisoned st.2 = false ∧ st'.2 = MkJournal (content st.2 ++ sample_line s) false ∧
   st'.1 = if is_ok r then MkSampler (values c) now else st.1) ∨
  (is_ok r = false ∧ poisoned st.2 = false ∧ poisoned st'.2 = true ∧ st'.1 = st.1 ∧
   ∃ part, content st'.2 = content st.2 ++ part).
Proof.
  cbv zeta. destruct st as [sm j]. unfold sampler_flush, zoom, get, modify, mbind, M_bind; simpl.
  unfold snapshot. set (s := MkSample 1 now _ _). destruct (poisoned j) eqn:Ep.
  - unfold append, get, mbind, M_bind. rewrite Ep. simpl. by left.
  - pose proof (append_cases io s j Ep) as Hcases. destruct (append io s j) as [r j'].
    destruct Hcases as [[Hr ->]|[[-> ->]|(Hr & Hp' & tail & _ & Hct')]].
    + destruct r; [done|]. by left.
    + destruct (io_append_unlock io) as [[]|]; right; left; done.
    + destruct r; [done|]. right. right. split_and!; try done. by exists tail.
Qed.

(** *** Samples that are written twice

    The samples of a journal, each with whether its append was reported a success. *)
Definition confirmed (ss : list (Sample * bool)) : list Sample := fst <$> filter (λ e, e.2 = true) ss.
Definition repeated (ss : list (Sample * bool)) : list Sample := fst <$> filter (λ e, e.2 = false) ss.

Lemma confirmed_snoc ss s b : confirmed (ss ++ [(s, b)]) = confirmed ss ++ if b : bool then [s] else [].
Proof. unfold confirmed. rewrite filter_app, fmap_app. by destruct b. Qed.
Lemma repeated_snoc ss s b : repeated (ss ++ [(s, b)]) = repeated ss ++ if b : bool then [] else [s].
Proof. unfold repeated. rewrite filter_app, fmap_app. by destruct b. Qed.

Lemma none_repeated ss : repeated ss = [] → fst <$> ss = confirmed ss.
Proof.
  unfold repeated, confirmed. induction ss as [|[s []] ss IH]; [done|..]; rewrite !filter_cons; simpl; [|done].
  intros Hr. f_equal. by apply IH.
Qed.

(** The journal accounts for everything up to the sampler's last sample; besides
    the samples that do there are at most [n] whose append failed all the same,
    each of which the next sample repeats: with the confirmed ones before it, it
    leads to values [ok] holds of. *)
Definition accounts (old : bytes) (b0 : Bytes) (ok : Bytes → Prop) (n : nat) (st : Sampler * Journal) : Prop :=
  ∃ ss part, content st.2 = old ++ journal_of (fst <$> ss) ++ part ∧ (poisoned st.2 = false → part = []) ∧
    previous st.1 = replay b0 (confirmed ss) ∧ (length (repeated ss) <= n)%nat ∧
    ∀ pre x post, ss = pre ++ (x, false) :: post → ok (replay b0 (confirmed pre ++ [x])).

Lemma accounts_mono old b0 (ok ok' : Bytes → Prop) n n' st :
  (∀ b, ok b → ok' b) → (n <= n')%nat → accounts old b0 ok n st → accounts old b0 ok' n' st.
Proof.
  intros Hok Hn (ss & part & Hct & Hpo & Hpv & Hl & Hrep). exists ss, part. split_and!; [done..|lia|eauto].
Qed.

Lemma sampler_flush_accounts old b0 (ok : Bytes → Prop) n io c now st :
  bytes_all u64 (values c) → ok (values c) → accounts old b0 ok n st →
  let '(r, st') := sampler_flush io c now st in
  accounts old b0 ok (n + if is_ok (io_append_unlock io) then 0 else 1) st' ∧ (r = Ok tt → previous st'.1 = values c).
Proof.
  intros Hc Hok Hacc. pose proof Hacc as (ss & part & Hct & Hpo & Hpv & Hl & Hrep).
  pose proof (sampler_flush_cases io c now st) as Hcases. cbv zeta in Hcases.
  destruct (sampler_flush io c now st) as [r st'].
  destruct Hcases as [[Hr ->]|[(-> & Hp & Hj & Hs)|(Hr & Hp & Hp' & Hs & tail & Hct')]].
  - destruct r; [done|]. split; [|done]. eapply accounts_mono; [| |exact Hacc]; [done|lia].
  - split; [|intros Hu; by rewrite Hs, Hu]. set (s := MkSample _ _ _ _) in *.
    exists (ss ++ [(s, is_ok (io_append_unlock io))]), [].
    rewrite Hj, Hs. cbn [content poisoned]. rewrite fmap_app, journal_of_app, confirmed_snoc, repeated_snoc.
    assert (Hcur : replay b0 (confirmed ss ++ [s]) = values c)
      by (rewrite replay_snoc, <-Hpv; simpl; by rewrite map2_delta).
    split_and!; [|done| | |].
    + rewrite Hct, (Hpo Hp), !app_nil_r, <-app_assoc. do 2 f_equal. unfold journal_of. simpl. by rewrite app_nil_r.
    + destruct (is_ok (io_append_unlock io)); simpl; [done|]. by rewrite app_nil_r.
    + rewrite length_app. destruct (is_ok (io_append_unlock io)); simpl; lia.
    + intros pre x post Heq. destruct post as [|y post _] using rev_ind.
      * apply app_inj_tail in Heq as [<- [= <- _]]. by rewrite Hcur.
      * rewrite app_comm_cons, app_assoc in Heq. apply app_inj_tail in Heq as [-> _]. by eapply Hrep.
  - destruct r; [done|]. split; [|done]. exists ss, (part ++ tail). rewrite Hct', Hs, Hct, <-!app_assoc.
    split_and!; [done|congruence|done|lia|done].
Qed.

Definition tick_good (t : Tick) : Prop :=
  bytes_all u64 (values (tick_counters t)) ∧ io_append_unlock (tick_io t) = Ok tt.

Lemma collect_ledger old b0 ticks st :
  Forall tick_good ticks → ledger old b0 st → ledger old b0 (collect ticks st).2.
Proof.
  intros Hg. revert st; induction Hg as [|t ticks [Hc Hul] _ IH]; intros st Hl; [done|].
  cbn [collect]. unfold try_, mbind, M_bind.
  pose proof (sampler_flush_ledger old b0 (tick_io t) (tick_counters t) (tick_now t) st Hc Hul Hl) as Hf.
  destruct (sampler_flush _ _ _ st) as [[[]|e] st1]; destruct Hf as [Hl1 _];
    destruct (tick_stopping t); simpl; auto.
Qed.

(** A recorder that stops without error has persisted its last snapshot. *)
Lemma collect_stopped old b0 before t st :
  Forall tick_good (before ++ [t]) → Forall (λ t, tick_stopping t = false) before →
  tick_stopping t = true → ledger old b0 st → (collect (before ++ [t]) st).1 = Ok tt →
  previous (collect (before ++ [t]) st).2.1 = values (tick_counters t).
Proof.
  intros Hg Hs Ht. revert st; induction Hs as [|u before Hu _ IH]; intros st Hl Hr;
    simpl app in *; apply Forall_cons in Hg as [[Hc Hul] Hg]; cbn [collect] in *;
    unfold try_, mbind, M_bind in *.
  - pose proof (sampler_flush_ledger old b0 (tick_io t) (tick_counters t) (tick_now t) st Hc Hul Hl) as Hf.
    destruct (sampler_flush _ _ _ st) as [[[]|e] st1]; destruct Hf as [_ Hp];
      rewrite Ht in *; simpl in *; [by apply Hp|done].
  - pose proof (sampler_flush_ledger old b0 (tick_io u) (tick_counters u) (tick_now u) st Hc Hul Hl) as Hf.
    destruct (sampler_flush _ _ _ st) as [[[]|e] st1]; destruct Hf as [Hl1 _];
      rewrite Hu in *; simpl in *; by apply IH.
Qed.
End JournalTheory.

(** ** A concrete codec

    The fields in order, as decimal numbers between commas: enough of the JSON
    for every law above. *)
Definition toy_fields (s : Sample) : list Z :=
  let b := sample_bytes s in
  [timestamp s; since s; tcp_upload b; tcp_download b; udp_upload b; udp_download b].

Definition toy_sample (fields : list (option Z)) : option Sample :=
  match fields with
  | [Some t; Some s; Some tu; Some td; Some uu; Some ud] =>
      Some (MkSample 1 t s (MkBytes tu td uu ud))
  | _ => None
  end.

#[export] Instance toy_codec : SampleCodec := {
  encode_sample s := sample_header ++ join (lit ",") (dec <$> toy_fields s) ++ lit "}";
  parse_sample l :=
    rest ← strip_prefix sample_header l;
    '(fields, after) ← split_once "}" rest;
    if bool_decide (after = [NL] ∨ after = [])
    then toy_sample (parse_uint U64_MAX <$> split_on "," fields) else None
}.

Lemma toy_fields_u64 s : sample_wf s → Forall u64 (toy_fields s).
Proof. intros (_ & ? & ? & ? & ? & ? & ?). unfold toy_fields. by repeat (apply Forall_cons; split). Qed.

Lemma dec_not_in b z : u64 z → is_digit b = false → b ∉ dec z.
Proof.
  intros Hz Hb Hin. pose proof (dec_digits z Hz) as Hd.
  rewrite Forall_forall in Hd. apply Hd in Hin. congruence.
Qed.

Lemma join_not_in b zs :
  Forall u64 zs → is_digit b = false → b ≠ x2c → b ∉ join (lit ",") (dec <$> zs).
Proof.
  intros Hz Hb Hc. induction Hz as [|z zs Hz Hzs IH]; [by apply not_elem_of_nil|].
  destruct zs as [|z' zs]; [by apply dec_not_in|].
  change (join (lit ",") (dec <$> z :: z' :: zs))
    with (dec z ++ [x2c] ++ join (lit ",") (dec <$> z' :: zs)).
  rewrite !elem_of_app, list_elem_of_singleton.
  pose proof (dec_not_in b z Hz Hb). naive_solver.
Qed.

#[export] Instance toy_codec_laws : SampleCodecLaws toy_codec.
Proof.
  assert (Hbrace : ∀ s, sample_wf s → x7d ∉ join (lit ",") (dec <$> toy_fields s)).
  { intros s Hs. apply join_not_in; [by apply toy_fields_u64|done|done]. }
  split; intros s Hs; pose proof (toy_fields_u64 s Hs) as Hz.
  - unfold parse_sample, encode_sample, toy_codec, strip_prefix.
    rewrite <-!app_assoc. change (lit "}" ++ [NL]) with [x7d; NL].
    replace (starts_with _ _) with true
      by (symmetry; apply starts_with_spec; by exists (join (lit ",") (dec <$> toy_fields s) ++ [x7d; NL])).
    rewrite drop_app_length. cbn [mbind option_bind]. unfold split_once.
    rewrite position_app.
    assert (position (λ b, byteb b "}") (join (lit ",") (dec <$> toy_fields s)) = None) as ->.
    { apply position_None, forallb_forall. intros b Hb. rewrite <-list_elem_of_In in Hb.
      simpl. apply negb_true_iff, not_true_is_false. intros ->%byteb_eq. by apply (Hbrace s). }
    simpl position. cbn [fmap option_fmap option_map]. rewrite Nat.add_0_r, take_app_length.
    rewrite <-Nat.add_1_r, <-drop_drop, drop_app_length. cbn [mbind option_bind drop].
    rewrite bool_decide_eq_true_2 by by left.
    change (lit ",") with [x2c]. rewrite split_on_join; [|done|].
    + unfold toy_fields. rewrite <-list_fmap_compose.
      destruct Hs as (Hv & H1 & H2 & H3 & H4 & H5 & H6). csimpl.
      rewrite !parse_uint_dec by (done || (unfold u64 in *; lia)).
      destruct s as [v t si [a b c d]]; simpl in *. by subst v.
    + apply Forall_fmap. eapply Forall_impl; [exact Hz|]. intros z Hu. by apply dec_not_in.
  - unfold encode_sample, toy_codec. rewrite !elem_of_app. intros [Hin|[Hin|Hin]].
    + vm_compute in Hin. by repeat (apply elem_of_cons in Hin as [Hin|Hin]; [done|]); apply elem_of_nil in Hin.
    + by apply (join_not_in NL (toy_fields s)) in Hin.
    + vm_compute in Hin. by repeat (apply elem_of_cons in Hin as [Hin|Hin]; [done|]); apply elem_of_nil in Hin.
  - unfold encode_sample, toy_codec. rewrite !length_app.
    assert (Hj : (length (join (lit ",") (dec <$> toy_fields s)) <= 130)%nat).
    { unfold toy_fields. csimpl. rewrite !length_app.
      repeat match goal with |- context [dec ?z] => pose proof (length_dec z); generalize dependent (dec z); intros end.
      repeat (rewrite length_app || rewrite length_cons). lia. }
    assert (length sample_header = 13%nat) as -> by done. change (length (lit "}")) with 1%nat. unfold MAX_LINE. lia.
  - unfold encode_sample, toy_codec. eexists. done.
Qed.

(** ** Properties *)

Definition recorder_start (now : Z) (old : bytes) : Sampler * Journal :=
  (MkSampler bytes_zero now, MkJournal old false).

(** C10: Whatever writes, syncs and rollbacks fail, as long as unlocking does not,
    the journal accounts for every counted byte exactly once: the samples
    appended to the old file add up (modulo 2^64) to the counters at the last
    successful sample, nothing but whole samples follows the old file unless
    the journal is poisoned, and a recorder that stops without error has
    persisted the counters it saw last. *)
Theorem journal_exactly_once `{C : SampleCodec} `{!SampleCodecLaws C} now old ticks :
  Forall tick_good ticks →
  let '(r, (s, j)) := collect ticks (recorder_start now old) in
  ∃ ss part, content j = old ++ journal_of ss ++ part ∧ (poisoned j = false → part = []) ∧
    previous s = replay bytes_zero ss ∧
    ∀ before t, ticks = before ++ [t] → Forall (λ t, tick_stopping t = false) before →
      tick_stopping t = true → r = Ok tt → replay bytes_zero ss = values (tick_counters t).
Proof.
  intros Hg.
  assert (Hl : ledger old bytes_zero (recorder_start now old)).
  { exists [], []. simpl. by rewrite app_nil_r. }
  pose proof (collect_ledger old bytes_zero ticks _ Hg Hl) as (ss & part & Hct & Hpv & Hpo).
  destruct (collect ticks (recorder_start now old)) as [r [s j]] eqn:E. simpl in *.
  exists ss, part. split_and!; [done..|]. intros before t -> Hb Ht ->.
  rewrite <-Hpv. change s with ((Ok tt, (s, j)) : result unit * (Sampler * Journal)).2.1.
  rewrite <-E. eapply collect_stopped; [done..|]. by rewrite E.
Qed.

Definition demo_tick (now tu : Z) (stopping : bool) (io : AppendIo) : Tick :=
  MkTick now (MkCounters true (MkBytes tu 1 0 2)) stopping io.

(** A first sample whose write breaks off after five bytes and is rolled back,
    then a final one. *)
Definition demo_ticks : list Tick :=
  [demo_tick 60 10 false (MkAppendIo (Ok tt) (Ok tt) (Some 5%nat) true true true (Ok tt) (Ok tt));
   demo_tick 120 25 true append_io_ok].

Lemma journal_exactly_once_witness :
  ∃ s j, collect demo_ticks (recorder_start 0 []) = (Ok tt, (s, j)) ∧
    ∃ ss part, content j = [] ++ journal_of ss ++ part ∧ (poisoned j = false → part = []) ∧
    replay bytes_zero ss = MkBytes 25 1 0 2.
Proof.
  assert (Hg : Forall tick_good demo_ticks).
  { repeat constructor; simpl; unfold U64_MAX; lia. }
  pose proof (journal_exactly_once 0 [] demo_ticks Hg) as H.
  destruct (collect demo_ticks (recorder_start 0 [])) as [r [s j]] eqn:E.
  assert (r = Ok tt) as -> by (apply (f_equal fst) in E; vm_compute in E; symmetry; exact E).
  exists s, j. split; [reflexivity|]. destruct H as (ss & part & Hct & Hpo & _ & Hl).
  exists ss, part. split; [exact Hct|]. split; [exact Hpo|].
  refine (Hl [demo_tick 60 10 false _] (demo_tick 120 25 true _) eq_refl _ eq_refl eq_refl).
  repeat constructor.
Defined.

(** Opening a journal cuts an incomplete final record and nothing else: a
    file of whole samples and a partial one is left with exactly the samples,
    and no file ever loses a byte before its last newline, whether opening
    succeeds or fails. *)
Theorem journal_open_recovers_tail `{C : SampleCodec} `{!SampleCodecLaws C} ss part :
  Forall sample_wf ss → NL ∉ part → (length part < MAX_LINE)%nat →
  ss ≠ [] ∨ part = [] ∨ sample_header `prefix_of` part →
  journal_open open_io_ok (journal_of ss ++ part) =
    (Ok (MkJournal (journal_of ss) false), journal_of ss) ∧
  ∀ io file r file', journal_open io file = (r, file') →
    ∃ dropped, file = file' ++ dropped ∧ NL ∉ dropped.
Proof.
  intros Hss Hn Hl Hc. split; [by apply journal_open_recovers|]. intros. by eapply journal_open_file.
Qed.

Definition demo_sample (t : Z) : Sample := MkSample 1 t (t - 60) (MkBytes 1 2 3 4).

Lemma journal_open_recovers_tail_witness :
  journal_open open_io_ok (journal_of [demo_sample 60; demo_sample 120] ++ lit "{torn")
    = (Ok (MkJournal (journal_of [demo_sample 60; demo_sample 120]) false),
       journal_of [demo_sample 60; demo_sample 120]).
Proof.
  refine (proj1 (journal_open_recovers_tail [demo_sample 60; demo_sample 120] (lit "{torn") _ _ _ _)).
  - repeat constructor; simpl; unfold U64_MAX; lia.
  - vm_compute. intros Hin. repeat (apply elem_of_cons in Hin as [Hin|Hin]; [discriminate|]).
    by apply elem_of_nil in Hin.
  - vm_compute. lia.
  - left. discriminate.
Defined.

(** The report over a journal of samples (with or without an incomplete
    last record, which it flags) is the sum, count, bounds and anomalies of
    the samples in [from, to); it fails exactly when that sum does not fit a
    [u64]. *)
Theorem query_reports_range `{C : SampleCodec} `{!SampleCodecLaws C} from to ss part :
  Forall sample_wf ss → NL ∉ part → (length part <= MAX_LINE)%nat →
  match from, to with Some a, Some b => a < b | _, _ => True end →
  let selected := filter (in_range from to) ss in
  match query (journal_of ss ++ part) from to with
  | Ok r => bytes_total (bytes_sum selected) <= U64_MAX ∧
            r = report_of from to selected (negb (bool_decide (part = [])))
  | Err _ => U64_MAX < bytes_total (bytes_sum selected)
  end.
Proof.
  intros Hss Hn Hl Hft selected. unfold query.
  replace (match from, to with Some a, Some b => b <=? a | _, _ => false end) with false
    by (destruct from, to; try done; symmetry; by apply Z.leb_gt).
  assert (Hlen : (length ss <= length (journal_of ss))%nat).
  { clear. induction ss as [|s ss IH]; [done|].
    change (journal_of (s :: ss)) with (sample_line s ++ journal_of ss). rewrite length_app.
    pose proof (sample_line_nonempty s). destruct (sample_line s); [done|]. simpl. lia. }
  rewrite query_loop_journal by (done || rewrite length_app; lia).
  assert (Hsel : Forall sample_wf selected).
  { apply Forall_forall. intros s [_ Hin]%list_elem_of_filter. by eapply Forall_forall in Hss. }
  destruct (report_fold_spec from to selected Hsel) as [Hf|(e & Hf & ?)];
    unfold selected in *; rewrite Hf; [|done].
  cbn [fmap result_fmap mbind result_bind].
  pose proof (report_totals_spec from to selected Hsel) as Ht. fold selected in Ht |- *.
  destruct (bool_decide (part = [])); [done|]. rewrite report_totals_incomplete.
  destruct (report_totals _); simpl; [|done]. by destruct Ht as [? ->].
Qed.

Definition demo_samples : list Sample := [demo_sample 60; demo_sample 120; demo_sample 180].

Lemma query_reports_range_witness :
  let selected := filter (in_range (Some 100) None) demo_samples in
  match query (journal_of demo_samples ++ lit "{to") (Some 100) None with
  | Ok r => bytes_total (bytes_sum selected) <= U64_MAX ∧
            r = report_of (Some 100) None selected true
  | Err _ => U64_MAX < bytes_total (bytes_sum selected)
  end ∧
  report_bytes (report_of (Some 100) None selected true) = MkBytes 2 4 6 8.
Proof.
  split; [|reflexivity].
  refine (query_reports_range (Some 100) None demo_samples (lit "{to") _ _ _ I).
  - repeat constructor; simpl; unfold U64_MAX; lia.
  - vm_compute. intros Hin. repeat (apply elem_of_cons in Hin as [Hin|Hin]; [discriminate|]).
    by apply elem_of_nil in Hin.
  - vm_compute. lia.
Defined.

(** The one outcome the exactly-once accounting excludes does happen: when
    unlocking fails after the line is persisted, [append] reports a failure, so
    the same traffic is sampled and persisted again. *)
Theorem unlock_failure_duplicates :
  let io := MkAppendIo (Ok tt) (Ok tt) None true true true (Ok tt) (Err (Bail "unlock")) in
  let ticks := [demo_tick 60 10 false io; demo_tick 120 10 true append_io_ok] in
  content (collect ticks (recorder_start 0 [])).2.2 =
    journal_of [MkSample 1 60 0 (MkBytes 10 1 0 2); MkSample 1 120 0 (MkBytes 10 1 0 2)].
Proof. vm_compute. reflexivity. Qed.
