(* ===== verification/TrafficTime.v ===== *)
(** * TrafficTime: the timestamps of traffic reports ([src/traffic.rs])

    [parse_time] and its round trip through the local time zone, and
    [format_local_time], which prints what [parse_time] reads. [mktime] and
    [localtime_r] are the platform's: parameters. *)
From S2P Require Import Prelude Bytes Text.
Local Open Scope Z_scope.

(** [libc::tm] *)
Record tm : Type := MkTm {
  tm_year : Z;
  tm_mon : Z;
  tm_mday : Z;
  tm_hour : Z;
  tm_min : Z;
  tm_sec : Z;
  tm_isdst : Z
}.

Section Local.
(** [mktime] is negative outside its range; [localtime_r] may fail. *)
Context (mktime : tm → Z) (localtime_r : Z → option tm).

Definition local_parts (timestamp : Z) : result tm :=
  ok_or (Bail "local timestamp is outside the platform range") (localtime_r timestamp).

Definition same_fields (p q : tm) : bool :=
  (tm_year p =? tm_year q) && (tm_mon p =? tm_mon q) && (tm_mday p =? tm_mday q)
  && (tm_hour p =? tm_hour q) && (tm_min p =? tm_min q) && (tm_sec p =? tm_sec q).

(** The loop over [isdst]. *)
Fixpoint local_candidates (parts : Z → tm) (isdsts : list Z) (candidates : list Z) :
    result (list Z) :=
  match isdsts with
  | [] => Ok candidates
  | isdst :: isdsts' =>
      let timestamp := mktime (parts isdst) in
      if timestamp <? 0 then local_candidates parts isdsts' candidates
      else
        round_trip ← local_parts timestamp;
        if same_fields round_trip (parts isdst) && negb (bool_decide (timestamp ∈ candidates))
        then local_candidates parts isdsts' (candidates ++ [timestamp])
        else local_candidates parts isdsts' candidates
  end.

Definition local_timestamp (year month day hour minute second : Z) : result Z :=
  candidates ← local_candidates (MkTm (year - 1900) (month - 1) day hour minute second) [-1; 0; 1] [];
  match candidates with
  | [timestamp] => Ok timestamp
  | [] => Err (Bail "local time does not exist or is outside the platform range; specify Z or an explicit offset")
  | _ => Err (Bail "ambiguous local time at a timezone transition; specify Z or an explicit offset")
  end.

(** [&bytes[start..end]] as a decimal number *)
Definition number (l : bytes) (start finish : nat) : result Z :=
  let part := take (finish - start) (drop start l) in
  if forallb is_digit part then Ok (digits_val part) else Err (Bail "invalid timestamp digits").

Definition is_leap (year : Z) : bool :=
  (year mod 4 =? 0) && (negb (year mod 100 =? 0) || (year mod 400 =? 0)).

Definition month_days (year month : Z) : Z :=
  if bool_decide (month ∈ [1; 3; 5; 7; 8; 10; 12]) then 31
  else if bool_decide (month ∈ [4; 6; 9; 11]) then 30
  else if month =? 2 then if is_leap year then 29 else 28
  else 0.

(** The day number of a date, the epoch being day 0. *)
Definition civil_days (year month day : Z) : Z :=
  let y := year - Z.b2z (month <=? 2) in
  let era := y / 400 in
  let yoe := y - era * 400 in
  let m := month + (if 2 <? month then -3 else 9) in
  let doy := (153 * m + 2) / 5 + day - 1 in
  let doe := yoe * 365 + yoe / 4 - yoe / 100 + doy in
  era * 146097 + doe - 719468.

Definition byte_at (l : bytes) (i : nat) (b : byte) : bool := bool_decide (l !! i = Some b).

(** The suffix from [pos]: none, or the offset in seconds. *)
Definition parse_offset (l : bytes) (pos : nat) : result (option Z) :=
  match drop pos l with
  | [] => Ok None
  | [b] => if byteb b "Z" then Ok (Some 0) else Err (Bail "invalid timestamp timezone suffix")
  | [sign; _; _; colon; _; _] =>
      if (byteb sign "+" || byteb sign "-") && byteb colon ":" then
        hour ← number l (pos + 1) (pos + 3);
        minute ← number l (pos + 4) (pos + 6);
        if (23 <? hour) || (59 <? minute) then Err (Bail "invalid timezone offset")
        else if byteb sign "-" && (hour =? 0) && (minute =? 0)
        then Err (Bail "unknown -00:00 offset; use Z or +00:00")
        else Ok (Some ((hour * 3600 + minute * 60) * (if byteb sign "-" then -1 else 1)))
      else Err (Bail "invalid timestamp timezone suffix")
  | _ => Err (Bail "invalid timestamp timezone suffix")
  end.

Definition parse_time (value : bytes) : result Z :=
  if forallb is_digit value && negb (bool_decide (value = []))
  then ok_or (Bail "invalid Unix timestamp") (parse_uint U64_MAX value)
  else if (length value <? 16)%nat
    || negb (byte_at value 4 "-") || negb (byte_at value 7 "-")
    || negb (byte_at value 10 "T" || byte_at value 10 " ") || negb (byte_at value 13 ":")
  then Err (Bail "timestamp must be Unix seconds or YYYY-MM-DDTHH:MM[:SS][Z|+HH:MM|-HH:MM]")
  else
    year ← number value 0 4;
    month ← number value 5 7;
    day ← number value 8 10;
    hour ← number value 11 13;
    minute ← number value 14 16;
    '(second, pos) ←
      (if byte_at value 16 ":" then
         if (length value <? 19)%nat then Err (Bail "incomplete timestamp seconds")
         else second ← number value 17 19; Ok (second, 19%nat)
       else Ok (0, 16%nat));
    offset ← parse_offset value pos;
    if (year <? 1970) || (day <? 1) || (month_days year month <? day) || (23 <? hour)
       || (59 <? minute) || (59 <? second)
    then Err (Bail "invalid calendar timestamp")
    else match offset with
         | None => local_timestamp year month day hour minute second
         | Some offset =>
             let timestamp := civil_days year month day * 86400 + hour * 3600 + minute * 60
                              + second - offset in
             if timestamp <? 0 then Err (Bail "timestamp precedes Unix epoch") else Ok timestamp
         end.

(** [{:0width$}]: the sign counts, and a longer number is printed in full. *)
Definition pad (width : nat) (z : Z) : bytes :=
  if z <? 0 then lit "-" ++ replicate (width - 1 - length (dec (- z))) x30 ++ dec (- z)
  else replicate (width - length (dec z)) x30 ++ dec z.

(** [tm_gmtoff] of what [localtime_r] gives for a timestamp. *)
Context (tm_gmtoff : Z → Z).

Definition format_local_time (timestamp : Z) : result bytes :=
  if 2 ^ 63 - 1 <? timestamp then Err (Bail "timestamp exceeds platform time range")
  else
    parts ← local_parts timestamp;
    let offset := tm_gmtoff timestamp in
    let magnitude := Z.abs offset in
    let suffix := (if offset <? 0 then lit "-" else lit "+") ++ pad 2 (magnitude / 3600) ++ lit ":"
                  ++ pad 2 (magnitude mod 3600 / 60)
                  ++ (if magnitude mod 60 =? 0 then [] else lit ":" ++ pad 2 (magnitude mod 60)) in
    Ok (pad 4 (tm_year parts + 1900) ++ lit "-" ++ pad 2 (tm_mon parts + 1) ++ lit "-" ++ pad 2 (tm_mday parts)
        ++ lit "T" ++ pad 2 (tm_hour parts) ++ lit ":" ++ pad 2 (tm_min parts) ++ lit ":" ++ pad 2 (tm_sec parts)
        ++ suffix).
End Local.

(** ** The calendar, by counting days *)

Definition year_length (y : Z) : Z := if is_leap y then 366 else 365.

(** Days of the [n] years from 1970 on. *)
Fixpoint days_of_years (n : nat) : Z :=
  match n with O => 0 | S n' => days_of_years n' + year_length (1970 + Z.of_nat n') end.

(** Days of the first [n] months of a year. *)
Fixpoint days_of_months (year : Z) (n : nat) : Z :=
  match n with O => 0 | S n' => days_of_months year n' + month_days year (Z.of_nat n) end.

Definition calendar_days (year month day : Z) : Z :=
  days_of_years (Z.to_nat (year - 1970)) + days_of_months year (Z.to_nat (month - 1)) + (day - 1).

(** The day number without eras. *)
Lemma civil_days_flat year month day :
  let y := year - Z.b2z (month <=? 2) in
  civil_days year month day =
    365 * y + y / 4 - y / 100 + y / 400
    + (153 * (month + (if 2 <? month then -3 else 9)) + 2) / 5 + day - 1 - 719468.
Proof.
  intros y. unfold civil_days. fold y. set (e := y / 400).
  replace (y - e * 400) with (y + (- (100 * e)) * 4) at 2 by lia. rewrite Z.div_add by lia.
  replace (y - e * 400) with (y + (- (4 * e)) * 100) at 2 by lia. rewrite Z.div_add by lia.
  lia.
Qed.

Lemma div_succ n z : 0 < n → (z + 1) / n = z / n + Z.b2z ((z + 1) mod n =? 0).
Proof.
  intros Hn. pose proof (Z.mod_pos_bound z n Hn). pose proof (Z.div_mod z n).
  destruct ((z + 1) mod n =? 0) eqn:E; reflect_bools; simpl.
  - pose proof (Z.div_mod (z + 1) n). assert (Hq : n * ((z + 1) / n) = n * (z / n) + z mod n + 1) by lia.
    assert (0 < (z + 1) / n - z / n < 2) by nia. lia.
  - symmetry. apply Z.div_unique with (r := z mod n + 1); [|lia].
    left. split; [lia|]. destruct (Z.eq_dec (z mod n) (n - 1)) as [Hm|]; [|lia].
    exfalso. apply E. rewrite <-Zplus_mod_idemp_l, Hm.
    replace (n - 1 + 1) with n by lia. apply Z.mod_same. lia.
Qed.

Lemma year_length_spec y :
  year_length y = 365 + Z.b2z (y mod 4 =? 0) - Z.b2z (y mod 100 =? 0) + Z.b2z (y mod 400 =? 0).
Proof.
  unfold year_length, is_leap.
  assert (y mod 400 = 0 → y mod 100 = 0) by (Z.to_euclidean_division_equations; lia).
  assert (y mod 100 = 0 → y mod 4 = 0) by (Z.to_euclidean_division_equations; lia).
  destruct (y mod 4 =? 0) eqn:?, (y mod 100 =? 0) eqn:?, (y mod 400 =? 0) eqn:?;
    reflect_bools; simpl; lia.
Qed.

Lemma civil_new_year y : civil_days (y + 1) 1 1 = civil_days y 1 1 + year_length y.
Proof.
  rewrite !civil_days_flat, year_length_spec. simpl.
  replace (y + 1 - 1) with (y - 1 + 1) by lia. rewrite !div_succ by lia.
  replace (y - 1 + 1) with y by lia. lia.
Qed.

Lemma civil_years n : civil_days (1970 + Z.of_nat n) 1 1 = days_of_years n.
Proof.
  induction n as [|n IH]; [done|].
  replace (1970 + Z.of_nat (S n)) with (1970 + Z.of_nat n + 1) by lia.
  rewrite civil_new_year, IH. done.
Qed.

Lemma leap_after_february y :
  y / 4 - y / 100 + y / 400 =
    (y - 1) / 4 - (y - 1) / 100 + (y - 1) / 400 + Z.b2z (is_leap y).
Proof.
  replace y with (y - 1 + 1) at 1 2 3 by lia. rewrite !div_succ by lia.
  replace (y - 1 + 1) with y by lia.
  pose proof (year_length_spec y) as Hy. unfold year_length in Hy.
  destruct (is_leap y); simpl in *; lia.
Qed.

Lemma civil_month y m d :
  1 <= m <= 12 → civil_days y m d = civil_days y 1 1 + days_of_months y (Z.to_nat (m - 1)) + (d - 1).
Proof.
  intros Hm. pose proof (leap_after_february y) as Hl. rewrite !civil_days_flat.
  assert (Hc : m = 1 ∨ m = 2 ∨ m = 3 ∨ m = 4 ∨ m = 5 ∨ m = 6 ∨ m = 7 ∨ m = 8 ∨ m = 9 ∨ m = 10
               ∨ m = 11 ∨ m = 12) by lia.
  assert (Hfeb : month_days y 2 = 28 + Z.b2z (is_leap y)) by (unfold month_days; simpl; by destruct (is_leap y)).
  assert (month_days y 1 = 31 ∧ month_days y 3 = 31 ∧ month_days y 4 = 30 ∧ month_days y 5 = 31 ∧
          month_days y 6 = 30 ∧ month_days y 7 = 31 ∧ month_days y 8 = 31 ∧ month_days y 9 = 30 ∧
          month_days y 10 = 31 ∧ month_days y 11 = 30)
    as (H1 & H3 & H4 & H5 & H6 & H7 & H8 & H9 & H10 & H11) by done.
  change (2 <? 1) with false. change (1 <=? 2) with true. cbv iota.
  change ((153 * (1 + 9) + 2) / 5) with 306.
  destruct_or! Hc; subst m;
    match goal with |- context [Z.to_nat ?e] =>
      let v := eval vm_compute in (Z.to_nat e) in change (Z.to_nat e) with v end;
    cbn [days_of_months];
    repeat match goal with |- context [Z.of_nat ?n] =>
      let v := eval vm_compute in (Z.of_nat n) in change (Z.of_nat n) with v end;
    rewrite ?H1, ?Hfeb, ?H3, ?H4, ?H5, ?H6, ?H7, ?H8, ?H9, ?H10, ?H11; simpl Z.leb; simpl Z.ltb; cbv iota;
    match goal with |- context [(153 * ?k + 2) / 5] =>
      let v := eval vm_compute in ((153 * k + 2) / 5) in change ((153 * k + 2) / 5) with v end;
    simpl Z.b2z; rewrite ?Z.sub_0_r; destruct (is_leap y); simpl Z.b2z in *; lia.
Qed.

(** The formula of the code counts the days of the calendar. *)
Lemma civil_days_calendar year month day :
  1970 <= year → 1 <= month <= 12 → civil_days year month day = calendar_days year month day.
Proof.
  intros Hy Hm. rewrite civil_month by done. unfold calendar_days.
  rewrite <-civil_years. by replace (1970 + Z.of_nat (Z.to_nat (year - 1970))) with year by lia.
Qed.

(** ** Texts of timestamps *)

Definition two (z : Z) : bytes := [digit (z / 10); digit (z mod 10)].
Definition four (z : Z) : bytes := two (z / 100) ++ two (z mod 100).

(** A time zone suffix: [Z], or a sign with hours and minutes. *)
Inductive zone : Type := Utc | Offset (negative : bool) (hours minutes : Z).

Definition zone_text (z : zone) : bytes :=
  match z with
  | Utc => lit "Z"
  | Offset neg h m => (if neg then lit "-" else lit "+") ++ two h ++ lit ":" ++ two m
  end.
Definition zone_seconds (z : zone) : Z :=
  match z with
  | Utc => 0
  | Offset neg h m => (h * 3600 + m * 60) * (if neg then -1 else 1)
  end.
Definition zone_valid (z : zone) : Prop :=
  match z with
  | Utc => True
  | Offset neg h m => 0 <= h <= 23 ∧ 0 <= m <= 59 ∧ ¬ (neg = true ∧ h = 0 ∧ m = 0)
  end.

Definition iso_text (year month day hour minute second : Z) (z : zone) : bytes :=
  four year ++ lit "-" ++ two month ++ lit "-" ++ two day ++ lit "T" ++ two hour ++ lit ":"
    ++ two minute ++ lit ":" ++ two second ++ zone_text z.

Lemma digits_val_two z : 0 <= z < 100 → digits_val (two z) = z.
Proof.
  intros Hz. unfold digits_val, two; simpl. rewrite !digit_val_digit.
  - rewrite Z.mul_0_l, Z.add_0_l. rewrite (Z.div_mod z 10) at 3 by lia. lia.
  - apply Z.mod_pos_bound. lia.
  - split; [apply Z.div_pos; lia|apply Z.div_lt_upper_bound; lia].
Qed.

Lemma digits_two z : 0 <= z < 100 → forallb is_digit (two z) = true.
Proof.
  intros Hz. unfold two; simpl. rewrite !digit_range; [done| |].
  - apply Z.mod_pos_bound. lia.
  - split; [apply Z.div_pos; lia|apply Z.div_lt_upper_bound; lia].
Qed.

Lemma digits_val_app_two l z : 0 <= z < 100 → digits_val (l ++ two z) = digits_val l * 100 + z.
Proof.
  intros Hz. unfold two.
  change [digit (z / 10); digit (z mod 10)] with ([digit (z / 10)] ++ [digit (z mod 10)]).
  rewrite app_assoc, !digits_val_snoc, !digit_val_digit.
  - rewrite (Z.div_mod z 10) at 3 by lia. lia.
  - apply Z.mod_pos_bound. lia.
  - split; [apply Z.div_pos; lia|apply Z.div_lt_upper_bound; lia].
Qed.

Lemma digits_val_four z : 0 <= z < 10000 → digits_val (four z) = z.
Proof.
  intros Hz. unfold four. pose proof (Z.mod_pos_bound z 100).
  rewrite digits_val_app_two, digits_val_two by (try split; try apply Z.div_pos; try apply Z.div_lt_upper_bound; lia).
  rewrite (Z.div_mod z 100) at 3 by lia. lia.
Qed.

Lemma number_two l i j z :
  take (j - i) (drop i l) = two z → 0 <= z < 100 → number l i j = Ok z.
Proof. intros Hl Hz. unfold number. by rewrite Hl, digits_two, digits_val_two. Qed.

Lemma number_four l i j z :
  take (j - i) (drop i l) = four z → 0 <= z < 10000 → number l i j = Ok z.
Proof.
  intros Hl Hz. unfold number. rewrite Hl, digits_val_four by done.
  unfold four. rewrite forallb_app, !digits_two; [done|..].
  - apply Z.mod_pos_bound. lia.
  - split; [apply Z.div_pos; lia|apply Z.div_lt_upper_bound; lia].
Qed.

Lemma parse_offset_zone l n z :
  drop n l = zone_text z → zone_valid z → parse_offset l n = Ok (Some (zone_seconds z)).
Proof.
  intros Hd Hv. unfold parse_offset. rewrite Hd. destruct z as [|neg h m]; [done|].
  destruct Hv as (Hh & Hm & Hn).
  assert (Hsub : ∀ i j, take (n + j - (n + i)) (drop (n + i) l) = take (j - i) (drop i (zone_text (Offset neg h m)))).
  { intros i j. rewrite <-drop_drop, Hd. f_equal. lia. }
  rewrite (number_two l (n + 1) (n + 3) h); [|rewrite Hsub; by destruct neg|lia].
  rewrite (number_two l (n + 4) (n + 6) m); [|rewrite Hsub; by destruct neg|lia].
  cbn [mbind result_bind].
  replace ((23 <? h) || (59 <? m)) with false by (symmetry; apply orb_false_iff; split; apply Z.ltb_ge; lia).
  destruct neg; simpl; [|done].
  destruct (h =? 0) eqn:?, (m =? 0) eqn:?; reflect_bools; simpl; try done. naive_solver.
Qed.

Lemma pad_check width limit (f : Z → bytes) z :
  forallb (λ n, bytes_eqb (pad width n) (f n)) (seqZ 0 limit) = true → 0 <= z < limit → pad width z = f z.
Proof.
  intros H Hz. rewrite forallb_forall in H.
  specialize (H z). rewrite <-list_elem_of_In, elem_of_seqZ in H. apply (bool_decide_eq_true (pad width z = f z)). apply H. lia.
Qed.

Lemma pad_two z : 0 <= z < 100 → pad 2 z = two z.
Proof. apply pad_check. by vm_compute. Qed.
Lemma pad_four z : 0 <= z < 10000 → pad 4 z = four z.
Proof. apply pad_check. by vm_compute. Qed.

(** What a timestamp is in the local time zone: its fields are a date and a
    time, and taking off the offset gives the timestamp back. *)
Record local_time (t : Z) (p : tm) (offset : Z) : Prop := {
  lt_year : 1970 <= tm_year p + 1900 <= 9999;
  lt_month : 0 <= tm_mon p <= 11;
  lt_day : 1 <= tm_mday p <= month_days (tm_year p + 1900) (tm_mon p + 1);
  lt_hour : 0 <= tm_hour p <= 23;
  lt_minute : 0 <= tm_min p <= 59;
  lt_second : 0 <= tm_sec p <= 59;
  lt_offset : Z.abs offset < 86400;
  lt_seconds : calendar_days (tm_year p + 1900) (tm_mon p + 1) (tm_mday p) * 86400
               + tm_hour p * 3600 + tm_min p * 60 + tm_sec p - offset = t
}.

(** The zone an offset of whole minutes is printed as. *)
Definition zone_of (offset : Z) : zone := Offset (offset <? 0) (Z.abs offset / 3600) (Z.abs offset mod 3600 / 60).

Lemma zone_of_valid offset :
  Z.abs offset < 86400 → Z.abs offset mod 60 = 0 → zone_valid (zone_of offset) ∧ zone_seconds (zone_of offset) = offset.
Proof.
  intros Ho Hm. unfold zone_of, zone_valid, zone_seconds.
  pose proof (Z.div_mod (Z.abs offset) 3600). pose proof (Z.mod_pos_bound (Z.abs offset) 3600).
  assert (Hmod : Z.abs offset mod 3600 mod 60 = 0).
  { rewrite <-Hm. change 3600 with (60 * 60). rewrite Z.rem_mul_r by lia.
    rewrite Z.mul_comm, Z_mod_plus_full. by rewrite Hm. }
  pose proof (Z.div_mod (Z.abs offset mod 3600) 60).
  destruct (offset <? 0) eqn:E; reflect_bools; split; try lia; split_and!; lia.
Qed.

Lemma format_local_time_text localtime_r tm_gmtoff t p :
  localtime_r t = Some p → local_time t p (tm_gmtoff t) → t <= 2 ^ 63 - 1 → Z.abs (tm_gmtoff t) mod 60 = 0 →
  format_local_time localtime_r tm_gmtoff t =
    Ok (iso_text (tm_year p + 1900) (tm_mon p + 1) (tm_mday p) (tm_hour p) (tm_min p) (tm_sec p) (zone_of (tm_gmtoff t))).
Proof.
  intros Hp [Hy Hmo Hd Hh Hmi Hs Ho Ht] Hr Hm. unfold format_local_time, local_parts.
  rewrite (proj2 (Z.ltb_ge _ _)), Hp by lia. cbn [ok_or mbind result_bind].
  assert (month_days (tm_year p + 1900) (tm_mon p + 1) <= 31) by (unfold month_days; repeat case_match; lia).
  pose proof (Z.mod_pos_bound (Z.abs (tm_gmtoff t)) 3600).
  assert (0 <= Z.abs (tm_gmtoff t) / 3600 < 100)
    by (split; [apply Z.div_pos|apply Z.div_lt_upper_bound]; lia).
  assert (0 <= Z.abs (tm_gmtoff t) mod 3600 / 60 < 100)
    by (split; [apply Z.div_pos|apply Z.div_lt_upper_bound]; lia).
  rewrite Hm. rewrite pad_four, !pad_two by lia. unfold iso_text, zone_text, zone_of. by rewrite app_nil_r.
Qed.

(** Reading a text of the calendar. *)
Lemma parse_iso_text mktime localtime_r year month day hour minute second z :
  1970 <= year <= 9999 → 1 <= month <= 12 → 1 <= day <= month_days year month →
  0 <= hour <= 23 → 0 <= minute <= 59 → 0 <= second <= 59 → zone_valid z →
  let seconds := calendar_days year month day * 86400 + hour * 3600 + minute * 60 + second
                 - zone_seconds z in
  parse_time mktime localtime_r (iso_text year month day hour minute second z) =
    if seconds <? 0 then Err (Bail "timestamp precedes Unix epoch") else Ok seconds.
Proof.
  intros Hy Hmo Hd Hh Hmi Hs Hz seconds. unfold parse_time.
  set (text := iso_text _ _ _ _ _ _ z).
  assert (Hdays : month_days year month <= 31).
  { unfold month_days. repeat case_match; lia. }
  replace (forallb is_digit text) with false.
  2: { symmetry. unfold text, iso_text. rewrite !forallb_app. simpl. by rewrite !andb_false_r. }
  cbn [andb].
  assert ((length text <? 16)%nat = false) as ->.
  { apply Nat.ltb_ge. unfold text, iso_text. rewrite !length_app. simpl. lia. }
  change (byte_at text 4 "-") with true. change (byte_at text 7 "-") with true.
  change (byte_at text 10 "T") with true. change (byte_at text 13 ":") with true.
  change (byte_at text 16 ":") with true. cbn [negb orb].
  rewrite (number_four text 0 4 year) by (done || lia).
  rewrite (number_two text 5 7 month), (number_two text 8 10 day), (number_two text 11 13 hour),
    (number_two text 14 16 minute), (number_two text 17 19 second) by (done || lia).
  assert ((length text <? 19)%nat = false) as ->.
  { apply Nat.ltb_ge. unfold text, iso_text. rewrite !length_app. simpl. lia. }
  cbn [mbind result_bind]. rewrite (parse_offset_zone text 19 z) by done.
  cbn [mbind result_bind].
  replace ((year <? 1970) || (day <? 1) || (month_days year month <? day) || (23 <? hour)
           || (59 <? minute) || (59 <? second)) with false
    by (symmetry; rewrite !orb_false_iff, !Z.ltb_ge; lia).
  by rewrite civil_days_calendar by lia.
Qed.

(** ** Property *)

(** The date and time of a valid timestamp text with [Z] or a numeric
    offset is read as the number of seconds since the epoch, counting the days
    of every year and month and taking off the offset; a time before the epoch
    is an error. *)
Theorem parse_time_calendar mktime localtime_r year month day hour minute second z :
  1970 <= year <= 9999 → 1 <= month <= 12 → 1 <= day <= month_days year month →
  0 <= hour <= 23 → 0 <= minute <= 59 → 0 <= second <= 59 → zone_valid z →
  let seconds := calendar_days year month day * 86400 + hour * 3600 + minute * 60 + second
                 - zone_seconds z in
  parse_time mktime localtime_r (iso_text year month day hour minute second z) =
    if seconds <? 0 then Err (Bail "timestamp precedes Unix epoch") else Ok seconds.
Proof. exact (parse_iso_text mktime localtime_r year month day hour minute second z). Qed.

Lemma parse_time_calendar_witness :
  parse_time (λ _, -1) (λ _, None) (iso_text 2024 2 29 23 59 58 (Offset true 5 30)) = Ok 1709270998.
Proof.
  refine (parse_time_calendar (λ _, -1) (λ _, None) 2024 2 29 23 59 58 (Offset true 5 30)
            _ _ _ _ _ _ _); vm_compute; repeat split; try discriminate.
  intros [_ [? _]]; discriminate.
Defined.

(** Timestamps printed in local time are read back as themselves: whatever
    the time zone, as long as its offset is a whole number of minutes below a
    day, [parse_time] takes the text of [format_local_time] to the timestamp it
    was printed from, without asking the platform for the zone again. *)
Theorem local_time_roundtrip mktime localtime_r tm_gmtoff t p :
  localtime_r t = Some p → local_time t p (tm_gmtoff t) → 0 <= t <= 2 ^ 63 - 1 → Z.abs (tm_gmtoff t) mod 60 = 0 →
  ∃ text, format_local_time localtime_r tm_gmtoff t = Ok text
    ∧ ∀ localtime_r', parse_time mktime localtime_r' text = Ok t.
Proof.
  intros Hp Hlt Hr Hm. eexists. split; [by apply format_local_time_text; [..|lia|]|]. intros localtime_r'.
  destruct Hlt as [Hy Hmo Hd Hh Hmi Hs Ho Ht]. destruct (zone_of_valid _ Ho Hm) as [Hzv Hzs].
  rewrite parse_iso_text by (done || lia). rewrite Hzs, Ht. by rewrite (proj2 (Z.ltb_ge _ _)) by lia.
Qed.

(** The 29th of February 2024 in Kathmandu, 5:45 ahead. *)
Lemma local_time_roundtrip_witness :
  let p := MkTm 124 1 29 23 59 58 0 in
  ∃ text, format_local_time (λ _, Some p) (λ _, 20700) 1709230498 = Ok text
    ∧ ∀ localtime_r', parse_time (λ _, -1) localtime_r' text = Ok 1709230498.
Proof.
  refine (local_time_roundtrip (λ _, -1) (λ _, Some (MkTm 124 1 29 23 59 58 0)) (λ _, 20700) 1709230498 _ eq_refl _ _ eq_refl).
  - split; vm_compute; repeat split; discriminate.
  - vm_compute. split; discriminate.
Defined.
