(* ===== verification/Recorder.v ===== *)
(** * Recorder: the traffic recorder and its thread ([src/traffic.rs])

    [Recorder::start], [Recorder::stop] and the thread that runs [collect],
    while the tasks of the service call [record]. The counters are loaded one
    after the other, and records may come in between; the thread, the tasks and
    the main task interleave in a step relation. The samples and the journal
    are those of [Traffic]. *)
From S2P Require Import Prelude Bytes Text Traffic.
Local Open Scope Z_scope.

(** The order in which [Counters::snapshot] loads the counters. *)
Definition directions : list Direction := [TcpUpload; TcpDownload; UdpUpload; UdpDownload].

#[export] Instance direction_eq_dec : EqDecision Direction.
Proof. solve_decision. Defined.

Definition field (d : Direction) (b : Bytes) : Z :=
  match d with
  | TcpUpload => tcp_upload b | TcpDownload => tcp_download b
  | UdpUpload => udp_upload b | UdpDownload => udp_download b
  end.

(** Where the thread is: waiting for the next minute or for a stop; loading the
    counters, with the values loaded so far; or over. *)
Inductive Worker : Type :=
  | Waiting
  | Loading (stopping : bool) (loaded : list Z)
  | Over (r : result unit).

(** The recorder: the shared counters, the message of [stop], the thread with its
    sampler and its journal. The last five fields are not in the code: all bytes
    recorded so far, without wrap-around; what of them was recorded when the
    stop was sent; what the loads under way and the last sample whose append
    succeeded have seen of them; and how often unlocking the journal failed. *)
Record State : Type := MkState {
  counters : Counters;
  stop_sent : bool;
  worker : Worker;
  files : Sampler * Journal;
  recorded : Direction → Z;
  at_stop : option (Direction → Z);
  seen : list Z;
  taken : Direction → Z;
  unlock_failures : nat
}.

Section Recorder.
Context `{C : SampleCodec}.

(** [Recorder::start]: opening the journal, the one recorder of the process, and
    the thread, which reads the clock. *)
Definition start (io : OpenIo) (already spawned : bool) (now : Z) : M bytes State :=
  journal ← journal_open io;
  if already then bail "traffic recorder already initialized"
  else if negb spawned then bail "start traffic recorder"
  else mret (MkState (MkCounters false bytes_zero) false Waiting (MkSampler bytes_zero now, journal)
               (λ _, 0) None [] (λ _, 0) 0).

Definition add_to (d : Direction) (n : Z) (f : Direction → Z) : Direction → Z :=
  λ d', if decide (d' = d) then f d' + n else f d'.

(** A task's call of [record]. *)
Definition record_bytes (d : Direction) (n : Z) (s : State) : State :=
  MkState (default (counters s) (record d n (Some (counters s)))) (stop_sent s) (worker s) (files s)
    (if enabled (counters s) then add_to d n (recorded s) else recorded s) (at_stop s) (seen s) (taken s)
    (unlock_failures s).

Definition set_enabled (b : bool) (s : State) : State :=
  MkState (MkCounters b (values (counters s))) (stop_sent s) (worker s) (files s) (recorded s) (at_stop s)
    (seen s) (taken s) (unlock_failures s).

(** [stop.send(())] *)
Definition send_stop (s : State) : State :=
  MkState (counters s) true (worker s) (files s) (recorded s)
    (Some (default (recorded s) (at_stop s))) (seen s) (taken s) (unlock_failures s).

(** [recv_timeout]: a message that is there is received. *)
Definition wake (s : State) : State :=
  MkState (counters s) (stop_sent s) (Loading (stop_sent s) []) (files s) (recorded s) (at_stop s) [] (taken s)
    (unlock_failures s).

(** One [load] of the snapshot. *)
Definition load (stopping : bool) (loaded : list Z) (s : State) : option State :=
  d ← directions !! length loaded;
  Some (MkState (counters s) (stop_sent s) (Loading stopping (loaded ++ [field d (values (counters s))]))
          (files s) (recorded s) (at_stop s) (seen s ++ [recorded s d]) (taken s)
          (unlock_failures s)).

Definition bytes_of (l : list Z) : option Bytes :=
  match l with [a; b; c; d] => Some (MkBytes a b c d) | _ => None end.

Definition nth_of (l : list Z) (d : Direction) : Z :=
  match d with
  | TcpUpload => nth 0 l 0 | TcpDownload => nth 1 l 0 | UdpUpload => nth 2 l 0 | UdpDownload => nth 3 l 0
  end.

(** The rest of the turn of [collect]: the sample is built from the loaded
    values, and a failure ends the thread only when it is stopping. *)
Definition flush (io : AppendIo) (now : Z) (stopping : bool) (current : Bytes) (s : State) : State :=
  let '(r, st) := sampler_flush io (MkCounters true current) now (files s) in
  let next := if stopping then Over r else Waiting in
  MkState (counters s) (stop_sent s) next st (recorded s) (at_stop s) (seen s)
    (match r with Ok _ => nth_of (seen s) | Err _ => taken s end)
    (unlock_failures s + if is_ok (io_append_unlock io) then 0 else 1).

(** The thread's steps; any call of an append may fail. *)
Inductive worker_step : State → State → Prop :=
  | step_wake s : worker s = Waiting → worker_step s (wake s)
  | step_load s stopping loaded s' :
      worker s = Loading stopping loaded → load stopping loaded s = Some s' → worker_step s s'
  | step_flush s io now stopping loaded current :
      worker s = Loading stopping loaded → bytes_of loaded = Some current →
      worker_step s (flush io now stopping current s).

(** The other steps: tasks record at most a [usize] of bytes at a time, the main
    task enables the counters, sends the stop, and drops the recorder. *)
Inductive other_step : State → State → Prop :=
  | step_record s d n : u64 n → other_step s (record_bytes d n s)
  | step_enable s : other_step s (set_enabled true s)
  | step_stop s : other_step s (send_stop s)
  | step_drop s : other_step s (send_stop (set_enabled false s)).

Definition step (s s' : State) : Prop := worker_step s s' ∨ other_step s s'.

(** ** The invariant *)

(** The values [l], one per direction from the first on. *)
Definition each (P : Direction → Z → Prop) (l : list Z) : Prop :=
  ∀ i d v, directions !! i = Some d → l !! i = Some v → P d v.

Record recorder_ok (old : bytes) (s : State) : Prop := {
  ok_counters d : field d (values (counters s)) = wrap64 (recorded s d);
  ok_recorded d : 0 <= recorded s d;
  ok_accounts : accounts old bytes_zero (λ b, ∀ d, ∃ u, 0 <= u <= recorded s d ∧ field d b = wrap64 u)
                  (unlock_failures s) (files s);
  ok_taken d : field d (previous (files s).1) = wrap64 (taken s d) ∧ 0 <= taken s d <= recorded s d;
  ok_loading stopping loaded : worker s = Loading stopping loaded →
    loaded = wrap64 <$> seen s ∧ (length loaded <= 4)%nat ∧
    each (λ d v, 0 <= v <= recorded s d) (seen s) ∧
    (stopping = true → ∃ b, at_stop s = Some b ∧ each (λ d v, b d <= v) (seen s));
  ok_stop : if stop_sent s then ∃ b, at_stop s = Some b ∧ ∀ d, b d <= recorded s d else at_stop s = None;
  ok_over r : worker s = Over r → ∃ b, at_stop s = Some b ∧ (r = Ok tt → ∀ d, b d <= taken s d)
}.

Lemma wrap64_u64 z : u64 (wrap64 z).
Proof. unfold u64, wrap64, U64_MAX. pose proof (Z.mod_pos_bound z (2 ^ 64) ltac:(lia)). lia. Qed.

Lemma field_fetch_add d d' n v :
  field d' (fetch_add d n v) = if decide (d' = d) then wrap64 (field d' v + n) else field d' v.
Proof. by destruct d, d'. Qed.

Lemma directions_lookup d : ∃ i, directions !! i = Some d ∧ (i < 4)%nat.
Proof. destruct d; [exists 0%nat|exists 1%nat|exists 2%nat|exists 3%nat]; split; (done || lia). Qed.

Lemma each_snoc P l d v : directions !! length l = Some d → each P l → P d v → each P (l ++ [v]).
Proof.
  intros Hd Hl Hv i d' v' Hi Hlk. apply lookup_app_Some in Hlk as [Hlk|[Hlt Hlk]]; [by eapply Hl|].
  apply list_lookup_singleton_Some in Hlk as [Hi0 ->]. replace i with (length l) in Hi by lia. congruence.
Qed.

Lemma each_mono (P Q : Direction → Z → Prop) l : (∀ d v, P d v → Q d v) → each P l → each Q l.
Proof. intros H Hl i d v Hi Hv. eauto. Qed.

(** Four loaded values, by direction. *)
Lemma bytes_of_fields l b :
  bytes_of (wrap64 <$> l) = Some b →
  length l = 4%nat ∧ (∀ d, field d b = wrap64 (nth_of l d)) ∧ bytes_all u64 b.
Proof.
  destruct l as [|x [|y [|z [|w [|]]]]]; try done. csimpl. intros [= <-].
  split; [done|]. split; [by intros []|]. split_and!; apply wrap64_u64.
Qed.

Lemma each_nth P l : length l = 4%nat → each P l → ∀ d, P d (nth_of l d).
Proof.
  destruct l as [|x [|y [|z [|w [|]]]]]; try done. intros _ H d.
  destruct d; [apply (H 0%nat)|apply (H 1%nat)|apply (H 2%nat)|apply (H 3%nat)]; done.
Qed.

(** A flush that fails keeps the sampler. *)
Lemma sampler_flush_kept io c now st e :
  (sampler_flush io c now st).1 = Err e → (sampler_flush io c now st).2.1 = st.1.
Proof.
  unfold sampler_flush, zoom, get, modify, mbind, M_bind. destruct st as [sm j]; simpl.
  by destruct (append _ _ j) as [[[]|e'] j'].
Qed.

Lemma record_ok old d n s : u64 n → recorder_ok old s → recorder_ok old (record_bytes d n s).
Proof.
  intros Hn [Hc Hr Hl Ht Hlo Hst Hov].
  assert (Hle : ∀ d', recorded s d' <= recorded (record_bytes d n s) d').
  { intros d'. simpl. destruct (enabled (counters s)); [|lia]. unfold add_to. unfold u64 in Hn. case_decide; lia. }
  split; [| | | | | |done].
  - intros d'. simpl. unfold record. destruct (counters s) as [[|] v]; simpl in *; [|by rewrite andb_false_r].
    rewrite andb_true_r. unfold add_to. destruct (n =? 0) eqn:E; reflect_bools; simpl.
    + subst n. rewrite Hc. case_decide; [|done]. by rewrite Z.add_0_r.
    + rewrite field_fetch_add, Hc. case_decide; [|done]. unfold wrap64. by rewrite Zplus_mod_idemp_l.
  - intros d'. specialize (Hle d'). specialize (Hr d'). lia.
  - eapply accounts_mono; [|done|exact Hl]. intros b Hb d'. destruct (Hb d') as (u & ? & ?). exists u.
    specialize (Hle d'). split; [lia|done].
  - intros d'. destruct (Ht d') as [? ?]. split; [done|]. specialize (Hle d'). simpl in *. lia.
  - intros stopping loaded Hw. destruct (Hlo _ _ Hw) as (? & ? & He & Hs). split_and!; try done.
    eapply each_mono, He. intros d' v. specialize (Hle d'). simpl in *. lia.
  - simpl. destruct (stop_sent s); [|done]. destruct Hst as (b & ? & Hb). exists b. split; [done|].
    intros d'. specialize (Hle d'). specialize (Hb d'). simpl in *. lia.
Qed.

Lemma set_enabled_ok old b s : recorder_ok old s → recorder_ok old (set_enabled b s).
Proof. intros []. by split. Qed.

Lemma send_stop_ok old s : recorder_ok old s → recorder_ok old (send_stop s).
Proof.
  intros [Hc Hr Hl Ht Hlo Hst Hov].
  assert (Hb : ∃ b, Some (default (recorded s) (at_stop s)) = Some b ∧ (∀ d, b d <= recorded s d)
    ∧ (∀ b', at_stop s = Some b' → b' = b)).
  { destruct (at_stop s) as [b|] eqn:E; [|exists (recorded s); naive_solver lia].
    exists b. split; [done|]. destruct (stop_sent s); [|done]. destruct Hst as (b' & [= <-] & ?). naive_solver. }
  destruct Hb as (b & Hb & Hle & Heq).
  split; try done; cbn [send_stop worker stop_sent at_stop recorded seen taken].
  - intros stopping loaded Hw. destruct (Hlo _ _ Hw) as (? & ? & ? & Hs). split_and!; try done.
    intros ->. destruct (Hs eq_refl) as (b' & Hb' & ?). exists b'. by rewrite Hb'.
  - eauto.
  - intros r Hw. destruct (Hov _ Hw) as (b' & Hb' & ?). exists b'. by rewrite Hb'.
Qed.

Lemma wake_ok old s : worker s = Waiting → recorder_ok old s → recorder_ok old (wake s).
Proof.
  intros Hw [Hc Hr Hl Ht Hlo Hst Hov]. split; try done; cbn [wake worker at_stop stop_sent recorded seen].
  intros stopping loaded [= <- <-]. split_and!; [done|simpl; lia|by intros i d v|].
  intros Hs. rewrite Hs in Hst. destruct Hst as (b & Hb & _). exists b. split; [done|by intros i d v].
Qed.

Lemma load_ok old s stopping loaded s' :
  worker s = Loading stopping loaded → load stopping loaded s = Some s' → recorder_ok old s → recorder_ok old s'.
Proof.
  intros Hw Hload [Hc Hr Hl Ht Hlo Hst Hov]. unfold load in Hload.
  destruct (directions !! length loaded) as [d|] eqn:Ed; simplify_eq/=.
  destruct (Hlo _ _ Hw) as (Hseen & Hlen & He & Hs).
  assert (Hn : length loaded = length (seen s)) by (rewrite Hseen; apply length_fmap).
  split; try done; cbn [worker at_stop stop_sent recorded seen].
  intros stopping' loaded' [= <- <-]. split_and!.
  - rewrite fmap_app, Hc, Hseen. done.
  - rewrite length_app. apply lookup_lt_Some in Ed. unfold directions in Ed. simpl in *. lia.
  - apply (each_snoc _ _ d); [by rewrite <-Hn|done|]. specialize (Hr d). lia.
  - intros Hstop. destruct (Hs Hstop) as (b & Hb & Heach). exists b. split; [done|].
    apply (each_snoc _ _ d); [by rewrite <-Hn|done|].
    destruct (stop_sent s); [|congruence]. destruct Hst as (b' & Hb' & Hle). simplify_eq. apply Hle.
Qed.

Lemma flush_ok old s io now stopping loaded current :
  worker s = Loading stopping loaded → bytes_of loaded = Some current → recorder_ok old s → recorder_ok old (flush io now stopping current s).
Proof.
  intros Hw Hb [Hc Hr Hl Ht Hlo Hst Hov].
  destruct (Hlo _ _ Hw) as (Hseen & _ & He & Hs). rewrite Hseen in Hb.
  destruct (bytes_of_fields _ _ Hb) as (Hlen & Hf & Hu).
  assert (Hok : ∀ d, ∃ u, 0 <= u <= recorded s d ∧ field d current = wrap64 u)
    by (intros d; exists (nth_of (seen s) d); split; [apply (each_nth _ _ Hlen He)|apply Hf]).
  pose proof (sampler_flush_accounts old bytes_zero _ _ io (MkCounters true current) now (files s) Hu Hok Hl) as Hfl.
  pose proof (sampler_flush_kept io (MkCounters true current) now (files s)) as Hk.
  unfold flush. destruct (sampler_flush _ _ _ _) as [r st]. destruct Hfl as [Hl' Hp].
  split; try done; cbn [worker at_stop stop_sent recorded seen taken files].
  - intros d. destruct r as [[]|e]; cbn [fst] in *.
    + rewrite (Hp eq_refl). simpl. rewrite Hf. split; [done|]. apply (each_nth _ _ Hlen He).
    + specialize (Hk e eq_refl). simpl in Hk. rewrite Hk. apply Ht.
  - intros stopping' loaded'. by destruct stopping.
  - intros r'. destruct stopping; [|done]. intros [= <-]. destruct (Hs eq_refl) as (b & Hb' & Heach).
    exists b. split; [done|]. intros ->. apply (each_nth (λ d v, b d <= v) _ Hlen Heach).
Qed.

Lemma step_ok old s s' : step s s' → recorder_ok old s → recorder_ok old s'.
Proof.
  intros [Hs|Hs]; destruct Hs; eauto using wake_ok, load_ok, flush_ok, record_ok, set_enabled_ok, send_stop_ok.
Qed.

Lemma steps_ok old s s' : rtc step s s' → recorder_ok old s → recorder_ok old s'.
Proof. induction 1; eauto using step_ok. Qed.

(** ** Starting and ending *)

Lemma journal_open_ok io file j old : journal_open io file = (Ok j, old) → j = MkJournal old false.
Proof.
  unfold journal_open. intros H. M_inv. repeat case_match; M_inv; done.
Qed.

Lemma recorder_start_ok io already spawned now file s0 old :
  start io already spawned now file = (Ok s0, old) → recorder_ok old s0 ∧ stop_sent s0 = false ∧ worker s0 = Waiting.
Proof.
  unfold start. intros H. M_step. destruct already; [done|]. destruct spawned; [|done]. simpl in H. M_inv.
  match goal with H : journal_open _ _ = _ |- _ => apply journal_open_ok in H as -> end.
  split; [|done]. split; try done; simpl.
  - by intros [].
  - exists [], []. simpl. rewrite app_nil_r. split_and!; [done..|]. by intros [].
  - intros d. split; [by destruct d|lia].
Qed.

(** The steps the thread has left once the stop is sent. *)
Definition steps_left (w : Worker) : nat :=
  match w with
  | Over _ => 0
  | Loading true l => 1 + (4 - length l)
  | Waiting => 6
  | Loading false l => 7 + (4 - length l)
  end.

Lemma worker_step_left s s' :
  stop_sent s = true → worker_step s s' → stop_sent s' = true ∧ (steps_left (worker s') < steps_left (worker s))%nat.
Proof.
  intros Hstop Hstep. revert Hstop.
  destruct Hstep as [? Hw|? stopping loaded ? Hw Hl|? io now stopping loaded current Hw Hb]; intros Hstop.
  - split; [done|]. rewrite Hw. simpl. rewrite Hstop. simpl. lia.
  - unfold load in Hl. destruct (directions !! length loaded) as [d|] eqn:Ed; simplify_eq/=. split; [done|].
    rewrite Hw. apply lookup_lt_Some in Ed. simpl in Ed. destruct stopping; simpl; rewrite length_app; simpl; lia.
  - unfold flush. destruct (sampler_flush _ _ _ _) as [r st]. split; [done|]. rewrite Hw.
    destruct stopping; simpl; lia.
Qed.

Lemma worker_steps_left n s s' :
  stop_sent s = true → nsteps worker_step n s s' → (n + steps_left (worker s') <= steps_left (worker s))%nat.
Proof.
  intros Hstop Hn. induction Hn as [s|n s s1 s' Hs Hn IH]; [lia|].
  destruct (worker_step_left _ _ Hstop Hs) as [Hstop1 Hlt]. specialize (IH Hstop1). lia.
Qed.

Lemma worker_progress old s : recorder_ok old s → (∃ r, worker s = Over r) ∨ ∃ s', worker_step s s'.
Proof.
  intros Hok. destruct (worker s) as [|stopping loaded|r] eqn:Ew; [right|right|by eauto].
  - eexists. by apply step_wake.
  - destruct (ok_loading _ _ Hok _ _ Ew) as (_ & Hlen & _).
    destruct (directions !! length loaded) as [d|] eqn:Ed.
    + eexists. eapply step_load; [done|]. unfold load. by rewrite Ed.
    + apply lookup_ge_None in Ed. simpl in Ed.
      destruct loaded as [|a [|b [|c [|e [|]]]]]; simpl in *; try lia.
      exists (flush append_io_ok 0 stopping (MkBytes a b c e) s). by eapply step_flush.
Qed.

(** C17: The recorder under concurrency. However the tasks' records interleave
    with the thread's loads, and whatever calls fail, the journal gains whole
    samples. Those whose append succeeded account for every byte exactly once
    (modulo 2^64) up to what the loads of the last of them saw, and never for more
    than was recorded. The others are at most as many as the failures of the one
    call that comes after a sample is written, the unlocking: each holds the
    traffic since the last that succeeded before it, which the next one counts
    again. So as long as unlocking works, every byte is counted exactly once.
    When the thread ends without error, everything recorded before the stop was
    sent is in the journal, even bytes that came in while it was loading. Once the
    stop is sent the thread ends after at most eleven of its own steps, and until
    it ends it always has one. *)
Theorem recorder_counts_once `{!SampleCodecLaws C} io already spawned now file s0 old s :
  start io already spawned now file = (Ok s0, old) → rtc step s0 s →
  (∃ ss part, content (files s).2 = old ++ journal_of (fst <$> ss) ++ part
     ∧ (poisoned (files s).2 = false → part = [])
     ∧ (∀ d, field d (replay bytes_zero (confirmed ss)) = wrap64 (taken s d))
     ∧ (length (repeated ss) <= unlock_failures s)%nat
     ∧ (∀ pre x post, ss = pre ++ (x, false) :: post → ∀ d, ∃ u, 0 <= u <= recorded s d ∧
          field d (replay bytes_zero (confirmed pre ++ [x])) = wrap64 u)
     ∧ (unlock_failures s = 0%nat → fst <$> ss = confirmed ss)) ∧
  (∀ d, 0 <= taken s d <= recorded s d) ∧
  (∀ r, worker s = Over r →
     ∃ before, at_stop s = Some before ∧ (r = Ok tt → ∀ d, before d <= taken s d)) ∧
  (stop_sent s = true → ∀ n s', nsteps worker_step n s s' → (n <= 11)%nat) ∧
  ((∃ r, worker s = Over r) ∨ ∃ s', worker_step s s').
Proof.
  intros (Hok & _ & _)%recorder_start_ok Hrun. apply (steps_ok _ _ _ Hrun) in Hok. split_and!.
  - destruct (ok_accounts _ _ Hok) as (ss & part & Hct & Hpo & Hpv & Hl & Hrep). exists ss, part. split_and!; [done..| |done|done|].
    + intros d. rewrite <-Hpv. by destruct (ok_taken _ _ Hok d).
    + intros Hz. apply none_repeated, nil_length_inv. lia.
  - intros d. by destruct (ok_taken _ _ Hok d).
  - intros r Hw. by apply (ok_over _ _ Hok).
  - intros Hstop n s' Hn%worker_steps_left; [|done].
    destruct (worker s) as [|[|] loaded|r] eqn:Ew; simpl in Hn; lia.
  - by apply (worker_progress old).
Qed.
End Recorder.

(** ** Witness: bytes that come in during the last snapshot *)

(** The recorder of an empty file is enabled, counts ten bytes, is told to
    stop, and counts five more between the first load and the others. *)
Definition demo_start : result State * bytes := start open_io_ok false true 0 [].
Definition demo_loads (k : nat) (s : State) : State :=
  Nat.iter k (λ s, match worker s with
                   | Loading stopping loaded => default s (load stopping loaded s)
                   | _ => s end) s.
Definition demo_stop (s0 : State) : State :=
  wake (send_stop (record_bytes TcpUpload 10 (set_enabled true s0))).
Definition demo_during (s0 : State) : State := record_bytes TcpDownload 5 (demo_loads 1 (demo_stop s0)).
Definition demo_end (s0 : State) : State :=
  flush append_io_ok 60 true (MkBytes 10 5 0 0) (demo_loads 3 (demo_during s0)).

Definition demo_s0 : State :=
  MkState (MkCounters false bytes_zero) false Waiting (MkSampler bytes_zero 0, MkJournal [] false)
    (λ _, 0) None [] (λ _, 0) 0.

Lemma demo_started : demo_start = (Ok demo_s0, []).
Proof. vm_compute. reflexivity. Qed.

Lemma demo_load k s stopping loaded d :
  worker (demo_loads k s) = Loading stopping loaded → directions !! length loaded = Some d →
  rtc step s (demo_loads k s) → rtc step s (demo_loads (S k) s).
Proof.
  intros Hw Hd Hk. eapply rtc_r; [exact Hk|]. left. eapply step_load; [exact Hw|].
  unfold demo_loads in *. simpl. rewrite Hw. unfold load. by rewrite Hd.
Qed.

(** The thread from a message or a minute to the end of its turn. *)
Definition demo_turn (s : State) : State :=
  match worker s with
  | Waiting =>
      let c := values (counters s) in
      flush append_io_ok 60 (stop_sent s) (MkBytes (tcp_upload c) (tcp_download c) (udp_upload c) (udp_download c))
        (demo_loads 4 (wake s))
  | _ => s
  end.

Lemma demo_turn_run s : rtc step s (demo_turn s).
Proof.
  unfold demo_turn. destruct (worker s) eqn:Ew; [|done..].
  eapply rtc_l; [left; by apply step_wake|]. apply (rtc_r _ (demo_loads 4 (wake s))).
  - eapply (demo_load 3 _ _ [_; _; _] UdpDownload); [done..|].
    eapply (demo_load 2 _ _ [_; _] UdpUpload); [done..|].
    eapply (demo_load 1 _ _ [_] TcpDownload); [done..|].
    by eapply (demo_load 0 _ _ [] TcpUpload).
  - left. by eapply (step_flush _ append_io_ok 60 (stop_sent s) [_; _; _; _]).
Qed.

Lemma demo_run : rtc step demo_s0 (demo_end demo_s0).
Proof.
  transitivity (demo_stop demo_s0).
  { eapply rtc_l; [right; apply step_enable|].
    eapply rtc_l; [right; apply (step_record _ TcpUpload 10); unfold u64, U64_MAX; lia|].
    eapply rtc_l; [right; apply step_stop|]. apply rtc_once. left. by apply step_wake. }
  transitivity (demo_loads 1 (demo_stop demo_s0)).
  { by apply (demo_load 0 _ true [] TcpUpload). }
  transitivity (demo_during demo_s0).
  { apply rtc_once. right. apply (step_record _ TcpDownload 5). unfold u64, U64_MAX. lia. }
  transitivity (demo_loads 3 (demo_during demo_s0)).
  { apply (demo_load 2 _ true [10; 5; 0] UdpDownload); [by vm_compute|done|].
    apply (demo_load 1 _ true [10; 5] UdpUpload); [by vm_compute|done|].
    by apply (demo_load 0 _ true [10] TcpDownload); [vm_compute|..]. }
  apply rtc_once. left. apply (step_flush _ append_io_ok 60 true [10; 5; 0; 0]); by vm_compute.
Qed.

Lemma recorder_counts_once_witness :
  worker (demo_end demo_s0) = Over (Ok tt)
  ∧ (∃ before, at_stop (demo_end demo_s0) = Some before ∧ ∀ d, before d <= taken (demo_end demo_s0) d)
  ∧ content (files (demo_end demo_s0)).2 = journal_of [MkSample 1 60 0 (MkBytes 10 5 0 0)].
Proof.
  pose proof (recorder_counts_once open_io_ok false true 0 [] demo_s0 [] (demo_end demo_s0) demo_started) as H.
  assert (Hw : worker (demo_end demo_s0) = Over (Ok tt)) by (vm_compute; reflexivity).
  destruct (H demo_run) as (_ & _ & Hover & _). split; [exact Hw|]. split.
  - destruct (Hover _ Hw) as (before & Hb & Hle). exists before. split; [exact Hb|]. by apply Hle.
  - vm_compute. reflexivity.
Defined.
