(* ===== verification/SnellClient.v ===== *)
(** * SnellClient: connections and sessions ([src/snell/client.rs])

    Opening a connection with its identity preamble and padded first record,
    reusing an idle one, and the TCP and UDP sessions over it. Dialling, clocks
    and the random source are the environment: what they yield is an argument
    of the call. The pool of idle connections is in [SnellPool]. *)
From S2P Require Import Prelude Bytes Ip AsyncIo SnellWire SnellRecord SnellReader SnellPool Traffic.
Local Open Scope Z_scope.

Definition INITIAL_FRAME_BUDGET : nat := 1169. (* 0x491 *)

(** [SnellClientOptions] without the dialer and the semaphores; durations in
    nanoseconds. *)
Record SnellClientOptions : Type := MkOptions {
  node_name : bytes;
  psk : bytes;
  reuse : bool;
  opt_max_idle : nat;
  opt_max_uses : nat;
  opt_idle_timeout : Z;
  handshake_timeout : Z;
  close_timeout : Z
}.

Definition pool_options (o : SnellClientOptions) : PoolOptions :=
  MkPoolOptions (opt_max_idle o) (opt_max_uses o) (opt_idle_timeout o).

(** [is_zero() || > max] *)
Definition duration_invalid (d max : Z) : bool := (d =? 0) || (max <? d).
Definition count_invalid (n max : nat) : bool := (n =? 0)%nat || (max <? n)%nat.

(** [checked_sub], then a random length in [1, available]. *)
Definition initial_padding_length (random : option (byte * byte)) (payload_length : nat) :
    result nat :=
  if (INITIAL_FRAME_BUDGET <? payload_length)%nat then Ok 0%nat
  else
    let available := (INITIAL_FRAME_BUDGET - payload_length)%nat in
    if (available =? 0)%nat then Ok 0%nat
    else match random with
         | None => Err (Bail "generate Snell initial padding length")
         | Some (r1, r0) => Ok (Z.to_nat (from_be16 r1 r0 mod Z.of_nat available) + 1)%nat
         end.

Record PhysicalConnection (R W : Type) : Type := MkPhysical {
  reader : SnellReader (RecordReader R);
  writer : RecordWriter W;
  local_addr : SocketAddr;
  network_generation : Z
}.
#[global] Arguments MkPhysical {R W}.
#[global] Arguments reader {R W}.
#[global] Arguments writer {R W}.
#[global] Arguments local_addr {R W}.
#[global] Arguments network_generation {R W}.

Definition set_conn_reader {R W} r (p : PhysicalConnection R W) : PhysicalConnection R W :=
  MkPhysical r (writer p) (local_addr p) (network_generation p).
Definition set_conn_writer {R W} w (p : PhysicalConnection R W) : PhysicalConnection R W :=
  MkPhysical (reader p) w (local_addr p) (network_generation p).

Record SnellClient (C : Type) : Type := MkClient {
  options : SnellClientOptions;
  client_identity : IdentityV2Key;
  client_pool : Pool C
}.
#[global] Arguments MkClient {C}.
#[global] Arguments options {C}.
#[global] Arguments client_identity {C}.
#[global] Arguments client_pool {C}.

Section Client.
Context `{RecordCrypto} (hmac_sha256 : bytes → bytes → bytes) (sha256 : bytes → bytes).
Context {R W : Type} `{AsyncRead R} `{AsyncWrite W}.
(** [input_ready]: a poll of the buffered reader returns at once. *)
Context (input_ready : R → bool) (fill : nat → option bytes) (fuel : nat).

Abbreviation Connection := (PhysicalConnection R W).

Definition snell_client_new (o : SnellClientOptions) : result (SnellClient Connection) :=
  if bool_decide (psk o = []) then Err (Bail "Snell PSK and transport dialer are required")
  else if duration_invalid (handshake_timeout o) (120 * 10 ^ 9)
  then Err (Bail "Snell handshake timeout is invalid")
  else if duration_invalid (close_timeout o) (30 * 10 ^ 9)
  then Err (Bail "Snell reuse close timeout is invalid")
  else if reuse o && count_invalid (opt_max_idle o) 128
  then Err (Bail "Snell reuse max idle is invalid")
  else if reuse o && count_invalid (opt_max_uses o) 1024
  then Err (Bail "Snell reuse max uses is invalid")
  else if reuse o && duration_invalid (opt_idle_timeout o) (600 * 10 ^ 9)
  then Err (Bail "Snell reuse idle timeout is invalid")
  else
    identity ← identity_new hmac_sha256 sha256 (psk o);
    Ok (MkClient o identity (MkPool [] false)).

(** *** Opening *)

(** What the environment yields to one [open_command]. *)
Record DialEnv : Type := MkDialEnv {
  (** both concurrency permits, within their timeout *)
  env_permits : result unit;
  (** the transport halves, the TLS exporter and the network generation *)
  env_dial : result (R * W * bytes * Z);
  env_local_addr : result SocketAddr;
  env_nonce : option bytes;
  env_padding : option (byte * byte);
  (** the handshake timeout expires before the reply *)
  env_expired : bool
}.

Definition open_command (c : SnellClient Connection) (env : DialEnv) (request : bytes)
    (defer_reply : bool) : result Connection :=
  _ ← env_permits env;
  '(read_half, write_half, exporter, generation) ← env_dial env;
  addr ← map_err (Context "read Snell local address") (env_local_addr env);
  nonce ← ok_or (Bail "generate Snell identity nonce") (env_nonce env);
  let preamble := identity_build hmac_sha256 (client_identity c) exporter nonce in
  w ← writer_new write_half (psk (options c)) nonce;
  let w := mark_salt_sent w in
  padding_length ← initial_padding_length (env_padding env) (length request);
  let '(encoded, w) := encode_frame_append fill preamble request padding_length w in
  initial_flight ← map_err (Context "encode Snell CONNECT request") encoded;
  let '(written, w) := write_raw_all initial_flight w in
  _ ← written;
  let r := snell_reader_new (reader_new read_half (psk (options c))) in
  if defer_reply then Ok (MkPhysical r w addr generation)
  else if env_expired env then Err (Bail "Snell handshake timed out")
  else
    let '(reply, r) := ensure_reply fuel r in
    _ ← reply;
    Ok (MkPhysical r w addr generation).

Definition open_tcp (c : SnellClient Connection) (env : DialEnv) (host : bytes) (port : Z)
    (reuse : bool) : result Connection :=
  request ← build_connect_request host port reuse;
  open_command c env request true.

(** *** Reusing *)

Definition on_conn_writer {A} : M (RecordWriter W) A → M Connection A :=
  zoom writer set_conn_writer.
Definition on_conn_reader {A} : M (SnellReader (RecordReader R)) A → M Connection A :=
  zoom reader set_conn_reader.

(** [timeout(..)] around a call; the effects of a call that is cut short are
    not modelled, as its connection is retired. *)
Definition with_timeout {S A} (expired : bool) (e : error) (m : M S A) : M S A :=
  if expired then throw e else m.

Definition start_reuse (host : bytes) (port : Z) (expired : bool) : M Connection unit :=
  request ← lift (build_connect_request host port true);
  p ← get;
  if negb (ready_for_reuse (reader p)) then bail "Snell connection is not ready for reuse"
  else if input_ready (r_reader (records (reader p)))
  then bail "Snell idle connection was closed by the server"
  else
    on_conn_reader (modify (λ r, set_reply_error None (set_reply_pending false (set_server_eof false r))));;
    with_timeout expired (Bail "Snell reused CONNECT timed out")
      (on_conn_writer (write_frame fill request 0));;
    on_conn_reader (modify (set_reply_pending true)).

Definition retire : M Connection unit := try_ (on_conn_writer writer_shutdown);; mret tt.

(** *** TCP sessions *)

Record SnellSession : Type := MkSession {
  session_physical : Connection;
  session_uses : nat;
  reusable : bool;
  session_counters : option Counters
}.

Definition on_physical {A} : M Connection A → M SnellSession A :=
  zoom session_physical (λ p s, MkSession p (session_uses s) (reusable s) (session_counters s)).

Definition session_record (d : Direction) (n : nat) : M SnellSession unit :=
  modify (λ s, MkSession (session_physical s) (session_uses s) (reusable s)
                 (record d (Z.of_nat n) (session_counters s))).

Definition session_read (len : nat) : M SnellSession bytes :=
  content ← on_physical (on_conn_reader (read_application fuel len));
  session_record TcpDownload (length content);;
  mret content.

Definition session_read_chunk : M SnellSession bytes :=
  chunk ← on_physical (on_conn_reader (read_application_chunk fuel));
  session_record TcpDownload (length chunk);;
  mret chunk.

(** [write_application] *)
Definition session_write (content : bytes) : M SnellSession nat :=
  on_physical (on_conn_writer (write_payload fill content));;
  session_record TcpUpload (length content);;
  mret (length content).

Definition close_write : M SnellSession unit :=
  s ← get;
  if reusable s then on_physical (on_conn_writer (write_frame fill [] 0))
  else on_physical (on_conn_writer writer_shutdown).

(** The close handshake of [finish]. *)
Definition finish_close (close_write_sent : bool) : M Connection unit :=
  (if close_write_sent then mret tt else on_conn_writer (write_frame fill [] 0));;
  on_conn_reader (complete_reuse_close fuel).

(** Where [finish] sends the connection. *)
Inductive finished : Type := Released (p : Connection) (u : nat) | Retired (p : Connection).

Definition finish (s : SnellSession) (clean_relay close_write_sent expired : bool) : finished :=
  if negb (reusable s) || negb clean_relay then Retired (retire (session_physical s)).2
  else
    let '(close_result, p) :=
      with_timeout expired (Bail "deadline has elapsed") (finish_close close_write_sent)
        (session_physical s) in
    if is_ok close_result then Released p (session_uses s) else Retired (retire p).2.

(** *** Dialling with the pool *)

Definition set_pool (q : Pool Connection) (c : SnellClient Connection) : SnellClient Connection :=
  MkClient (options c) (client_identity c) q.

(** The loop over idle connections: the reused one, or none left. [attempts]
    bounds the number of entries tried; [expired] tells of each attempt whether
    its timeout fires. *)
Fixpoint dial_idle (attempts : nat) (host : bytes) (port now generation : Z)
    (expired : nat → bool) (c : SnellClient Connection) :
    option (Connection * nat) * SnellClient Connection :=
  match attempts with
  | O => (None, c)
  | Datatypes.S n =>
      let '(entry, _, q) :=
        take_idle network_generation (pool_options (options c)) now generation (client_pool c) in
      let c := set_pool q c in
      match entry with
      | None => (None, c)
      | Some entry =>
          let '(started, p) := start_reuse host port (expired n) (physical entry) in
          if is_ok started then (Some (p, Datatypes.S (uses entry)), c)
          else dial_idle n host port now generation expired c
      end
  end.

Definition dial_tcp (c : SnellClient Connection) (env : DialEnv) (host : bytes) (port now generation : Z)
    (expired : nat → bool) (counters : option Counters) :
    result SnellSession * SnellClient Connection :=
  if closed (client_pool c) then (Err (Bail "Snell client is closed"), c)
  else
    let '(idle, c) :=
      if reuse (options c)
      then dial_idle (Datatypes.S (length (idle (client_pool c)))) host port now generation expired c
      else (None, c) in
    match idle with
    | Some (p, u) => (Ok (MkSession p u true counters), c)
    | None =>
        (p ← open_tcp c env host port (reuse (options c));
         Ok (MkSession p 1 (reuse (options c)) counters), c)
    end.

(** [finish] with the pool it may release the connection to. *)
Definition finish_session (c : SnellClient Connection) (s : SnellSession)
    (clean_relay close_write_sent expired : bool) (now : Z) : SnellClient Connection :=
  match finish s clean_relay close_write_sent expired with
  | Released p u => set_pool (release (pool_options (options c)) p u now (client_pool c)).2 c
  | Retired _ => c
  end.

(** *** UDP sessions *)

Record SnellPacketSession : Type := MkPacketSession {
  packet_reader : SnellReader (RecordReader R);
  packet_writer : RecordWriter W;
  packet_counters : option Counters
}.

Definition on_packet_writer {A} : M (RecordWriter W) A → M SnellPacketSession A :=
  zoom packet_writer (λ w s, MkPacketSession (packet_reader s) w (packet_counters s)).
Definition on_packet_reader {A} : M (SnellReader (RecordReader R)) A → M SnellPacketSession A :=
  zoom packet_reader (λ r s, MkPacketSession r (packet_writer s) (packet_counters s)).
Definition packet_record (d : Direction) (n : nat) : M SnellPacketSession unit :=
  modify (λ s, MkPacketSession (packet_reader s) (packet_writer s)
                 (record d (Z.of_nat n) (packet_counters s))).

Definition dial_udp (c : SnellClient Connection) (env : DialEnv) (counters : option Counters) :
    result SnellPacketSession :=
  p ← open_command c env build_udp_associate_request false;
  Ok (MkPacketSession (reader p) (writer p) counters).

Definition write_to_host (payload host : bytes) (port : Z) : M SnellPacketSession nat :=
  frame ← lift (map_err DatagramError (encode_udp_request host port payload));
  on_packet_writer (write_frame fill frame 0);;
  packet_record UdpUpload (length payload);;
  mret (length payload).

(** The source, the frame, and where the payload starts in it. *)
Definition read_from : M SnellPacketSession (SocketAddr * bytes * nat) :=
  on_packet_reader (ensure_reply fuel);;
  frame ← on_packet_reader (read_packet_frame []);
  '(address, payload) ← lift (map_err DatagramError (decode_udp_response frame));
  packet_record UdpDownload (length payload);;
  mret (address, frame, (length frame - length payload)%nat).

Definition packet_close : M SnellPacketSession unit :=
  try_ (on_packet_writer writer_shutdown);; mret tt.
End Client.
#[global] Arguments MkDialEnv {R W}.
#[global] Arguments MkSession {R W}.
#[global] Arguments MkPacketSession {R W}.
#[global] Arguments Released {R W}.
#[global] Arguments Retired {R W}.
#[global] Arguments session_physical {R W}.
#[global] Arguments packet_reader {R W}.
#[global] Arguments packet_writer {R W}.

(** ** Lemmas *)

Section ClientTheory.
Context `{C : RecordCrypto} `{!RecordCryptoLaws C}.
Context (hmac_sha256 : bytes → bytes → bytes) (sha256 : bytes → bytes).
Context {R : Type} `{AsyncRead R} (input_ready : R → bool) (fill : nat → option bytes).

(** What a [write_frame] of a small payload does on an open transport. *)
Lemma write_frame_open payload (w : RecordWriter Gated) :
  seals → zlen payload <= MAX_RECORD_PAYLOAD_SIZE → gate_closed (w_writer w) = false →
  ∃ wire w1, encode_frame fill payload 0 w = (Ok wire, w1) ∧
    write_frame fill payload 0 w =
      (Ok tt, set_writer (MkGated [] (committed (w_writer w) ++ pending (w_writer w) ++ wire) false) w1).
Proof.
  intros Hs Hl Ho.
  destruct (encode_frame_append_total fill [] payload 0 w Hs Hl) as (wire & w1 & He & Hw); [done..|].
  exists wire, w1. split; [done|]. unfold write_frame. rewrite (M_bind_ok _ _ _ _ _ He).
  destruct (write_and_flush_total wire "write Snell record" w1) as [w2 Hf]; [by rewrite Hw|].
  rewrite Hf. apply write_and_flush_inv in Hf as ->. by rewrite Hw.
Qed.

Lemma initial_padding_bounds random n pl :
  initial_padding_length random n = Ok pl →
  if (n <? INITIAL_FRAME_BUDGET)%nat
  then (1 <= pl)%nat ∧ (n + pl <= INITIAL_FRAME_BUDGET)%nat
  else pl = 0%nat.
Proof.
  unfold initial_padding_length.
  destruct (INITIAL_FRAME_BUDGET <? n)%nat eqn:E1; reflect_bools.
  { intros [= <-]. by rewrite (proj2 (Nat.ltb_ge _ _)) by lia. }
  destruct (INITIAL_FRAME_BUDGET - n =? 0)%nat eqn:E2; reflect_bools.
  { intros [= <-]. by rewrite (proj2 (Nat.ltb_ge _ _)) by lia. }
  destruct random as [[r1 r0]|]; [|done]. intros [= <-].
  rewrite (proj2 (Nat.ltb_lt _ _)) by lia.
  pose proof (Z.mod_pos_bound (from_be16 r1 r0) (Z.of_nat (INITIAL_FRAME_BUDGET - n))). lia.
Qed.

Lemma identity_new_length psk0 k : (∀ key m, length (hmac_sha256 key m) = 32%nat) →
  identity_new hmac_sha256 sha256 psk0 = Ok k → length (identity k) = 16%nat.
Proof.
  intros Hm. unfold identity_new. destruct (bool_decide _); [done|]. intros [= <-]. simpl.
  unfold derive_key. by rewrite length_take, Hm.
Qed.

Lemma reader_with_salt_new {T} (t : T) psk0 salt k :
  derive_record_key psk0 salt = Ok k →
  reader_with_salt t psk0 salt = Ok (MkReader t psk0 (Some k) (replicate RECORD_NONCE_SIZE x00)).
Proof.
  intros Hk. unfold reader_with_salt. rewrite Hk. simpl.
  by rewrite (record_aead_derived _ _ _ Hk).
Qed.

Lemma length_initial_request host port b req :
  build_connect_request host port b = Ok req → req ≠ [] ∧ (length req <= 261)%nat.
Proof.
  unfold build_connect_request. destruct (bool_decide _); [done|].
  destruct (_ <? _) eqn:E; [done|]. destruct (_ =? _); [done|]. intros [= <-].
  reflect_bools. split; [done|]. simpl. rewrite length_app, length_be16. lia.
Qed.

Lemma snell_client_new_inv o (c : SnellClient (PhysicalConnection R Gated)) :
  snell_client_new hmac_sha256 sha256 o = Ok c →
  options c = o ∧ psk o ≠ [] ∧ identity_new hmac_sha256 sha256 (psk o) = Ok (client_identity c) ∧
  client_pool c = MkPool [] false ∧
  (reuse o = true → (1 <= opt_max_idle o <= 128)%nat ∧ (1 <= opt_max_uses o <= 1024)%nat).
Proof.
  unfold snell_client_new, count_invalid.
  destruct (bool_decide (psk o = [])) eqn:Ep; [done|]. repeat (destruct (duration_invalid _ _); [done|]).
  destruct (reuse o) eqn:Er; simpl.
  - destruct ((opt_max_idle o =? 0)%nat || _) eqn:E1; [done|].
    destruct ((opt_max_uses o =? 0)%nat || _) eqn:E2; [done|].
    destruct (duration_invalid _ _); [done|].
    destruct (identity_new _ _ _) eqn:Ei; [|done]. intros [= <-]. reflect_bools. simpl.
    split_and!; try done. intros _. lia.
  - destruct (identity_new _ _ _) eqn:Ei; [|done]. intros [= <-]. reflect_bools.
    by split_and!.
Qed.
End ClientTheory.

(** What a TCP dial sends, and the node's reader after the request: whatever
    follows, it is in step with the writer. *)
Lemma open_tcp_flight `{C : RecordCrypto} `{!RecordCryptoLaws C}
    hmac_sha256 sha256 {R} `{AsyncRead R} fill fuel o (c : SnellClient (PhysicalConnection R Gated))
    (rd : R) (t : Gated) exporter generation addr nonce random host port b req :
  (∀ key m, length (hmac_sha256 key m) = 32%nat) →
  seals → (∀ n, is_Some (fill n)) → fills fill →
  length nonce = 16%nat → gate_closed t = false →
  snell_client_new hmac_sha256 sha256 o = Ok c →
  is_ok (derive_record_key (psk o) nonce) = true →
  build_connect_request host port b = Ok req →
  let env := MkDialEnv (Ok tt) (Ok (rd, t, exporter, generation)) (Ok addr) (Some nonce)
               (Some random) false in
  ∃ p preamble wire,
    open_tcp hmac_sha256 fill fuel c env host port b = Ok p ∧
    reader p = snell_reader_new (reader_new rd (psk o)) ∧ (local_addr p = addr ∧ network_generation p = generation) ∧
    w_writer (writer p) = MkGated [] (committed t ++ pending t ++ preamble ++ wire) false ∧
    length preamble = 56%nat ∧ take 16 preamble = nonce ∧
    identity_accepts hmac_sha256 (client_identity c) exporter preamble = true ∧
    ∀ rest, ∃ r r', reader_with_salt (wire ++ rest) (psk o) nonce = Ok r ∧
      SnellRecord.read_frame r = (Ok req, r') ∧ r_reader r' = rest ∧ in_sync (writer p) r'.
Proof.
  intros Hmac Hseals Hfill Hfills Hn Ho Hc Hkey Hreq env.
  destruct (snell_client_new_inv _ _ _ _ Hc) as (Hopt & Hpsk & Hid & _ & _).
  destruct (length_initial_request _ _ _ _ Hreq) as [Hne Hlen].
  destruct (derive_record_key (psk o) nonce) as [key|e] eqn:Hk; [clear Hkey|done].
  unfold open_tcp. rewrite Hreq. unfold open_command.
  cbn [env env_permits env_dial env_local_addr env_nonce env_padding mbind result_bind map_err ok_or].
  rewrite Hopt. unfold writer_new. rewrite Hk. cbn [mbind result_bind].
  rewrite (record_aead_derived _ _ _ Hk). cbn [mbind result_bind].
  set (w := mark_salt_sent _).
  set (preamble := identity_build _ _ _ _).
  assert (Hpad : ∃ pl, initial_padding_length (Some random) (length req) = Ok pl).
  { unfold initial_padding_length. destruct random. repeat case_match; eauto; done. }
  destruct Hpad as [pl Hpl]. rewrite Hpl. cbn [mbind result_bind].
  apply initial_padding_bounds in Hpl.
  rewrite (proj2 (Nat.ltb_lt _ _)) in Hpl by (unfold INITIAL_FRAME_BUDGET; lia).
  destruct Hpl as [Hpl1 Hpl2]. unfold INITIAL_FRAME_BUDGET in Hpl2.
  destruct (encode_frame_append_total fill [] req pl w) as (wire & w1 & Henc & Hw1);
    [done|unfold MAX_RECORD_PAYLOAD_SIZE; lia|unfold MAX_RECORD_PAYLOAD_SIZE; lia|done|].
  rewrite encode_frame_append_prefix. unfold encode_frame. rewrite Henc. cbn [fst snd fmap result_fmap map_err mbind result_bind].
  destruct (write_and_flush_total (preamble ++ wire) "write Snell initial flight" w1) as [w2 Hw2];
    [by rewrite Hw1|].
  unfold write_raw_all. rewrite Hw2. cbn [mbind result_bind].
  apply write_and_flush_inv in Hw2 as ->. rewrite Hw1.
  eexists _, preamble, wire. split; [done|]. split; [done|]. split; [done|]. split; [done|].
  assert (Hidl : length (identity (client_identity c)) = 16%nat) by (by eapply identity_new_length).
  split_and!.
  - unfold preamble, identity_build. rewrite !length_app, length_take, Hmac, Hn, Hidl. done.
  - unfold preamble, identity_build. by rewrite take_app_len.
  - unfold identity_accepts, bytes_eqb. apply bool_decide_eq_true_2.
    replace (take 16 preamble) with nonce; [done|].
    unfold preamble, identity_build. by rewrite take_app_len.
  - intros rest. rewrite (reader_with_salt_new _ _ _ _ Hk). eexists.
    apply encode_frame_append_inv in Henc as (padding & body & Hout & Hfw & Hpl & Hw); [|done].
    simpl in Hout. subst wire.
    eexists. split; [done|]. unfold SnellRecord.read_frame.
    erewrite read_frame_known; [|done|exact Hfw|done].
    rewrite bool_decide_eq_false_2 by done. split; [done|]. split; [done|]. rewrite Hw. done.
Qed.

(** ** Properties *)

(** The bytes a TCP dial sends first are what a server with the same PSK
    expects: a 56-byte identity preamble that authenticates the TLS exporter,
    and one record, sealed under the salt the preamble carries, that holds the
    CONNECT request; nothing is left unsent and no reply is waited for. *)
Theorem initial_flight_accepted `{C : RecordCrypto} `{!RecordCryptoLaws C}
    hmac_sha256 sha256 {R} `{AsyncRead R} fill fuel o (c : SnellClient (PhysicalConnection R Gated))
    (rd : R) (t : Gated) exporter generation addr nonce random host port b req :
  (∀ key m, length (hmac_sha256 key m) = 32%nat) →
  seals → (∀ n, is_Some (fill n)) → fills fill →
  length nonce = 16%nat → gate_closed t = false →
  snell_client_new hmac_sha256 sha256 o = Ok c →
  is_ok (derive_record_key (psk o) nonce) = true →
  build_connect_request host port b = Ok req →
  let env := MkDialEnv (Ok tt) (Ok (rd, t, exporter, generation)) (Ok addr) (Some nonce)
               (Some random) false in
  ∃ p preamble wire,
    open_tcp hmac_sha256 fill fuel c env host port b = Ok p ∧
    reader p = snell_reader_new (reader_new rd (psk o)) ∧
    w_writer (writer p) = MkGated [] (committed t ++ pending t ++ preamble ++ wire) false ∧
    length preamble = 56%nat ∧ take 16 preamble = nonce ∧
    identity_accepts hmac_sha256 (client_identity c) exporter preamble = true ∧
    ∃ r r', reader_with_salt wire (psk o) nonce = Ok r ∧
      SnellRecord.read_frame r = (Ok req, r') ∧ r_reader r' = [].
Proof.
  intros Hmac Hseals Hfill Hfills Hn Ho Hc Hkey Hreq env.
  destruct (open_tcp_flight hmac_sha256 sha256 fill fuel o c rd t exporter generation addr nonce random
              host port b req Hmac Hseals Hfill Hfills Hn Ho Hc Hkey Hreq)
    as (p & preamble & wire & Hp & Hr & _ & Hw & Hl & Ht & Hid & Hrd).
  exists p, preamble, wire. split_and!; try done.
  destruct (Hrd []) as (r & r' & Hnew & Hread & Hrest & _). rewrite app_nil_r in Hnew. eauto.
Qed.

Definition demo_client_options : SnellClientOptions :=
  MkOptions (lit "node") (lit "psk") true 4 8 (60 * 10 ^ 9) (10 * 10 ^ 9) (2 * 10 ^ 9).
Definition demo_hmac (key message : bytes) : bytes := take 32 (key ++ message ++ replicate 32 x00).

Definition demo_addr : SocketAddr := MkSocketAddr (V4 x7f x00 x00 x01) 1080.
Definition demo_env : DialEnv (R := bytes) (W := Gated) :=
  MkDialEnv (Ok tt) (Ok (lit "in", MkGated [] [] false, lit "exporter", 3)) (Ok demo_addr)
    (Some demo_salt) (Some (x01, x02)) false.

Lemma initial_flight_accepted_witness :
  ∃ c req, snell_client_new demo_hmac (λ m, m) demo_client_options = Ok c ∧
  build_connect_request (lit "host") 443 true = Ok req ∧
  ∃ p preamble wire,
    open_tcp demo_hmac demo_fill 9 c demo_env (lit "host") 443 true = Ok p ∧
    reader p = snell_reader_new (reader_new (lit "in") (lit "psk")) ∧
    w_writer (writer p) = MkGated [] ([] ++ [] ++ preamble ++ wire) false ∧
    length preamble = 56%nat ∧ take 16 preamble = demo_salt ∧
    identity_accepts demo_hmac (client_identity c) (lit "exporter") preamble = true ∧
    ∃ r r', reader_with_salt wire (lit "psk") demo_salt = Ok r ∧
      SnellRecord.read_frame r = (Ok req, r') ∧ r_reader r' = [].
Proof.
  eexists _, _. split; [vm_compute; reflexivity|]. split; [vm_compute; reflexivity|].
  refine (initial_flight_accepted demo_hmac (λ m, m) demo_fill 9 demo_client_options _
            (lit "in") (MkGated [] [] false) (lit "exporter") 3 demo_addr demo_salt (x01, x02)
            (lit "host") 443 true _ _ _ _ _ _ _ _ _ _); try reflexivity.
  - intros k m. unfold demo_hmac. rewrite length_take, !length_app, length_replicate. lia.
  - intros k n p. eexists. reflexivity.
  - intros n. eexists. reflexivity.
  - intros n b [= <-]. apply length_replicate.
Defined.

(** C11: Reuse keeps sessions apart: a session in any state of its data, closed
    cleanly and started again on the same connection, hands the next session
    exactly the records that follow the previous session's zero record, the
    first of them its own CONNECT reply, while the server is sent the zero
    record that ends the old session and then the new request. *)
Theorem reused_session_isolated `{C : RecordCrypto} `{!RecordCryptoLaws C}
    {R} `{AsyncRead R} input_ready fill fuel (p : PhysicalConnection R Gated) u counters
    host port req d s' ps s'' :
  seals → gate_closed (w_writer (writer p)) = false →
  stream (reader p) d s' → (length d + 1 < fuel)%nat →
  delivers s' (ps ++ [[]]) s'' → Forall (.≠ []) ps → input_ready (r_reader s') = false →
  build_connect_request host port true = Ok req →
  ∃ p1 p2 wire w2,
    finish fill fuel (MkSession p u true counters) true false false = Released p1 u ∧
    start_reuse input_ready fill host port false p1 = (Ok tt, p2) ∧
    awaiting (reader p2) (concat ps) s'' ∧
    encode_frames fill [([], 0%nat); (req, 0%nat)] (writer p) = (Ok wire, w2) ∧
    w_writer (writer p2) =
      MkGated [] (committed (w_writer (writer p)) ++ pending (w_writer (writer p)) ++ wire) false.
Proof.
  intros Hs Ho Hst Hf Hd Hne Hin Hreq.
  destruct (write_frame_open fill [] (writer p) Hs) as (wire1 & w1 & He1 & Hw1);
    [unfold MAX_RECORD_PAYLOAD_SIZE; simpl; lia|done|].
  destruct (complete_reuse_close_stream fuel (reader p) d s' Hst Hf)
    as (r1 & Hcl & Heof & Hrec & Hbuf & Hoff).
  set (p1 := MkPhysical r1 (set_writer (MkGated [] (committed (w_writer (writer p)) ++
               pending (w_writer (writer p)) ++ wire1) false) w1) (local_addr p) (network_generation p)).
  assert (Hfin : finish fill fuel (MkSession p u true counters) true false false = Released p1 u).
  { unfold finish, finish_close, with_timeout, on_conn_writer, on_conn_reader, zoom, mbind, M_bind. simpl.
    rewrite Hw1. simpl. rewrite Hcl. done. }
  destruct (length_initial_request _ _ _ _ Hreq) as [_ Hlen].
  destruct (write_frame_open fill req (writer p1) Hs) as (wire2 & w2 & He2 & Hw2);
    [unfold MAX_RECORD_PAYLOAD_SIZE; lia|done|].
  simpl in He2. rewrite encode_frame_transport in He2.
  destruct (encode_frame fill req 0 w1) as [rr w3] eqn:Ew3. simpl in He2.
  injection He2 as -> <-.
  exists p1. eexists. exists (wire1 ++ wire2 ++ []), w3.
  split; [exact Hfin|]. split.
  { unfold start_reuse, on_conn_reader, on_conn_writer, with_timeout, zoom, lift, get, modify, mbind, M_bind.
    rewrite Hreq. unfold ready_for_reuse, buffered_remaining. simpl.
    rewrite Hbuf, Heof, Hrec, Hin. simpl. simpl in Hw2. rewrite Hw2. reflexivity. }
  split; [|split; [by unfold encode_frames, mbind, M_bind; rewrite He1; simpl; rewrite Ew3|]].
  - split_and!; simpl; rewrite ?Hbuf, ?Hoff; try done.
    exists ps. rewrite Hrec. split; [done|]. split; [done|].
    unfold unread. simpl. by rewrite Hbuf, Hoff.
  - simpl. by rewrite app_nil_r, <-!app_assoc.
Qed.

(** The server's side of two sessions over one connection. *)
Definition demo_server_frames : list (bytes * nat) :=
  [(lit "hi", 2%nat); ([], 0%nat); ([x00], 0%nat); (lit "yo", 0%nat); ([], 0%nat)].

Definition demo_server_writer (key : bytes) : RecordWriter Gated :=
  MkWriter (MkGated [] [] false) key demo_salt false (replicate 12 x00) [].

Definition demo_connection (wire : bytes) : PhysicalConnection bytes Gated :=
  MkPhysical (MkSnellReader (reader_new wire (lit "psk")) (lit "un") 0 false false None)
    (demo_server_writer demo_salt) demo_addr 3.

Lemma reused_session_isolated_witness :
  ∃ wire s'' p1 p2,
    finish demo_fill 20 (MkSession (demo_connection wire) 1 true None) true false false = Released p1 1 ∧
    start_reuse (λ _, false) demo_fill (lit "host") 443 false p1 = (Ok tt, p2) ∧
    awaiting (reader p2) ([x00] ++ lit "yo") s''.
Proof.
  destruct (encode_frames demo_fill demo_server_frames (demo_server_writer demo_salt))
    as [[wire|e] w'] eqn:E; [|vm_compute in E; discriminate].
  assert (Hf : fills demo_fill) by (intros n b [= <-]; apply length_replicate).
  assert (Hsync : in_sync (demo_server_writer demo_salt) (reader_new wire (lit "psk")))
    by (split; [reflexivity|split; [reflexivity|split; [vm_compute; reflexivity|reflexivity]]]).
  destruct (delivers_frames demo_fill demo_server_frames _ _ wire (reader_new wire (lit "psk")) []
              Hf Hsync E) as (s2 & Hd & _); [symmetry; apply app_nil_r|].
  apply (delivers_app _ [lit "hi"; []] [[x00]; lit "yo"; []]) in Hd as (s1 & Hd1 & Hd2).
  edestruct (reused_session_isolated (λ _, false) demo_fill 20 (demo_connection wire) 1 None
    (lit "host") 443) as (p1 & p2 & wire2 & w2 & Hfin & Hst & Haw & _).
  - intros k n p. eexists. reflexivity.
  - reflexivity.
  - split; [reflexivity|]. split; [reflexivity|]. split; [reflexivity|]. split; [simpl; lia|].
    exists [lit "hi"]. split; [exact Hd1|]. split; [repeat constructor; discriminate|reflexivity].
  - simpl. lia.
  - exact (Hd2 : delivers s1 ([[x00]; lit "yo"] ++ [[]]) s2).
  - repeat constructor; discriminate.
  - reflexivity.
  - vm_compute. reflexivity.
  - exists wire, s2, p1, p2. split; [exact Hfin|]. split; [exact Hst|exact Haw].
Defined.
