(* ===== verification/Socks5.v ===== *)
(** * Socks5: the SOCKS5 front end ([src/socks5.rs])

    The handshake on a client connection, the UDP relay's port allocation and
    datagram format, the two UDP loops, and the TCP relay. The route a client is
    authorised for comes from the gateway: a parameter. *)
From S2P Require Import Prelude Bytes Text Ip AsyncIo SnellWire SnellRecord SnellReader Traffic SnellClient.
Local Open Scope Z_scope.

Definition VERSION : byte := x05.
Definition METHOD_NO_AUTH : byte := x00.
Definition METHOD_USERNAME_PASSWORD : byte := x02.
Definition METHOD_UNAVAILABLE : byte := xff.
Definition COMMAND_CONNECT : byte := x01.
Definition COMMAND_UDP_ASSOCIATE : byte := x03.

(** ** The client connection *)

(** What the client will send, and what it has been sent; [tcp_broken] makes
    writes fail. *)
Record TcpStream : Type := MkTcp { tcp_in : bytes; tcp_out : bytes; tcp_broken : bool }.

Definition tcp_read (n : nat) : M TcpStream bytes :=
  zoom tcp_in (λ i s, MkTcp i (tcp_out s) (tcp_broken s)) (read_exact n).

Definition tcp_read_u8 : M TcpStream byte :=
  b ← tcp_read 1; match b with [x] => mret x | _ => throw eof end.
Definition tcp_read_u16 : M TcpStream Z :=
  b ← tcp_read 2; match b with [hi; lo] => mret (from_be16 hi lo) | _ => throw eof end.

Definition tcp_write (b : bytes) : M TcpStream unit := λ s,
  if tcp_broken s then (Err (Bail "broken pipe"), s)
  else (Ok tt, MkTcp (tcp_in s) (tcp_out s ++ b) false).

(** ** Handshake *)

Record Request : Type := MkRequest { command : byte; host : bytes; port : Z }.

Record Credentials : Type := MkCredentials { username : bytes; password : bytes }.

Section Handshake.
(** [Route], and whether it carries UDP. *)
Context {Route : Type} (route_udp : Route → bool).

(** [Dynamic] holds the manager's [authenticate]. *)
Inductive Mode : Type :=
  | Dynamic (manager : bytes → bytes → result Route)
  | Fixed (route : Route) (credentials : option Credentials).

Definition requires_auth (mode : Mode) : bool :=
  match mode with
  | Dynamic _ => true
  | Fixed _ credentials => match credentials with Some _ => true | None => false end
  end.

(** [ct_eq] on the bytes *)
Definition constant_time_equal (a b : bytes) : bool := bool_decide (a = b).

Definition authenticate (mode : Mode) (user pass : bytes) : result Route :=
  match mode with
  | Dynamic manager => manager user pass
  | Fixed route (Some expected) =>
      if negb (constant_time_equal user (username expected))
         || negb (constant_time_equal pass (password expected))
      then Err (Bail "gateway authentication failed") else Ok route
  | Fixed route None => Ok route
  end.

Definition read_credentials : M TcpStream (bytes * bytes) :=
  header ← catch_map (Fmt "read SOCKS5 authentication header") (tcp_read 2);
  match header with
  | [h0; h1] =>
      if negb (byteb h0 x01) || byteb h1 x00 then
        tcp_write [x01; x01];; bail "SOCKS5 authentication request is invalid"
      else
        user ← tcp_read (Z.to_nat (b2z h1));
        password_length ← tcp_read_u8;
        if byteb password_length x00 then
          tcp_write [x01; x01];; bail "SOCKS5 password is empty"
        else
          pass ← tcp_read (Z.to_nat (b2z password_length));
          mret (from_utf8_lossy user, from_utf8_lossy pass)
  | _ => throw eof
  end.

Definition read_host (address_type : byte) : M TcpStream bytes :=
  if byteb address_type x01 then
    o ← tcp_read 4; match o with [a; b; c; d] => mret (ip_to_string (V4 a b c d)) | _ => throw eof end
  else if byteb address_type x04 then
    o ← tcp_read 16; mret (ip_to_string (V6 o))
  else if byteb address_type x03 then
    len ← tcp_read_u8;
    if byteb len x00 then bail "SOCKS5 domain is empty"
    else domain ← tcp_read (Z.to_nat (b2z len)); mret (from_utf8_lossy domain)
  else bail "SOCKS5 address type is unsupported".

Definition read_request : M TcpStream Request :=
  header ← catch_map (Fmt "read SOCKS5 request") (tcp_read 4);
  match header with
  | [h0; h1; h2; h3] =>
      if negb (byteb h0 VERSION) || negb (byteb h2 x00) then bail "SOCKS5 request is invalid"
      else
        host ← read_host h3;
        port ← tcp_read_u16;
        if (port =? 0) && negb (byteb h1 COMMAND_UDP_ASSOCIATE)
        then bail "SOCKS5 target port is zero"
        else mret (MkRequest h1 host port)
  | _ => throw eof
  end.

Definition negotiate_and_read_request (mode : Mode) (version : byte) : M TcpStream (Route * Request) :=
  if negb (byteb version VERSION) then bail "SOCKS5 greeting is invalid"
  else
    method_count ← catch_map (Fmt "read SOCKS5 greeting") tcp_read_u8;
    if byteb method_count x00 then bail "SOCKS5 greeting is invalid"
    else
      methods ← catch_map (Fmt "read SOCKS5 methods") (tcp_read (Z.to_nat (b2z method_count)));
      let selected := if requires_auth mode then METHOD_USERNAME_PASSWORD else METHOD_NO_AUTH in
      if negb (existsb (byteb selected) methods) then
        tcp_write [VERSION; METHOD_UNAVAILABLE];;
        bail "SOCKS5 client did not offer the required authentication"
      else
        tcp_write [VERSION; selected];;
        route ←
          (if requires_auth mode then
             '(user, pass) ← read_credentials;
             match authenticate mode user pass with
             | Ok route => mret route
             | Err _ => tcp_write [x01; x01];; bail "SOCKS5 authentication failed"
             end
           else lift (authenticate mode [] []));
        (if requires_auth mode then tcp_write [x01; x00] else mret tt);;
        request ← read_request;
        mret (route, request).

(** ** Replies *)

Definition address_bytes (ip : IpAddr) : bytes :=
  (if is_ipv4 ip then [x01] else [x04]) ++ octets ip.

Definition write_reply (status : byte) (address : option SocketAddr) : M TcpStream unit :=
  let address := match address with
                 | Some a => a | None => MkSocketAddr (V4 x00 x00 x00 x00) 0 end in
  tcp_write ([VERSION; status; x00] ++ address_bytes (sa_ip address) ++ be16 (sa_port address)).

(** What [serve_socks5] goes on to after the handshake. *)
Inductive service : Type :=
  | ServeConnect (route : Route) (request : Request)
  | ServeUdpAssociate (route : Route).

Definition serve_socks5 (mode : Mode) (version : byte) (handshake_expired : bool) :
    M TcpStream service :=
  '(route, request) ← with_timeout handshake_expired (Bail "SOCKS5 handshake timed out")
                        (negotiate_and_read_request mode version);
  if byteb (command request) COMMAND_CONNECT then mret (ServeConnect route request)
  else if byteb (command request) COMMAND_UDP_ASSOCIATE then
    if negb (route_udp route) then
      write_reply x07 None;; bail "SOCKS5 UDP ASSOCIATE is disabled"
    else mret (ServeUdpAssociate route)
  else write_reply x07 None;; bail "SOCKS5 command is unsupported".

(** The protocol is told from the first byte. *)
Inductive inbound : Type := InboundSocks5 | InboundHttp.

Definition serve_connection (handshake_timeout : Z) (expired : bool) : M TcpStream (byte * inbound) :=
  if duration_invalid handshake_timeout 120000 then bail "inbound handshake timeout is invalid"
  else
    first ← with_timeout expired (Bail "inbound handshake timed out")
              (catch_map (Fmt "read inbound greeting") tcp_read_u8);
    if byteb first VERSION then mret (first, InboundSocks5)
    else if is_alpha first then mret (first, InboundHttp)
    else bail "unrecognized inbound protocol".

(** [serve_connect]: [dialled] is the result of [dial_tcp]; the session's local
    address is advertised. *)
Definition serve_connect {Session} (dialled : result Session) (session_addr : Session → SocketAddr) :
    M TcpStream Session :=
  match dialled with
  | Ok session => write_reply x00 (Some (session_addr session));; mret session
  | Err _ => write_reply x05 None;; bail "open upstream tunnel"
  end.
End Handshake.

(** ** UDP relay ports *)

Record UdpPortRange : Type := MkRange { range_start : Z; range_end : Z }.

Definition port_count (r : UdpPortRange) : Z := range_end r - range_start r + 1.

Record UdpRelay : Type := MkRelay {
  bind_address : IpAddr;
  advertise_address : IpAddr;
  port_range : option UdpPortRange;
  next_port : Z
}.

Definition udp_ephemeral (bind : IpAddr) : UdpRelay := MkRelay bind bind None 0.

Definition udp_fixed (bind advertise : IpAddr) (range : UdpPortRange) : result UdpRelay :=
  if is_unspecified bind || is_multicast bind
  then Err (Bail "SOCKS5 UDP bind address must be a specific, non-multicast IP")
  else if is_unspecified advertise || is_multicast advertise
  then Err (Bail "SOCKS5 UDP advertise address must be a specific, non-multicast IP")
  else if negb (Bool.eqb (is_ipv4 bind) (is_ipv4 advertise))
  then Err (Bail "SOCKS5 UDP bind and advertise addresses must use the same IP family")
  else Ok (MkRelay bind advertise (Some range) 0).

(** What [UdpSocket::bind] answers for a port; [Bound p] reports the port, the
    ephemeral one when 0 was asked for. *)
Inductive bind_result : Type := Bound (p : Z) | AddrInUse | BindError.

Definition set_next_port (n : Z) (r : UdpRelay) : UdpRelay :=
  MkRelay (bind_address r) (advertise_address r) (port_range r) n.

(** The loop over the range, from [offset] on. *)
Fixpoint bind_loop (os_bind : Z → bind_result) (range : UdpPortRange) (first : Z)
    (count : nat) (offset : Z) : M UdpRelay SocketAddr :=
  match count with
  | O => bail "all configured SOCKS5 UDP relay ports are in use"
  | S count' =>
      let index := (first + offset) mod port_count range in
      let port := (range_start range + index) mod 65536 in
      match os_bind port with
      | Bound _ =>
          modify (set_next_port (index + 1));;
          r ← get; mret (MkSocketAddr (advertise_address r) port)
      | AddrInUse => bind_loop os_bind range first count' (offset + 1)
      | BindError => bail "listen for SOCKS5 UDP relay"
      end
  end.

Definition USIZE : Z := 2 ^ 64.

Definition udp_bind (os_bind : Z → bind_result) : M UdpRelay SocketAddr :=
  r ← get;
  match port_range r with
  | None =>
      match os_bind 0 with
      | Bound p => mret (MkSocketAddr (advertise_address r) p)
      | _ => bail "listen for SOCKS5 UDP relay"
      end
  | Some range =>
      let count := port_count range in
      let first := next_port r mod count in
      modify (set_next_port ((next_port r + 1) mod USIZE));;
      bind_loop os_bind range first (Z.to_nat count) 0
  end.

(** ** UDP datagrams *)

Definition decode_datagram (packet : bytes) : result (bytes * Z * bytes) :=
  match packet with
  | r1 :: r2 :: frag :: atyp :: rest =>
      if negb (byteb r1 x00) || negb (byteb r2 x00) then Err (Bail "SOCKS5 UDP header is invalid")
      else if negb (byteb frag x00)
      then Err (Bail "fragmented SOCKS5 UDP datagrams are unsupported")
      else
        '(host, rest) ←
          (if byteb atyp x01 then
             if (length rest <? 4 + 2)%nat then Err (Bail "SOCKS5 UDP datagram is truncated")
             else match rest with
                  | a :: b :: c :: d :: rest => Ok (ip_to_string (V4 a b c d), rest)
                  | _ => Err (Bail "SOCKS5 UDP datagram is truncated")
                  end
           else if byteb atyp x04 then
             if (length rest <? 16 + 2)%nat then Err (Bail "SOCKS5 UDP datagram is truncated")
             else Ok (ip_to_string (V6 (take 16 rest)), drop 16 rest)
           else if byteb atyp x03 then
             match rest with
             | [] => Err (Bail "SOCKS5 UDP datagram is truncated")
             | len :: rest =>
                 let len := Z.to_nat (b2z len) in
                 if (len =? 0)%nat || (length rest <? len + 2)%nat
                 then Err (Bail "SOCKS5 UDP datagram is truncated")
                 else Ok (from_utf8_lossy (take len rest), drop len rest)
             end
           else Err (Bail "SOCKS5 address type is unsupported"));
        match rest with
        | hi :: lo :: payload =>
            let port := from_be16 hi lo in
            if port =? 0 then Err (Bail "SOCKS5 target port is zero") else Ok (host, port, payload)
        | _ => Err (Bail "SOCKS5 UDP datagram is truncated")
        end
  | _ => Err (Bail "SOCKS5 UDP header is invalid")
  end.

Definition encode_datagram (address : SocketAddr) (payload : bytes) : bytes :=
  [x00; x00; x00] ++ address_bytes (sa_ip address) ++ be16 (sa_port address) ++ payload.

(** ** The UDP association *)

Definition is_datagram_error (e : error) : bool :=
  match e with DatagramError _ => true | _ => false end.

(** [Activity]: milliseconds since the session started, at the last [touch]. *)
Record Activity : Type := MkActivity { last_millis : Z }.
Definition touch (elapsed : Z) (a : Activity) : Activity := MkActivity (Z.min elapsed U64_MAX).

(** One round of [Activity::idle] at [now]: done, or the deadline to sleep
    until; instants in nanoseconds since the session started. *)
Definition idle_round (idle_timeout now : Z) (a : Activity) : option Z :=
  let deadline := last_millis a * 10 ^ 6 + idle_timeout in
  if deadline <=? now then None else Some deadline.

Section Association.
Context `{RecordCrypto} {R W : Type} `{AsyncRead R} `{AsyncWrite W}.
Context (fill : nat → option bytes) (fuel : nat).

(** [local_sent] is what the local socket has sent, [control_ip] the address of
    the client's TCP connection. *)
Record Association : Type := MkAssociation {
  upstream : SnellPacketSession (R := R) (W := W);
  client_address : option SocketAddr;
  local_sent : list (SocketAddr * bytes);
  activity : Activity
}.

Definition on_upstream {A} : M (SnellPacketSession (R := R) (W := W)) A → M Association A :=
  zoom upstream (λ u s, MkAssociation u (client_address s) (local_sent s) (activity s)).
Definition set_client (a : SocketAddr) (s : Association) : Association :=
  MkAssociation (upstream s) (Some a) (local_sent s) (activity s).
Definition touch_activity (now : Z) (s : Association) : Association :=
  MkAssociation (upstream s) (client_address s) (local_sent s) (touch now (activity s)).
Definition add_sent (d : SocketAddr * bytes) (s : Association) : Association :=
  MkAssociation (upstream s) (client_address s) (local_sent s ++ [d]) (activity s).

(** One datagram from the local socket. *)
Definition udp_client_step (control_ip : option IpAddr) (now : Z) (source : SocketAddr)
    (packet : bytes) : M Association unit :=
  if match control_ip with Some ip => negb (bool_decide (sa_ip source = ip)) | None => false end
  then mret tt
  else
    s ← get;
    let first := match client_address s with Some a => a | None => source end in
    modify (set_client first);;
    if negb (bool_decide (first = source)) then mret tt
    else match decode_datagram packet with
         | Err _ => mret tt
         | Ok (host, port, payload) =>
             written ← try_ (on_upstream (write_to_host fill payload host port));
             match written with
             | Ok _ => modify (touch_activity now)
             | Err error => if is_datagram_error error then mret tt else throw error
             end
         end.

(** One datagram from upstream; [delivered] is the outcome of [send_to]. *)
Definition udp_upstream_step (now : Z) (delivered : bool) : M Association unit :=
  datagram ← try_ (on_upstream (read_from fuel));
  match datagram with
  | Err error => if is_datagram_error error then mret tt else throw error
  | Ok (source, frame, payload_offset) =>
      s ← get;
      match client_address s with
      | None => mret tt
      | Some destination =>
          if delivered then
            modify (add_sent (destination, encode_datagram source (drop payload_offset frame)));;
            modify (touch_activity now)
          else mret tt
      end
  end.

(** The two loops as they interleave; either stops the association with its
    first error. *)
Inductive udp_event : Type :=
  | FromClient (now : Z) (source : SocketAddr) (packet : bytes)
  | FromUpstream (now : Z) (delivered : bool).

Definition udp_step (control_ip : option IpAddr) (e : udp_event) : M Association unit :=
  match e with
  | FromClient now source packet => udp_client_step control_ip now source packet
  | FromUpstream now delivered => udp_upstream_step now delivered
  end.

Fixpoint udp_run (control_ip : option IpAddr) (es : list udp_event) : M Association unit :=
  match es with
  | [] => mret tt
  | e :: es' => udp_step control_ip e;; udp_run control_ip es'
  end.
End Association.

(** ** The TCP relay *)

Inductive UploadEnd : Type := ClientEof | Stopped.

(** What the upload waits for: bytes from the client (none at the end of its
    stream), a read error, or the stop request. *)
Inductive upload_event : Type :=
  | ClientRead (content : bytes)
  | ClientError (e : error)
  | StopRequested.

Section Relay.
Context `{RecordCrypto} {R W : Type} `{AsyncRead R} `{AsyncWrite W}.
Context (fill : nat → option bytes) (fuel : nat).

Abbreviation Session := (SnellSession (R := R) (W := W)).

Fixpoint upload (events : list upload_event) : M Session UploadEnd :=
  match events with
  | [] => throw OutOfFuel
  | ClientRead content :: events' =>
      if bool_decide (content = []) then close_write fill;; mret ClientEof
      else session_write fill content;; upload events'
  | ClientError e :: _ => throw e
  | StopRequested :: _ => mret Stopped
  end.

(** [count] bounds the number of chunks; the client is any writer. *)
Fixpoint download {K} `{AsyncWrite K} (count : nat) : M (Session * K) unit :=
  match count with
  | O => throw OutOfFuel
  | S count' =>
      chunk ← zoom fst (λ t s, (t, s.2)) (session_read_chunk fuel);
      if bool_decide (chunk = []) then zoom snd (λ k s, (s.1, k)) shutdown
      else zoom snd (λ k s, (s.1, k)) (write_all chunk);; download count'
  end.

(** Which direction ends first, and how both end; [None] is the stop timeout. *)
Inductive relay_race : Type :=
  | UploadFirst (u : result UploadEnd) (d : result unit)
  | DownloadFirst (d : result unit) (u : option (result UploadEnd)).

(** [(clean, close_write_sent)] *)
Definition drive_relay (race : relay_race) : bool * bool :=
  match race with
  | UploadFirst (Ok ClientEof) d => (is_ok d, true)
  | UploadFirst _ _ => (false, false)
  | DownloadFirst (Err _) _ => (false, false)
  | DownloadFirst (Ok _) (Some (Ok ClientEof)) => (true, true)
  | DownloadFirst (Ok _) (Some (Ok Stopped)) => (true, false)
  | DownloadFirst (Ok _) _ => (false, false)
  end.
End Relay.

(** ** Lemmas on the handshake *)

Lemma tcp_read_app n l r out br :
  n = length l → tcp_read n (MkTcp (l ++ r) out br) = (Ok l, MkTcp r out br).
Proof. intros Hn. unfold tcp_read, zoom. simpl. by rewrite read_exact_app. Qed.

Lemma tcp_read_inv n s l s' :
  tcp_read n s = (Ok l, s') →
  tcp_in s = l ++ tcp_in s' ∧ length l = n ∧ tcp_out s' = tcp_out s ∧ tcp_broken s' = tcp_broken s.
Proof.
  unfold tcp_read. intros (t & Hr & ->)%zoom_inv. by apply read_exact_inv in Hr as [-> <-].
Qed.

Lemma tcp_write_inv b s u s' :
  tcp_write b s = (Ok u, s') → tcp_broken s = false ∧ s' = MkTcp (tcp_in s) (tcp_out s ++ b) false.
Proof. unfold tcp_write. by destruct (tcp_broken s); intros [= _ <-]. Qed.

(** The socket address forms of the protocol and the host text they stand for. *)
Inductive socks_address : Type :=
  | SocksV4 (a b c d : byte)
  | SocksV6 (octets : bytes)
  | SocksName (name : bytes).

Definition socks_address_wf (a : socks_address) : Prop :=
  match a with
  | SocksV4 _ _ _ _ => True
  | SocksV6 o => length o = 16%nat
  | SocksName n => n ≠ [] ∧ zlen n <= 255
  end.
Definition socks_address_bytes (a : socks_address) : bytes :=
  match a with
  | SocksV4 a b c d => [x01; a; b; c; d]
  | SocksV6 o => x04 :: o
  | SocksName n => x03 :: z2b (zlen n) :: n
  end.
Definition socks_host (a : socks_address) : bytes :=
  match a with
  | SocksV4 a b c d => ip_to_string (V4 a b c d)
  | SocksV6 o => ip_to_string (V6 o)
  | SocksName n => from_utf8_lossy n
  end.

Lemma zlen_back (l : bytes) : zlen l <= 255 → Z.to_nat (b2z (z2b (zlen l))) = length l.
Proof. intros. rewrite b2z_z2b_small by lia. lia. Qed.

Lemma length_byte_back (b : byte) (l : bytes) : length l = Z.to_nat (b2z b) → z2b (zlen l) = b ∧ zlen l <= 255.
Proof.
  intros Hl. pose proof (b2z_range b).
  assert (zlen l = b2z b) as Hz by lia. rewrite Hz. split; [apply z2b_b2z|lia].
Qed.

Lemma byteb_len (b : byte) (l : bytes) :
  length l = Z.to_nat (b2z b) → byteb b x00 = false ↔ l ≠ [].
Proof.
  intros Hl. pose proof (b2z_range b). rewrite <-not_true_iff_false, byteb_eq. split.
  - intros Hb ->. apply Hb. apply (inj b2z). simpl in Hl. change (b2z x00) with 0. lia.
  - intros Hne ->. simpl in Hl. apply length_zero_iff_nil in Hl. done.
Qed.

Lemma decode_datagram_encoded a p payload :
  socks_address_wf a → u16 p → p ≠ 0 →
  decode_datagram ([x00; x00; x00] ++ socks_address_bytes a ++ be16 p ++ payload) =
    Ok (socks_host a, p, payload).
Proof.
  intros Ha Hp Hp0. unfold decode_datagram.
  assert (Hport : from_be16 (z2b (p / 256)) (z2b p) = p) by by apply from_be16_be16.
  assert (Hz : (p =? 0) = false) by by apply Z.eqb_neq.
  destruct a as [a b c d|o|n]; simpl in *.
  - by rewrite Hport, Hz.
  - rewrite (proj2 (Nat.ltb_ge _ _)) by (rewrite length_app; simpl; lia).
    rewrite take_app_len, drop_app_len by done. simpl. by rewrite Hport, Hz.
  - destruct Ha as [Hn Hl]. rewrite zlen_back by done.
    assert ((length n =? 0)%nat = false) as -> by (apply Nat.eqb_neq; by destruct n).
    rewrite (proj2 (Nat.ltb_ge _ _)) by (rewrite length_app; simpl; lia).
    rewrite take_app_len, drop_app_len by done. simpl. by rewrite Hport, Hz.
Qed.

Lemma decode_datagram_sound packet h p payload :
  decode_datagram packet = Ok (h, p, payload) →
  ∃ a, socks_address_wf a ∧ h = socks_host a ∧ u16 p ∧ p ≠ 0 ∧
    packet = [x00; x00; x00] ++ socks_address_bytes a ++ be16 p ++ payload.
Proof.
  unfold decode_datagram.
  destruct packet as [|r1 [|r2 [|frag [|atyp rest]]]]; try done.
  destruct (negb (byteb r1 x00) || negb (byteb r2 x00)) eqn:E1; [done|].
  destruct (negb (byteb frag x00)) eqn:E2; [done|]. reflect_bools.
  repeat match goal with H : byteb _ _ = true |- _ => apply byteb_eq in H; subst end.
  intros [[h' rest'] [Hhost Hport]]%result_bind_inv.
  assert (Hp : h' = h ∧ u16 p ∧ p ≠ 0 ∧ rest' = be16 p ++ payload).
  { destruct rest' as [|hi [|lo rest']]; try done.
    destruct (from_be16 hi lo =? 0) eqn:E; [done|]. reflect_bools. simplify_eq.
    split_and!; [done|apply from_be16_range|done|]. by rewrite be16_from_be16. }
  destruct Hp as (-> & Hu & Hp0 & ->).
  cut (∃ a, socks_address_wf a ∧ h = socks_host a ∧
            atyp :: rest = socks_address_bytes a ++ be16 p ++ payload).
  { intros (a & ? & ? & Heq). exists a. split_and!; try done. by rewrite Heq. }
  destruct (byteb atyp x01) eqn:B1; [|destruct (byteb atyp x04) eqn:B4; [|destruct (byteb atyp x03) eqn:B3; [|done]]];
    rewrite ?byteb_eq in *; subst.
  - destruct (_ <? _)%nat; [done|]. destruct rest as [|a [|b [|c [|d rest]]]]; simplify_eq.
    by exists (SocksV4 a b c d).
  - destruct (_ <? _)%nat eqn:El; [done|]. reflect_bools. injection Hhost as <- Hr.
    exists (SocksV6 (take 16 rest)). split_and!; [simpl; rewrite length_take; lia|done|].
    simpl. by rewrite <-Hr, take_drop.
  - destruct rest as [|len rest]; [done|].
    destruct (_ || _) eqn:El; [done|]. reflect_bools. injection Hhost as <- Hr.
    exists (SocksName (take (Z.to_nat (b2z len)) rest)).
    assert (Hl : length (take (Z.to_nat (b2z len)) rest) = Z.to_nat (b2z len)) by (rewrite length_take; lia).
    destruct (length_byte_back _ _ Hl) as [Hb Hle]. split_and!; [split; [|done]|done|].
    + intros Hnil. rewrite Hnil in Hl. simpl in Hl. lia.
    + cbn [socks_address_bytes]. rewrite Hb. simpl. by rewrite <-Hr, take_drop.
Qed.

(** *** Reading the request *)

(** [s'] is [s] after [l] is read. *)
Definition advanced (s s' : TcpStream) (l : bytes) : Prop :=
  tcp_in s = l ++ tcp_in s' ∧ tcp_out s' = tcp_out s ∧ tcp_broken s' = tcp_broken s.

Lemma advanced_app s s' l k : advanced s s' (l ++ k) ↔ ∃ t, advanced s t l ∧ advanced t s' k.
Proof.
  unfold advanced. split.
  - intros (H & ? & ?). exists (MkTcp (k ++ tcp_in s') (tcp_out s) (tcp_broken s)). simpl.
    by rewrite app_assoc.
  - intros (t & (-> & -> & ->) & (-> & -> & ->)). by rewrite app_assoc.
Qed.

Lemma tcp_read_iff n s l s' : tcp_read n s = (Ok l, s') ↔ advanced s s' l ∧ length l = n.
Proof.
  split.
  - intros (? & ? & ? & ?)%tcp_read_inv. by split_and!.
  - intros [(Hi & Ho & Hb) Hl]. destruct s as [i o b], s' as [i' o' b']; simpl in *. subst.
    by apply tcp_read_app.
Qed.

Lemma tcp_read_u8_iff s b s' : tcp_read_u8 s = (Ok b, s') ↔ advanced s s' [b].
Proof.
  unfold tcp_read_u8. rewrite M_bind_iff. split.
  - intros (l & t & [Hr Hl]%tcp_read_iff & Hf). destruct l as [|x [|]]; simplify_eq/=. by M_inv.
  - intros Ha. exists [b], s'. by rewrite tcp_read_iff.
Qed.

Lemma tcp_read_u16_iff s p s' : tcp_read_u16 s = (Ok p, s') ↔ advanced s s' (be16 p) ∧ u16 p.
Proof.
  unfold tcp_read_u16. rewrite M_bind_iff. split.
  - intros (l & t & [Hr Hl]%tcp_read_iff & Hf). destruct l as [|hi [|lo [|]]]; simplify_eq/=. M_inv.
    rewrite be16_from_be16. split; [done|apply from_be16_range].
  - intros [Ha Hp]. exists (be16 p), s'. rewrite tcp_read_iff. split; [done|].
    unfold be16. by rewrite from_be16_be16.
Qed.

(** A length byte and that many bytes, as [read_u8] and [read_exact] read them. *)
Definition counted (l : bytes) : bytes := z2b (zlen l) :: l.

Lemma counted_read s s' (n : byte) (l : bytes) :
  (∃ t, advanced s t [n] ∧ advanced t s' l ∧ length l = Z.to_nat (b2z n)) ↔
  n = z2b (zlen l) ∧ zlen l <= 255 ∧ advanced s s' (counted l).
Proof.
  unfold counted. change (z2b (zlen l) :: l) with ([z2b (zlen l)] ++ l). rewrite advanced_app. split.
  - intros (t & H1 & H2 & Hl). destruct (length_byte_back _ _ Hl) as [<- ?]. eauto.
  - intros (-> & Hl & t & H1 & H2). exists t. by rewrite zlen_back.
Qed.

Lemma counted_zero (l : bytes) : zlen l <= 255 → byteb (z2b (zlen l)) x00 = false ↔ l ≠ [].
Proof. intros Hl. apply byteb_len. by rewrite zlen_back. Qed.

Lemma read_host_iff atyp s h s' :
  read_host atyp s = (Ok h, s') ↔
  ∃ a tail, socks_address_wf a ∧ h = socks_host a ∧ socks_address_bytes a = atyp :: tail ∧
            advanced s s' tail.
Proof.
  unfold read_host.
  destruct (byteb atyp x01) eqn:B1; [|destruct (byteb atyp x04) eqn:B4; [|destruct (byteb atyp x03) eqn:B3]];
    rewrite ?byteb_eq, ?M_bind_iff in *; subst.
  - split.
    + intros (l & t & [Hr Hl]%tcp_read_iff & Hf).
      destruct l as [|a [|b [|c [|d [|]]]]]; simplify_eq/=. M_inv. by exists (SocksV4 a b c d), [a; b; c; d].
    + intros ([a b c d|o|n] & tail & Ha & -> & Hb & Hadv); simplify_eq/=.
      exists [a; b; c; d], s'. by rewrite tcp_read_iff.
  - split.
    + intros (l & t & [Hr Hl]%tcp_read_iff & Hf). M_inv. by exists (SocksV6 l), l.
    + intros ([a b c d|o|n] & tail & Ha & -> & Hb & Hadv); simplify_eq/=.
      exists tail, s'. by rewrite tcp_read_iff.
  - split.
    + intros (len & t & H1%tcp_read_u8_iff & Hf). destruct (byteb len x00) eqn:Hz; [done|].
      apply M_bind_iff in Hf as (l & t' & [Hr Hl]%tcp_read_iff & Hf). M_inv.
      assert (Hc : len = z2b (zlen l) ∧ zlen l <= 255 ∧ advanced s t' (counted l))
        by (apply counted_read; eauto).
      destruct Hc as (-> & Hle & Hadv). rewrite counted_zero in Hz by done.
      by exists (SocksName l), (counted l).
    + intros ([a b c d|o|n] & tail & Ha & -> & Hb & Hadv); simplify_eq/=.
      destruct Ha as [Hne Hle].
      assert (Hc : ∃ t, advanced s t [z2b (zlen n)] ∧ advanced t s' n ∧ length n = Z.to_nat (b2z (z2b (zlen n))))
        by (by apply counted_read).
      destruct Hc as (t & H1 & H2 & Hl). exists (z2b (zlen n)), t.
      rewrite tcp_read_u8_iff. split; [done|]. rewrite (proj2 (counted_zero n Hle)) by done.
      apply M_bind_iff. exists n, s'. by rewrite tcp_read_iff.
  - split; [done|]. intros ([a b c d|o|n] & tail & Ha & -> & Hb & Hadv); simplify_eq/=.
Qed.

Lemma read_request_iff s r s' :
  read_request s = (Ok r, s') ↔
  ∃ a, socks_address_wf a ∧ u16 (port r) ∧
       (port r ≠ 0 ∨ command r = COMMAND_UDP_ASSOCIATE) ∧ host r = socks_host a ∧
       advanced s s' ([VERSION; command r; x00] ++ socks_address_bytes a ++ be16 (port r)).
Proof.
  unfold read_request. rewrite M_bind_iff. split.
  - intros (l & t & [Hr Hl]%catch_map_iff%tcp_read_iff & Hf).
    destruct l as [|h0 [|h1 [|h2 [|h3 [|]]]]]; simplify_eq/=.
    destruct (negb (byteb h0 VERSION) || negb (byteb h2 x00)) eqn:E1; [done|]. reflect_bools.
    rewrite byteb_eq in *. subst.
    apply M_bind_iff in Hf as (h & t1 & (a & tail & Ha & -> & Hb & Hadv)%read_host_iff & Hf).
    apply M_bind_iff in Hf as (p & t2 & [Hp Hu]%tcp_read_u16_iff & Hf).
    destruct ((p =? 0) && negb (byteb h1 COMMAND_UDP_ASSOCIATE)) eqn:E2; [done|]. M_inv. simpl.
    exists a. split_and!; [done|done| |done|].
    + apply andb_false_iff in E2 as [E2|E2]; reflect_bools; [by left|right; by apply byteb_eq].
    + rewrite Hb. apply (advanced_app s t2 [VERSION; h1; x00; h3] (tail ++ be16 p)).
      exists t. split; [done|]. apply advanced_app. eauto.
  - intros (a & Ha & Hu & Hp & Hh & Hadv).
    destruct (socks_address_bytes a) as [|h3 tail] eqn:Hb; [by destruct a|].
    change ([VERSION; command r; x00] ++ (h3 :: tail) ++ be16 (port r))
      with ([VERSION; command r; x00; h3] ++ tail ++ be16 (port r)) in Hadv.
    apply advanced_app in Hadv as (t & H1 & Hadv). apply advanced_app in Hadv as (t1 & H2 & H3).
    exists [VERSION; command r; x00; h3], t. rewrite catch_map_iff, tcp_read_iff. split; [done|].
    rewrite !byteb_refl. cbn [negb orb]. apply M_bind_iff. exists (socks_host a), t1.
    split; [apply read_host_iff; eauto 10|]. apply M_bind_iff. exists (port r), s'.
    split; [by apply tcp_read_u16_iff|].
    replace ((port r =? 0) && negb (byteb (command r) COMMAND_UDP_ASSOCIATE)) with false.
    { rewrite <-Hh. by destruct r. }
    symmetry. apply andb_false_iff. destruct Hp as [?|Hc]; [left; by apply Z.eqb_neq|right].
    by rewrite Hc, byteb_refl.
Qed.

Definition credentials_bytes (u p : bytes) : bytes := [x01] ++ counted u ++ counted p.
Definition credential_wf (u : bytes) : Prop := u ≠ [] ∧ zlen u <= 255.

Lemma read_credentials_iff s user pass s' :
  read_credentials s = (Ok (user, pass), s') ↔
  ∃ u p, credential_wf u ∧ credential_wf p ∧ user = from_utf8_lossy u ∧ pass = from_utf8_lossy p ∧
         advanced s s' (credentials_bytes u p).
Proof.
  unfold read_credentials, credentials_bytes. rewrite M_bind_iff. split.
  - intros (l & t & [Hr Hl]%catch_map_iff%tcp_read_iff & Hf).
    destruct l as [|h0 [|h1 [|]]]; simplify_eq/=.
    destruct (negb (byteb h0 x01) || byteb h1 x00) eqn:E1; [by M_inv|]. reflect_bools.
    rewrite byteb_eq in *. subst.
    apply M_bind_iff in Hf as (u & t1 & [Hu Hul]%tcp_read_iff & Hf).
    apply M_bind_iff in Hf as (n & t2 & Hn%tcp_read_u8_iff & Hf).
    destruct (byteb n x00) eqn:E2; [by M_inv|].
    apply M_bind_iff in Hf as (p & t3 & [Hp Hpl]%tcp_read_iff & Hf). M_inv.
    apply (advanced_app s t [x01] [h1]) in Hr as (t0 & Hv0 & Hv1).
    assert (Hcu : h1 = z2b (zlen u) ∧ zlen u <= 255 ∧ advanced t0 t1 (counted u))
      by (apply counted_read; eauto).
    assert (Hcp : n = z2b (zlen p) ∧ zlen p <= 255 ∧ advanced t1 t3 (counted p))
      by (apply counted_read; eauto).
    destruct Hcu as (-> & Hule & Hcu), Hcp as (-> & Hple & Hcp).
    rewrite counted_zero in * by done. exists u, p. split_and!; try done.
    apply (advanced_app s t3 [x01] (counted u ++ counted p)). exists t0. split; [done|].
    apply advanced_app. eauto.
  - intros (u & p & [Hu Hul] & [Hp Hpl] & -> & -> & Hadv).
    apply advanced_app in Hadv as (t0 & Hv0 & Hadv). apply advanced_app in Hadv as (t1 & Hv1 & Hv2).
    assert (Hcu : ∃ t, advanced t0 t [z2b (zlen u)] ∧ advanced t t1 u ∧
                       length u = Z.to_nat (b2z (z2b (zlen u)))) by (by apply counted_read).
    assert (Hcp : ∃ t, advanced t1 t [z2b (zlen p)] ∧ advanced t s' p ∧
                       length p = Z.to_nat (b2z (z2b (zlen p)))) by (by apply counted_read).
    destruct Hcu as (tu & Hu1 & Hu2 & Hu3), Hcp as (tp & Hp1 & Hp2 & Hp3).
    exists [x01; z2b (zlen u)], tu. rewrite catch_map_iff, tcp_read_iff. split.
    { split; [|done]. apply (advanced_app s tu [x01] [z2b (zlen u)]). eauto. }
    rewrite byteb_refl, (proj2 (counted_zero u Hul)) by done. cbn [negb orb].
    apply M_bind_iff. exists u, t1. rewrite tcp_read_iff. split; [done|].
    apply M_bind_iff. exists (z2b (zlen p)), tp. rewrite tcp_read_u8_iff. split; [done|].
    rewrite (proj2 (counted_zero p Hpl)) by done.
    apply M_bind_iff. exists p, s'. by rewrite tcp_read_iff.
Qed.

Lemma tcp_write_iff b s u s' :
  tcp_write b s = (Ok u, s') ↔
  tcp_broken s = false ∧ s' = MkTcp (tcp_in s) (tcp_out s ++ b) false.
Proof.
  split; [apply tcp_write_inv|]. intros [Hb ->]. unfold tcp_write. rewrite Hb. by destruct u.
Qed.

(** What a client sends in one handshake. *)
Record script : Type := MkScript {
  sc_methods : bytes;
  sc_credentials : option (bytes * bytes);
  sc_command : byte;
  sc_address : socks_address;
  sc_port : Z
}.

Definition script_wf (c : script) : Prop :=
  credential_wf (sc_methods c) ∧
  match sc_credentials c with Some (u, p) => credential_wf u ∧ credential_wf p | None => True end ∧
  socks_address_wf (sc_address c) ∧ u16 (sc_port c) ∧
  (sc_port c ≠ 0 ∨ sc_command c = COMMAND_UDP_ASSOCIATE).

Definition script_bytes (c : script) : bytes :=
  counted (sc_methods c)
  ++ match sc_credentials c with Some (u, p) => credentials_bytes u p | None => [] end
  ++ [VERSION; sc_command c; x00] ++ socks_address_bytes (sc_address c) ++ be16 (sc_port c).

Definition script_request (c : script) : Request :=
  MkRequest (sc_command c) (socks_host (sc_address c)) (sc_port c).

(** The credentials as the server compares them. *)
Definition script_user (c : script) : bytes * bytes :=
  match sc_credentials c with
  | Some (u, p) => (from_utf8_lossy u, from_utf8_lossy p)
  | None => ([], [])
  end.

Definition selected_method {Route} (mode : Mode (Route := Route)) : byte :=
  if requires_auth mode then METHOD_USERNAME_PASSWORD else METHOD_NO_AUTH.

(** The server's side of a successful handshake. *)
Definition handshake_out {Route} (mode : Mode (Route := Route)) : bytes :=
  [VERSION; selected_method mode] ++ if requires_auth mode then [x01; x00] else [].

Lemma existsb_byteb b l : existsb (byteb b) l = true ↔ b ∈ l.
Proof.
  rewrite existsb_exists. setoid_rewrite byteb_eq. split.
  - intros (x & Hx & <-). by apply list_elem_of_In.
  - intros Hin. exists b. by rewrite <-list_elem_of_In.
Qed.

Lemma advanced_out s t l b :
  advanced s t l → tcp_broken s = false →
  advanced (MkTcp (tcp_in s) (tcp_out s ++ b) false) (MkTcp (tcp_in t) (tcp_out t ++ b) false) l.
Proof. intros (Hi & Ho & _) _. unfold advanced; simpl. by rewrite Ho. Qed.

Lemma advanced_broken s t l : advanced s t l → tcp_broken t = tcp_broken s.
Proof. by intros (_ & _ & ?). Qed.

Section Negotiation.
Context {Route : Type}.
Implicit Types mode : Mode (Route := Route).

Lemma negotiate_sound mode s route req s' :
  negotiate_and_read_request mode VERSION s = (Ok (route, req), s') →
  tcp_broken s = false ∧
  ∃ c, script_wf c ∧ (is_Some (sc_credentials c) ↔ requires_auth mode = true) ∧
    selected_method mode ∈ sc_methods c ∧
    authenticate mode (script_user c).1 (script_user c).2 = Ok route ∧
    req = script_request c ∧ tcp_in s = script_bytes c ++ tcp_in s' ∧
    s' = MkTcp (tcp_in s') (tcp_out s ++ handshake_out mode) false.
Proof.
  unfold negotiate_and_read_request. rewrite byteb_refl. cbn [negb]. fold (selected_method mode).
  intros (n & t1 & Hn%catch_map_iff%tcp_read_u8_iff & H)%M_bind_iff.
  destruct (byteb n x00) eqn:En; [done|].
  apply M_bind_iff in H as (methods & t2 & [Hm Hml]%catch_map_iff%tcp_read_iff & H).
  assert (Hcm : n = z2b (zlen methods) ∧ zlen methods <= 255 ∧ advanced s t2 (counted methods))
    by (apply counted_read; eauto).
  destruct Hcm as (-> & Hle & Hadv). rewrite counted_zero in En by done.
  destruct (existsb (byteb (selected_method mode)) methods) eqn:Ex; cbn [negb] in H; [|by M_inv].
  apply existsb_byteb in Ex.
  apply M_bind_iff in H as (u0 & t3 & [Hbr ->]%tcp_write_iff & H).
  pose proof (advanced_broken _ _ _ Hadv) as Hbr2. split; [congruence|].
  apply M_bind_iff in H as (route' & t4 & Hroute & H).
  apply M_bind_iff in H as (u1 & t5 & Hgo & H).
  apply M_bind_iff in H as (req' & t6 & (a & Ha & Hu & Hp & Hh & Hreq)%read_request_iff & H).
  apply M_ret_inv in H as [[= -> ->] ->].
  destruct req' as [cmd h p]; cbn [command host port] in *. subst h.
  destruct Hadv as (Hi & Ho & _), Hreq as (Hi' & Ho' & Hb').
  destruct (requires_auth mode) eqn:Era.
  - apply M_bind_iff in Hroute as ([user pass] & t7 & Hcred & Hauth).
    apply read_credentials_iff in Hcred as (u & pw & Hwu & Hwp & -> & -> & (Hi7 & Ho7 & Hb7)).
    destruct (authenticate mode _ _) as [r|e] eqn:Eauth; [|by M_inv].
    apply M_ret_inv in Hauth as [-> ->].
    apply tcp_write_iff in Hgo as [Hbr7 ->]. cbn [tcp_in tcp_out tcp_broken] in *.
    exists (MkScript methods (Some (u, pw)) cmd a p).
    split_and!; [by split_and!|by split; eauto|done|done|done| |].
    + rewrite Hi, Hi7, Hi'. unfold script_bytes.
      cbn [sc_methods sc_credentials sc_command sc_address sc_port]. by rewrite <-!app_assoc.
    + unfold handshake_out. rewrite Era, app_assoc, <-Ho, <-Ho7, <-Ho'.
      destruct t6; cbn [tcp_in tcp_out tcp_broken] in *. congruence.
  - apply lift_inv in Hroute as [Hauth ->]. apply M_ret_inv in Hgo as [_ ->].
    cbn [tcp_in tcp_out tcp_broken] in *.
    exists (MkScript methods None cmd a p).
    split_and!; [by split_and!|split; [by intros [??]|done]|done|done|done| |].
    + rewrite Hi, Hi'. unfold script_bytes.
      cbn [sc_methods sc_credentials sc_command sc_address sc_port]. by rewrite <-!app_assoc.
    + unfold handshake_out. rewrite Era, app_nil_r, <-Ho, <-Ho'.
      destruct t6; cbn [tcp_in tcp_out tcp_broken] in *. congruence.
Qed.

Lemma negotiate_complete mode c route inp out rest :
  script_wf c → (is_Some (sc_credentials c) ↔ requires_auth mode = true) →
  selected_method mode ∈ sc_methods c →
  authenticate mode (script_user c).1 (script_user c).2 = Ok route →
  inp = script_bytes c ++ rest →
  negotiate_and_read_request mode VERSION (MkTcp inp out false) =
    (Ok (route, script_request c), MkTcp rest (out ++ handshake_out mode) false).
Proof.
  intros ([Hne Hle] & Hcr & Ha & Hu & Hp) Hreq Hsel Hauth ->.
  unfold negotiate_and_read_request. rewrite byteb_refl. cbn [negb]. fold (selected_method mode).
  destruct c as [methods cr cmd a p]; simpl in *.
  set (tail := match cr with Some (u, pw) => credentials_bytes u pw | None => [] end).
  set (request := [VERSION; cmd; x00] ++ socks_address_bytes a ++ be16 p).
  apply M_bind_iff. exists (z2b (zlen methods)), (MkTcp (methods ++ (tail ++ request) ++ rest) out false).
  rewrite catch_map_iff, tcp_read_u8_iff. split.
  { split_and!; [|done..]. unfold script_bytes, counted, tail, request. simpl. by rewrite <-!app_assoc. }
  rewrite (proj2 (counted_zero methods Hle)) by done.
  apply M_bind_iff. exists methods, (MkTcp ((tail ++ request) ++ rest) out false).
  rewrite catch_map_iff. split; [by apply tcp_read_app, zlen_back|].
  rewrite (proj2 (existsb_byteb _ _)) by done. cbn [negb].
  apply M_bind_iff. eexists tt, _. rewrite tcp_write_iff. split; [done|]. simpl.
  apply M_bind_iff.
  assert (Hrd : ∀ o, read_request (MkTcp (request ++ rest) o false) =
                     (Ok (MkRequest cmd (socks_host a) p), MkTcp rest o false)).
  { intros o. apply read_request_iff. by exists a. }
  destruct (requires_auth mode) eqn:Era.
  - destruct cr as [[u pw]|]; [|by destruct Hreq as [_ [??]]]. destruct Hcr as [Hwu Hwp].
    exists route, (MkTcp (request ++ rest) (out ++ [VERSION; selected_method mode]) false). split.
    + apply M_bind_iff. exists (from_utf8_lossy u, from_utf8_lossy pw).
      exists (MkTcp (request ++ rest) (out ++ [VERSION; selected_method mode]) false). split.
      { apply read_credentials_iff. exists u, pw. split_and!; [done..|].
        split_and!; [|done..]. cbn [tcp_in]. unfold tail. by rewrite <-app_assoc. }
      simpl in Hauth. by rewrite Hauth.
    + apply M_bind_iff. eexists tt, _. rewrite tcp_write_iff. split; [done|]. simpl.
      apply M_bind_iff. eexists _, _. split; [apply Hrd|].
      unfold handshake_out. rewrite Era, <-app_assoc. done.
  - destruct cr as [[u pw]|]; [by destruct Hreq as [Hx _]; specialize (Hx ltac:(eauto))|].
    exists route. eexists. split; [by unfold lift; simpl in Hauth; rewrite Hauth|].
    apply M_bind_iff. eexists tt, _. split; [done|].
    apply M_bind_iff. eexists _, _. split; [unfold tail; rewrite app_nil_l; apply Hrd|].
    unfold handshake_out. rewrite Era, app_nil_r. done.
Qed.
End Negotiation.

(** ** The port allocator *)

(** A bind attempt on one port of the range: free, or in use. *)
Definition port_at (range : UdpPortRange) (index : Z) : Z := range_start range + index.

Definition range_wf (r : UdpPortRange) : Prop :=
  1 <= range_start r ∧ range_start r <= range_end r ∧ range_end r <= 65535.

(** The ports in the order the loop tries them. *)
Definition try_port (range : UdpPortRange) (first k : Z) : Z :=
  port_at range ((first + k) mod port_count range).

Definition os_of (free : Z → bool) (p : Z) : bind_result := if free p then Bound p else AddrInUse.

Lemma port_count_wf range : range_wf range → 1 <= port_count range <= 65535.
Proof. unfold range_wf, port_count. lia. Qed.

Lemma try_port_range range first k :
  range_wf range → range_start range <= try_port range first k <= range_end range.
Proof.
  intros Hr. pose proof (port_count_wf _ Hr).
  pose proof (Z.mod_pos_bound (first + k) (port_count range)).
  unfold try_port, port_at, port_count in *. lia.
Qed.

Lemma bind_loop_spec free range first r count offset :
  range_wf range → Z.of_nat count + offset = port_count range → 0 <= offset →
  let '(res, r') := bind_loop (os_of free) range first count offset r in
  match res with
  | Ok a => ∃ k, offset <= k < port_count range ∧
      a = MkSocketAddr (advertise_address r) (try_port range first k) ∧
      free (try_port range first k) = true ∧
      (∀ j, offset <= j < k → free (try_port range first j) = false) ∧
      r' = set_next_port ((first + k) mod port_count range + 1) r
  | Err _ => (∀ j, offset <= j < port_count range → free (try_port range first j) = false) ∧ r' = r
  end.
Proof.
  intros Hr. revert offset. induction count as [|count IH]; intros offset Hc Ho; cbn [bind_loop].
  - simpl. split; [intros j ?; lia|done].
  - pose proof (try_port_range range first offset Hr) as Hp.
    assert (1 <= range_start range ∧ range_end range <= 65535) as [H1 H2] by (unfold range_wf in Hr; lia).
    replace ((range_start range + (first + offset) mod port_count range) mod 65536)
      with (try_port range first offset) by (symmetry; apply Z.mod_small; unfold try_port, port_at in *; lia).
    unfold os_of at 1. destruct (free (try_port range first offset)) eqn:Ef.
    + simpl. exists offset. split_and!; [lia|lia|done|done|intros; lia|done].
    + specialize (IH (offset + 1) ltac:(lia) ltac:(lia)).
      destruct (bind_loop (os_of free) range first count (offset + 1) r) as [[a|e] r'].
      * destruct IH as (k & Hk & -> & Hfr & Hj & ->). exists k. split_and!; [lia|lia|done|done| |done].
        intros j Hjk. destruct (Z.eq_dec j offset) as [->|]; [done|]. apply Hj. lia.
      * destruct IH as [Hj ->]. split; [|done]. intros j Hjk.
        destruct (Z.eq_dec j offset) as [->|]; [done|]. apply Hj. lia.
Qed.

(** Every port of the range is tried. *)
Lemma try_port_surjective range first p :
  range_wf range → range_start range <= p <= range_end range →
  ∃ k, 0 <= k < port_count range ∧ try_port range first k = p.
Proof.
  intros Hr Hp. pose proof (port_count_wf _ Hr).
  exists ((p - range_start range - first) mod port_count range). split; [apply Z.mod_pos_bound; lia|].
  unfold try_port, port_at. rewrite Zplus_mod_idemp_r.
  replace (first + (p - range_start range - first)) with (p - range_start range) by lia.
  rewrite Z.mod_small; unfold port_count in *; lia.
Qed.

(** *** The association *)

Section AssociationTheory.
Context `{RecordCrypto} {R W : Type} `{AsyncRead R} `{AsyncWrite W}.
Context (fill : nat → option bytes) (fuel : nat) (control_ip : option IpAddr).
Implicit Types s : Association (R := R) (W := W).

(** Everything sent went to the one client address, which is the control
    connection's. *)
Definition single_client s : Prop :=
  (∀ a, client_address s = Some a → ∀ ip, control_ip = Some ip → sa_ip a = ip) ∧
  Forall (λ d, client_address s = Some d.1) (local_sent s).

Lemma on_upstream_fields {A} (m : M (SnellPacketSession (R := R) (W := W)) A) s r s' :
  on_upstream m s = (r, s') →
  client_address s' = client_address s ∧ local_sent s' = local_sent s.
Proof. unfold on_upstream, zoom. destruct (m (upstream s)). by intros [= _ <-]. Qed.

Lemma udp_step_single e s :
  single_client s →
  single_client (udp_step fill fuel control_ip e s).2 ∧
  (∀ a, client_address s = Some a → client_address (udp_step fill fuel control_ip e s).2 = Some a).
Proof.
  intros [Hip Hsent]. destruct e as [now source packet|now delivered]; simpl.
  - unfold udp_client_step.
    destruct (match control_ip with Some _ => _ | None => _ end) eqn:Ec; [done|].
    unfold get, modify, try_, mbind, M_bind.
    set (first := match client_address s with Some a => a | None => source end).
    assert (Hs1 : single_client (set_client first s) ∧
                  (∀ a, client_address s = Some a → client_address (set_client first s) = Some a)).
    { split; [split|].
      - intros a [= <-] ip Hci. unfold first. destruct (client_address s) as [b|] eqn:Eb; [by apply Hip|].
        rewrite Hci in Ec. apply negb_false_iff, bool_decide_eq_true in Ec. done.
      - simpl. unfold first. destruct (client_address s); [done|].
        destruct (local_sent s); [constructor|]. by apply Forall_cons in Hsent as [? _].
      - simpl. unfold first. by intros a ->. }
    destruct (negb _); [done|]. destruct (decode_datagram packet) as [[[h p] payload]|e]; [|done].
    destruct (on_upstream _ _) as [r s1] eqn:Eu. apply on_upstream_fields in Eu as [Hc Hl].
    assert (Hs2 : single_client s1 ∧ (∀ a, client_address s = Some a → client_address s1 = Some a)).
    { unfold single_client. rewrite Hc, Hl. done. }
    destruct r as [n|e]; [done|]. by destruct (is_datagram_error e).
  - unfold udp_upstream_step, try_, get, modify, mbind, M_bind.
    destruct (on_upstream _ s) as [r s1] eqn:Eu. apply on_upstream_fields in Eu as [Hc Hl].
    assert (Hs1 : single_client s1 ∧ (∀ a, client_address s = Some a → client_address s1 = Some a)).
    { unfold single_client. by rewrite Hc, Hl. }
    destruct r as [[[source frame] off]|e]; [|by destruct (is_datagram_error e)].
    destruct (client_address s1) as [dest|] eqn:Ed in |- *; [|done].
    destruct delivered; [|done]. simpl.
    destruct Hs1 as [[Hip1 Hsent1] Hk]. split; [split|]; simpl.
    + done.
    + apply Forall_app. split; [done|]. by repeat constructor.
    + done.
Qed.

Lemma udp_run_single es s :
  single_client s → single_client (udp_run fill fuel control_ip es s).2.
Proof.
  revert s; induction es as [|e es IH]; intros s Hs; [done|]. cbn [udp_run].
  unfold mbind, M_bind. destruct (udp_step_single e s Hs) as [Hs' _].
  destruct (udp_step fill fuel control_ip e s) as [[u|er] s1]; simpl in *; [by apply IH|done].
Qed.
End AssociationTheory.

(** *** The relay *)

Section RelayTheory.
Context `{C : RecordCrypto} {R : Type} `{AsyncRead R} (fill : nat → option bytes).

Abbreviation session_writer s := (writer (session_physical s)).
Abbreviation session_reader s := (reader (session_physical s)).

(** [w'] is [w] after the frames of [payloads] have been sent and flushed. *)
Definition sent (w w' : RecordWriter Gated) (payloads : list bytes) : Prop :=
  ∃ wire w1, encode_frames fill ((λ p, (p, 0%nat)) <$> payloads) w = (Ok wire, w1) ∧
    w' = set_writer (MkGated [] (committed (w_writer w) ++ pending (w_writer w) ++ wire) false) w1.

Lemma sent_app w w1 w2 ps qs : sent w w1 ps → sent w1 w2 qs → sent w w2 (ps ++ qs).
Proof.
  intros (wire1 & u1 & He1 & ->) (wire2 & u2 & He2 & ->).
  rewrite encode_frames_transport in He2.
  destruct (encode_frames fill _ u1) as [[x|e] u3] eqn:E; simplify_eq/=.
  exists (wire1 ++ wire2), u3. rewrite fmap_app.
  split; [by eapply encode_frames_app|]. unfold set_writer; simpl. by rewrite <-!app_assoc.
Qed.

Lemma session_write_open b (s : SnellSession (R := R) (W := Gated)) :
  seals → gate_closed (w_writer (session_writer s)) = false →
  ∃ s' payloads, session_write fill b s = (Ok (length b), s') ∧
    sent (session_writer s) (session_writer s') payloads ∧
    Forall (.≠ []) payloads ∧ concat payloads = b ∧
    session_reader s' = session_reader s ∧ reusable s' = reusable s.
Proof.
  intros Hs Ho. destruct (write_payload_open fill b (session_writer s) Hs Ho) as (wire & w1 & He & Hw).
  destruct (chunks_spec (Z.to_nat MAX_RECORD_PAYLOAD_SIZE) b) as [Hcat Hall]; [done|].
  eexists _, _. split.
  { unfold session_write, session_record, on_physical, on_conn_writer, zoom, modify, mbind, M_bind.
    rewrite Hw. reflexivity. }
  split; [exists wire, w1; split; [exact He|reflexivity]|].
  split; [|done]. eapply Forall_impl; [exact Hall|]. by intros ? [? _].
Qed.

Lemma close_write_open (s : SnellSession (R := R) (W := Gated)) :
  seals → gate_closed (w_writer (session_writer s)) = false → reusable s = true →
  ∃ s', close_write fill s = (Ok tt, s') ∧ sent (session_writer s) (session_writer s') [[]].
Proof.
  intros Hs Ho Hr.
  destruct (write_frame_open fill [] (session_writer s) Hs) as (wire & w1 & He & Hw);
    [unfold MAX_RECORD_PAYLOAD_SIZE; simpl; lia|done|].
  eexists. split.
  { unfold close_write, on_physical, on_conn_writer, zoom, get, mbind, M_bind.
    rewrite Hr, Hw. reflexivity. }
  exists wire, w1. split; [|done]. csimpl. cbn [encode_frames]. unfold mbind, M_bind. rewrite He.
  unfold mret, M_ret. by rewrite app_nil_r.
Qed.

Lemma upload_all bs (s : SnellSession (R := R) (W := Gated)) :
  seals → gate_closed (w_writer (session_writer s)) = false → reusable s = true →
  Forall (.≠ []) bs →
  ∃ s' payloads, upload fill ((ClientRead <$> bs) ++ [ClientRead []]) s = (Ok ClientEof, s') ∧
    sent (session_writer s) (session_writer s') (payloads ++ [[]]) ∧
    Forall (.≠ []) payloads ∧ concat payloads = concat bs.
Proof.
  intros Hs Ho Hr Hbs. revert s Ho Hr; induction Hbs as [|b bs Hb Hbs IH]; intros s Ho Hr.
  - destruct (close_write_open s Hs Ho Hr) as (s' & Hc & Hsent). exists s', [].
    split_and!; [|done..]. simpl. unfold mbind, M_bind. by rewrite Hc.
  - destruct (session_write_open b s Hs Ho) as (s1 & ps & Hw & Hsent & Hne & Hcat & _ & Hr1).
    assert (Ho1 : gate_closed (w_writer (session_writer s1)) = false)
      by (destruct Hsent as (? & ? & _ & ->); done).
    destruct (IH s1 Ho1) as (s' & qs & Hup & Hsent2 & Hneq & Hcatq); [congruence|].
    exists s', (ps ++ qs). rewrite <-app_assoc. split_and!.
    + csimpl. cbn [app upload]. rewrite bool_decide_eq_false_2 by done.
      by rewrite (M_bind_ok _ _ _ _ _ Hw).
    + by eapply sent_app.
    + by apply Forall_app.
    + csimpl. by rewrite concat_app, Hcat, Hcatq.
Qed.

Lemma download_all fuel count d (s : SnellSession (R := R) (W := Gated)) (k : Gated) s' :
  stream (session_reader s) d s' → gate_closed k = false → (length d < count)%nat →
  (2 <= fuel)%nat →
  ∃ t, download fuel count (s, k) =
         (Ok tt, (t, MkGated [] (committed k ++ pending k ++ d) true)) ∧
       server_eof (session_reader t) = true ∧ records (session_reader t) = s' ∧
       reply_pending (session_reader t) = false ∧ reply_error (session_reader t) = None.
Proof.
  revert d s k; induction count as [|count IH]; intros d s k Hst Ho Hl Hf; [lia|].
  cbn [download]. destruct (read_application_chunk_stream fuel _ _ _ Hst Hf) as (c & r1 & Hc & Hd).
  set (s1 := MkSession (set_conn_reader r1 (session_physical s)) (session_uses s) (reusable s)
               (record TcpDownload (Z.of_nat (length c)) (session_counters s))).
  assert (Hread : zoom fst (λ t s, (t, s.2)) (session_read_chunk fuel) (s, k) = (Ok c, (s1, k))).
  { unfold session_read_chunk, session_record, on_physical, on_conn_reader, zoom, modify, mbind, M_bind.
    simpl. by rewrite Hc. }
  rewrite (M_bind_ok _ _ _ _ _ Hread). destruct d as [|b d].
  - destruct Hd as (-> & Heof & Hrec & Hpend). rewrite bool_decide_eq_true_2 by done.
    exists s1. rewrite app_nil_r. split; [|done].
    unfold zoom, shutdown; simpl. done.
  - destruct Hd as (Hne & d' & Heq & Hst1). rewrite bool_decide_eq_false_2 by done.
    assert (Hw : zoom snd (λ k (s : SnellSession (R := R) (W := Gated) * Gated), (s.1, k)) (write_all c) (s1, k) =
                 (Ok tt, (s1, MkGated (pending k ++ c) (committed k) false))).
    { unfold zoom, write_all; simpl. by rewrite Ho. }
    rewrite (M_bind_ok _ _ _ _ _ Hw).
    destruct (IH d' s1 (MkGated (pending k ++ c) (committed k) false)) as (t & Ht & ?); [done|done| |done|].
    { apply (f_equal length) in Heq. rewrite length_app in Heq. destruct c; [done|]. simpl in *. lia. }
    exists t. rewrite Ht, Heq. simpl. by rewrite <-app_assoc.
Qed.

(** The same on a session whose reply is still to come. *)
Lemma download_reply fuel count d (s : SnellSession (R := R) (W := Gated)) (k : Gated) s' :
  awaiting (session_reader s) (x00 :: d) s' → gate_closed k = false → (length d + 2 < count)%nat →
  (length d + 1 < fuel)%nat → (2 <= fuel)%nat →
  ∃ t, download fuel count (s, k) =
         (Ok tt, (t, MkGated [] (committed k ++ pending k ++ d) true)) ∧
       server_eof (session_reader t) = true ∧ records (session_reader t) = s' ∧
       reply_pending (session_reader t) = false ∧ reply_error (session_reader t) = None.
Proof.
  intros Ha Hk Hc Hf Hf2. destruct (read_application_chunk_awaiting _ _ _ _ Ha Hf) as (r & Hst & Hr).
  set (s1 := MkSession (set_conn_reader r (session_physical s)) (session_uses s) (reusable s)
               (session_counters s)).
  destruct (download_all fuel count d s1 k s') as (t & Ht & Hend); [exact Hst|done|lia|done|].
  exists t. split; [|done]. rewrite <-Ht. destruct count as [|count]; [done|]. cbn [download].
  assert (Hread : session_read_chunk fuel s = session_read_chunk fuel s1).
  { unfold session_read_chunk, on_physical, on_conn_reader, zoom, mbind, M_bind. simpl. rewrite Hr.
    by destruct (read_application_chunk fuel r) as [[c|e] r1]. }
  unfold zoom at 1 3, mbind, M_bind. simpl. by rewrite Hread.
Qed.
End RelayTheory.

(** ** Properties *)

(** C23: The handshake succeeds exactly on the byte streams of the protocol: a
    list of methods that offers the one the mode requires, credentials the mode
    accepts if it requires any, and a request with a target; it answers with
    the chosen method (and the accepted authentication), returns the route the
    credentials lead to, and leaves what follows the request unread. *)
Theorem negotiation_exact {Route} (mode : Mode (Route := Route)) s route req s' :
  negotiate_and_read_request mode VERSION s = (Ok (route, req), s') ↔
  tcp_broken s = false ∧
  ∃ c, script_wf c ∧ (is_Some (sc_credentials c) ↔ requires_auth mode = true) ∧
    selected_method mode ∈ sc_methods c ∧
    authenticate mode (script_user c).1 (script_user c).2 = Ok route ∧
    req = script_request c ∧ tcp_in s = script_bytes c ++ tcp_in s' ∧
    s' = MkTcp (tcp_in s') (tcp_out s ++ handshake_out mode) false.
Proof.
  split; [apply negotiate_sound|].
  intros (Hb & c & Hwf & Hcr & Hsel & Hauth & -> & Hin & ->).
  destruct s as [inp out br]; simpl in *. subst br. by eapply negotiate_complete.
Qed.

(** A UDP datagram from a client is accepted exactly when it is an
    unfragmented SOCKS5 header with an IPv4, IPv6 or nonempty domain address and
    a nonzero port, and is read as that target and the rest as payload. *)
Theorem datagram_decode_iff packet h p payload :
  decode_datagram packet = Ok (h, p, payload) ↔
  ∃ a, socks_address_wf a ∧ h = socks_host a ∧ u16 p ∧ p ≠ 0 ∧
    packet = [x00; x00; x00] ++ socks_address_bytes a ++ be16 p ++ payload.
Proof.
  split; [apply decode_datagram_sound|].
  intros (a & Ha & -> & Hp & Hp0 & ->). by apply decode_datagram_encoded.
Qed.

(** With a fixed port range, a relay socket is bound to the first free port
    in cyclic order from the rotating start, always within the range, and
    advertised on the advertised address; the next attempt starts after it;
    binding fails only when every port of the range is in use. *)
Theorem udp_bind_round_robin free r range :
  port_range r = Some range → range_wf range → 0 <= next_port r →
  let first := next_port r mod port_count range in
  let '(res, r') := udp_bind (os_of free) r in
  match res with
  | Ok a => ∃ k, 0 <= k < port_count range ∧
      a = MkSocketAddr (advertise_address r) (try_port range first k) ∧
      range_start range <= sa_port a <= range_end range ∧
      free (sa_port a) = true ∧
      (∀ j, 0 <= j < k → free (try_port range first j) = false) ∧
      next_port r' = (first + k) mod port_count range + 1
  | Err _ => ∀ p, range_start range <= p <= range_end range → free p = false
  end.
Proof.
  intros Hpr Hwf Hn first. pose proof (port_count_wf _ Hwf).
  unfold udp_bind, get, modify, mbind, M_bind. rewrite Hpr. fold first.
  pose proof (bind_loop_spec free range first (set_next_port ((next_port r + 1) mod USIZE) r)
                (Z.to_nat (port_count range)) 0 Hwf ltac:(lia) ltac:(lia)) as Hspec.
  destruct (bind_loop _ _ _ _ _ _) as [[a|e] r'].
  - destruct Hspec as (k & Hk & -> & Hf & Hj & ->). exists k.
    split_and!; try done; try lia; simpl; pose proof (try_port_range range first k Hwf); lia.
  - destruct Hspec as [Hj ->]. intros p Hp.
    destruct (try_port_surjective range first p Hwf Hp) as (k & Hk & <-). by apply Hj.
Qed.

Lemma udp_bind_round_robin_witness :
  let free p := negb (p =? 5002) && negb (p =? 5003) in
  let r := MkRelay (V4 x0a x00 x00 x01) (V4 xc0 x00 x02 x01) (Some (MkRange 5000 5003)) 6 in
  (udp_bind (os_of free) r).1 = Ok (MkSocketAddr (V4 xc0 x00 x02 x01) 5000) ∧
  ∃ k, 0 <= k < 4 ∧ try_port (MkRange 5000 5003) 2 k = 5000 ∧
       ∀ j, 0 <= j < k → free (try_port (MkRange 5000 5003) 2 j) = false.
Proof.
  intros free r. split; [vm_compute; reflexivity|].
  pose proof (udp_bind_round_robin free r (MkRange 5000 5003) eq_refl
                ltac:(vm_compute; repeat split; discriminate) ltac:(vm_compute; discriminate)) as H.
  destruct (udp_bind (os_of free) r) as [res r'] eqn:E.
  assert (res = Ok (MkSocketAddr (V4 xc0 x00 x02 x01) 5000)) as ->
    by (apply (f_equal fst) in E; vm_compute in E; symmetry; exact E).
  destruct H as (k & Hk & Ha & _ & _ & Hj & _). exists k. split; [exact Hk|].
  split; [injection Ha as Ha; symmetry; exact Ha|exact Hj].
Defined.

(** Whatever datagrams arrive from any addresses, interleaved with any
    upstream datagrams, everything an association sends to its local side goes
    to the one address its first accepted datagram came from, which has the IP
    address of the control connection. *)
Theorem udp_association_single_client `{RecordCrypto} {R W} `{AsyncRead R} `{AsyncWrite W}
    fill fuel control_ip (session : SnellPacketSession (R := R) (W := W)) es :
  let s := (udp_run fill fuel control_ip es (MkAssociation session None [] (MkActivity 0))).2 in
  local_sent s ≠ [] →
  ∃ a, client_address s = Some a ∧ Forall (λ d, d.1 = a) (local_sent s) ∧
       ∀ ip, control_ip = Some ip → sa_ip a = ip.
Proof.
  intros s Hne.
  assert (Hs : single_client control_ip s) by (by apply udp_run_single; split).
  destruct Hs as [Hip Hsent]. destruct (local_sent s) as [|d ds] eqn:El; [done|].
  pose proof Hsent as Hd. apply Forall_cons in Hd as [Hd _].
  exists d.1. split; [done|]. split; [|by apply Hip].
  eapply Forall_impl; [exact Hsent|]. intros d' Hd'. simpl in *. congruence.
Qed.

(** Upstream datagrams of the server, framed for the client of the example. *)
Definition demo_udp_wire : bytes :=
  match encode_frames demo_fill [([x00], 0%nat); ([x04; x01; x02; x03; x04; x00; x35; x68], 0%nat)]
          (demo_server_writer demo_salt) with
  | (Ok wire, _) => wire
  | _ => []
  end.
Definition demo_packet_session : SnellPacketSession (R := bytes) (W := Gated) :=
  MkPacketSession (snell_reader_new (reader_new demo_udp_wire (lit "psk")))
    (demo_server_writer demo_salt) None.
Definition demo_udp_events : list udp_event :=
  [FromClient 1 (MkSocketAddr (V4 x7f x00 x00 x02) 9) (lit "from elsewhere");
   FromClient 2 (MkSocketAddr (V4 x7f x00 x00 x01) 7) (lit "not a datagram");
   FromClient 3 (MkSocketAddr (V4 x7f x00 x00 x01) 8) (lit "another port");
   FromUpstream 4 true].

Lemma udp_association_single_client_witness :
  let s := (udp_run demo_fill 9 (Some (V4 x7f x00 x00 x01)) demo_udp_events
              (MkAssociation demo_packet_session None [] (MkActivity 0))).2 in
  local_sent s = [(MkSocketAddr (V4 x7f x00 x00 x01) 7,
                   [x00; x00; x00; x01; x01; x02; x03; x04; x00; x35; x68])] ∧
  ∃ a, client_address s = Some a ∧ Forall (λ d, d.1 = a) (local_sent s) ∧
       ∀ ip, Some (V4 x7f x00 x00 x01) = Some ip → sa_ip a = ip.
Proof.
  intros s. split; [vm_compute; reflexivity|].
  apply (udp_association_single_client demo_fill 9 (Some (V4 x7f x00 x00 x01)) demo_packet_session
           demo_udp_events).
  vm_compute. discriminate.
Defined.

(** A relay is transparent in both directions: what the client sends until
    it half-closes reaches the server as records with exactly that content
    followed by the end-of-session record, what the server sends until its own
    end reaches the client unchanged and is followed by a half-close, and
    whichever direction ends first the relay is clean and knows that the end of
    session was sent. *)
Theorem relay_transparent `{C : RecordCrypto} `{!RecordCryptoLaws C} {R} `{AsyncRead R} fill fuel count
    bs d (s : SnellSession (R := R) (W := Gated)) (k : Gated) s' :
  seals → gate_closed (w_writer (writer (session_physical s))) = false → reusable s = true →
  Forall (.≠ []) bs → stream (reader (session_physical s)) d s' → gate_closed k = false →
  (length d < count)%nat → (2 <= fuel)%nat →
  ∃ su payloads sd,
    upload fill ((ClientRead <$> bs) ++ [ClientRead []]) s = (Ok ClientEof, su) ∧
    sent fill (writer (session_physical s)) (writer (session_physical su)) (payloads ++ [[]]) ∧
    Forall (.≠ []) payloads ∧ concat payloads = concat bs ∧
    download fuel count (s, k) = (Ok tt, (sd, MkGated [] (committed k ++ pending k ++ d) true)) ∧
    server_eof (reader (session_physical sd)) = true ∧
    drive_relay (UploadFirst (Ok ClientEof) (Ok tt)) = (true, true) ∧
    drive_relay (DownloadFirst (Ok tt) (Some (Ok ClientEof))) = (true, true).
Proof.
  intros Hs Ho Hr Hbs Hst Hk Hl Hf.
  destruct (upload_all fill bs s Hs Ho Hr Hbs) as (su & payloads & Hup & Hsent & Hne & Hcat).
  destruct (download_all fuel count d s k s' Hst Hk Hl Hf) as (sd & Hdown & Heof & _).
  exists su, payloads, sd. by split_and!.
Qed.

Lemma relay_transparent_witness :
  ∃ su payloads sd wire,
    let s := MkSession (demo_connection wire) 1 true None in
    upload demo_fill ((ClientRead <$> [lit "get"; lit " it"]) ++ [ClientRead []]) s = (Ok ClientEof, su) ∧
    concat payloads = lit "get it" ∧
    download 9 9 (s, MkGated [] [] false) = (Ok tt, (sd, MkGated [] (lit "unhi") true)).
Proof.
  destruct (encode_frames demo_fill demo_server_frames (demo_server_writer demo_salt))
    as [[wire|e] w'] eqn:E; [|vm_compute in E; discriminate].
  assert (Hf : fills demo_fill) by (intros n b [= <-]; apply length_replicate).
  assert (Hsync : in_sync (demo_server_writer demo_salt) (reader_new wire (lit "psk")))
    by (split; [reflexivity|split; [reflexivity|split; [vm_compute; reflexivity|reflexivity]]]).
  destruct (delivers_frames demo_fill demo_server_frames _ _ wire (reader_new wire (lit "psk")) []
              Hf Hsync E) as (s2 & Hd & _); [symmetry; apply app_nil_r|].
  apply (delivers_app _ [lit "hi"; []] [[x00]; lit "yo"; []]) in Hd as (s1 & Hd1 & Hd2).
  edestruct (relay_transparent demo_fill 9 9 [lit "get"; lit " it"] (lit "unhi")
    (MkSession (demo_connection wire) 1 true None) (MkGated [] [] false) s1)
    as (su & payloads & sd & Hup & _ & _ & Hcat & Hdown & _).
  - intros k n p. eexists. reflexivity.
  - reflexivity.
  - reflexivity.
  - repeat constructor; discriminate.
  - split; [reflexivity|]. split; [reflexivity|]. split; [reflexivity|]. split; [simpl; lia|].
    exists [lit "hi"]. split; [exact Hd1|]. split; [repeat constructor; discriminate|reflexivity].
  - reflexivity.
  - simpl. lia.
  - lia.
  - exists su, payloads, sd, wire. split; [exact Hup|]. split; [exact Hcat|exact Hdown].
Defined.
