(* ===== verification/HttpRequest.v ===== *)
(** * HttpRequest: requests of the HTTP proxy ([src/http_proxy.rs])

    Reading a request head from the client, taking its request line, [CONNECT]
    target and proxy credentials apart, and rewriting an absolute-form request
    for the origin. Text is bytes in UTF-8; [Url::parse] and the base64 decoder
    are crates, so parameters. *)
From S2P Require Import Prelude Bytes Text Ip.
Local Open Scope Z_scope.

(** ** Text helpers of this file *)

Definition crlf : bytes := [x0d; x0a].
Definition crlfcrlf : bytes := [x0d; x0a; x0d; x0a].

(** The pieces of a text between line ends, as [split] gives them. *)
Fixpoint split_crlf (l : bytes) : list bytes :=
  match l with
  | [] => [[]]
  | b :: l' =>
      let cons_head := match split_crlf l' with p :: ps => (b :: p) :: ps | [] => [[b]] end in
      match l' with
      | c :: l'' => if byteb b x0d && byteb c x0a then [] :: split_crlf l'' else cons_head
      | [] => cons_head
      end
  end.

Definition starts_blank (l : bytes) : bool := match l with b :: _ => is_blank b | [] => false end.
Definition ends_blank (l : bytes) : bool := starts_blank (reverse l).

(** ** Data *)

Inductive BodyFraming : Type :=
  | Empty
  | Length (length : Z)
  | Chunked.

#[export] Instance body_framing_eq_dec : EqDecision BodyFraming.
Proof. solve_decision. Defined.

Record ForwardedRequest : Type := MkForwarded {
  head : bytes;
  framing : BodyFraming;
  upgrade : bool
}.

(** [forwarded] is [None] for CONNECT. *)
Record ParsedRequest : Type := MkParsed {
  parsed_host : bytes;
  parsed_port : Z;
  credentials : option (bytes * bytes);
  forwarded : option ForwardedRequest;
  leftover : bytes
}.

(** ** CONNECT *)

Definition connect_target_invalid : error := Bail "HTTP CONNECT target is invalid".
Definition connect_port_invalid : error := Bail "HTTP CONNECT port is invalid".

Definition parse_connect_target (target : bytes) : result (bytes * Z) :=
  match strip_prefix (lit "[") target with
  | Some rest =>
      '(host, rest) ← ok_or connect_target_invalid (split_once "]" rest);
      port_text ← ok_or connect_target_invalid (strip_prefix (lit ":") rest);
      port ← ok_or connect_port_invalid (parse_uint U16_MAX port_text);
      if bool_decide (host = []) || (port =? 0) then Err connect_target_invalid
      else Ok (host, port)
  | None =>
      '(host, port_text) ← ok_or connect_target_invalid (rsplit_once ":" target);
      port ← ok_or connect_port_invalid (parse_uint U16_MAX port_text);
      if bool_decide (host = []) || existsb (byteb ":") host || (port =? 0)
      then Err connect_target_invalid
      else Ok (host, port)
  end.

(** ** Body framing *)

Definition content_length_invalid : error := Bail "HTTP request Content-Length is invalid".

Definition request_framing (version : bytes) (content_lengths transfer_codings : list bytes) :
    result BodyFraming :=
  match last transfer_codings with
  | Some last_coding =>
      if negb (bool_decide (content_lengths = []))
      then Err (Bail "HTTP request has both Transfer-Encoding and Content-Length")
      else if negb (eq_ignore_case version (lit "HTTP/1.1"))
      then Err (Bail "HTTP/1.0 request uses Transfer-Encoding")
      else if existsb (λ coding, bool_decide (coding = [])) transfer_codings
      then Err (Bail "HTTP request Transfer-Encoding is invalid")
      else
        let chunked :=
          length (filter (λ coding, eq_ignore_case coding (lit "chunked") = true) transfer_codings) in
        if negb (chunked =? 1)%nat || negb (eq_ignore_case last_coding (lit "chunked"))
        then Err (Bail "HTTP request transfer coding is unsupported")
        else Ok Chunked
  | None =>
      match content_lengths with
      | [] => Ok Empty
      | first :: _ =>
          if bool_decide (first = []) || negb (forallb is_digit first)
             || existsb (λ value, negb (bytes_eqb value first)) content_lengths
          then Err content_length_invalid
          else
            length ← ok_or content_length_invalid (parse_uint U64_MAX first);
            Ok (if length =? 0 then Empty else Length length)
      end
  end.

(** ** Rewriting an absolute-form request *)

Definition is_hop_by_hop (name : bytes) (upgrade : bool) : bool :=
  existsb (eq_ignore_case name)
    [lit "connection"; lit "keep-alive"; lit "proxy-connection"; lit "proxy-authorization"; lit "te"]
  || (negb upgrade && eq_ignore_case name (lit "upgrade")).

Definition is_framing_header (name : bytes) : bool :=
  existsb (eq_ignore_case name) [lit "host"; lit "content-length"; lit "transfer-encoding"].

(** A header line with its name and its trimmed value. *)
Record Field : Type := MkField { f_header : bytes; f_name : bytes; f_value : bytes }.

Fixpoint parse_fields (headers : list bytes) : result (list Field) :=
  match headers with
  | [] => Ok []
  | header :: headers' =>
      if starts_blank header then Err (Bail "HTTP request header line folding is not supported")
      else
        match split_once ":" header with
        | None => parse_fields headers'
        | Some (name, value) =>
            if bool_decide (name = []) || ends_blank name
            then Err (Bail "HTTP request header name is invalid")
            else fields ← parse_fields headers'; Ok (MkField header name (trim_blanks value) :: fields)
        end
  end.

(** The list elements of every field of a name, empty ones included. *)
Definition named (fields : list Field) (wanted : bytes) : list bytes :=
  trim_blanks <$>
    (filter (λ f, eq_ignore_case (f_name f) wanted = true) fields ≫= λ f, split_on "," (f_value f)).

(** What [url::Url] answers about a parsed URL. *)
Inductive UrlHost : Type := Domain (domain : bytes) | UrlIp (ip : IpAddr).
Record Url : Type := MkUrl {
  scheme : bytes;
  url_host : option UrlHost;
  url_port : option Z;
  path : bytes;
  query : option bytes
}.

Definition request_line_invalid : error := Bail "HTTP proxy request line is invalid".

(** [splitn(3, ' ')]: the method, then the target and version when present. *)
Definition splitn3 (l : bytes) : bytes * option (bytes * option bytes) :=
  match split_once " " l with
  | None => (l, None)
  | Some (method, rest) =>
      match split_once " " rest with
      | None => (method, Some (rest, None))
      | Some (target, version) => (method, Some (target, Some version))
      end
  end.

Definition wants_upgrade (fields : list Field) : bool :=
  existsb (λ option, eq_ignore_case option (lit "upgrade")) (named fields (lit "connection"))
  && existsb (λ f, eq_ignore_case (f_name f) (lit "upgrade")) fields.

(** The filter of the loop that copies the header lines. *)
Definition dropped (fields : list Field) (upgrade : bool) (f : Field) : bool :=
  let keep_upgrade := upgrade && eq_ignore_case (f_name f) (lit "upgrade") in
  is_hop_by_hop (f_name f) upgrade
  || (negb keep_upgrade && negb (is_framing_header (f_name f))
      && existsb (λ option, eq_ignore_case option (f_name f)) (named fields (lit "connection"))).

Definition forward_line (upgrade : bool) : bytes :=
  if upgrade then lit "Connection: Upgrade, close" else lit "Connection: close".

(** Lines, each with its line end. *)
Definition unlines (ls : list bytes) : bytes := ls ≫= λ l, l ++ crlf.

Definition forwarded_lines (method origin version : bytes) (fields : list Field) (upgrade : bool) : list bytes :=
  [method ++ lit " " ++ origin ++ lit " " ++ version]
  ++ (f_header <$> filter (λ f, dropped fields upgrade f = false) fields)
  ++ [forward_line upgrade; []].

Section Request.
Context (url_parse : bytes → option Url) (base64_decode : bytes → option bytes).

Definition host_text (h : UrlHost) : bytes :=
  match h with Domain d => d | UrlIp ip => ip_to_string ip end.

Definition rewrite_absolute_request (request_line : bytes) (headers : list bytes) :
    result (bytes * Z * ForwardedRequest) :=
  let '(method, rest) := splitn3 request_line in
  '(target, version) ← ok_or request_line_invalid rest;
  let version := default (lit "HTTP/1.1") version in
  url ← ok_or (Bail "HTTP proxy URL is invalid") (url_parse target);
  if negb (bytes_eqb (scheme url) (lit "http"))
  then Err (Bail "HTTP proxy only forwards http:// URLs")
  else
    host ← ok_or (Bail "HTTP proxy URL is missing a host") (host_text <$> url_host url);
    let port := default 80 (url_port url) in
    if port =? 0 then Err (Bail "HTTP proxy port is invalid")
    else
      let path := if bool_decide (path url = []) then lit "/" else path url in
      let origin := match query url with Some query => path ++ lit "?" ++ query | None => path end in
      fields ← parse_fields headers;
      framing ← request_framing version (named fields (lit "content-length"))
                  (named fields (lit "transfer-encoding"));
      let upgrade := wants_upgrade fields in
      Ok (host, port,
          MkForwarded (unlines (forwarded_lines method origin version fields upgrade)) framing upgrade).

(** ** The request line and the credentials *)

Definition parse_request_line (request_line : bytes) (headers : list bytes)
    (credentials : option (bytes * bytes)) : result ParsedRequest :=
  match split_whitespace request_line with
  | method :: target :: _ :: _ =>
      if eq_ignore_case method (lit "CONNECT") then
        '(host, port) ← parse_connect_target target;
        Ok (MkParsed host port credentials None [])
      else
        '(host, port, forwarded) ← rewrite_absolute_request request_line headers;
        Ok (MkParsed host port credentials (Some forwarded) [])
  | _ => Err request_line_invalid
  end.

Fixpoint parse_basic_proxy_auth (headers : list bytes) : option (bytes * bytes) :=
  match headers with
  | [] => None
  | header :: headers' =>
      match split_once ":" header with
      | None => parse_basic_proxy_auth headers'
      | Some (name, value) =>
          if negb (eq_ignore_case name (lit "proxy-authorization"))
          then parse_basic_proxy_auth headers'
          else
            match split_whitespace value with
            | scheme :: encoded :: parts =>
                if negb (eq_ignore_case scheme (lit "basic")) || negb (bool_decide (parts = []))
                then parse_basic_proxy_auth headers'
                else
                  decoded ← base64_decode encoded;
                  pair ← from_utf8 decoded;
                  split_once ":" pair
            | _ => None
            end
      end
  end.

(** ** Reading the head *)

(** The client side: what each [read] will return ([Ok []] and the end of the
    list are the end of the stream), and what the proxy has written. *)
Record Client : Type := MkHttpClient {
  reads : list (result bytes);
  written : bytes;
  broken : bool
}.

Definition client_read : M Client bytes := λ s,
  match reads s with
  | [] => (Ok [], s)
  | r :: rs => (r, MkHttpClient rs (written s) (broken s))
  end.

Definition HEAD_LIMIT : nat := Z.to_nat 8192.

(** The loop of [read_proxy_request]; every turn takes a read off the list, so
    its length bounds the turns. *)
Fixpoint read_head (turns : nat) (request : bytes) : M Client bytes :=
  match find_sub crlfcrlf request with
  | Some _ => mret request
  | None =>
      match turns with
      | O => throw OutOfFuel
      | S turns' =>
          read ← client_read;
          if bool_decide (read = []) then bail "unexpected EOF in HTTP proxy request"
          else
            let request := request ++ read in
            if (HEAD_LIMIT <? length request)%nat
            then bail "HTTP proxy request headers are too large"
            else read_head turns' request
      end
  end.

Definition set_leftover (l : bytes) (p : ParsedRequest) : ParsedRequest :=
  MkParsed (parsed_host p) (parsed_port p) (credentials p) (forwarded p) l.

(** The head once it is complete. *)
Definition parse_head (request : bytes) : result ParsedRequest :=
  split ← ok_or (Bail "HTTP proxy request is truncated") (find_sub crlfcrlf request);
  let leftover := drop (split + 4) request in
  match split_crlf (from_utf8_lossy (take split request)) with
  | [] => Err (Bail "HTTP proxy request line is missing")
  | request_line :: headers =>
      let credentials := parse_basic_proxy_auth headers in
      parsed ← parse_request_line request_line headers credentials;
      Ok (set_leftover leftover parsed)
  end.

Definition read_proxy_request (first_byte : byte) : M Client ParsedRequest := λ s,
  (request ← read_head (S (length (reads s))) [first_byte]; lift (parse_head request)) s.
End Request.

(** ** Lemmas on reading the head *)

(** The bytes still to come from the client. *)
Definition incoming (rs : list (result bytes)) : bytes :=
  concat (omap (λ r, match r with Ok b => Some b | Err _ => None end) rs).

(** A read of a live connection: some bytes, at most the buffer's 1024. *)
Definition live_read (r : result bytes) : Prop :=
  match r with Ok b => b ≠ [] ∧ (length b <= 1024)%nat | Err _ => False end.

Lemma read_head_found turns request rs out br split :
  Forall live_read rs → (length rs < turns)%nat → Z.of_nat split + 1027 <= 8192 →
  find_sub crlfcrlf (request ++ incoming rs) = Some split →
  ∃ got rest, read_head turns request (MkHttpClient rs out br) =
                (Ok (request ++ got), MkHttpClient rest out br)
              ∧ got ++ incoming rest = incoming rs ∧ find_sub crlfcrlf (request ++ got) = Some split.
Proof.
  revert turns request; induction rs as [|r rs IH]; intros turns request Hrs Ht Hs Hf;
    (destruct turns as [|turns]; [simpl in Ht; lia|]); cbn [read_head];
    destruct (find_sub crlfcrlf request) as [i|] eqn:E.
  - exists [], []. rewrite !app_nil_r in *. by rewrite Hf.
  - unfold incoming in Hf. simpl in Hf. rewrite app_nil_r in Hf. congruence.
  - exists [], (r :: rs). pose proof (find_sub_app _ _ (incoming (r :: rs)) _ E). rewrite app_nil_r.
    split_and!; [done..|congruence].
  - apply Forall_cons in Hrs as [Hr Hrs]. destruct r as [c|e]; [|done]. destruct Hr as [Hc Hlc].
    assert (Hl : (length request < split + 4)%nat).
    { destruct (decide (split + 4 <= length request)%nat) as [Hle|]; [|lia].
      apply (find_sub_inside crlfcrlf request) in Hf; [congruence|done]. }
    change (incoming (Ok c :: rs)) with (c ++ incoming rs) in *.
    rewrite (app_assoc request) in Hf.
    destruct (IH turns (request ++ c)) as (got & rest & Hrun & Hgot & Hfound);
      [done|simpl in Ht; lia|done|done|].
    exists (c ++ got), rest. rewrite <-!app_assoc in *. rewrite <-Hgot.
    split_and!; [|done|done]. rewrite <-Hrun.
    unfold mbind, M_bind, client_read. simpl. rewrite bool_decide_eq_false_2 by done.
    replace (HEAD_LIMIT <? length (request ++ c))%nat with false; [done|].
    symmetry. apply Nat.ltb_ge. rewrite length_app. unfold HEAD_LIMIT. lia.
Qed.

(** ** Reading a request *)

Section ReadProofs.
Context (url_parse : bytes → option Url) (base64_decode : bytes → option bytes).
Abbreviation parse := (parse_head url_parse base64_decode).

(** What follows the head only becomes the leftover. *)
Lemma parse_head_leftover request split :
  find_sub crlfcrlf request = Some split →
  parse request =
    set_leftover (drop (split + 4) request) <$> parse (take (split + 4) request).
Proof.
  intros Hf. pose proof (find_sub_bound _ _ _ Hf) as Hb. simpl in Hb.
  assert (Ht : find_sub crlfcrlf (take (split + 4) request) = Some split).
  { apply (find_sub_inside _ _ (drop (split + 4) request)); [by rewrite take_drop|].
    rewrite length_take. simpl. lia. }
  unfold parse_head. rewrite Hf, Ht. simpl. rewrite take_take, Nat.min_l by lia.
  destruct (split_crlf _) as [|l headers]; [done|].
  by destruct (parse_request_line _ _ _ _) as [p|e].
Qed.

(** [read_proxy_request] does not depend on how the client's bytes are cut
    into reads: when the stream starts with a complete head of at most 8192
    bytes less one read buffer, the result (success or error) is that of the
    head alone, and the leftover handed on followed by the bytes not yet read
    is the stream after the head, nothing lost or repeated. *)
Theorem request_head_cut_independent first rs out br split :
  Forall live_read rs → Z.of_nat split + 1027 <= 8192 →
  find_sub crlfcrlf (first :: incoming rs) = Some split →
  ∃ over rest,
    read_proxy_request url_parse base64_decode first (MkHttpClient rs out br) =
      (set_leftover over <$> parse (take (split + 4) (first :: incoming rs)),
       MkHttpClient rest out br)
    ∧ over ++ incoming rest = drop (split + 4) (first :: incoming rs).
Proof.
  intros Hrs Hs Hf.
  destruct (read_head_found (S (length rs)) [first] rs out br split)
    as (got & rest & Hrun & Hgot & Hfound); [done|lia|done|done|].
  pose proof (find_sub_bound _ _ _ Hfound) as Hb.
  change (length crlfcrlf) with 4%nat in Hb.
  exists (drop (split + 4) ([first] ++ got)), rest. rewrite <-Hgot.
  change (first :: got ++ incoming rest) with (([first] ++ got) ++ incoming rest).
  rewrite take_app_le, (drop_app_le ([first] ++ got)) by lia. split; [|done].
  unfold read_proxy_request. cbn [reads]. rewrite (M_bind_ok _ _ _ _ _ Hrun).
  unfold lift. by rewrite (parse_head_leftover _ _ Hfound).
Qed.
End ReadProofs.

(** ** Lemmas on rewriting *)

(** [eq_ignore_case] is equality of the lower-case texts. *)
Lemma eq_ignore_case_eq a b : eq_ignore_case a b = true ↔ lower a = lower b.
Proof. unfold eq_ignore_case, bytes_eqb. apply bool_decide_eq_true. Qed.

Lemma eq_ignore_case_lower a b c : lower a = lower b → eq_ignore_case a c = eq_ignore_case b c.
Proof. unfold eq_ignore_case. by intros ->. Qed.

(** The header line parses to the field. *)
Definition wf_field (f : Field) : Prop := parse_fields [f_header f] = Ok [f].

Lemma parse_fields_wf headers fields : parse_fields headers = Ok fields → Forall wf_field fields.
Proof.
  revert fields; induction headers as [|h headers IH]; intros fields Hp; cbn [parse_fields] in Hp.
  - injection Hp as <-. constructor.
  - destruct (starts_blank h) eqn:Eb; [done|].
    destruct (split_once ":" h) as [[name value]|] eqn:Es; [|by apply IH].
    destruct (bool_decide (name = []) || ends_blank name) eqn:En; [done|].
    apply result_bind_inv in Hp as (fs & Hfs & [= <-]). constructor; [|by apply IH].
    unfold wf_field. cbn [parse_fields f_header]. by rewrite Eb, Es, En.
Qed.

Lemma parse_fields_app hs ks fs gs :
  parse_fields hs = Ok fs → parse_fields ks = Ok gs → parse_fields (hs ++ ks) = Ok (fs ++ gs).
Proof.
  intros Hh Hk. revert fs Hh; induction hs as [|h hs IH]; intros fs Hh; cbn [parse_fields app] in *.
  - by injection Hh as <-.
  - destruct (starts_blank h); [done|]. destruct (split_once ":" h) as [[name value]|]; [|by apply IH].
    destruct (bool_decide (name = []) || ends_blank name); [done|].
    apply result_bind_inv in Hh as (fs' & Hfs & [= <-]). by rewrite (IH fs').
Qed.

Lemma parse_fields_headers fields : Forall wf_field fields → parse_fields (f_header <$> fields) = Ok fields.
Proof.
  induction 1 as [|f fields Hf Hfs IH]; [done|].
  change (f :: fields) with ([f] ++ fields). rewrite fmap_app. by apply parse_fields_app.
Qed.

Lemma named_app fs gs w : named (fs ++ gs) w = named fs w ++ named gs w.
Proof. unfold named. by rewrite filter_app, bind_app, fmap_app. Qed.

(** A framing header is never dropped. *)
Lemma framing_not_dropped fields up f w :
  w ∈ [lit "content-length"; lit "transfer-encoding"] →
  eq_ignore_case (f_name f) w = true → dropped fields up f = false.
Proof.
  intros Hw Hf. apply eq_ignore_case_eq in Hf. unfold dropped, is_hop_by_hop, is_framing_header.
  cbn [existsb]. rewrite !(eq_ignore_case_lower _ _ _ Hf).
  rewrite !elem_of_cons in Hw. destruct Hw as [->|[->|?]]; [by destruct up..|set_solver].
Qed.

(** Keeping only what is not dropped keeps every value of a framing header. *)
Lemma named_kept all fields up w :
  w ∈ [lit "content-length"; lit "transfer-encoding"] →
  named (filter (λ f, dropped all up f = false) fields) w = named fields w.
Proof.
  intros Hw. unfold named. f_equal. f_equal. rewrite list_filter_filter.
  apply list_filter_iff. intros f. split; [tauto|]. intros Hf. split; [done|].
  by apply (framing_not_dropped all up f w).
Qed.

Lemma hop_by_hop_dropped all fields up w :
  w ∈ [lit "connection"; lit "keep-alive"; lit "proxy-connection"; lit "proxy-authorization"; lit "te"] →
  filter (λ f, eq_ignore_case (f_name f) w = true) (filter (λ f, dropped all up f = false) fields) = [].
Proof.
  intros Hw. apply elem_of_nil_inv. intros f.
  rewrite !list_elem_of_filter. intros (Hf & Hd & _). apply eq_ignore_case_eq in Hf.
  unfold dropped, is_hop_by_hop in Hd. cbn [existsb] in Hd.
  rewrite !(eq_ignore_case_lower _ _ _ Hf) in Hd.
  rewrite !elem_of_cons in Hw.
  destruct Hw as [->|[->|[->|[->|[->|?]]]]]; [done..|set_solver].
Qed.

Lemma parse_fields_sublist headers fields :
  parse_fields headers = Ok fields → (f_header <$> fields) `sublist_of` headers.
Proof.
  revert fields; induction headers as [|h headers IH]; intros fields Hp; cbn [parse_fields] in Hp.
  - by injection Hp as <-.
  - destruct (starts_blank h); [done|].
    destruct (split_once ":" h) as [[name value]|]; [|by apply sublist_cons, IH].
    destruct (bool_decide (name = []) || ends_blank name); [done|].
    apply result_bind_inv in Hp as (fs & Hfs & [= <-]). by apply sublist_skip, IH.
Qed.

Lemma kept_sublist (P : Field → Prop) `{∀ f, Decision (P f)} fields :
  (f_header <$> filter P fields) `sublist_of` (f_header <$> fields).
Proof.
  induction fields as [|f fields IH]; [done|]. rewrite filter_cons.
  destruct (decide (P f)); csimpl; [by apply sublist_skip|by apply sublist_cons].
Qed.

(** *** Lines as a recipient that accepts a bare line feed sees them *)

(** [strip_suffix] of a carriage return *)
Definition strip_cr (l : bytes) : bytes :=
  match reverse l with b :: r => if byteb b x0d then reverse r else l | [] => l end.
Definition lenient_lines (l : bytes) : list bytes := strip_cr <$> split_on x0a l.

Lemma strip_cr_crlf l : strip_cr (l ++ [x0d]) = l.
Proof. unfold strip_cr. by rewrite reverse_snoc, byteb_refl, reverse_involutive. Qed.

Lemma lenient_unlines ls : Forall (λ l, x0a ∉ l) ls → lenient_lines (unlines ls) = ls ++ [[]].
Proof.
  unfold lenient_lines. induction 1 as [|l ls Hl Hls IH]; [done|].
  change (unlines (l :: ls)) with ((l ++ crlf) ++ unlines ls).
  replace ((l ++ crlf) ++ unlines ls) with ((l ++ [x0d]) ++ x0a :: unlines ls)
    by (unfold crlf; by rewrite <-!app_assoc).
  rewrite split_on_app by set_solver. csimpl. by rewrite strip_cr_crlf, IH.
Qed.

Lemma splitn3_free line method rest :
  splitn3 line = (method, rest) → x0a ∉ line →
  x0a ∉ method ∧ ∀ target version, rest = Some (target, Some version) → x0a ∉ version.
Proof.
  unfold splitn3. intros Hs Hl.
  destruct (split_once " " line) as [[a b]|] eqn:E1; [|by injection Hs as <- <-].
  apply split_once_spec in E1 as [-> _].
  destruct (split_once " " b) as [[c d]|] eqn:E2; [apply split_once_spec in E2 as [-> _]|];
    injection Hs as <- <-; (split; [set_solver|]); intros ? ? [= <- <-]; set_solver.
Qed.

(** The version the proxy judges the request by. *)
Definition request_version (line : bytes) : bytes :=
  default (lit "HTTP/1.1") ((splitn3 line).2 ≫= snd).

(** What a URL parser that follows the WHATWG standard guarantees. *)
Definition url_text_safe (url_parse : bytes → option Url) : Prop :=
  ∀ target u, url_parse target = Some u →
    x0a ∉ path u ∧ ∀ q, query u = Some q → x0a ∉ q.

(** [rewrite_absolute_request] taken apart. *)
Lemma rewrite_inv url_parse line headers host port fwd :
  rewrite_absolute_request url_parse line headers = Ok (host, port, fwd) →
  ∃ url fields origin,
    parse_fields headers = Ok fields ∧ port ≠ 0 ∧
    request_framing (request_version line) (named fields (lit "content-length"))
      (named fields (lit "transfer-encoding")) = Ok (framing fwd) ∧
    head fwd = unlines (forwarded_lines (splitn3 line).1 origin (request_version line)
                          fields (upgrade fwd)) ∧
    (∃ target, fst <$> (splitn3 line).2 = Some target ∧ url_parse target = Some url) ∧
    scheme url = lit "http" ∧ host_text <$> url_host url = Some host ∧ port = default 80 (url_port url) ∧
    upgrade fwd = wants_upgrade fields ∧
    origin = (if bool_decide (path url = []) then lit "/" else path url)
             ++ match query url with Some q => lit "?" ++ q | None => [] end.
Proof.
  unfold rewrite_absolute_request, request_version.
  destruct (splitn3 line) as [method rest]. intros H.
  apply result_bind_inv in H as ([target version] & Hrest%ok_or_inv & H). subst rest. cbn [fst snd].
  apply result_bind_inv in H as (url & Hurl%ok_or_inv & H).
  destruct (negb (bytes_eqb (scheme url) (lit "http"))) eqn:Es; [done|].
  apply result_bind_inv in H as (h & Hh%ok_or_inv & H).
  destruct (default 80 (url_port url) =? 0) eqn:Ep; [done|]. reflect_bools.
  apply result_bind_inv in H as (fields & Hfields & H).
  apply result_bind_inv in H as (fr & Hfr & H). injection H as <- <- <-.
  apply bool_decide_eq_true_1 in Es.
  exists url, fields. eexists. split_and!; try done; [by exists target|].
  destruct (query url); [done|]. by rewrite app_nil_r.
Qed.

Lemma forward_line_field up :
  parse_fields [forward_line up] =
    Ok [MkField (forward_line up) (lit "Connection")
          (if up then lit "Upgrade, close" else lit "close")].
Proof. by destruct up. Qed.

(** The header lines of the rewritten request parse to the kept fields and the
    connection line. *)
Lemma forwarded_fields headers fields up :
  parse_fields headers = Ok fields →
  parse_fields ((f_header <$> filter (λ f, dropped fields up f = false) fields) ++ [forward_line up]) =
    Ok (filter (λ f, dropped fields up f = false) fields
        ++ [MkField (forward_line up) (lit "Connection")
              (if up then lit "Upgrade, close" else lit "close")]).
Proof.
  intros Hp%parse_fields_wf. apply parse_fields_app; [|apply forward_line_field].
  apply parse_fields_headers. apply Forall_forall. intros f [_ Hf]%list_elem_of_filter.
  by eapply Forall_forall in Hp.
Qed.

(** *** What is removed

    A [Connection] field nominates the names in its list. *)
Definition nominated (fields : list Field) (name : bytes) : Prop :=
  ∃ g token, g ∈ fields ∧ lower (f_name g) = lit "connection" ∧ token ∈ split_on "," (f_value g) ∧
             lower (trim_blanks token) = name.
(** A protocol switch: [upgrade] is nominated and there is an [Upgrade] field. *)
Definition switches (fields : list Field) : Prop :=
  nominated fields (lit "upgrade") ∧ ∃ g, g ∈ fields ∧ lower (f_name g) = lit "upgrade".
Definition removed (fields : list Field) (f : Field) : Prop :=
  let name := lower (f_name f) in
  name ∈ [lit "connection"; lit "keep-alive"; lit "proxy-connection"; lit "proxy-authorization"; lit "te"] ∨
  (name = lit "upgrade" ∧ ¬ switches fields) ∨
  (nominated fields name ∧ name ≠ lit "upgrade" ∧
   name ∉ [lit "host"; lit "content-length"; lit "transfer-encoding"]).

Lemma eq_ignore_case_lit name w : lower w = w → eq_ignore_case name w = true ↔ lower name = w.
Proof. intros Hw. by rewrite eq_ignore_case_eq, Hw. Qed.

Lemma existsb_names name ws : Forall (λ w, lower w = w) ws → existsb (eq_ignore_case name) ws = true ↔ lower name ∈ ws.
Proof.
  intros Hws. rewrite existsb_exists. split.
  - intros (w & Hw%list_elem_of_In & He). rewrite Forall_forall in Hws. specialize (Hws w Hw).
    by apply eq_ignore_case_lit in He as ->.
  - intros Hin. exists (lower name). split; [by apply list_elem_of_In|]. rewrite Forall_forall in Hws.
    apply eq_ignore_case_lit; [by apply Hws|done].
Qed.

Lemma named_nominated fields name :
  existsb (λ option, eq_ignore_case option name) (named fields (lit "connection")) = true ↔ nominated fields (lower name).
Proof.
  unfold named, nominated. rewrite existsb_exists. split.
  - intros (o & Ho%list_elem_of_In & He). apply list_elem_of_fmap in Ho as (token & -> & Ht).
    apply list_elem_of_bind in Ht as (g & Hg & [Hn Hin]%list_elem_of_filter).
    exists g, token. apply eq_ignore_case_eq in He. by apply eq_ignore_case_lit in Hn.
  - intros (g & token & Hg & Hn & Ht & He). exists (trim_blanks token). rewrite eq_ignore_case_eq. split; [|done].
    apply list_elem_of_In, list_elem_of_fmap. exists token. split; [done|]. apply list_elem_of_bind. exists g.
    rewrite list_elem_of_filter. split; [done|]. by rewrite eq_ignore_case_lit.
Qed.

Lemma wants_upgrade_iff fields : wants_upgrade fields = true ↔ switches fields.
Proof.
  unfold wants_upgrade, switches. rewrite andb_true_iff, named_nominated, existsb_exists.
  change (lower (lit "upgrade")) with (lit "upgrade").
  by setoid_rewrite eq_ignore_case_lit; [setoid_rewrite <-list_elem_of_In|..].
Qed.

Lemma dropped_iff fields f : dropped fields (wants_upgrade fields) f = true ↔ removed fields f.
Proof.
  unfold dropped, removed, is_hop_by_hop, is_framing_header. cbv zeta. rewrite <-wants_upgrade_iff.
  rewrite !orb_true_iff, !andb_true_iff, !negb_true_iff, named_nominated, <-!not_true_iff_false,
    andb_true_iff, !existsb_names, !eq_ignore_case_lit by (by repeat constructor).
  set (up := wants_upgrade fields = true).
  destruct (decide (lower (f_name f) = lit "upgrade")) as [Hn|Hn]; [|tauto].
  assert (Decision up) as [Hu|Hu] by (unfold up; apply _); [|tauto].
  rewrite Hn. assert (lit "upgrade" ∉ [lit "connection"; lit "keep-alive"; lit "proxy-connection";
    lit "proxy-authorization"; lit "te"]) by (vm_compute; set_solver). tauto.
Qed.

(** The fields that are dropped and those that are kept, with their order. *)
Lemma kept_partition fields :
  let kept := filter (λ f, dropped fields (wants_upgrade fields) f = false) fields in
  ∃ gone, kept `sublist_of` fields ∧ kept ++ gone ≡ₚ fields ∧ Forall (removed fields) gone ∧
          Forall (λ f, ¬ removed fields f) kept.
Proof.
  cbv zeta. exists (filter (λ f, ¬ dropped fields (wants_upgrade fields) f = false) fields).
  split_and!.
  - apply sublist_filter.
  - apply filter_app_complement.
  - apply Forall_forall. intros f [Hf _]%list_elem_of_filter. apply dropped_iff. by apply not_false_iff_true.
  - apply Forall_forall. intros f [Hf _]%list_elem_of_filter. rewrite <-dropped_iff. congruence.
Qed.

(** The lines of the head, for a recipient that takes a bare line feed for a line
    end. *)
Lemma rewritten_lines url_parse line headers url target origin fields up kept :
  url_text_safe url_parse → url_parse target = Some url →
  origin = (if bool_decide (path url = []) then lit "/" else path url)
           ++ match query url with Some q => lit "?" ++ q | None => [] end →
  kept = f_header <$> filter (λ f, dropped fields up f = false) fields → kept `sublist_of` headers →
  Forall (λ l, x0a ∉ l) (line :: headers) →
  lenient_lines (unlines (forwarded_lines (splitn3 line).1 origin (request_version line) fields up)) =
    ((splitn3 line).1 ++ lit " " ++ origin ++ lit " " ++ request_version line)
      :: (kept ++ [forward_line up]) ++ [[]; []].
Proof.
  intros Hurl Ht Horigin Hkept Hsub [Hl Hh]%Forall_cons.
  assert (Ho : x0a ∉ origin).
  { destruct (Hurl _ _ Ht) as [Hpath Hq]. rewrite Horigin, elem_of_app. intros [Ho|Ho].
    - case_bool_decide; [|done]. unfold lit in Ho. vm_compute in Ho. set_solver.
    - destruct (query url) as [q|]; [|set_solver].
      rewrite elem_of_app in Ho. destruct Ho as [Ho|Ho]; [|by eapply Hq].
      vm_compute in Ho. set_solver. }
  destruct (splitn3 line) as [method rest] eqn:Es.
  destruct (splitn3_free _ _ _ Es Hl) as [Hm Hv].
  assert (x0a ∉ request_version line).
  { unfold request_version. rewrite Es. destruct rest as [[t [v|]]|]; simpl; [by eapply Hv|..];
      vm_compute; set_solver. }
  unfold forwarded_lines. rewrite <-Hkept. cbn [fst].
  rewrite lenient_unlines; [by rewrite <-!app_assoc|].
  rewrite Forall_app, Forall_app. split_and!.
  - rewrite Forall_singleton, !elem_of_app. vm_compute. set_solver.
  - apply Forall_forall. intros l Hlk. eapply Forall_forall in Hh; [done|].
    by eapply elem_of_sublist.
  - destruct up; repeat constructor; vm_compute; set_solver.
Qed.

(** C15: The origin sees the request the proxy saw. Whatever
    [rewrite_absolute_request] accepts, the target is an [http] URL with a host,
    which is dialled at its port (80 by default), and the head it builds is a
    request line with the client's method, the URL's path and query and the
    client's version, header lines that are the client's own, in order, and one
    [Connection] line. Exactly these fields are left out: [Connection],
    [Keep-Alive], [Proxy-Connection], [Proxy-Authorization] and [TE]; [Upgrade],
    unless the request switches the protocol; and the fields a [Connection] field
    nominates, except [Host], [Content-Length] and [Transfer-Encoding]. Reading
    these lines again gives the body framing the proxy will forward by, and the
    connection options are exactly the proxy's. When the client's text has no
    bare line feed, a recipient that accepts bare line feeds as line ends sees
    the same lines. *)
Theorem rewrite_keeps_framing url_parse line headers host port fwd :
  url_text_safe url_parse →
  rewrite_absolute_request url_parse line headers = Ok (host, port, fwd) →
  ∃ request_line url target origin all kept gone,
    let lines := (f_header <$> kept) ++ [forward_line (upgrade fwd)] in
    let fields := kept ++ [MkField (forward_line (upgrade fwd)) (lit "Connection")
                             (if upgrade fwd then lit "Upgrade, close" else lit "close")] in
    request_line = (splitn3 line).1 ++ lit " " ++ origin ++ lit " " ++ request_version line ∧
    fst <$> (splitn3 line).2 = Some target ∧ url_parse target = Some url ∧ scheme url = lit "http" ∧
    host_text <$> url_host url = Some host ∧ port = default 80 (url_port url) ∧
    origin = (if bool_decide (path url = []) then lit "/" else path url)
             ++ match query url with Some q => lit "?" ++ q | None => [] end ∧
    head fwd = unlines (request_line :: lines ++ [[]]) ∧
    parse_fields headers = Ok all ∧ (f_header <$> kept) `sublist_of` headers ∧
    kept `sublist_of` all ∧ kept ++ gone ≡ₚ all ∧ Forall (removed all) gone ∧ Forall (λ f, ¬ removed all f) kept ∧
    (upgrade fwd = true ↔ switches all) ∧
    parse_fields lines = Ok fields ∧
    request_framing (request_version line) (named fields (lit "content-length"))
      (named fields (lit "transfer-encoding")) = Ok (framing fwd) ∧
    named fields (lit "connection") = (if upgrade fwd then [lit "Upgrade"; lit "close"] else [lit "close"]) ∧
    (Forall (λ l, x0a ∉ l) (line :: headers) →
     lenient_lines (head fwd) = request_line :: lines ++ [[]; []]).
Proof.
  intros Hurl (url & fields & origin & Hp & _ & Hfr & Hhead & (target & Htarget & Ht) & Hscheme & Hhost & Hport &
               Hup & Horigin)%rewrite_inv.
  pose proof (forwarded_fields _ _ (upgrade fwd) Hp) as Hfields.
  destruct (kept_partition fields) as (gone & Hsub & Hperm & Hgone & Hkept). rewrite <-Hup in Hsub, Hperm, Hkept.
  assert (Hheaders : (f_header <$> filter (λ f, dropped fields (upgrade fwd) f = false) fields) `sublist_of` headers)
    by (etrans; [apply kept_sublist|by apply parse_fields_sublist]).
  assert (Hcl : ∀ w, w ∈ [lit "content-length"; lit "transfer-encoding"] →
    named (filter (λ f, dropped fields (upgrade fwd) f = false) fields
           ++ [MkField (forward_line (upgrade fwd)) (lit "Connection")
                 (if upgrade fwd then lit "Upgrade, close" else lit "close")]) w = named fields w).
  { intros w Hw. rewrite named_app, named_kept by done.
    rewrite !elem_of_cons in Hw. destruct Hw as [->|[->|?]]; [..|set_solver]; by rewrite app_nil_r. }
  eexists _, url, target, origin, fields, _, gone. split_and!; try done.
  - rewrite Hhead. unfold forwarded_lines. by rewrite <-!app_assoc.
  - by rewrite Hup, wants_upgrade_iff.
  - by rewrite !Hcl by set_solver.
  - rewrite named_app. unfold named at 1. rewrite hop_by_hop_dropped by set_solver. by destruct (upgrade fwd).
  - intros Hlf. rewrite Hhead. by eapply (rewritten_lines url_parse line headers url target).
Qed.

Lemma parse_uint_no_colon max s n : parse_uint max s = Some n → (":"%byte : byte) ∉ s.
Proof.
  unfold parse_uint. intros H Hin.
  set (d := match s with b :: r => if byteb b "+" then r else s | [] => s end) in *.
  assert (Hd : (":"%byte : byte) ∈ d).
  { unfold d. destruct s as [|b r]; [done|]. destruct (byteb b "+") eqn:E; [|done].
    apply byteb_eq in E as ->. by apply elem_of_cons in Hin as [?|?]. }
  destruct (bool_decide (d = [])); [done|]. destruct (forallb is_digit d) eqn:Ef; [|done].
  rewrite forallb_forall in Ef. apply list_elem_of_In in Hd. by apply Ef in Hd.
Qed.

(** [parse_connect_target] accepts exactly [host:port] with a host free of
    colons and [[host]:port], with a non-empty host and a port that parses as a
    [u16] other than zero, and returns that host and port. *)
Theorem connect_target_iff target host port :
  parse_connect_target target = Ok (host, port) ↔
  host ≠ [] ∧ port ≠ 0 ∧ ∃ text, parse_uint U16_MAX text = Some port ∧
    ((target = lit "[" ++ host ++ lit "]:" ++ text ∧ ("]"%byte : byte) ∉ host) ∨
     (starts_with (lit "[") target = false ∧ target = host ++ lit ":" ++ text
      ∧ (":"%byte : byte) ∉ host)).
Proof.
  unfold parse_connect_target, strip_prefix.
  destruct (starts_with (lit "[") target) eqn:Eb.
  - apply starts_with_spec in Eb as [rest ->]. rewrite drop_app_length. split.
    + intros H. apply result_bind_inv in H as ([h after] & Hs%ok_or_inv & H).
      apply split_once_spec in Hs as [-> Hh].
      apply result_bind_inv in H as (text & Ht%ok_or_inv & H).
      destruct (starts_with (lit ":") after) eqn:Ec; [|done]. injection Ht as <-.
      apply starts_with_spec in Ec as [text ->]. change (drop 1 (lit ":" ++ text)) with text in H.
      apply result_bind_inv in H as (p & Hp%ok_or_inv & H).
      destruct (bool_decide (h = []) || (p =? 0)) eqn:E; [done|]. reflect_bools. simplify_eq.
      split_and!; [done..|]. exists text. split; [done|]. left. by split.
    + intros (Hh & Hp & text & Ht & [[Heq Hn]|[? _]]); [|done].
      apply app_inv_head in Heq as ->.
      rewrite (proj2 (split_once_spec "]" _ host (lit ":" ++ text))) by done. simpl.
      rewrite drop_0, Ht. simpl. rewrite bool_decide_eq_false_2 by done.
      apply Z.eqb_neq in Hp. by rewrite Hp.
  - split.
    + intros H. apply result_bind_inv in H as ([h text] & Hs%ok_or_inv & H).
      apply rsplit_once_spec in Hs as [-> Ht].
      apply result_bind_inv in H as (p & Hp%ok_or_inv & H).
      destruct (bool_decide (h = []) || existsb (byteb ":") h || (p =? 0)) eqn:E; [done|].
      reflect_bools. simplify_eq. split_and!; [done..|]. exists text. split; [done|]. right.
      split_and!; [done|done|]. intros Hin.
      match goal with Hx : existsb _ _ = false |- _ => apply not_true_iff_false in Hx; apply Hx end.
      apply existsb_exists. exists ":"%byte. split; [by apply list_elem_of_In|done].
    + intros (Hh & Hp & text & Ht & [[-> _]|(_ & -> & Hn)]); [by destruct (host ++ _)|].
      rewrite (proj2 (rsplit_once_spec ":" _ host text))
        by (split; [done|by eapply parse_uint_no_colon]).
      simpl. rewrite Ht. simpl. rewrite bool_decide_eq_false_2 by done.
      replace (existsb (byteb ":") host) with false.
      * apply Z.eqb_neq in Hp. by rewrite Hp.
      * symmetry. apply not_true_iff_false. intros (b & Hb & Hbb)%existsb_exists.
        apply byteb_eq in Hbb as <-. apply Hn. by apply list_elem_of_In.
Qed.

(** ** Witnesses *)

(** A parser that knows one URL. *)
Definition demo_url_parse (t : bytes) : option Url :=
  if bytes_eqb t (lit "http://a.test/p?q")
  then Some (MkUrl (lit "http") (Some (Domain (lit "a.test"))) None (lit "/p") (Some (lit "q")))
  else None.

Definition demo_headers : list bytes :=
  [lit "Host: a.test"; lit "Content-Length: 5"; lit "Connection: X-Hop, content-length";
   lit "X-Hop: 1"; lit "Proxy-Authorization: Basic eA=="; lit "Accept: *"].

Lemma demo_url_safe : url_text_safe demo_url_parse.
Proof.
  intros t u. unfold demo_url_parse. destruct (bytes_eqb _ _); [|done]. intros [= <-].
  split; [vm_compute; set_solver|]. intros q [= <-]. vm_compute. set_solver.
Qed.

Lemma rewrite_keeps_framing_witness :
  ∃ fwd, rewrite_absolute_request demo_url_parse (lit "POST http://a.test/p?q HTTP/1.1") demo_headers
           = Ok (lit "a.test", 80, fwd)
    ∧ framing fwd = Length 5
    ∧ ∃ first origin kept,
        first = lit "POST" ++ lit " " ++ origin ++ lit " " ++ lit "HTTP/1.1"
        ∧ head fwd = unlines (first :: ((f_header <$> kept) ++ [forward_line (upgrade fwd)]) ++ [[]])
        ∧ Forall (λ f, lower (f_name f) ≠ lit "x-hop") kept.
Proof.
  eexists. split; [vm_compute; reflexivity|]. split; [reflexivity|].
  edestruct (rewrite_keeps_framing demo_url_parse (lit "POST http://a.test/p?q HTTP/1.1") demo_headers
               (lit "a.test") 80)
    as (first & url & target & origin & all & kept & gone & Hfirst & _ & _ & _ & _ & _ & _ & Hhead & Hall & _ & _ & _ & _
        & Hkept & _);
    [exact demo_url_safe|vm_compute; reflexivity|].
  exists first, origin, kept. split; [exact Hfirst|]. split; [exact Hhead|].
  eapply Forall_impl; [exact Hkept|]. intros f Hf Hname. apply Hf. right. right. rewrite Hname.
  split; [|split; [discriminate|vm_compute; set_solver]].
  vm_compute in Hall. injection Hall as <-.
  exists (MkField (lit "Connection: X-Hop, content-length") (lit "Connection") (lit "X-Hop, content-length")), (lit "X-Hop").
  split; [right; right; left|]. split; [reflexivity|]. split; [left|reflexivity].
Defined.

Definition demo_stream : bytes :=
  lit "ONNECT a.test:443 HTTP/1.1" ++ crlf ++ lit "Host: a.test" ++ crlfcrlf ++ lit "hello".

Lemma request_head_cut_independent_witness :
  ∃ over rest,
    read_proxy_request demo_url_parse (λ _, None) "C"
      (MkHttpClient [Ok (take 20 demo_stream); Ok (drop 20 demo_stream); Ok (lit "more")] [] false) =
      (Ok (MkParsed (lit "a.test") 443 None None over), MkHttpClient rest [] false)
    ∧ over ++ incoming rest = lit "hellomore".
Proof.
  destruct (request_head_cut_independent demo_url_parse (λ _, None) "C"
              [Ok (take 20 demo_stream); Ok (drop 20 demo_stream); Ok (lit "more")] [] false 41)
    as (over & rest & Hrun & Hover).
  - repeat constructor; vm_compute; (discriminate || lia).
  - lia.
  - vm_compute. reflexivity.
  - exists over, rest. split; [exact Hrun|exact Hover].
Defined.

Lemma connect_target_example :
  parse_connect_target (lit "[2001:db8::1]:443") = Ok (lit "2001:db8::1", 443)
  ∧ parse_connect_target (lit "a.test:0") = Err connect_target_invalid
  ∧ parse_connect_target (lit "::1:443") = Err connect_target_invalid.
Proof. by vm_compute. Qed.

(** The text condition of [rewrite_keeps_framing] is needed: the code does not
    reject a bare line feed inside a header, so a recipient that takes it for a
    line end sees a field the proxy did not. *)
Lemma bare_lf_passes :
  ∃ fwd, rewrite_absolute_request demo_url_parse (lit "POST http://a.test/p?q HTTP/1.1")
           [lit "X: a" ++ [x0a] ++ lit "Transfer-Encoding: chunked"] = Ok (lit "a.test", 80, fwd)
    ∧ framing fwd = Empty
    ∧ lit "Transfer-Encoding: chunked" ∈ lenient_lines (head fwd).
Proof.
  eexists. split; [vm_compute; reflexivity|]. split; [reflexivity|]. vm_compute.
  right. right. left.
Qed.
