(* ===== verification/HttpRelay.v ===== *)
(** * HttpRelay: forwarding one request and its response ([src/http_proxy.rs])

    The request body read from a buffered client connection and sent upstream in
    batches, the response heads rewritten on their way to the client, and
    [serve], which ties the two to the handshake and the upstream session. *)
From S2P Require Import Prelude Bytes Text Ip AsyncIo SnellWire SnellRecord SnellReader Traffic.
From S2P Require Import SnellClient Socks5 HttpRequest.
Local Open Scope Z_scope.

Definition BODY_BATCH_SIZE : nat := Z.to_nat 32768.
Definition CHUNK_LINE_LIMIT : nat := Z.to_nat 4096.
Definition TRAILER_LIMIT : nat := Z.to_nat 8192.
Definition RESPONSE_HEAD_LIMIT : nat := Z.to_nat 65536.

(** Where request bytes go. *)
Class BodySink (S : Type) : Type := { send : bytes → M S unit }.
(** Where response bytes come from; an empty chunk is the end. *)
Class ChunkSource (S : Type) : Type := { read_chunk : M S bytes }.

#[global] Arguments send {_ _} _ : simpl never.
#[global] Arguments read_chunk {_ _} : simpl never.

(** A sink that records what it is sent, and a source that replays chunks. *)
#[export] Instance recording_sink : BodySink (list bytes) := {
  send b := λ s, (Ok tt, s ++ [b])
}.
#[export] Instance replay_source : ChunkSource (list (result bytes)) := {
  read_chunk := λ s, match s with [] => (Ok [], []) | r :: rs => (r, rs) end
}.

(** ** The request body *)

Section Body.
Context {S : Type} `{BodySink S}.

(** The [BufReader] (its buffer and what reads of the client will return), the
    sink, and the [output] not sent yet. *)
Record Upload : Type := MkUpload {
  buffered : bytes;
  client_reads : list (result bytes);
  sink : S;
  output : bytes
}.

Definition set_buffered (b : bytes) (u : Upload) : Upload :=
  MkUpload b (client_reads u) (sink u) (output u).
Definition push_output (l : bytes) (u : Upload) : Upload :=
  MkUpload (buffered u) (client_reads u) (sink u) (output u ++ l).

Definition send_output : M Upload unit :=
  u ← get; zoom sink (λ k u, MkUpload (buffered u) (client_reads u) k (output u)) (send (output u)).
Definition clear_output (u : Upload) : Upload :=
  MkUpload (buffered u) (client_reads u) (sink u) [].

(** [BufReader::fill_buf] *)
Definition fill_buf : M Upload bytes := λ u,
  if bool_decide (buffered u = []) then
    match client_reads u with
    | [] => (Ok [], u)
    | Ok b :: rs => (Ok b, MkUpload b rs (sink u) (output u))
    | Err e :: rs => (Err e, MkUpload [] rs (sink u) (output u))
    end
  else (Ok (buffered u), u).
(** [BufReader::consume] *)
Definition consume (n : nat) : M Upload unit := modify (λ u, set_buffered (drop n (buffered u)) u).

Definition fill_body : M Upload bytes :=
  u ← get;
  (if bool_decide (buffered u = []) && negb (bool_decide (output u = []))
   then send_output;; modify clear_output else mret tt);;
  buffered ← fill_buf;
  if bool_decide (buffered = []) then bail "unexpected EOF in HTTP request body" else mret buffered.

(** [fuel] bounds the turns of each loop; every turn takes a byte off the
    client's stream. *)
Fixpoint copy_body_bytes (fuel : nat) (remaining : Z) : M Upload unit :=
  if remaining =? 0 then mret tt
  else match fuel with
       | O => throw OutOfFuel
       | Datatypes.S fuel' =>
           buffered ← fill_body;
           let take_ := Nat.min (length buffered) (Z.to_nat remaining) in
           modify (push_output (take take_ buffered));;
           consume take_;;
           u ← get;
           (if (BODY_BATCH_SIZE <=? length (output u))%nat
            then send_output;; modify clear_output else mret tt);;
           copy_body_bytes fuel' (remaining - zlen (take take_ buffered))
       end.

Definition ends_with_crlf (l : bytes) : bool := starts_with (reverse crlf) (reverse l).

Fixpoint read_body_line (fuel : nat) (limit : nat) (line : bytes) : M Upload bytes :=
  match fuel with
  | O => throw OutOfFuel
  | Datatypes.S fuel' =>
      buffered ← fill_body;
      let '(take_, done) := match position (byteb x0a) buffered with
                            | Some index => (Datatypes.S index, true)
                            | None => (length buffered, false)
                            end in
      if (limit <? length line + take_)%nat then bail "HTTP request chunk line is too long"
      else
        let line := line ++ take take_ buffered in
        consume take_;;
        if done then
          if negb (ends_with_crlf line) then bail "HTTP request chunk line is malformed"
          else mret line
        else read_body_line fuel' limit line
  end.

(** The line always ends with a line end here. *)
Definition parse_chunk_size (line : bytes) : result Z :=
  let line := take (length line - 2) line in
  let size := match position (byteb ";") line with Some index => take index line | None => line end in
  let size := trim_end_matches is_blank size in
  if bool_decide (size = []) || (15 <? length size)%nat || negb (forallb is_hexdigit size)
  then Err (Bail "HTTP request chunk size is invalid")
  else Ok (hex_fold size).

Fixpoint copy_trailers (fuel line_fuel : nat) (trailer_bytes : nat) : M Upload unit :=
  match fuel with
  | O => throw OutOfFuel
  | Datatypes.S fuel' =>
      line ← read_body_line line_fuel TRAILER_LIMIT [];
      let trailer_bytes := (trailer_bytes + length line)%nat in
      if (TRAILER_LIMIT <? trailer_bytes)%nat then bail "HTTP request trailers are too large"
      else
        modify (push_output line);;
        if bytes_eqb line crlf then mret tt else copy_trailers fuel' line_fuel trailer_bytes
  end.

Fixpoint copy_chunks (fuel line_fuel : nat) : M Upload unit :=
  match fuel with
  | O => throw OutOfFuel
  | Datatypes.S fuel' =>
      line ← read_body_line line_fuel CHUNK_LINE_LIMIT [];
      size ← lift (parse_chunk_size line);
      modify (push_output line);;
      if size =? 0 then copy_trailers line_fuel line_fuel 0
      else
        copy_body_bytes line_fuel size;;
        line ← read_body_line line_fuel 2 [];
        if negb (bytes_eqb line crlf) then bail "HTTP request chunk is malformed"
        else modify (push_output line);; copy_chunks fuel' line_fuel
  end.

(** [forward_body]; the head is in [output] when it starts. *)
Definition forward_body (fuel : nat) (framing : BodyFraming) : M Upload unit :=
  match framing with
  | Empty => mret tt
  | Length length => copy_body_bytes fuel length
  | Chunked => copy_chunks fuel fuel
  end;;
  u ← get;
  if bool_decide (output u = []) then mret tt else send_output.
End Body.
Arguments Upload S : clear implicits.

(** ** The response head *)

Definition find_head_end_at (buffer : bytes) (index : nat) : option nat :=
  match drop index buffer with
  | b :: rest =>
      if byteb b x0a then
        match rest with
        | c :: rest' =>
            if byteb c x0a then Some (index + 2)%nat
            else match rest' with
                 | d :: _ => if byteb c x0d && byteb d x0a then Some (index + 3)%nat else None
                 | [] => None
                 end
        | [] => None
        end
      else None
  | [] => None
  end.

Fixpoint find_map {A B} (f : A → option B) (l : list A) : option B :=
  match l with [] => None | x :: l' => match f x with Some y => Some y | None => find_map f l' end end.

Definition find_head_end (buffer : bytes) (from : nat) : option nat :=
  find_map (find_head_end_at buffer) (seq from (length buffer - from)).

Definition is_interim_response (head : bytes) : result bool :=
  match head with
  | h :: t1 :: t2 :: p :: slash :: major :: dot :: minor :: space :: s0 :: s1 :: s2 :: _ =>
      if bytes_eqb [h; t1; t2; p; slash; dot; space] (lit "HTTP/. ")
         && is_digit major && is_digit minor && is_digit s0 && is_digit s1 && is_digit s2
      then Ok (byteb s0 "1" && negb (bytes_eqb [s0; s1; s2] (lit "101")))
      else Err (Bail "HTTP response status line is invalid")
  | _ => Err (Bail "HTTP response status line is invalid")
  end.

(** The name of a header line: what precedes its colon, in lower case. *)
Definition name_of (line : bytes) : option bytes := lower ∘ fst <$> split_once ":" line.

Definition head_lines (head : bytes) : list bytes :=
  filter (λ line, line ≠ []) (strip_cr <$> split_on x0a head).

(** What the [Connection] lines name. *)
Definition connection_options (headers : list bytes) : list bytes :=
  filter (λ line, name_of line = Some (lit "connection")) headers
    ≫= λ line, (λ option, lower (trim_ascii option)) <$> split_on "," (drop 11 line).

Definition response_dropped (options : list bytes) (name : bytes) : bool :=
  existsb (bytes_eqb name) [lit "connection"; lit "keep-alive"; lit "proxy-connection"]
  || (negb (existsb (bytes_eqb name) [lit "content-length"; lit "transfer-encoding"])
      && existsb (λ option, bytes_eqb option name) options).

(** The loop over the header lines; a folded line shares the fate of the line
    before. *)
Fixpoint keep_lines (options : list bytes) (keep : bool) (headers : list bytes) : list bytes :=
  match headers with
  | [] => []
  | line :: headers' =>
      let keep := if starts_blank line then keep
                  else match name_of line with
                       | None => true
                       | Some name => negb (response_dropped options name)
                       end in
      if keep then line :: keep_lines options keep headers' else keep_lines options keep headers'
  end.

(** The source indexes the status line, which every caller has checked. *)
Definition close_response_head (head : bytes) : bytes :=
  let lines := head_lines head in
  let headers := tail lines in
  unlines ([default [] (hd_error lines)] ++ keep_lines (connection_options headers) true headers
           ++ [lit "Connection: close"; []]).

Section Response.
Context {S W : Type} `{ChunkSource S} `{AsyncWrite W}.

Definition on_source {A} : M S A → M (S * W) A := zoom fst (λ t s, (t, s.2)).
Definition on_client {A} : M W A → M (S * W) A := zoom snd (λ k s, (s.1, k)).

(** The [loop] of [forward_response_head] from a buffer and a search position;
    each turn takes a chunk or a head, and [fuel] bounds their number. *)
Fixpoint response_loop (fuel : nat) (buffer : bytes) (searched : nat) : M (S * W) unit :=
  match fuel with
  | O => throw OutOfFuel
  | Datatypes.S fuel' =>
      match find_head_end buffer searched with
      | None =>
          if (RESPONSE_HEAD_LIMIT <? length buffer)%nat
          then bail "HTTP response header is too large"
          else
            chunk ← on_source read_chunk;
            if bool_decide (chunk = []) then bail "HTTP response ended inside its header"
            else response_loop fuel' (buffer ++ chunk) (length buffer - 2)
      | Some end_ =>
          interim ← lift (is_interim_response (take end_ buffer));
          if (interim : bool) then
            on_client (write_all (take end_ buffer));;
            response_loop fuel' (drop end_ buffer) 0
          else
            on_client (write_all (close_response_head (take end_ buffer)));;
            on_client (write_all (drop end_ buffer))
      end
  end.

Definition forward_response_head (fuel : nat) : M (S * W) unit := response_loop fuel [] 0.
End Response.

(** ** Lemmas on the body reader, over the recording sink *)

Section BodyProofs.
Abbreviation Upload := (Upload (list bytes)).
Implicit Types u : Upload.

(** The client's stream from here on, and the bytes on their way upstream. *)
Definition unread u : bytes := buffered u ++ incoming (client_reads u).
Definition pending u : bytes := concat (sink u) ++ output u.

(** Reads of a connection that stays up deliver bytes. *)
Definition body_read (r : result bytes) : Prop :=
  match r with Ok b => b ≠ [] | Err _ => False end.
Definition live u : Prop := Forall body_read (client_reads u).

(** A step that takes [taken] off the client's stream and adds [out]. *)
Definition moved u u' (out taken : bytes) : Prop :=
  pending u' = pending u ++ out ∧ unread u = taken ++ unread u' ∧ (live u → live u').

Lemma moved_refl u : moved u u [] [].
Proof. unfold moved. by rewrite app_nil_r. Qed.

Lemma moved_trans u u1 u2 o1 o2 t1 t2 :
  moved u u1 o1 t1 → moved u1 u2 o2 t2 → moved u u2 (o1 ++ o2) (t1 ++ t2).
Proof.
  intros (Hp1 & Hu1 & Hl1) (Hp2 & Hu2 & Hl2). unfold moved.
  rewrite Hp2, Hp1, Hu1, Hu2, <-!app_assoc. auto.
Qed.

Lemma moved_push u l : moved u (push_output l u) l [].
Proof. unfold moved, pending. simpl. by rewrite app_assoc. Qed.

Lemma moved_consume u n :
  moved u (set_buffered (drop n (buffered u)) u) [] (take n (buffered u)).
Proof.
  unfold moved, pending, unread. simpl. rewrite app_nil_r, app_assoc, take_drop. auto.
Qed.

Lemma moved_rest u u' out taken rest :
  moved u u' out taken → unread u = taken ++ rest → unread u' = rest.
Proof. intros (_ & Hu & _) Hr. rewrite Hu in Hr. by apply app_inv_head in Hr. Qed.

Lemma moved_flush u : moved u (clear_output (MkUpload (buffered u) (client_reads u) (sink u ++ [output u]) (output u))) [] [].
Proof.
  unfold moved, pending. simpl. rewrite concat_app, !app_nil_r. simpl. by rewrite app_nil_r.
Qed.

(** The flush is the only thing the batching does. *)
Lemma flush_if (c : bool) u :
  ∃ u', (if c then send_output;; modify clear_output else mret tt) u = (Ok tt, u')
        ∧ moved u u' [] [] ∧ buffered u' = buffered u.
Proof.
  destruct c.
  - eexists. split; [reflexivity|]. split; [apply moved_flush|done].
  - exists u. split; [done|]. split; [apply moved_refl|done].
Qed.

Lemma fill_body_run u :
  ∃ u1, moved u u1 [] [] ∧ buffered u1 = buffered u ∧
    fill_body u = (b ← fill_buf;
                   if bool_decide (b = []) then bail "unexpected EOF in HTTP request body"
                   else mret b) u1.
Proof.
  unfold fill_body. rewrite (M_bind_ok get _ u u u) by done.
  destruct (flush_if (bool_decide (buffered u = []) && negb (bool_decide (output u = []))) u)
    as (u1 & Hrun & Hm & Hb).
  rewrite (M_bind_ok _ _ _ _ _ Hrun). eauto.
Qed.

Lemma fill_body_sound u b u' :
  fill_body u = (Ok b, u') → moved u u' [] [] ∧ buffered u' = b ∧ b ≠ [].
Proof.
  destruct (fill_body_run u) as (u1 & Hm & Hb & ->). intros H.
  apply M_bind_iff in H as (c & u2 & Hf & H).
  destruct (bool_decide (c = [])) eqn:E; [done|]. reflect_bools.
  apply M_ret_inv in H as [-> ->].
  cut (moved u1 u2 [] [] ∧ buffered u2 = c); [intros [Hm' Hb']; split_and!; [|done|done]|].
  { change (@nil byte) with (@nil byte ++ []). by eapply moved_trans. }
  unfold fill_buf in Hf. destruct (bool_decide (buffered u1 = [])) eqn:E1; reflect_bools.
  - destruct (client_reads u1) as [|[d|e] rs] eqn:Er; simplify_eq/=.
    unfold moved, pending, unread, live. rewrite E1, Er. simpl. rewrite app_nil_r.
    split_and!; try done. by intros [_ ?]%Forall_cons.
  - simplify_eq. split; [apply moved_refl|done].
Qed.

Lemma fill_body_complete u :
  live u → unread u ≠ [] → ∃ b u', fill_body u = (Ok b, u').
Proof.
  intros Hl Hne. destruct (fill_body_run u) as (u1 & Hm & Hb & ->).
  destruct Hm as (_ & Hu & Hl1). specialize (Hl1 Hl). rewrite Hu in Hne. simpl in Hne.
  unfold fill_buf, mbind, M_bind.
  destruct (bool_decide (buffered u1 = [])) eqn:E; reflect_bools.
  - unfold unread, live in *. rewrite E in Hne. destruct (client_reads u1) as [|r rs]; [done|].
    apply Forall_cons in Hl1 as [Hr _]. destruct r as [c|e]; [|done].
    rewrite bool_decide_eq_false_2 by done. by eexists _, _.
  - rewrite bool_decide_eq_false_2 by done. by eexists _, _.
Qed.

(** One turn of the copy, once bytes are buffered. *)
Lemma copy_turn fuel n u b u1 :
  0 < n → fill_body u = (Ok b, u1) →
  let d := take (Nat.min (length b) (Z.to_nat n)) b in
  ∃ u2, moved u u2 d d ∧ d ≠ [] ∧ zlen d <= n ∧
    copy_body_bytes (Datatypes.S fuel) n u = copy_body_bytes fuel (n - zlen d) u2.
Proof.
  intros Hn Hf d. destruct (fill_body_sound _ _ _ Hf) as (Hm1 & Hb & Hne).
  cbn [copy_body_bytes]. rewrite (proj2 (Z.eqb_neq n 0)) by lia.
  rewrite (M_bind_ok _ _ _ _ _ Hf). fold d.
  set (v := push_output d u1).
  set (v' := set_buffered (drop (Nat.min (length b) (Z.to_nat n)) (buffered v)) v).
  assert (Hc : moved v v' [] d) by (subst b; exact (moved_consume v _)).
  destruct (flush_if (BODY_BATCH_SIZE <=? length (output v'))%nat v') as (u2 & Hrun & Hm2 & _).
  exists u2. split_and!.
  - replace d with (([] ++ d) ++ [] ++ []) at 1 by (by rewrite !app_nil_r).
    replace d with (([] ++ []) ++ d ++ []) at 2 by (by rewrite !app_nil_r).
    eapply moved_trans; [eapply moved_trans; [exact Hm1|apply moved_push]|].
    eapply moved_trans; [exact Hc|exact Hm2].
  - unfold d. intros Ht. apply (f_equal length) in Ht. rewrite length_take in Ht.
    change (length (@nil byte)) with 0%nat in Ht. assert (length b ≠ 0%nat) by (by destruct b). lia.
  - unfold d. rewrite length_take. lia.
  - change (modify (push_output d) u1) with (Ok tt, v). unfold mbind at 1, M_bind at 1.
    change (modify (push_output d) u1) with (Ok tt, v). cbv iota beta.
    unfold mbind at 1, M_bind at 1. change (consume _ v) with (Ok tt, v'). cbv iota beta.
    rewrite (M_bind_ok get _ v' v' v') by done. by rewrite (M_bind_ok _ _ _ _ _ Hrun).
Qed.

Lemma copy_body_bytes_sound fuel n u u' :
  0 <= n → copy_body_bytes fuel n u = (Ok tt, u') →
  ∃ data, zlen data = n ∧ moved u u' data data.
Proof.
  revert n u; induction fuel as [|fuel IH]; intros n u Hn H.
  - cbn [copy_body_bytes] in H. destruct (n =? 0) eqn:E; [|done]. reflect_bools. M_inv.
    exists []. split; [done|apply moved_refl].
  - destruct (decide (n = 0)) as [->|Hn0].
    { cbn in H. M_inv. exists []. split; [done|apply moved_refl]. }
    destruct (fill_body u) as [[b|e] u1] eqn:Hf.
    + destruct (copy_turn fuel n u b u1) as (u2 & Hm & Hd & Hle & Heq); [lia|done|].
      rewrite Heq in H. apply IH in H as (data & Hl & Hm2); [|lia].
      eexists. split; [|by eapply moved_trans]. rewrite length_app. lia.
    + cbn [copy_body_bytes] in H. rewrite (proj2 (Z.eqb_neq n 0)) in H by lia.
      by rewrite (M_bind_err _ _ _ _ _ Hf) in H.
Qed.

Lemma copy_body_bytes_complete fuel n u data rest :
  live u → unread u = data ++ rest → zlen data = n → (length data <= fuel)%nat →
  ∃ u', copy_body_bytes fuel n u = (Ok tt, u') ∧ moved u u' data data.
Proof.
  intros Hl Hu Hn Hfuel.
  cut (∃ u', copy_body_bytes fuel n u = (Ok tt, u')).
  { intros [u' H]. exists u'. split; [done|].
    destruct (copy_body_bytes_sound fuel n u u' ltac:(lia) H) as (data' & Hn' & Hm).
    replace data with data'; [done|]. pose proof Hm as (_ & Hu' & _). rewrite Hu' in Hu.
    apply app_inj_1 in Hu as [? _]; [done|lia]. }
  revert n u data Hl Hu Hn Hfuel; induction fuel as [|fuel IH]; intros n u data Hl Hu Hn Hfuel.
  - assert (n = 0) as -> by lia. by eexists.
  - destruct (decide (n = 0)) as [->|Hn0]; [by eexists|].
    destruct (fill_body_complete u) as (b & u1 & Hf); [done|rewrite Hu; by destruct data; [simpl in Hn; lia|]|].
    destruct (copy_turn fuel n u b u1) as (u2 & Hm & Hd & Hle & ->); [lia|done|].
    set (d := take _ b) in *. destruct Hm as (_ & Hu2 & Hl2). rewrite Hu in Hu2.
    apply app_eq_inv in Hu2 as [[k [-> Hk]]|[k [Hd2 Hk]]].
    + rewrite length_app in Hn, Hfuel. apply (IH _ _ k); [by apply Hl2|by symmetry|lia|].
      assert (length d ≠ 0)%nat by (by destruct d). lia.
    + subst d. rewrite Hd2 in *. rewrite length_app in Hle.
      assert (k = []) as -> by (apply length_zero_iff_nil; lia). rewrite app_nil_r in *.
      apply (IH _ _ []); [by apply Hl2|by symmetry|simpl; lia|simpl; lia].
Qed.

(** A line of the body: it ends at its first line feed, within the limit, and
    with a carriage return before it. *)
Definition body_line (limit : nat) (l : bytes) : Prop :=
  ends_with_crlf l = true ∧ (length l <= limit)%nat ∧ ∃ k, l = k ++ [x0a] ∧ x0a ∉ k.

Lemma consume_run n u : consume n u = (Ok tt, set_buffered (drop n (buffered u)) u).
Proof. done. Qed.

Lemma fill_consumed u b u1 n :
  fill_body u = (Ok b, u1) → moved u (set_buffered (drop n (buffered u1)) u1) [] (take n b).
Proof.
  intros (Hm & Hb & _)%fill_body_sound. subst b.
  change (moved u (set_buffered (drop n (buffered u1)) u1) ([] ++ []) ([] ++ take n (buffered u1))).
  eapply moved_trans; [exact Hm|apply moved_consume].
Qed.

Lemma read_body_line_sound fuel limit line u l u' :
  read_body_line fuel limit line u = (Ok l, u') →
  ∃ k, x0a ∉ k ∧ l = line ++ k ++ [x0a] ∧ (length l <= limit)%nat ∧ ends_with_crlf l = true
       ∧ moved u u' [] (k ++ [x0a]).
Proof.
  revert line u; induction fuel as [|fuel IH]; intros line u H; cbn [read_body_line] in H; [done|].
  apply M_bind_iff in H as (b & u1 & Hf & H).
  destruct (position (byteb x0a) b) as [i|] eqn:Ep.
  - apply position_byte_Some in Ep as (a & r & -> & Ha & <-).
    destruct (limit <? _)%nat eqn:El; [done|]. reflect_bools.
    rewrite (M_bind_ok _ _ _ _ _ (consume_run _ u1)) in H.
    destruct (ends_with_crlf (line ++ _)) eqn:Ec; [|done]. apply M_ret_inv in H as [-> ->].
    pose proof (fill_consumed _ _ _ (Datatypes.S (length a)) Hf) as Hm.
    assert (Ht : take (Datatypes.S (length a)) (a ++ x0a :: r) = a ++ [x0a]).
    { rewrite cons_middle, app_assoc. apply take_app_len. rewrite length_app. simpl. lia. }
    rewrite Ht in *. exists a. split_and!; try done. rewrite !length_app in *. simpl in *. lia.
  - apply position_byte_None in Ep.
    destruct (limit <? _)%nat eqn:El; [done|]. reflect_bools.
    rewrite (M_bind_ok _ _ _ _ _ (consume_run _ u1)) in H.
    pose proof (fill_consumed _ _ _ (length b) Hf) as Hm. rewrite firstn_all in Hm.
    apply IH in H as (k & Hk & -> & Hl & Hc & Hm2). rewrite firstn_all in *. exists (b ++ k).
    split_and!; [set_solver|by rewrite <-!app_assoc|by rewrite <-!app_assoc in *..|].
    rewrite <-app_assoc. change (@nil byte) with (@nil byte ++ []). by eapply moved_trans.
Qed.

Lemma read_body_line_complete fuel limit line u k rest :
  live u → unread u = k ++ x0a :: rest → x0a ∉ k →
  (length (line ++ k ++ [x0a]) <= limit)%nat → ends_with_crlf (line ++ k ++ [x0a]) = true →
  (length k < fuel)%nat →
  ∃ u', read_body_line fuel limit line u = (Ok (line ++ k ++ [x0a]), u') ∧ moved u u' [] (k ++ [x0a]).
Proof.
  revert line u k; induction fuel as [|fuel IH]; intros line u k Hl Hu Hk Hlen Hc Hfuel; [lia|].
  cbn [read_body_line].
  destruct (fill_body_complete u) as (b & u1 & Hf); [done|rewrite Hu; by destruct k|].
  rewrite (M_bind_ok _ _ _ _ _ Hf).
  destruct (fill_body_sound _ _ _ Hf) as ((_ & Hu1 & _) & Hb & Hne). unfold unread in Hu1 at 2.
  rewrite Hb, Hu in Hu1. simpl in Hu1.
  destruct (position (byteb x0a) b) as [i|] eqn:Ep.
  - apply position_byte_Some in Ep as (a & r & -> & Ha & <-).
    assert (k = a) as ->.
    { pose proof (position_byte_app x0a k rest Hk) as E1. rewrite Hu1, <-app_assoc in E1.
      cbn [app] in E1. rewrite position_byte_app in E1 by done. injection E1 as E1.
      rewrite <-app_assoc in Hu1. by apply app_inj_1 in Hu1 as [? _]. }
    assert (Ht : take (Datatypes.S (length a)) (a ++ x0a :: r) = a ++ [x0a]).
    { rewrite cons_middle, app_assoc. apply take_app_len. rewrite length_app. simpl. lia. }
    rewrite (proj2 (Nat.ltb_ge _ _)) by (rewrite !length_app in *; simpl in *; lia).
    rewrite (M_bind_ok _ _ _ _ _ (consume_run _ u1)), Ht, Hc. eexists. split; [done|].
    rewrite <-Ht. by apply fill_consumed.
  - apply position_byte_None in Ep.
    assert (∃ k', k = b ++ k' ∧ k' ++ x0a :: rest = incoming (client_reads u1)) as (k' & -> & Hr).
    { apply app_eq_inv in Hu1 as [[k' [-> Hr]]|[k' [Hbk Hr]]]; [eauto|].
      destruct k' as [|c k']; simpl in Hr.
      - exists []. rewrite app_nil_r in *. by subst.
      - injection Hr as <- Hr. subst b. set_solver. }
    pose proof (fill_consumed _ _ _ (length b) Hf) as Hm. rewrite firstn_all in Hm.
    autorewrite with slices in Hlen, Hfuel.
    rewrite (proj2 (Nat.ltb_ge _ _)) by lia.
    rewrite (M_bind_ok _ _ _ _ _ (consume_run _ u1)), firstn_all.
    set (u2 := set_buffered _ u1) in *.
    destruct (IH (line ++ b) u2 k') as (u' & Hrun & Hm2).
    + by apply Hm.
    + unfold unread, u2. simpl. by rewrite Hb, drop_ge, <-Hr by done.
    + set_solver.
    + rewrite !length_app. simpl. lia.
    + by rewrite <-!app_assoc in *.
    + assert (length b ≠ 0%nat) by (by destruct b). lia.
    + exists u'. rewrite <-!app_assoc in *. split; [done|].
      change (@nil byte) with (@nil byte ++ []). by eapply moved_trans.
Qed.

Lemma read_line_sound fuel limit u l u' :
  read_body_line fuel limit [] u = (Ok l, u') → body_line limit l ∧ moved u u' [] l.
Proof. intros (k & Hk & -> & ? & ? & ?)%read_body_line_sound. unfold body_line. eauto 10. Qed.

Lemma read_line_complete fuel limit u l rest :
  live u → unread u = l ++ rest → body_line limit l → (length l <= fuel)%nat →
  ∃ u', read_body_line fuel limit [] u = (Ok l, u') ∧ moved u u' [] l.
Proof.
  intros Hl Hu (Hc & Hlen & k & -> & Hk) Hf. rewrite <-app_assoc in Hu.
  apply (read_body_line_complete fuel limit [] u k rest); try done.
  rewrite length_app in Hf. simpl in Hf. lia.
Qed.

(** *** What a request body is *)

(** The trailer section, from [n] bytes of it on: field lines up to and
    including an empty one, within the limit. *)
Inductive trailers : nat → bytes → Prop :=
  | trailers_end n :
      (n + 2 <= TRAILER_LIMIT)%nat → trailers n crlf
  | trailers_line n l ts :
      body_line TRAILER_LIMIT l → l ≠ crlf → (n + length l <= TRAILER_LIMIT)%nat →
      trailers (n + length l) ts → trailers n (l ++ ts).

(** The chunked coding: chunks with their size lines, a last chunk of size
    zero, and the trailer section. *)
Inductive chunked : bytes → Prop :=
  | chunked_last l ts :
      body_line CHUNK_LINE_LIMIT l → parse_chunk_size l = Ok 0 → trailers 0 ts → chunked (l ++ ts)
  | chunked_more l size data body :
      body_line CHUNK_LINE_LIMIT l → parse_chunk_size l = Ok size → size ≠ 0 → zlen data = size →
      chunked body → chunked (l ++ data ++ crlf ++ body).

Definition is_body (framing : BodyFraming) (body : bytes) : Prop :=
  match framing with
  | Empty => body = []
  | Length n => zlen body = n
  | Chunked => chunked body
  end.

Lemma crlf_body_line limit : (2 <= limit)%nat → body_line limit crlf.
Proof.
  intros. split_and!; [done|done|]. exists [x0d]. split; [done|]. set_solver.
Qed.

Lemma moved_line u u1 l : moved u u1 [] l → moved u (push_output l u1) l l.
Proof.
  intros Hm. pose proof (moved_trans _ _ _ _ _ _ _ Hm (moved_push u1 l)) as H.
  by rewrite app_nil_r in H.
Qed.

Lemma push_run l u : modify (push_output l) u = (Ok tt, push_output l u).
Proof. done. Qed.

Lemma copy_trailers_sound fuel lf n u u' :
  copy_trailers fuel lf n u = (Ok tt, u') → ∃ ts, trailers n ts ∧ moved u u' ts ts.
Proof.
  revert n u; induction fuel as [|fuel IH]; intros n u H; cbn [copy_trailers] in H; [done|].
  apply M_bind_iff in H as (l & u1 & [Hl Hm]%read_line_sound & H).
  destruct (TRAILER_LIMIT <? n + length l)%nat eqn:El; [done|]. reflect_bools.
  rewrite (M_bind_ok _ _ _ _ _ (push_run l u1)) in H. apply moved_line in Hm.
  unfold bytes_eqb in H. case_bool_decide as Hc.
  - apply M_ret_inv in H as [_ ->]. subst l. exists crlf. split; [|done]. by constructor.
  - apply IH in H as (ts & Hts & Hm2). exists (l ++ ts). split; [by constructor|].
    by eapply moved_trans.
Qed.

Lemma copy_trailers_complete fuel lf n u ts rest :
  trailers n ts → live u → unread u = ts ++ rest → (length ts < fuel)%nat → (length ts <= lf)%nat →
  ∃ u', copy_trailers fuel lf n u = (Ok tt, u') ∧ moved u u' ts ts.
Proof.
  intros Hts. revert fuel u; induction Hts as [n Hn|n l ts Hl Hne Hn Hts IH];
    intros [|fuel] u Hlive Hu Hf Hlf; [lia| |lia|]; cbn [copy_trailers].
  - destruct (read_line_complete lf TRAILER_LIMIT u crlf rest) as (u1 & Hrun & Hm);
      [done|done|apply crlf_body_line; unfold TRAILER_LIMIT; lia|done|].
    rewrite (M_bind_ok _ _ _ _ _ Hrun), (proj2 (Nat.ltb_ge _ _)) by done.
    rewrite (M_bind_ok _ _ _ _ _ (push_run _ u1)). eexists. split; [done|by apply moved_line].
  - rewrite length_app in Hf, Hlf. rewrite <-app_assoc in Hu.
    destruct (read_line_complete lf TRAILER_LIMIT u l (ts ++ rest)) as (u1 & Hrun & Hm);
      [done|done|done|lia|].
    rewrite (M_bind_ok _ _ _ _ _ Hrun), (proj2 (Nat.ltb_ge _ _)) by done.
    rewrite (M_bind_ok _ _ _ _ _ (push_run _ u1)).
    unfold bytes_eqb. rewrite bool_decide_eq_false_2 by done. apply moved_line in Hm.
    assert (length l ≠ 0)%nat by (destruct Hl as (_ & _ & k & -> & _); rewrite length_app; simpl; lia).
    destruct (IH fuel (push_output l u1)) as (u' & Hrun' & Hm').
    + by apply Hm.
    + by eapply moved_rest.
    + lia.
    + lia.
    + exists u'. split; [done|]. by eapply moved_trans.
Qed.

Lemma parse_chunk_size_range line n : parse_chunk_size line = Ok n → 0 <= n.
Proof.
  unfold parse_chunk_size. set (size := trim_end_matches _ _).
  destruct (_ || _); [done|]. intros [= <-]. unfold hex_fold.
  assert (Hgo : ∀ l acc, 0 <= acc → 0 <= fold_left (λ n b, n * 16 + default 0 (hex_val b)) l acc).
  { induction l as [|b l IH]; intros acc Hacc; [done|]. simpl. apply IH.
    assert (0 <= default 0 (hex_val b)); [|lia].
    unfold hex_val, is_digit. repeat case_match; reflect_bools; simpl; lia. }
  by apply Hgo.
Qed.

Lemma lift_run {A} (a : A) u : lift (Ok a) u = (Ok a, u).
Proof. done. Qed.

Lemma copy_chunks_sound fuel lf u u' :
  copy_chunks fuel lf u = (Ok tt, u') → ∃ body, chunked body ∧ moved u u' body body.
Proof.
  revert u; induction fuel as [|fuel IH]; intros u H; cbn [copy_chunks] in H; [done|].
  apply M_bind_iff in H as (l & u1 & [Hl Hm]%read_line_sound & H). apply moved_line in Hm.
  apply M_bind_iff in H as (size & u2 & [Hsize ->]%lift_inv & H).
  rewrite (M_bind_ok _ _ _ _ _ (push_run l u1)) in H.
  destruct (size =? 0) eqn:E; reflect_bools.
  - subst size. apply copy_trailers_sound in H as (ts & Hts & Hm2).
    eexists. split; [by eapply chunked_last|by eapply moved_trans].
  - apply M_bind_iff in H as ([] & u3 & Hcopy & H).
    apply copy_body_bytes_sound in Hcopy as (data & Hd & Hm3); [|by eapply parse_chunk_size_range].
    apply M_bind_iff in H as (l2 & u4 & [Hl2 Hm4]%read_line_sound & H). apply moved_line in Hm4.
    unfold bytes_eqb in H. case_bool_decide as Hc; [|done]. subst l2. cbn [negb] in H.
    rewrite (M_bind_ok _ _ _ _ _ (push_run crlf u4)) in H.
    apply IH in H as (body & Hb & Hm5).
    eexists. split; [by eapply chunked_more|].
    eapply moved_trans; [done|]. eapply moved_trans; [done|]. by eapply moved_trans.
Qed.

Lemma copy_chunks_complete fuel lf u body rest :
  chunked body → live u → unread u = body ++ rest → (length body < fuel)%nat →
  (length body < lf)%nat →
  ∃ u', copy_chunks fuel lf u = (Ok tt, u') ∧ moved u u' body body.
Proof.
  intros Hb. revert fuel u; induction Hb as [l ts Hl Hs Hts|l size data body Hl Hs H0 Hd Hb IH];
    intros [|fuel] u Hlive Hu Hf Hlf; [lia| |lia|]; cbn [copy_chunks];
    rewrite <-!app_assoc in Hu; autorewrite with slices in Hf, Hlf;
    (destruct (read_line_complete lf CHUNK_LINE_LIMIT u l _ Hlive Hu Hl) as (u1 & Hrun & Hm); [lia|]);
    rewrite (M_bind_ok _ _ _ _ _ Hrun), Hs; rewrite (M_bind_ok _ _ _ _ _ (lift_run _ u1));
    rewrite (M_bind_ok _ _ _ _ _ (push_run l u1)); apply moved_line in Hm;
    pose proof (moved_rest _ _ _ _ _ Hm Hu) as Hu1; pose proof Hm as (_ & _ & Hl1);
    specialize (Hl1 Hlive).
  - destruct (copy_trailers_complete lf lf 0 (push_output l u1) ts rest) as (u' & Hrun' & Hm');
      [done|done|done|lia|lia|].
    exists u'. split; [done|by eapply moved_trans].
  - rewrite (proj2 (Z.eqb_neq _ _)) by done.
    destruct (copy_body_bytes_complete lf size (push_output l u1) data _ Hl1 Hu1 Hd)
      as (u2 & Hrun2 & Hm2); [lia|].
    rewrite (M_bind_ok _ _ _ _ _ Hrun2).
    pose proof (moved_rest _ _ _ _ _ Hm2 Hu1) as Hu2. pose proof Hm2 as (_ & _ & Hl2).
    specialize (Hl2 Hl1).
    destruct (read_line_complete lf 2 u2 crlf _ Hl2 Hu2) as (u3 & Hrun3 & Hm3);
      [by apply crlf_body_line|simpl; lia|].
    rewrite (M_bind_ok _ _ _ _ _ Hrun3). unfold bytes_eqb. rewrite bool_decide_eq_true_2 by done.
    cbn [negb]. rewrite (M_bind_ok _ _ _ _ _ (push_run crlf u3)). apply moved_line in Hm3.
    pose proof (moved_rest _ _ _ _ _ Hm3 Hu2) as Hu3. pose proof Hm3 as (_ & _ & Hl3).
    specialize (Hl3 Hl2).
    destruct (IH fuel (push_output crlf u3)) as (u' & Hrun' & Hm'); [done|done|lia|lia|].
    exists u'. split; [done|]. eapply moved_trans; [done|].
    eapply moved_trans; [done|]. by eapply moved_trans.
Qed.

(** *** No loop runs out of fuel *)

Definition ends {A} (r : result A * Upload) : Prop := r.1 ≠ Err OutOfFuel.

Lemma ends_bind {A B} (m : M Upload A) (f : A → M Upload B) u :
  ends (m u) → (∀ a u', m u = (Ok a, u') → ends (f a u')) → ends ((m ≫= f) u).
Proof. unfold ends, mbind, M_bind. destruct (m u) as [[a|e] u']; simpl; [eauto|]. intros ? _. congruence. Qed.

Lemma fill_body_ends u : live u → ends (fill_body u).
Proof.
  intros Hl. destruct (fill_body_run u) as (u1 & (_ & _ & Hl1) & _ & ->). specialize (Hl1 Hl).
  unfold ends, fill_buf, mbind, M_bind, live in *.
  destruct (bool_decide (buffered u1 = [])); [|by case_match].
  destruct (client_reads u1) as [|[b|e] rs]; [done|by case_match|by apply Forall_cons in Hl1 as [? _]].
Qed.

Lemma moved_length u u' o t :
  moved u u' o t → length (unread u) = (length t + length (unread u'))%nat.
Proof. intros (_ & -> & _). apply length_app. Qed.

Lemma copy_body_bytes_ends fuel n u :
  live u → 0 <= n → (length (unread u) < fuel)%nat → ends (copy_body_bytes fuel n u).
Proof.
  revert n u; induction fuel as [|fuel IH]; intros n u Hl Hn Hf; [lia|].
  destruct (decide (n = 0)) as [->|Hn0]; [done|].
  destruct (fill_body u) as [[b|e] u1] eqn:Hfill.
  - destruct (copy_turn fuel n u b u1) as (u2 & Hm & Hd & Hle & ->); [lia|done|].
    assert (length (take (length b `min` Z.to_nat n) b) ≠ 0%nat) by (by destruct (take _ b)).
    pose proof (moved_length _ _ _ _ Hm). apply IH; [by apply Hm|lia|lia].
  - cbn [copy_body_bytes]. rewrite (proj2 (Z.eqb_neq n 0)) by lia.
    rewrite (M_bind_err _ _ _ _ _ Hfill). pose proof (fill_body_ends u Hl) as He.
    unfold ends in *. rewrite Hfill in He. simpl in *. congruence.
Qed.

Lemma read_body_line_ends fuel limit line u :
  live u → (length (unread u) < fuel)%nat → ends (read_body_line fuel limit line u).
Proof.
  revert line u; induction fuel as [|fuel IH]; intros line u Hl Hf; [lia|]. cbn [read_body_line].
  apply ends_bind; [by apply fill_body_ends|]. intros b u1 Hfill.
  destruct (fill_body_sound _ _ _ Hfill) as (_ & _ & Hne).
  destruct (position (byteb x0a) b) as [i|]; (destruct (limit <? _)%nat; [done|]);
    rewrite (M_bind_ok _ _ _ _ _ (consume_run _ u1)); [by case_match|].
  pose proof (fill_consumed _ _ _ (length b) Hfill) as Hm. rewrite firstn_all in Hm.
  pose proof (moved_length _ _ _ _ Hm). assert (length b ≠ 0%nat) by (by destruct b).
  apply IH; [by apply Hm|lia].
Qed.

Lemma body_line_nonempty limit l : body_line limit l → (0 < length l)%nat.
Proof. intros (_ & _ & k & -> & _). rewrite length_app. simpl. lia. Qed.

Lemma copy_trailers_ends fuel lf n u :
  live u → (length (unread u) < fuel)%nat → (length (unread u) < lf)%nat →
  ends (copy_trailers fuel lf n u).
Proof.
  revert n u; induction fuel as [|fuel IH]; intros n u Hl Hf Hlf; [lia|]. cbn [copy_trailers].
  apply ends_bind; [by apply read_body_line_ends|].
  intros l u1 [Hline%body_line_nonempty Hm%moved_line]%read_line_sound.
  destruct (TRAILER_LIMIT <? n + length l)%nat; [done|].
  rewrite (M_bind_ok _ _ _ _ _ (push_run l u1)). destruct (bytes_eqb l crlf); [done|].
  pose proof (moved_length _ _ _ _ Hm). apply IH; [by apply Hm|lia|lia].
Qed.

Lemma copy_chunks_ends fuel lf u :
  live u → (length (unread u) < fuel)%nat → (length (unread u) < lf)%nat →
  ends (copy_chunks fuel lf u).
Proof.
  revert u; induction fuel as [|fuel IH]; intros u Hl Hf Hlf; [lia|]. cbn [copy_chunks].
  apply ends_bind; [by apply read_body_line_ends|].
  intros l u1 [Hline%body_line_nonempty Hm%moved_line]%read_line_sound.
  destruct (parse_chunk_size l) as [size|e] eqn:Hs.
  2:{ unfold ends, lift, mbind, M_bind. simpl. unfold parse_chunk_size in Hs.
      destruct (_ || _); congruence. }
  rewrite (M_bind_ok _ _ _ _ _ (lift_run _ u1)), (M_bind_ok _ _ _ _ _ (push_run l u1)).
  pose proof (moved_length _ _ _ _ Hm). pose proof Hm as (_ & _ & Hl1). specialize (Hl1 Hl).
  destruct (size =? 0); [apply copy_trailers_ends; [done|lia|lia]|].
  apply parse_chunk_size_range in Hs.
  apply ends_bind; [apply copy_body_bytes_ends; [done|done|lia]|].
  intros [] u2 (data & _ & Hm2)%copy_body_bytes_sound; [|done].
  pose proof (moved_length _ _ _ _ Hm2). pose proof Hm2 as (_ & _ & Hl2). specialize (Hl2 Hl1).
  apply ends_bind; [apply read_body_line_ends; [done|lia]|].
  intros l2 u3 [Hline2%body_line_nonempty Hm3%moved_line]%read_line_sound.
  destruct (bytes_eqb l2 crlf); [|done]. cbn [negb].
  rewrite (M_bind_ok _ _ _ _ _ (push_run l2 u3)).
  pose proof (moved_length _ _ _ _ Hm3). apply IH; [by apply Hm3|lia|lia].
Qed.

(** The last send of [forward_body]. *)
Lemma final_send u :
  ∃ u', (u ← get; if bool_decide (output u = []) then mret tt else send_output) u = (Ok tt, u')
        ∧ concat (sink u') = pending u ∧ unread u' = unread u.
Proof.
  rewrite (M_bind_ok get _ u u u) by done. unfold pending. case_bool_decide as Ho.
  - exists u. by rewrite Ho, app_nil_r.
  - eexists. split; [reflexivity|]. split; [|done]. simpl. rewrite concat_app. simpl.
    by rewrite app_nil_r.
Qed.

Lemma forward_body_complete framing fuel u body rest :
  live u → (length (unread u) < fuel)%nat → is_body framing body → unread u = body ++ rest →
  ∃ u', forward_body fuel framing u = (Ok tt, u') ∧ unread u' = rest ∧
    concat (sink u') = concat (sink u) ++ output u ++ body.
Proof.
  intros Hl Hf Hb Hu. unfold forward_body.
  assert (∃ u1, match framing with
                | Empty => mret tt
                | Length length => copy_body_bytes fuel length
                | Chunked => copy_chunks fuel fuel
                end u = (Ok tt, u1) ∧ moved u u1 body body) as (u1 & Hrun & Hm).
  { pose proof (f_equal length Hu) as Hlen. rewrite length_app in Hlen.
    destruct framing as [|n|]; simpl in Hb.
    - subst. exists u. split; [done|apply moved_refl].
    - apply (copy_body_bytes_complete _ _ _ _ rest); [done|done|done|lia].
    - apply (copy_chunks_complete _ _ _ _ rest); [done|done|done|lia|lia]. }
  rewrite (M_bind_ok _ _ _ _ _ Hrun). destruct (final_send u1) as (u2 & Hrun2 & Hs & Hu2).
  exists u2. pose proof Hm as (Hp & _ & _). rewrite Hs, Hu2, Hp.
  split_and!; [done|by eapply moved_rest|]. unfold pending. by rewrite <-app_assoc.
Qed.

(** C8: [forward_body] forwards exactly one request body. However the
    client's stream is cut into reads and however the output is batched, it
    succeeds exactly when the stream starts with a body in the announced framing
    (nothing, the given number of bytes, or a chunked body with its trailers
    within the limits); then the sink has received the head followed by that
    body byte for byte and the reader stands right after it. It always ends:
    fuel above the length of the stream is enough. *)
Theorem forward_body_exact framing fuel u :
  live u → (length (unread u) < fuel)%nat →
  match framing with Length n => 0 <= n | _ => True end →
  ends (forward_body fuel framing u) ∧
  (∀ u', forward_body fuel framing u = (Ok tt, u') →
     ∃ body, is_body framing body ∧ unread u = body ++ unread u' ∧
       concat (sink u') = concat (sink u) ++ output u ++ body) ∧
  (∀ body rest, is_body framing body → unread u = body ++ rest →
     ∃ u', forward_body fuel framing u = (Ok tt, u') ∧ unread u' = rest ∧
       concat (sink u') = concat (sink u) ++ output u ++ body).
Proof.
  intros Hl Hf Hn. unfold forward_body. split_and!.
  - apply ends_bind.
    + destruct framing as [|n|]; [done|by apply copy_body_bytes_ends|by apply copy_chunks_ends].
    + intros [] u1 _. by destruct (final_send u1) as (u' & -> & _).
  - intros u' ([] & u1 & Hbody & Hfinal)%M_bind_iff.
    destruct (final_send u1) as (u2 & Hrun & Hs & Hu). rewrite Hrun in Hfinal. injection Hfinal as <-.
    assert (∃ body, is_body framing body ∧ moved u u1 body body) as (body & Hb & Hp & Hu1 & _).
    { destruct framing as [|n|]; simpl.
      - M_inv. exists []. split; [done|apply moved_refl].
      - by apply copy_body_bytes_sound in Hbody.
      - by apply copy_chunks_sound in Hbody. }
    exists body. rewrite Hs, Hu, Hp, Hu1. unfold pending. by rewrite <-app_assoc.
  - intros body rest Hb Hu. apply forward_body_complete; auto.
Qed.
End BodyProofs.

(** ** Lemmas on the response head *)

Lemma find_head_end_at_bound b i e : find_head_end_at b i = Some e → (i + 1 < e <= length b)%nat.
Proof.
  unfold find_head_end_at. intros H. pose proof (length_drop b i) as Hl.
  destruct (drop i b) as [|x [|c rest]]; [done|by destruct (byteb x x0a)|].
  destruct (byteb x x0a); [|done]. simpl in Hl.
  destruct (byteb c x0a); [injection H as <-; lia|].
  destruct rest as [|d rest]; [done|]. destruct (_ && _); [|done]. injection H as <-. simpl in Hl. lia.
Qed.

Lemma find_head_end_at_app b k i e :
  find_head_end_at b i = Some e → find_head_end_at (b ++ k) i = Some e.
Proof.
  intros H. pose proof (find_head_end_at_bound _ _ _ H). unfold find_head_end_at in *.
  rewrite drop_app_le by lia.
  destruct (drop i b) as [|x [|c [|d rest]]]; simpl; [done|by destruct (byteb x x0a)|..].
  - destruct (byteb x x0a); [|done]. by destruct (byteb c x0a).
  - done.
Qed.

(** A search at an index sees three bytes. *)
Lemma find_head_end_at_inside b k i :
  (i + 2 < length b)%nat → find_head_end_at (b ++ k) i = find_head_end_at b i.
Proof.
  intros Hi. unfold find_head_end_at. rewrite drop_app_le by lia.
  pose proof (length_drop b i) as Hl.
  destruct (drop i b) as [|x [|c [|d rest]]]; simpl in *; try lia. done.
Qed.

(** A head end within the first part is found there. *)
Lemma find_head_end_at_back b k i e :
  find_head_end_at (b ++ k) i = Some e → (e <= length b)%nat → find_head_end_at b i = Some e.
Proof.
  intros H He. pose proof (find_head_end_at_bound _ _ _ H). unfold find_head_end_at in *.
  rewrite drop_app_le in H by lia. pose proof (length_drop b i) as Hl.
  destruct (drop i b) as [|x [|c [|d rest]]]; simpl in *; try lia; [|done].
  destruct (byteb x x0a); [|done]. destruct (byteb c x0a); [done|].
  destruct k as [|d k]; [done|]. destruct (_ && _); [|done]. injection H as <-. lia.
Qed.

Lemma find_map_seq_Some {A} (f : nat → option A) from n y :
  find_map f (seq from n) = Some y ↔
  ∃ i, (from <= i < from + n)%nat ∧ f i = Some y ∧ ∀ j, (from <= j < i)%nat → f j = None.
Proof.
  revert from; induction n as [|n IH]; intros from; simpl.
  - split; [done|]. intros (i & ? & _). lia.
  - destruct (f from) as [z|] eqn:E.
    + split.
      * intros [= <-]. exists from. split_and!; [lia..|done|lia].
      * intros (i & Hi & Hf & Hj). destruct (decide (i = from)) as [->|]; [congruence|].
        specialize (Hj from ltac:(lia)). congruence.
    + rewrite IH. split; intros (i & Hi & Hf & Hj).
      * exists i. split_and!; [lia..|done|]. intros j ?.
        destruct (decide (j = from)) as [->|]; [done|]. apply Hj. lia.
      * exists i. destruct (decide (i = from)) as [->|]; [congruence|].
        split_and!; [lia..|done|]. intros j ?. apply Hj. lia.
Qed.

Lemma find_head_end_Some b from e :
  find_head_end b from = Some e ↔
  ∃ i, (from <= i)%nat ∧ find_head_end_at b i = Some e ∧
       ∀ j, (from <= j < i)%nat → find_head_end_at b j = None.
Proof.
  unfold find_head_end. rewrite find_map_seq_Some. split; intros (i & Hi & Hf & Hj).
  - exists i. split_and!; [lia|done|done].
  - exists i. pose proof (find_head_end_at_bound _ _ _ Hf). split_and!; [lia..|done|done].
Qed.

Lemma find_head_end_None b j : find_head_end b 0 = None → find_head_end_at b j = None.
Proof.
  intros Hn. destruct (find_head_end_at b j) as [e|] eqn:E; [|done]. exfalso.
  revert e E. induction j as [j IH] using lt_wf_ind. intros e E.
  assert (find_head_end b 0 = Some e) as Hs; [|congruence].
  apply find_head_end_Some. exists j. split_and!; [lia|done|]. intros j' Hj'.
  destruct (find_head_end_at b j') as [e'|] eqn:E'; [|done]. exfalso. by apply (IH j' ltac:(lia) e').
Qed.

Lemma find_head_end_bound b from e : find_head_end b from = Some e → (e <= length b)%nat.
Proof. intros (i & _ & Hf & _)%find_head_end_Some. apply find_head_end_at_bound in Hf. lia. Qed.

Lemma find_head_end_app b k e : find_head_end b 0 = Some e → find_head_end (b ++ k) 0 = Some e.
Proof.
  rewrite !find_head_end_Some. intros (i & Hi & Hf & Hj). exists i.
  split_and!; [done|by apply find_head_end_at_app|]. intros j Hji.
  pose proof (find_head_end_at_bound _ _ _ Hf). rewrite find_head_end_at_inside by lia. by apply Hj.
Qed.

Lemma find_head_end_back b k e :
  find_head_end (b ++ k) 0 = Some e → (e <= length b)%nat → find_head_end b 0 = Some e.
Proof.
  rewrite !find_head_end_Some. intros (i & Hi & Hf & Hj) He. exists i.
  split_and!; [done|by eapply find_head_end_at_back|]. intros j Hji.
  specialize (Hj j Hji). destruct (find_head_end_at b j) as [e'|] eqn:E; [|done].
  apply (find_head_end_at_app _ k) in E. congruence.
Qed.

(** Resuming the search two bytes before the end of what was searched misses
    nothing. *)
Lemma find_head_end_resume b k :
  find_head_end b 0 = None → find_head_end (b ++ k) (length b - 2) = find_head_end (b ++ k) 0.
Proof.
  intros Hn.
  assert (Hj : ∀ j, (j < length b - 2)%nat → find_head_end_at (b ++ k) j = None).
  { intros j Hj. rewrite find_head_end_at_inside by lia. by apply find_head_end_None. }
  assert (Hiff : ∀ e, find_head_end (b ++ k) (length b - 2) = Some e ↔ find_head_end (b ++ k) 0 = Some e).
  { intros e. rewrite !find_head_end_Some. split; intros (i & Hi & Hf & Hb); exists i.
    - split_and!; [lia|done|]. intros j ?. destruct (decide (j < length b - 2)%nat); [by apply Hj|].
      apply Hb. lia.
    - split_and!; [|done|intros j ?; apply Hb; lia].
      destruct (decide (i < length b - 2)%nat) as [Hl|]; [|lia]. rewrite Hj in Hf by done. done. }
  destruct (find_head_end (b ++ k) (length b - 2)) as [e|] eqn:E1.
  - symmetry. by apply Hiff.
  - destruct (find_head_end (b ++ k) 0) as [e|] eqn:E2; [|done].
    pose proof (proj2 (Hiff e) eq_refl). congruence.
Qed.

(** A complete head: it ends at its first empty line, and it fits. *)
Definition is_head (interim : bool) (h : bytes) : Prop :=
  find_head_end h 0 = Some (length h) ∧ is_interim_response h = Ok interim
  ∧ (length h <= RESPONSE_HEAD_LIMIT)%nat.

Abbreviation Relay := (list (result bytes) * Gated)%type.

Lemma client_write b cs p c :
  on_client (write_all b) (cs, MkGated p c false) = (Ok tt, (cs, MkGated (p ++ b) c false)) :> result unit * Relay.
Proof. done. Qed.

(** A turn that waits for more of the head. *)
Lemma response_turn_wait fuel buffer searched r cs g h more :
  find_head_end buffer searched = None → find_head_end buffer 0 = None →
  (length buffer <= RESPONSE_HEAD_LIMIT)%nat → body_read (Ok r) →
  response_loop (Datatypes.S fuel) buffer searched (Ok r :: cs, g) =
    response_loop fuel (buffer ++ r) (length buffer - 2) (cs, g)
  ∧ (buffer ++ r ++ incoming cs = h ++ more → find_head_end h 0 = Some (length h) →
     find_head_end (buffer ++ r) (length buffer - 2) = find_head_end (buffer ++ r) 0).
Proof.
  intros Hs Hn Hlen Hr. cbn [response_loop]. rewrite Hs, (proj2 (Nat.ltb_ge _ _)) by done. split.
  - unfold on_source, zoom, mbind, M_bind. simpl. by rewrite bool_decide_eq_false_2 by done.
  - intros _ _. by apply find_head_end_resume.
Qed.

(** The buffer holds a head as soon as it is as long as one. *)
Lemma buffer_head buffer tl h more :
  buffer ++ tl = h ++ more → find_head_end h 0 = Some (length h) →
  (find_head_end buffer 0 = None ∧ (length buffer < length h)%nat) ∨
  (find_head_end buffer 0 = Some (length h) ∧ take (length h) buffer = h
   ∧ drop (length h) buffer ++ tl = more).
Proof.
  intros Heq Hh. pose proof (find_head_end_app h more _ Hh) as Hm. rewrite <-Heq in Hm.
  destruct (find_head_end buffer 0) as [e|] eqn:E.
  - right. pose proof (find_head_end_app buffer tl _ E) as Hb.
    assert (e = length h) as -> by congruence.
    pose proof (find_head_end_bound _ _ _ E) as Hle. split; [done|].
    rewrite <-(take_drop (length h) buffer), <-app_assoc in Heq.
    apply app_inj_1 in Heq as [? ?]; [done|]. rewrite length_take. lia.
  - left. split; [done|]. destruct (decide (length h <= length buffer)%nat) as [Hle|]; [|lia].
    rewrite (find_head_end_back buffer tl (length h)) in E; done.
Qed.

Lemma response_loop_run fuel interims final body buffer searched cs p c :
  find_head_end buffer searched = find_head_end buffer 0 →
  Forall body_read cs → Forall (is_head true) interims → is_head false final →
  buffer ++ incoming cs = concat interims ++ final ++ body →
  (length cs + length interims < fuel)%nat →
  ∃ over rest,
    response_loop fuel buffer searched (cs, MkGated p c false) =
      (Ok tt, (rest, MkGated (p ++ concat interims ++ close_response_head final ++ over) c false))
    ∧ over ++ incoming rest = body ∧ rest `suffix_of` cs.
Proof.
  revert interims buffer searched cs p.
  induction fuel as [|fuel IH]; intros interims buffer searched cs p Hsearch Hcs Hint Hfin Heq Hfuel; [lia|].
  assert (∃ b h more, is_head b h ∧ buffer ++ incoming cs = h ++ more ∧
            ((b = true ∧ ∃ hs, interims = h :: hs ∧ more = concat hs ++ final ++ body) ∨
             (b = false ∧ interims = [] ∧ h = final ∧ more = body)))
    as (b & h & more & Hh & Hst & Hcase).
  { destruct interims as [|h hs].
    - exists false, final, body. split_and!; [done|done|by right].
    - apply Forall_cons in Hint as [Hh _]. exists true, h, (concat hs ++ final ++ body).
      split_and!; [done|by rewrite Heq; simpl; rewrite <-app_assoc|left; eauto]. }
  destruct Hh as (Hend & Hinterim & Hlen).
  destruct (buffer_head _ _ _ _ Hst Hend) as [[Hnone Hlt]|(Hsome & Htake & Hdrop)].
  - destruct cs as [|r cs].
    { apply (f_equal length) in Hst. rewrite !length_app in Hst. simpl in Hst. lia. }
    apply Forall_cons in Hcs as [Hr Hcs]. destruct r as [r|e]; [|done].
    destruct (response_turn_wait fuel buffer searched r cs (MkGated p c false) h more)
      as [-> Hres]; [congruence|done|lia|done|].
    destruct (IH interims (buffer ++ r) (length buffer - 2)%nat cs p) as (over & rest & Hrun & Hover & Hsuf);
      [by apply Hres|done|done|done| |simpl in Hfuel; lia|].
    { rewrite <-Heq. unfold incoming. simpl. by rewrite app_assoc. }
    exists over, rest. split_and!; [done|done|by apply suffix_cons_r].
  - cbn [response_loop]. rewrite Hsearch, Hsome, Htake, Hinterim. cbn [lift].
    unfold lift. rewrite (M_bind_ok _ _ _ _ _ eq_refl).
    destruct Hcase as [(-> & hs & -> & ->)|(-> & -> & -> & ->)].
    + rewrite (M_bind_ok _ _ _ _ _ (client_write h cs p c)).
      apply Forall_cons in Hint as [_ Hint].
      destruct (IH hs (drop (length h) buffer) 0%nat cs (p ++ h)) as (over & rest & Hrun & Hover);
        [done..|simpl in Hfuel; lia|].
      exists over, rest. rewrite Hrun. split; [|done]. simpl. by rewrite <-!app_assoc.
    + rewrite (M_bind_ok _ _ _ _ _ (client_write (close_response_head final) cs p c)).
      exists (drop (length final) buffer), cs. rewrite client_write. split; [|done].
      simpl. by rewrite <-!app_assoc.
Qed.

(** [forward_response_head] does not depend on how the upstream's bytes are
    cut into chunks: for a response of any number of interim heads and a final
    head, each within the limit, the client receives the interim heads as they
    are, the final head rewritten to close the connection, and then whatever of
    the body was buffered; what it received of the body followed by the chunks
    not yet read is the body. A turn per chunk and interim head, plus one, is
    enough fuel. *)
Theorem response_head_forwarded fuel chunks interims final body p c :
  Forall body_read chunks → Forall (is_head true) interims → is_head false final →
  incoming chunks = concat interims ++ final ++ body →
  (length chunks + length interims < fuel)%nat →
  ∃ over rest,
    forward_response_head fuel (chunks, MkGated p c false) =
      (Ok tt, (rest, MkGated (p ++ concat interims ++ close_response_head final ++ over) c false))
    ∧ over ++ incoming rest = body.
Proof.
  intros. destruct (response_loop_run fuel interims final body [] 0 chunks p c) as (over & rest & Hrun & Hover & _); eauto.
Qed.

(** *** The rewritten response head *)

(** A header line that frames the body. *)
Definition framing_line (l : bytes) : Prop :=
  starts_blank l = false ∧
  (name_of l = Some (lit "content-length") ∨ name_of l = Some (lit "transfer-encoding")).

#[export] Instance framing_line_dec l : Decision (framing_line l).
Proof. unfold framing_line. apply _. Defined.

Lemma keep_lines_sublist options keep headers : keep_lines options keep headers `sublist_of` headers.
Proof.
  revert keep; induction headers as [|l headers IH]; intros keep; cbn [keep_lines]; [done|].
  match goal with |- context [if ?c then _ :: _ else _] => destruct c end;
    [by apply sublist_skip|by apply sublist_cons].
Qed.

Lemma keep_lines_named options keep headers l n :
  l ∈ keep_lines options keep headers → starts_blank l = false → name_of l = Some n →
  response_dropped options n = false.
Proof.
  revert keep; induction headers as [|h headers IH]; intros keep Hl Hb Hn; cbn [keep_lines] in Hl;
    [by apply not_elem_of_nil in Hl|].
  destruct (if starts_blank h then keep else _) eqn:E in Hl; [|by eapply IH].
  apply elem_of_cons in Hl as [->|Hl]; [|by eapply IH].
  rewrite Hb, Hn in E. by apply negb_true_iff.
Qed.

Lemma keep_lines_framing options keep headers :
  filter framing_line (keep_lines options keep headers) = filter framing_line headers.
Proof.
  revert keep; induction headers as [|h headers IH]; intros keep; cbn [keep_lines]; [done|].
  destruct (decide (framing_line h)) as [Hf|Hf].
  - replace (if starts_blank h then keep else _) with true.
    + by rewrite !filter_cons_True, IH.
    + destruct Hf as [-> [->| ->]]; symmetry; apply negb_true_iff; unfold response_dropped; done.
  - rewrite (filter_cons_False _ h) by done.
    destruct (if starts_blank h then keep else _); [by rewrite filter_cons_False|done].
Qed.

Lemma strip_cr_prefix l : ∀ x, x ∈ strip_cr l → x ∈ l.
Proof.
  intros x. unfold strip_cr. destruct (reverse l) as [|b r] eqn:E; [done|].
  destruct (byteb b x0d); [|done]. intros Hx. rewrite <-(reverse_involutive l), E, reverse_cons.
  set_solver.
Qed.

Lemma head_lines_free head : Forall (λ l, x0a ∉ l) (head_lines head).
Proof.
  unfold head_lines. apply Forall_forall. intros l [_ Hl]%list_elem_of_filter.
  apply list_elem_of_fmap in Hl as (k & -> & Hk). intros Hx%strip_cr_prefix.
  pose proof (split_on_no_sep x0a head) as Hf. eapply Forall_forall in Hf; [|done]. done.
Qed.

(** The response head the client receives closes the connection. Its lines
    (also for a recipient that accepts bare line feeds) are the origin's status
    line, header lines of the origin in their order, and [Connection: close];
    none of the kept fields is a connection field, nor one that the origin's
    [Connection] options name unless it frames the body, and the lines that
    frame the body are all kept as they are. *)
Theorem response_head_closes head status headers :
  head_lines head = status :: headers →
  ∃ kept,
    lenient_lines (close_response_head head) = status :: kept ++ [lit "Connection: close"; []; []]
    ∧ kept `sublist_of` headers
    ∧ (∀ l n, l ∈ kept → starts_blank l = false → name_of l = Some n →
         n ∉ [lit "connection"; lit "keep-alive"; lit "proxy-connection"]
         ∧ (n ∈ connection_options headers → n ∈ [lit "content-length"; lit "transfer-encoding"]))
    ∧ filter framing_line kept = filter framing_line headers.
Proof.
  intros Hlines. pose proof (head_lines_free head) as Hfree. rewrite Hlines in Hfree.
  apply Forall_cons in Hfree as [Hs Hh].
  exists (keep_lines (connection_options headers) true headers).
  pose proof (keep_lines_sublist (connection_options headers) true headers) as Hsub. split_and!.
  - unfold close_response_head. rewrite Hlines. cbn [tail hd_error default].
    rewrite lenient_unlines; [by simpl; rewrite <-app_assoc|].
    rewrite !Forall_app, Forall_singleton. split_and!; [done| |].
    + apply Forall_forall. intros l Hl. eapply Forall_forall in Hh; [done|]. by eapply elem_of_sublist.
    + repeat constructor; vm_compute; set_solver.
  - done.
  - intros l n Hl Hb Hn. pose proof (keep_lines_named _ _ _ _ _ Hl Hb Hn) as Hd.
    unfold response_dropped in Hd. apply orb_false_iff in Hd as [Hd1 Hd2].
    assert (Hin : ∀ ls, existsb (bytes_eqb n) ls = true ↔ n ∈ ls).
    { intros ls. rewrite existsb_exists. split.
      - intros (x & Hx & Heq). apply bool_decide_eq_true in Heq as ->. by apply list_elem_of_In.
      - intros Hx. exists n. split; [by apply list_elem_of_In|]. by apply bool_decide_eq_true. }
    split; [by rewrite <-Hin, Hd1|]. intros Ho. rewrite <-Hin.
    destruct (existsb (bytes_eqb n) [lit "content-length"; _]); [done|]. cbn [negb andb] in Hd2.
    apply not_true_iff_false in Hd2. exfalso. apply Hd2. apply existsb_exists. exists n.
    split; [by apply list_elem_of_In|]. by apply bool_decide_eq_true.
  - apply keep_lines_framing.
Qed.

(** ** [serve] *)

Section Serve.
(** The gateway's routes, [dial_tcp] on the upstream's state, and the session's
    [write]. *)
Context {Route Up Session : Type}.
Context (dial_tcp : Route → bytes → Z → M Up Session).
Context (write_session : bytes → M Session unit).
Context (url_parse : bytes → option Url) (base64_decode : bytes → option bytes).

Abbreviation Serving := (Client * Up)%type.

Definition with_client {A} : M Client A → M Serving A := zoom fst (λ c s, (c, s.2)).
Definition with_upstream {A} : M Up A → M Serving A := zoom snd (λ u s, (s.1, u)).

Definition write_raw (payload : bytes) : M Client unit := λ c,
  if broken c then (Err (Bail "broken pipe"), c)
  else (Ok tt, MkHttpClient (reads c) (written c ++ payload) false).

Definition status_response (status : Z) (reason : bytes) (headers : list (bytes * bytes)) : bytes :=
  lit "HTTP/1.1 " ++ dec status ++ lit " " ++ reason ++ crlf
  ++ lit "Content-Length: 0" ++ crlf ++ lit "Connection: close" ++ crlf
  ++ (headers ≫= λ '(name, value), name ++ lit ": " ++ value ++ crlf) ++ crlf.

Definition write_http_status (status : Z) (reason : bytes) (headers : list (bytes * bytes)) : M Client unit :=
  write_raw (status_response status reason headers).

Definition authentication_required : M Client unit :=
  write_http_status 407 (lit "Proxy Authentication Required")
    [(lit "Proxy-Authenticate", lit "Basic realm=" ++ [x22] ++ lit "oixc-proxy" ++ [x22])].

(** What the connection goes on as. *)
Inductive served : Type :=
  | Tunnel (session : Session)
  | OneRequest (session : Session) (forwarded : ForwardedRequest) (leftover : bytes).

(** [session.write] on a session at hand *)
Definition write_to (session : Session) (content : bytes) : result Session :=
  match write_session content session with
  | (Ok _, session) => Ok session
  | (Err e, _) => Err e
  end.
Definition write_leftover (session : Session) (leftover : bytes) : result Session :=
  if bool_decide (leftover = []) then Ok session else write_to session leftover.

Definition serve_route (mode : Mode (Route := Route)) (credentials : option (bytes * bytes)) : M Client Route :=
  if requires_auth mode then
    match credentials with
    | None => authentication_required;; bail "HTTP proxy authentication required"
    | Some (username, password) =>
        match authenticate mode username password with
        | Ok route => mret route
        | Err error => authentication_required;; throw error
        end
    end
  else match mode with
       | Fixed route _ => mret route
       | Dynamic _ => bail "internal error: entered unreachable code"
       end.

Definition serve (mode : Mode (Route := Route)) (handshake_expired : bool) (first_byte : byte) : M Serving served :=
  if handshake_expired then bail "HTTP proxy handshake timed out"
  else
    parsed ← with_client (try_ (read_proxy_request url_parse base64_decode first_byte));
    match parsed with
    | Err error => with_client (try_ (write_http_status 400 (lit "Bad Request") []));; throw error
    | Ok parsed =>
        route ← with_client (serve_route mode (credentials parsed));
        dialled ← with_upstream (try_ (dial_tcp route (parsed_host parsed) (parsed_port parsed)));
        match dialled with
        | Err _ => with_client (write_http_status 502 (lit "Bad Gateway") []);; bail "open upstream tunnel"
        | Ok session =>
            match forwarded parsed with
            | None =>
                with_client (write_raw (lit "HTTP/1.1 200 Connection Established" ++ crlfcrlf));;
                session ← lift (write_leftover session (leftover parsed));
                mret (Tunnel session)
            | Some forwarded =>
                if upgrade forwarded then
                  session ← lift (write_to session (head forwarded));
                  session ← lift (write_leftover session (leftover parsed));
                  mret (Tunnel session)
                else mret (OneRequest session forwarded (leftover parsed))
            end
        end
    end.

(** *** The relay of one request: which direction ends first, and how *)

Inductive one_request_race : Type :=
  | UploadEnds (upload download : result unit)
  | DownloadEnds (download : result unit).

(** The relay is clean only when the request is sent first. *)
Definition drive_one_request (race : one_request_race) : bool :=
  match race with
  | UploadEnds upload download => is_ok upload && is_ok download
  | DownloadEnds _ => false
  end.

(** *** Properties *)

Lemma with_client_upstream {A} (m : M Client A) s : (with_client m s).2.2 = s.2.
Proof. unfold with_client, zoom. by destruct (m s.1). Qed.

(** A route is obtained only for accepted credentials, when they are needed. *)
Definition authorised (mode : Mode (Route := Route)) (creds : option (bytes * bytes)) (route : Route) : Prop :=
  if requires_auth mode then ∃ u p, creds = Some (u, p) ∧ authenticate mode u p = Ok route
  else ∃ cs, mode = Fixed route cs.

Lemma serve_route_authorised mode creds c route c' :
  serve_route mode creds c = (Ok route, c') → authorised mode creds route ∧ c' = c.
Proof.
  unfold serve_route, authorised. destruct (requires_auth mode).
  - destruct creds as [[u p]|]; [|intros; by M_inv].
    destruct (authenticate mode u p) as [r|e] eqn:Ea; intros; M_inv; eauto.
  - destruct mode as [m|r cs]; intros; M_inv. eauto.
Qed.

(** After the dial the upstream is not touched again. *)
Lemma serve_tail_upstream {A} (m : M Client A) (k : A → M Serving served) s :
  (∀ a t, (k a t).2.2 = t.2) → ((with_client m ≫= k) s).2.2 = s.2.
Proof.
  intros Hk. unfold mbind, M_bind. pose proof (with_client_upstream m s) as Hm.
  destruct (with_client m s) as [[a|e] t]; simpl in *; [by rewrite Hk|done].
Qed.

Lemma lift_tail_upstream {A} (r : result A) (k : A → M Serving served) s :
  (∀ a t, (k a t).2.2 = t.2) → ((lift r ≫= k) s).2.2 = s.2.
Proof. intros Hk. destruct r as [a|e]; [apply (Hk a s)|done]. Qed.

(** The HTTP proxy opens an upstream connection only for a request it could
    read and a client it has authorised: whatever [serve] does to the upstream
    is one dial of the host and port of the parsed request on a route the mode
    grants, with accepted credentials where it requires them. In every other
    case the upstream is not touched. *)
Theorem serve_gates_upstream mode expired first c u :
  (serve mode expired first (c, u)).2.2 = u ∨
  ∃ parsed c1 route,
    expired = false
    ∧ read_proxy_request url_parse base64_decode first c = (Ok parsed, c1)
    ∧ authorised mode (credentials parsed) route
    ∧ (serve mode expired first (c, u)).2.2 =
        (dial_tcp route (parsed_host parsed) (parsed_port parsed) u).2.
Proof.
  unfold serve. destruct expired; [by left|].
  destruct (read_proxy_request url_parse base64_decode first c) as [[parsed|e] c1] eqn:Hread.
  - assert (Hr : with_client (try_ (read_proxy_request url_parse base64_decode first)) (c, u)
                 = (Ok (Ok parsed), (c1, u))) by (unfold with_client, try_, zoom; simpl; by rewrite Hread).
    rewrite (M_bind_ok _ _ _ _ _ Hr).
    destruct (serve_route mode (credentials parsed) c1) as [[route|e] c2] eqn:Hroute.
    + pose proof (serve_route_authorised _ _ _ _ _ Hroute) as [Ha ->]. right.
      exists parsed, c1, route. split_and!; try done.
      assert (Hr2 : with_client (serve_route mode (credentials parsed)) (c1, u) = (Ok route, (c1, u)))
        by (unfold with_client, zoom; simpl; by rewrite Hroute).
      rewrite (M_bind_ok _ _ _ _ _ Hr2).
      destruct (dial_tcp route (parsed_host parsed) (parsed_port parsed) u) as [d u1] eqn:Hd.
      assert (Hr3 : with_upstream (try_ (dial_tcp route (parsed_host parsed) (parsed_port parsed))) (c1, u)
                    = (Ok d, (c1, u1))) by (unfold with_upstream, try_, zoom; simpl; by rewrite Hd).
      rewrite (M_bind_ok _ _ _ _ _ Hr3).
      destruct d as [session|e]; [|by apply serve_tail_upstream].
      destruct (forwarded parsed) as [f|].
      * destruct (upgrade f); [|done]. apply lift_tail_upstream. intros. by apply lift_tail_upstream.
      * apply serve_tail_upstream. intros. by apply lift_tail_upstream.
    + left. rewrite (M_bind_err _ _ _ e (c2, u)); [done|].
      unfold with_client, zoom. simpl. by rewrite Hroute.
  - left. assert (Hr : with_client (try_ (read_proxy_request url_parse base64_decode first)) (c, u)
                 = (Ok (Err e), (c1, u))) by (unfold with_client, try_, zoom; simpl; by rewrite Hread).
    rewrite (M_bind_ok _ _ _ _ _ Hr). by apply serve_tail_upstream.
Qed.
End Serve.

(** ** Witnesses *)

Definition demo_body : bytes := lit "5;x" ++ crlf ++ lit "hello" ++ crlf ++ lit "0" ++ crlf ++ lit "T: 1" ++ crlfcrlf.

Definition demo_upload : Upload (list bytes) :=
  MkUpload (take 4 demo_body) [Ok (take 3 (drop 4 demo_body)); Ok (drop 7 demo_body); Ok (lit "GET /next")]
    [] (lit "HEAD").

Lemma demo_chunked : chunked demo_body.
Proof.
  apply (chunked_more (lit "5;x" ++ crlf) 5 (lit "hello") (lit "0" ++ crlf ++ lit "T: 1" ++ crlfcrlf)).
  - split_and!; [done|apply Nat.leb_le; by vm_compute|]. exists (lit "5;x" ++ [x0d]). split; [done|vm_compute; set_solver].
  - reflexivity.
  - done.
  - done.
  - apply (chunked_last (lit "0" ++ crlf) (lit "T: 1" ++ crlfcrlf)).
    + split_and!; [done|apply Nat.leb_le; by vm_compute|]. exists (lit "0" ++ [x0d]). split; [done|vm_compute; set_solver].
    + reflexivity.
    + apply (trailers_line 0 (lit "T: 1" ++ crlf) crlf).
      * split_and!; [done|apply Nat.leb_le; by vm_compute|]. exists (lit "T: 1" ++ [x0d]). split; [done|vm_compute; set_solver].
      * done.
      * apply Nat.leb_le. by vm_compute.
      * constructor. apply Nat.leb_le. by vm_compute.
Qed.

Lemma forward_body_exact_witness :
  ∃ u', forward_body 60 Chunked demo_upload = (Ok tt, u')
    ∧ unread u' = lit "GET /next" ∧ concat (sink u') = lit "HEAD" ++ demo_body.
Proof.
  destruct (forward_body_exact Chunked 60 demo_upload) as (_ & _ & Hrun).
  - repeat constructor; discriminate.
  - apply Nat.ltb_lt. by vm_compute.
  - exact I.
  - exact (Hrun demo_body (lit "GET /next") demo_chunked eq_refl).
Defined.

Definition demo_interim : bytes := lit "HTTP/1.1 100 Continue" ++ crlfcrlf.
Definition demo_final : bytes :=
  lit "HTTP/1.1 200 OK" ++ crlf ++ lit "Connection: keep-alive, X-Hop, Content-Length" ++ crlf
  ++ lit "Keep-Alive: timeout=5" ++ crlf ++ lit "X-Hop: 1" ++ crlf ++ lit "Content-Length: 5" ++ crlf
  ++ lit "X-Folded: a" ++ crlf ++ lit " b" ++ crlfcrlf.
Definition demo_response : bytes := demo_interim ++ demo_final ++ lit "hello".

Lemma demo_closed :
  close_response_head demo_final =
    lit "HTTP/1.1 200 OK" ++ crlf ++ lit "Content-Length: 5" ++ crlf ++ lit "X-Folded: a" ++ crlf
    ++ lit " b" ++ crlf ++ lit "Connection: close" ++ crlfcrlf.
Proof. by vm_compute. Qed.

Lemma demo_heads : is_head true demo_interim ∧ is_head false demo_final.
Proof. split; (split_and!; [by vm_compute..|apply Nat.leb_le; by vm_compute]). Qed.

Lemma response_head_forwarded_witness :
  ∃ over rest,
    forward_response_head 9 ([Ok (take 70 demo_response); Ok (take 1 (drop 70 demo_response));
                              Ok (drop 71 demo_response)], MkGated [] [] false) =
      (Ok tt, (rest, MkGated (demo_interim ++ close_response_head demo_final ++ over) [] false))
    ∧ over ++ incoming rest = lit "hello".
Proof.
  destruct (response_head_forwarded 9
    [Ok (take 70 demo_response); Ok (take 1 (drop 70 demo_response)); Ok (drop 71 demo_response)]
    [demo_interim] demo_final (lit "hello") [] []) as (over & rest & Hrun & Hover).
  - repeat constructor; vm_compute; discriminate.
  - apply Forall_singleton. exact (proj1 demo_heads).
  - exact (proj2 demo_heads).
  - by vm_compute.
  - simpl. lia.
  - exists over, rest. split; [|exact Hover]. rewrite Hrun.
    change (concat [demo_interim]) with (demo_interim ++ []). by rewrite app_nil_r.
Defined.

Lemma response_head_closes_witness :
  ∃ kept, lenient_lines (close_response_head demo_final) =
            lit "HTTP/1.1 200 OK" :: kept ++ [lit "Connection: close"; []; []]
          ∧ filter framing_line kept = [lit "Content-Length: 5"].
Proof.
  destruct (response_head_closes demo_final (lit "HTTP/1.1 200 OK") (tail (head_lines demo_final)))
    as (kept & Hlines & _ & _ & Hframing).
  - by vm_compute.
  - exists kept. split; [exact Hlines|]. rewrite Hframing. by vm_compute.
Defined.
