(* ===== verification/Trust.v ===== *)
(** * Trust: the TLS root store and its reloads ([src/transport/trust.rs])

    The shared state, the reload that runs in the background while it holds the
    reload lock, and the two ways to ask for a snapshot. Times are milliseconds.
    Reading the platform's certificates and parsing one are crates: a step brings
    in what [load_native] made of what they gave. *)
From S2P Require Import Prelude Bytes Order.
Local Open Scope Z_scope.

Definition RELOAD_INTERVAL : Z := 30000.

Section Trust.
(** A trust anchor. *)
Context {Root : Type} `{EqDecision Root}.

Record LoadedRoots : Type := MkLoaded { l_roots : list Root; l_complete : bool }.

Record TrustSnapshot : Type := MkTrust { roots : list Root; generation : Z }.

Record State : Type := MkState { snapshot_of : TrustSnapshot; settled : bool; complete : bool }.

(** [reload]: when the last reload started; [reloading] while its lock is held. *)
Record TrustStore : Type := MkStore { state : State; last_attempt : option Z; reloading : bool }.

Definition with_loader (loaded : LoadedRoots) : result TrustStore :=
  if bool_decide (l_roots loaded = []) then Err (Bail "no usable system TLS roots; see tls.roots diagnostics")
  else Ok (MkStore (MkState (MkTrust (l_roots loaded) 1) (l_complete loaded) (l_complete loaded)) None false).

Definition cooling_down (now : Z) (last : option Z) : bool :=
  match last with Some last => now - last <? RELOAD_INTERVAL | None => false end.

Definition contains (rs : list Root) (r : Root) : bool := existsb (λ x, bool_decide (r = x)) rs.

Definition apply_reload (s : State) (loaded : LoadedRoots) : State :=
  let current := roots (snapshot_of s) in
  let unchanged := bool_decide (l_roots loaded = current) in
  let usable := negb (bool_decide (l_roots loaded = []))
                && (l_complete loaded
                    || ((length current <? length (l_roots loaded))%nat
                        && forallb (contains (l_roots loaded)) current)) in
  if unchanged then MkState (snapshot_of s) true (l_complete loaded)
  else if usable then
    MkState (MkTrust (l_roots loaded) (generation (snapshot_of s) + 1)) (l_complete loaded) (l_complete loaded)
  else s.

(** The lock is taken and the worker started. *)
Definition start_reload (now : Z) (t : TrustStore) : TrustStore := MkStore (state t) (Some now) true.
(** The worker is done and drops the lock. *)
Definition finish_reload (loaded : LoadedRoots) (t : TrustStore) : TrustStore :=
  MkStore (apply_reload (state t) loaded) (last_attempt t) false.

(** The current roots, without waiting. *)
Definition snapshot (now : Z) (t : TrustStore) : TrustSnapshot * TrustStore :=
  (snapshot_of (state t),
   if negb (settled (state t)) && negb (reloading t) && negb (cooling_down now (last_attempt t))
   then start_reload now t else t).

(** [refresh] once it holds the lock: the current roots, or a reload whose
    result it then waits for. *)
Definition refresh (now observed_generation : Z) (t : TrustStore) : option TrustSnapshot * TrustStore :=
  let current := snapshot_of (state t) in
  if negb (generation current =? observed_generation) || cooling_down now (last_attempt t)
  then (Some current, t) else (None, start_reload now t).

(** ** The store as it is used from many dials at once *)

Inductive trust_event : Type :=
  | Snapshot (now : Z)
  | Refresh (now observed_generation : Z)
  | Finish (loaded : LoadedRoots).

(** [refresh] waits for the lock, and only a running reload finishes. *)
Inductive trust_step : TrustStore → trust_event → TrustStore → Prop :=
  | step_snapshot now t : trust_step t (Snapshot now) (snapshot now t).2
  | step_refresh now g t : reloading t = false → trust_step t (Refresh now g) (refresh now g t).2
  | step_finish loaded t : reloading t = true → trust_step t (Finish loaded) (finish_reload loaded t).

(** The stores a run goes through, the last one first. *)
Inductive trust_run (t0 : TrustStore) : list (trust_event * TrustStore) → TrustStore → Prop :=
  | run_start : trust_run t0 [] t0
  | run_step tr t e t' : trust_run t0 tr t → trust_step t e t' → trust_run t0 ((e, t) :: tr) t'.

(** ** Lemmas *)

Definition snap (t : TrustStore) : TrustSnapshot := snapshot_of (state t).

Lemma contains_spec rs r : contains rs r = true ↔ r ∈ rs.
Proof.
  unfold contains. rewrite existsb_exists. split.
  - intros (x & Hx & Hd). apply bool_decide_eq_true in Hd as ->. by apply list_elem_of_In.
  - intros Hr. exists r. split; [by apply list_elem_of_In|]. by apply bool_decide_eq_true.
Qed.

(** What a reload may do to the roots. *)
Lemma apply_reload_cases s loaded :
  let s' := apply_reload s loaded in
  snapshot_of s' = snapshot_of s ∨
  (generation (snapshot_of s') = generation (snapshot_of s) + 1
   ∧ roots (snapshot_of s') = l_roots loaded ∧ l_roots loaded ≠ [] ∧ l_roots loaded ≠ roots (snapshot_of s)
   ∧ (l_complete loaded = false → ∀ r, r ∈ roots (snapshot_of s) → r ∈ l_roots loaded)).
Proof.
  unfold apply_reload. case_bool_decide as Hu; [by left|].
  destruct (_ && _) eqn:E; [|by left]. right. simpl.
  apply andb_true_iff in E as [E1 E2]. apply negb_true_iff, bool_decide_eq_false in E1.
  split_and!; [done..|]. intros Hc r Hr. rewrite Hc in E2. simpl in E2.
  apply andb_true_iff in E2 as [_ E2]. rewrite forallb_forall in E2.
  apply contains_spec, E2. by apply list_elem_of_In.
Qed.

Lemma step_snap t e t' :
  trust_step t e t' →
  snap t' = snap t ∨
  ∃ loaded, e = Finish loaded ∧ generation (snap t') = generation (snap t) + 1
    ∧ roots (snap t') = l_roots loaded ∧ l_roots loaded ≠ []
    ∧ (l_complete loaded = false → ∀ r, r ∈ roots (snap t) → r ∈ l_roots loaded).
Proof.
  intros [now t0|now g t0 _|loaded t0 _]; unfold snap.
  - left. unfold snapshot. simpl. by case_match.
  - left. unfold refresh. by case_match.
  - destruct (apply_reload_cases (state t0) loaded) as [H|(?&?&?&?&?)]; [by left|]. right.
    exists loaded. split_and!; done.
Qed.

Lemma run_generation t0 tr t :
  trust_run t0 tr t →
  ∀ e t1, (e, t1) ∈ tr →
    generation (snap t1) <= generation (snap t)
    ∧ (generation (snap t1) = generation (snap t) → roots (snap t1) = roots (snap t)).
Proof.
  induction 1 as [|tr t e t' Hrun IH Hstep]; intros e1 t1 Hin; [by apply not_elem_of_nil in Hin|].
  assert (Ht : generation (snap t) <= generation (snap t')
               ∧ (generation (snap t) = generation (snap t') → roots (snap t) = roots (snap t'))).
  { destruct (step_snap _ _ _ Hstep) as [->|(l & _ & Hg & _)]; [done|]. split; lia. }
  apply elem_of_cons in Hin as [[= _ ->]|Hin]; [done|].
  destruct (IH _ _ Hin) as [Hle Heq], Ht as [Hle' Heq']. split; [lia|].
  intros Hg. rewrite Heq by lia. apply Heq'. lia.
Qed.

(** In every run of the trust store from a successful load, a generation
    names one set of roots: two snapshots with the same generation hold the same
    roots, and a later one never has a smaller generation. The roots are never
    empty, a root only disappears through a complete load that does not have
    it, and two reloads never overlap nor start less than the reload interval
    apart. *)
Theorem trust_generation_names_roots loaded t0 tr t :
  with_loader loaded = Ok t0 → trust_run t0 tr t →
  roots (snap t) ≠ [] ∧
  (∀ e1 t1, (e1, t1) ∈ tr →
     generation (snap t1) <= generation (snap t)
     ∧ (generation (snap t1) = generation (snap t) → roots (snap t1) = roots (snap t))) ∧
  (∀ e t' r, trust_step t e t' → r ∈ roots (snap t) →
     r ∈ roots (snap t') ∨ ∃ l, e = Finish l ∧ l_complete l = true ∧ r ∉ l_roots l) ∧
  (∀ e t', trust_step t e t' → last_attempt t' ≠ last_attempt t →
     reloading t = false ∧ reloading t' = true ∧
     ∃ now, last_attempt t' = Some now ∧ ∀ last, last_attempt t = Some last → last + RELOAD_INTERVAL <= now).
Proof.
  intros Hnew Hrun. split_and!.
  - assert (H0 : roots (snap t0) ≠ []).
    { unfold with_loader in Hnew. case_bool_decide; [done|]. by injection Hnew as <-. }
    clear Hnew. induction Hrun as [|tr t e t' Hrun IH Hstep]; [done|].
    destruct (step_snap _ _ _ Hstep) as [->|(l & _ & _ & -> & ? & _)]; done.
  - by apply run_generation with t0.
  - intros e t' r Hstep Hr. destruct (step_snap _ _ _ Hstep) as [->|(l & -> & _ & Hl & _ & Hc)]; [by left|].
    rewrite Hl. destruct (decide (r ∈ l_roots l)); [by left|]. right. exists l.
    split_and!; [done| |done]. destruct (l_complete l); [done|]. exfalso. auto.
  - intros e t' [now t1|now g t1 Hlock|l t1 Hlock]; unfold snapshot, refresh; simpl; [| |done].
    + destruct (negb (settled (state t1)) && negb (reloading t1) && negb (cooling_down now (last_attempt t1))) eqn:E;
        [|done]. intros _. reflect_bools. split_and!; [done|done|]. exists now. split; [done|].
      intros last Hlast. unfold cooling_down in *. rewrite Hlast in *. reflect_bools. lia.
    + destruct (negb (generation (snapshot_of (state t1)) =? g) || cooling_down now (last_attempt t1)) eqn:E;
        [done|]. intros _. reflect_bools. split_and!; [done|done|]. exists now. split; [done|].
      intros last Hlast. unfold cooling_down in *. rewrite Hlast in *. reflect_bools. lia.
Qed.
End Trust.
Arguments LoadedRoots Root : clear implicits.
Arguments TrustSnapshot Root : clear implicits.
Arguments TrustStore Root : clear implicits.

(** ** Loading the platform's certificates *)

Section Loading.
(** [RootCertStore::add_parsable_certificates] skips what [parse] cannot read. *)
Context {Root : Type} `{EqDecision Root} (parse : bytes → option Root).

(** [native] is [rustls_native_certs::load_native_certs]: the certificates it
    found, in any order, and the number of its errors. *)
Definition load_native (native : list bytes * nat) : LoadedRoots Root :=
  let certs := sort_bytes native.1 in
  let added := omap parse certs in
  let rejected := (length certs - length added)%nat in
  MkLoaded added ((native.2 =? 0)%nat && (rejected =? 0)%nat).

(** The order in which the platform lists its certificates does not matter: the
    same certificates give the same roots, so a reload that finds nothing new
    keeps the snapshot and its generation. A load is complete exactly when
    nothing failed and every certificate could be read, and no root is made up. *)
Theorem native_order_irrelevant certs certs' errors (s : State (Root := Root)) :
  certs ≡ₚ certs' →
  load_native (certs, errors) = load_native (certs', errors) ∧
  (l_complete (load_native (certs, errors)) = true ↔ errors = 0%nat ∧ ∀ c, c ∈ certs → is_Some (parse c)) ∧
  (∀ r, r ∈ l_roots (load_native (certs, errors)) ↔ ∃ c, c ∈ certs ∧ parse c = Some r) ∧
  (roots (snapshot_of s) = l_roots (load_native (certs, errors)) →
     snapshot_of (apply_reload s (load_native (certs', errors))) = snapshot_of s).
Proof.
  intros Hp. assert (Hsame : load_native (certs, errors) = load_native (certs', errors)).
  { unfold load_native. cbn [fst snd]. by rewrite (sort_bytes_unique _ _ Hp). }
  split; [done|]. split; [|split].
  - unfold load_native. cbn [fst snd l_complete]. rewrite andb_true_iff, !Nat.eqb_eq.
    assert (Hall : (length (sort_bytes certs) - length (omap parse (sort_bytes certs)) = 0)%nat ↔
                   Forall (λ c, is_Some (parse c)) (sort_bytes certs)).
    { generalize (sort_bytes certs). intros l. assert (Hle : ∀ l, (length (omap parse l) <= length l)%nat).
      { induction l0 as [|c l0 IH]; csimpl; [done|]. destruct (parse c); simpl; lia. }
      induction l as [|c l IH]; csimpl; [by split|]. rewrite Forall_cons, <-IH. specialize (Hle l).
      destruct (parse c); simpl.
      - split; [intros; split; [eauto|lia]|intros [_ ?]; lia].
      - split; [intros; lia|]. by intros [[? ?] _]. }
    rewrite Hall, (sort_bytes_Permutation certs), Forall_forall. done.
  - intros r. unfold load_native. cbn [fst snd l_roots]. rewrite list_elem_of_omap.
    setoid_rewrite (sort_bytes_Permutation certs). done.
  - intros Hr. rewrite <-Hsame. unfold apply_reload. by rewrite bool_decide_eq_true_2.
Qed.
End Loading.

(** ** Witness: a partial load adds a root, a complete one replaces the store *)

Definition demo_store : TrustStore nat := MkStore (MkState (MkTrust [1%nat] 1) false false) None false.
Definition demo_started : TrustStore nat := (snapshot 5 demo_store).2.
Definition demo_reloaded : TrustStore nat := finish_reload (MkLoaded [1%nat; 2%nat] false) demo_started.

Lemma demo_trust_run :
  trust_run demo_store [(Finish (MkLoaded [1%nat; 2%nat] false), demo_started); (Snapshot 5, demo_store)] demo_reloaded.
Proof. eapply run_step; [eapply run_step; [apply run_start|constructor]|by constructor]. Qed.

Lemma trust_generation_names_roots_witness :
  with_loader (MkLoaded [1%nat] false) = Ok demo_store
  ∧ generation (snap demo_store) = 1 ∧ generation (snap demo_reloaded) = 2
  ∧ roots (snap demo_reloaded) = [1%nat; 2%nat]
  ∧ generation (snap demo_store) <= generation (snap demo_reloaded).
Proof.
  destruct (trust_generation_names_roots (MkLoaded [1%nat] false) demo_store _ _ eq_refl demo_trust_run)
    as (_ & Hgen & _ & _).
  split_and!; try reflexivity.
  apply (Hgen (Snapshot 5)). right. left.
Defined.

(** Two certificates in either order, one of them twice and one unreadable. *)
Definition demo_parse (c : bytes) : option nat := match c with [] => None | x :: _ => Some (Z.to_nat (b2z x)) end.
Definition demo_state : State (Root := nat) := MkState (MkTrust [1%nat; 2%nat] 4) true false.

Lemma native_order_irrelevant_witness :
  [[x02]; []; [x01]] ≡ₚ [[x01]; [x02]; []] ∧
  snapshot_of (apply_reload demo_state (load_native demo_parse ([[x01]; [x02]; []], 0%nat))) = snapshot_of demo_state ∧
  l_complete (load_native demo_parse ([[x02]; []; [x01]], 0%nat)) = false.
Proof.
  assert (Hp : [[x02]; []; [x01]] ≡ₚ [[x01]; [x02]; []]) by (symmetry; apply (Permutation_cons_append [[x02]; []] [x01])).
  split; [exact Hp|].
  destruct (native_order_irrelevant demo_parse [[x02]; []; [x01]] [[x01]; [x02]; []] 0 demo_state Hp) as (_ & _ & _ & Hs).
  split; [apply Hs; reflexivity|reflexivity].
Defined.
