(* ===== verification/Diagnostics.v ===== *)
(** * Diagnostics: error classes and the health of nodes ([src/diagnostics.rs])

    The class of a failure, the counters and windows kept for the dials of a
    node, and the service's event log. Times are Unix seconds and are inputs.
    How they are shown is in [Status]. *)
From stdpp Require Import sorting.
From S2P Require Import Prelude Bytes.
Local Open Scope Z_scope.

(** ** Error classes *)

Inductive ErrorKind : Type :=
  | Timeout | Network | Authentication | Forbidden | ProxyAuthentication | RateLimited | Server
  | InvalidResponse | Signature | TlsUnknownIssuer | TlsCertificate | EchRejected | Other.

#[export] Instance error_kind_eq_dec : EqDecision ErrorKind.
Proof. solve_decision. Defined.

Definition kind_index (k : ErrorKind) : nat :=
  match k with
  | Timeout => 0 | Network => 1 | Authentication => 2 | Forbidden => 3 | ProxyAuthentication => 4 | RateLimited => 5
  | Server => 6 | InvalidResponse => 7 | Signature => 8 | TlsUnknownIssuer => 9 | TlsCertificate => 10
  | EchRejected => 11 | Other => 12
  end.
Definition kind_of_index (n : nat) : ErrorKind :=
  match n with
  | 0 => Timeout | 1 => Network | 2 => Authentication | 3 => Forbidden | 4 => ProxyAuthentication | 5 => RateLimited
  | 6 => Server | 7 => InvalidResponse | 8 => Signature | 9 => TlsUnknownIssuer | 10 => TlsCertificate
  | 11 => EchRejected | _ => Other
  end%nat.

#[export] Instance error_kind_countable : Countable ErrorKind.
Proof. refine (inj_countable' kind_index kind_of_index _). by intros []. Defined.

Definition http_error_kind (status : Z) : ErrorKind :=
  if status =? 401 then Authentication
  else if status =? 403 then Forbidden
  else if status =? 407 then ProxyAuthentication
  else if status =? 429 then RateLimited
  else if (500 <=? status) && (status <=? 599) then Server
  else InvalidResponse.

(** What the classification recognises in the causes of an error: [ApiFailure],
    the errors of [rustls], [reqwest] and the system; an [io::Error] may carry
    one of [rustls]. *)
Inductive rustls_error : Type := UnknownIssuer | InvalidCertificate | EchRejection | OtherTls.
Inductive io_kind : Type :=
  | TimedOut | ConnectionRefused | ConnectionReset | ConnectionAborted | NotConnected | AddrNotAvailable
  | UnexpectedEof | OtherIo.
Record ApiFailure : Type := MkApiFailure { a_kind : ErrorKind; a_status : option Z; a_retry_after_seconds : option Z }.
Inductive cause : Type :=
  | Api (f : ApiFailure)
  | Tls (e : rustls_error)
  | Reqwest (is_timeout is_connect is_body : bool)
  | Io (kind : io_kind) (inner : option rustls_error)
  | Unknown.

(** The first pass: API failures and TLS. *)
Definition specific_kind (c : cause) : option ErrorKind :=
  match c with
  | Api f => Some (a_kind f)
  | _ =>
      match (match c with Tls e => Some e | Io _ inner => inner | _ => None end) with
      | Some UnknownIssuer => Some TlsUnknownIssuer
      | Some InvalidCertificate => Some TlsCertificate
      | Some EchRejection => Some EchRejected
      | _ => None
      end
  end.

(** The second pass: transport failures. *)
Definition transport_kind (c : cause) : option ErrorKind :=
  match c with
  | Reqwest is_timeout is_connect is_body =>
      if is_timeout then Some Timeout else if is_connect || is_body then Some Network else None
  | Io kind _ =>
      match kind with
      | TimedOut => Some Timeout
      | ConnectionRefused | ConnectionReset | ConnectionAborted | NotConnected | AddrNotAvailable | UnexpectedEof =>
          Some Network
      | OtherIo => None
      end
  | _ => None
  end.

(** [find_map] over the causes of an error, the outermost first. *)
Definition classify (chain : list cause) : ErrorKind :=
  match head (omap specific_kind chain) with
  | Some k => k
  | None => default Other (head (omap transport_kind chain))
  end.

(** ** Dials *)

Abbreviation Kinds := (gmap ErrorKind Z).

Record DialSnapshot : Type := MkDials {
  succeeded : Z; failed : Z; failures_by_kind : Kinds; last_error : option ErrorKind;
  last_success_at : option Z; last_failure_at : option Z;
}.
Definition no_dials : DialSnapshot := MkDials 0 0 ∅ None None None.

(** [*entry(kind).or_default() += 1] *)
Definition count_kind (k : ErrorKind) (m : Kinds) : Kinds := <[k := default 0 (m !! k) + 1]> m.

Definition dial_succeeded (now : Z) (d : DialSnapshot) : DialSnapshot :=
  MkDials (succeeded d + 1) (failed d) (failures_by_kind d) (last_error d) (Some now) (last_failure_at d).
Definition dial_failed (now : Z) (k : ErrorKind) (d : DialSnapshot) : DialSnapshot :=
  MkDials (succeeded d) (failed d + 1) (count_kind k (failures_by_kind d)) (Some k) (last_success_at d) (Some now).

(** The causes of the error, if the dial failed. *)
Definition dial_record (result : option (list cause)) (now : Z) (d : DialSnapshot) : DialSnapshot :=
  match result with
  | None => dial_succeeded now d
  | Some error => dial_failed now (classify error) d
  end.

Inductive DialStage : Type := Dns | Tcp | TlsStage.

(** Milliseconds; [active] is the running stage and when it began. *)
Record DialTimings : Type := MkTimings {
  dns_ms : option Z; tcp_ms : option Z; tls_ms : option Z; total_ms : Z;
  last_stage : option DialStage; active : option (DialStage * Z);
}.

Definition saturating_add (a b : Z) : Z := Z.min (a + b) U64_MAX.

Definition finish (now : Z) (t : DialTimings) : DialTimings :=
  match active t with
  | None => t
  | Some (stage, started) =>
      let add slot := Some (saturating_add (default 0 slot) (Z.min (Z.max 0 (now - started)) U64_MAX)) in
      match stage with
      | Dns => MkTimings (add (dns_ms t)) (tcp_ms t) (tls_ms t) (total_ms t) (last_stage t) None
      | Tcp => MkTimings (dns_ms t) (add (tcp_ms t)) (tls_ms t) (total_ms t) (last_stage t) None
      | TlsStage => MkTimings (dns_ms t) (tcp_ms t) (add (tls_ms t)) (total_ms t) (last_stage t) None
      end
  end.

Definition start (stage : DialStage) (now : Z) (t : DialTimings) : DialTimings :=
  let t := finish now t in
  MkTimings (dns_ms t) (tcp_ms t) (tls_ms t) (total_ms t) (Some stage) (Some (stage, now)).

(** ** Nodes *)

Record DialEvent : Type := MkEvent { at_ : Z; error : option ErrorKind; stage : option DialStage }.

Record NodeState : Type := MkNodeState {
  dials : DialSnapshot; consecutive_failures : Z; last_timings : option DialTimings;
  last_failure_stage : option DialStage; samples : list Z; events : list DialEvent;
}.
Definition new_node : NodeState := MkNodeState no_dials 0 None None [] [].

(** [pop_front] at the limit, then [push_back]. *)
Definition push_bounded {A} (limit : nat) (x : A) (l : list A) : list A :=
  (if (length l =? limit)%nat then drop 1 l else l) ++ [x].

Definition node_record (result : option (list cause)) (timings : DialTimings) (now : Z) (s : NodeState) : NodeState :=
  let event := MkEvent now (classify <$> result) (match result with Some _ => last_stage timings | None => None end) in
  let events := push_bounded 16 event (events s) in
  match result with
  | None =>
      MkNodeState (dial_succeeded now (dials s)) 0 (Some timings) (last_failure_stage s)
        (push_bounded 64 (total_ms timings) (samples s)) events
  | Some error =>
      MkNodeState (dial_failed now (classify error) (dials s)) (consecutive_failures s + 1) (Some timings)
        (last_stage timings) (samples s) events
  end.

Inductive Health : Type := Degraded | Healthy | Unobserved.

Definition health (s : NodeState) : Health :=
  if 0 <? consecutive_failures s then Degraded else if 0 <? succeeded (dials s) then Healthy else Unobserved.

(** [sort_unstable] *)
Definition sorted_samples (s : NodeState) : list Z := merge_sort Z.le (samples s).

Definition percentile (percent : nat) (s : NodeState) : option Z :=
  let sorted := sorted_samples s in
  let n := length sorted in
  sorted !! ((n * percent + 99) / 100 - 1)%nat.

(** ** The event log of the service *)

Inductive EventKind : Type := CatalogRefresh | ConfigReload.
Record ServiceEvent : Type := MkServiceEvent { e_at : Z; e_kind : EventKind; e_error : option ErrorKind }.
Record EventLog : Type := MkEventLog { started_at : Z; log_events : list ServiceEvent }.

Definition event_log (now : Z) : EventLog := MkEventLog now [].
Definition log_record (kind : EventKind) (error : option (list cause)) (now : Z) (l : EventLog) : EventLog :=
  MkEventLog (started_at l) (push_bounded 128 (MkServiceEvent now kind (classify <$> error)) (log_events l)).
Definition uptime_seconds (now : Z) (l : EventLog) : Z := Z.max 0 (now - started_at l).

(** ** The catalog's status *)

Record CatalogStatus : Type := MkCatalog {
  started_from_cache : bool; c_last_attempt_at : option Z; c_last_success_at : option Z;
  c_last_error : option ErrorKind; refresh_failures : Z; cache_age_seconds : option Z;
}.
Definition no_catalog : CatalogStatus := MkCatalog false None None None 0 None.

(** ** The invariant of a node's diagnostics *)

(** The sum of the counts. *)
Definition total (m : Kinds) : Z := map_fold (λ _ n acc, n + acc) 0 m.

Lemma total_insert_new k n m : m !! k = None → total (<[k := n]> m) = n + total m.
Proof. intros Hk. unfold total. apply map_fold_insert_L; [intros; lia|done]. Qed.

Lemma total_count_kind k m : total (count_kind k m) = total m + 1.
Proof.
  unfold count_kind. destruct (m !! k) as [n|] eqn:Hk; simpl.
  - rewrite <-(insert_delete_id m k n Hk) at 2. rewrite <-insert_delete_eq.
    rewrite !total_insert_new by apply lookup_delete_eq. lia.
  - rewrite total_insert_new by done. lia.
Qed.

(** The dials of a node: what each gave, its timings and when it ended. *)
Abbreviation Dial := (option (list cause) * DialTimings * Z)%type.

Definition record_all (ds : list Dial) : NodeState :=
  fold_left (λ s d, node_record d.1.1 d.1.2 d.2 s) ds new_node.

Definition is_success (d : Dial) : bool := match d.1.1 with None => true | Some _ => false end.
Definition event_of (d : Dial) : DialEvent :=
  MkEvent d.2 (classify <$> d.1.1) (match d.1.1 with Some _ => last_stage d.1.2 | None => None end).

(** The last [n] elements. *)
Definition last_n {A} (n : nat) (l : list A) : list A := drop (length l - n) l.

Lemma push_bounded_last_n {A} n (x : A) l : (1 <= n)%nat → push_bounded n x (last_n n l) = last_n n (l ++ [x]).
Proof.
  intros Hn. unfold push_bounded, last_n. rewrite length_drop, length_app. simpl.
  destruct (length l - (length l - n) =? n)%nat eqn:E; reflect_bools.
  - rewrite drop_drop, drop_app_le by lia. f_equal. f_equal. lia.
  - replace (length l - n)%nat with 0%nat by lia. replace (length l + 1 - n)%nat with 0%nat by lia. done.
Qed.

Lemma record_all_snoc ds d : record_all (ds ++ [d]) = node_record d.1.1 d.1.2 d.2 (record_all ds).
Proof. unfold record_all. by rewrite fold_left_app. Qed.

Lemma last_n_length {A} n (l : list A) : length (last_n n l) = Nat.min n (length l).
Proof. unfold last_n. rewrite length_drop. lia. Qed.

(** The error a dial ended with. *)
Definition kind_of (d : Dial) : option ErrorKind := classify <$> d.1.1.
Definition successes (ds : list Dial) : list Dial := filter (λ d, is_success d = true) ds.
Definition failures (ds : list Dial) : list Dial := filter (λ d, is_success d = false) ds.
Definition failures_of (k : ErrorKind) (ds : list Dial) : list Dial := filter (λ d, kind_of d = Some k) ds.

(** One dial more belongs to a class of dials or does not. *)
Lemma dials_snoc (class : Dial → Prop) `{!∀ d, Decision (class d)} (earlier : list Dial) d :
  filter class (earlier ++ [d]) = filter class earlier ++ filter class [d].
Proof. apply filter_app. Qed.

Lemma count_kind_lookup k k' m :
  default 0 (count_kind k m !! k') = default 0 (m !! k') + (if decide (k = k') then 1 else 0).
Proof.
  unfold count_kind. case_decide as Hk.
  - subst k'. by rewrite lookup_insert_eq.
  - rewrite lookup_insert_ne by done. lia.
Qed.

(** What a sequence of dials leaves in the state of a node. *)
Record reported (ds : list Dial) (s : NodeState) : Prop := {
  reported_events : events s = last_n 16 (event_of <$> ds);
  reported_samples : samples s = last_n 64 ((λ d : Dial, total_ms d.1.2) <$> successes ds);
  reported_succeeded : succeeded (dials s) = Z.of_nat (length (successes ds));
  reported_failed : failed (dials s) = Z.of_nat (length (failures ds));
  reported_total : total (failures_by_kind (dials s)) = failed (dials s);
  reported_kinds k : default 0 (failures_by_kind (dials s) !! k) = Z.of_nat (length (failures_of k ds));
  reported_last : last_error (dials s) = last (omap kind_of ds);
  reported_timings : last_timings s = (λ d : Dial, d.1.2) <$> last ds;
  reported_streak before after :
    ds = before ++ after → Forall (λ d, is_success d = false) after →
    match last before with Some d => is_success d = true | None => True end →
    consecutive_failures s = Z.of_nat (length after);
}.

Lemma reported_snoc ds d s : reported ds s → reported (ds ++ [d]) (node_record d.1.1 d.1.2 d.2 s).
Proof.
  intros [Hev Hsa Hsu Hfa Hto Hki Hla Hti Hst].
  destruct d as [[[e|] t] now]; simpl.
  - split; simpl; rewrite ?fmap_app, ?omap_app, ?last_snoc.
    + by rewrite Hev, push_bounded_last_n by lia.
    + unfold successes in *. rewrite dials_snoc. simpl. by rewrite app_nil_r.
    + unfold successes in *. rewrite dials_snoc. simpl. by rewrite app_nil_r.
    + unfold failures in *. rewrite dials_snoc. simpl. rewrite Hfa, length_app. simpl. lia.
    + rewrite total_count_kind. lia.
    + intros k. unfold failures_of in *. rewrite count_kind_lookup, Hki, dials_snoc, filter_cons.
      rewrite length_app, Nat2Z.inj_add. change (kind_of (Some e, t, now)) with (Some (classify e)).
      case_decide; case_decide; simplify_eq; simpl; lia.
    + simpl. by rewrite last_snoc.
    + done.
    + intros before after Heq Hall Hlast. destruct after as [|x after _] using rev_ind.
      * rewrite app_nil_r in Heq. subst before. rewrite last_snoc in Hlast. done.
      * rewrite app_assoc in Heq. apply app_inj_tail in Heq as [Heq <-].
        apply Forall_app in Hall as [Hall _]. rewrite (Hst before after Heq Hall Hlast), length_app. simpl. lia.
  - split; simpl; rewrite ?fmap_app, ?omap_app, ?last_snoc.
    + by rewrite Hev, push_bounded_last_n by lia.
    + unfold successes in *. rewrite dials_snoc. simpl. by rewrite fmap_app, Hsa, push_bounded_last_n by lia.
    + unfold successes in *. rewrite dials_snoc, length_app. simpl. lia.
    + unfold failures in *. rewrite dials_snoc. simpl. by rewrite app_nil_r.
    + done.
    + intros k. unfold failures_of in *. rewrite Hki, dials_snoc. simpl. by rewrite app_nil_r.
    + rewrite app_nil_r. done.
    + done.
    + intros before after Heq Hall Hlast. destruct after as [|x after _] using rev_ind; [done|].
      rewrite app_assoc in Heq. apply app_inj_tail in Heq as [Heq <-].
      apply Forall_app in Hall as [_ Hx]. by apply Forall_inv in Hx.
Qed.

Lemma reported_all ds : reported ds (record_all ds).
Proof.
  induction ds as [|d ds IH] using rev_ind.
  - split; try done. intros before after Heq. by destruct before, after.
  - rewrite record_all_snoc. by apply reported_snoc.
Qed.

(** After any sequence of dials of a node, whatever their outcomes: the
    events are those of the last 16 dials in order, the samples the times of the
    last 64 successful ones; the counters are the numbers of successes and
    failures, the counts by kind those of the failures of each kind, and they
    add up to the failures; the streak is the number of failures since the last
    success, so the node is healthy exactly when its last dial succeeded,
    degraded when it failed and unobserved when there was none. *)
Theorem node_diagnostics_exact ds :
  reported ds (record_all ds) ∧
  health (record_all ds) =
    match last ds with
    | None => Unobserved
    | Some d => if is_success d then Healthy else Degraded
    end.
Proof.
  split; [apply reported_all|]. destruct ds as [|d ds _] using rev_ind; [done|].
  rewrite last_snoc, record_all_snoc. destruct (reported_all ds) as [_ _ Hsu _ _ _ _ _ Hst].
  assert (0 <= consecutive_failures (record_all ds)) as Hpos.
  { clear -ds. induction ds as [|x xs IH] using rev_ind; [done|].
    rewrite record_all_snoc. destruct x as [[[?|] ?] ?]; simpl; lia. }
  unfold health. destruct d as [[[e|] t] now]; simpl.
  - rewrite (proj2 (Z.ltb_lt _ _)) by lia. done.
  - rewrite (proj2 (Z.ltb_lt _ _)) by lia. done.
Qed.

(** ** Percentiles *)

Definition below (v : Z) (l : list Z) : nat := length (filter (λ x, x < v) l).
Definition at_most (v : Z) (l : list Z) : nat := length (filter (λ x, x <= v) l).

Lemma filter_none {A} (P : A → Prop) `{∀ x, Decision (P x)} l : Forall (λ x, ¬ P x) l → filter P l = [].
Proof. induction 1 as [|x l Hx _ IH]; [done|]. by rewrite filter_cons_False. Qed.

Lemma sorted_rank l i v :
  StronglySorted Z.le l → l !! i = Some v → (below v l <= i < at_most v l)%nat.
Proof.
  intros Hs; revert i; induction Hs as [|x l Hs IH Hx]; intros i Hi; [done|].
  unfold below, at_most in *. rewrite !filter_cons. destruct i as [|i]; simpl in Hi.
  - injection Hi as ->. rewrite decide_False by lia. rewrite decide_True by lia.
    rewrite (filter_none (λ x, x < v)); [simpl; lia|].
    eapply Forall_impl; [exact Hx|]. simpl. lia.
  - assert (x <= v) by (eapply Forall_lookup_1 in Hx; eauto).
    specialize (IH i Hi). rewrite (decide_True (P := x <= v)) by lia.
    case_decide; simpl; lia.
Qed.

(** Nearest-rank percentiles: for a percentage from 1 to 100, no value is
    reported exactly when there are no samples; the reported value is one of the
    samples, at least that share of the samples are no greater, and the samples
    below it are fewer than that share. *)
Theorem percentile_nearest_rank percent s (Hp : (1 <= percent <= 100)%nat) :
  (percentile percent s = None ↔ samples s = []) ∧
  ∀ v, percentile percent s = Some v →
    v ∈ samples s ∧
    (length (samples s) * percent <= 100 * at_most v (samples s))%nat ∧
    (100 * below v (samples s) < length (samples s) * percent)%nat.
Proof.
  unfold percentile, sorted_samples. set (l := samples s).
  pose proof (merge_sort_Permutation Z.le l) as Hperm.
  assert (StronglySorted Z.le (merge_sort Z.le l)) as Hsort by (apply StronglySorted_merge_sort; apply _).
  rewrite (Permutation_length Hperm). set (i := ((length l * percent + 99) / 100 - 1)%nat).
  assert (l ≠ [] → (i < length l ∧ 100 * i < length l * percent ∧ length l * percent <= 100 * (i + 1))%nat) as Hi.
  { intros Hne. assert (1 <= length l)%nat by (destruct l; [done|simpl; lia]).
    pose proof (Nat.div_mod_eq (length l * percent + 99) 100) as Hdm.
    pose proof (Nat.mod_upper_bound (length l * percent + 99) 100 ltac:(done)).
    assert (1 <= (length l * percent + 99) / 100)%nat by (apply Nat.div_le_lower_bound; nia).
    unfold i. split_and!; nia. }
  split.
  - rewrite lookup_ge_None, (Permutation_length Hperm). split; [|intros ->; simpl; lia].
    intros Hge. destruct (decide (l = [])) as [|Hne]; [done|]. specialize (Hi Hne). lia.
  - intros v Hv. assert (v ∈ l) as Hin by (rewrite <-Hperm; by eapply list_elem_of_lookup_2).
    destruct Hi as (Hlt & Hlo & Hhi); [by intros ->; apply not_elem_of_nil in Hin|].
    destruct (sorted_rank _ _ _ Hsort Hv) as [Hb Ha]. unfold below, at_most in *.
    rewrite Hperm in Hb, Ha. split_and!; [done|lia|lia].
Qed.

Definition demo_samples : NodeState := MkNodeState no_dials 0 None None [30; 10; 20; 40] [].

Lemma percentile_nearest_rank_witness :
  percentile 50 demo_samples = Some 20 ∧
  (percentile 50 demo_samples = None ↔ samples demo_samples = []).
Proof. split; [reflexivity|]. exact (proj1 (percentile_nearest_rank 50 demo_samples ltac:(lia))). Defined.

(** ** Classification *)

(** The outermost specific cause decides, whatever transport errors are around
    it; only without one does the outermost transport cause. *)
Lemma classify_specific pre c post k :
  Forall (λ c, specific_kind c = None) pre → specific_kind c = Some k → classify (pre ++ c :: post) = k.
Proof.
  intros Hpre Hc. unfold classify. rewrite omap_app.
  replace (omap specific_kind pre) with (@nil ErrorKind) by (induction Hpre as [|x xs Hx _ IH]; simpl; by rewrite ?Hx).
  simpl. by rewrite Hc.
Qed.

Example tls_behind_connect_error :
  classify [Unknown; Reqwest false true false; Io OtherIo (Some UnknownIssuer)] = TlsUnknownIssuer.
Proof. reflexivity. Qed.
