(* ===== verification/Nodes.v ===== *)
(** * Nodes: the node catalog ([src/nodes.rs], selectors of [src/surge.rs])

    The nodes of the managed configuration, their validation, the filter that
    chooses the published ones, and the selectors clients name them by. YAML,
    base64 and the ECH parser are crates; [to_lowercase] and [is_alphanumeric]
    are the standard library's Unicode tables: parameters. *)
From stdpp Require Import pretty.
From S2P Require Import Prelude Bytes Text.
Local Open Scope Z_scope.

Definition MAX_MANAGED_CONFIG_BYTES : Z := 8 * 2 ^ 20.

(** ** Data *)

Record ObfsOptions : Type := MkObfs {
  mode : bytes;
  sni : bytes;
  path : bytes;
  alpn : bytes;
  ech_config : bytes;
  identity_version : Z;
  legacy_fallback : bool;
  skip_cert_verify : bool;
  preconnect : Z
}.

#[export] Instance obfs_eq_dec : EqDecision ObfsOptions.
Proof. solve_decision. Defined.

Record Proxy : Type := MkProxy {
  name : bytes;
  proxy_type : bytes;
  server : bytes;
  port : Z;
  psk : bytes;
  version : Z;
  udp : bool;
  tfo : bool;
  reuse : bool;
  identity : bool;
  obfs : ObfsOptions
}.

#[export] Instance proxy_eq_dec : EqDecision Proxy.
Proof. solve_decision. Defined.

(** ** Selectors *)

(** [URL_SAFE_NO_PAD] and what its documentation promises. *)
Class Base64Url : Type := {
  b64_encode : bytes → bytes;
  b64_decode : bytes → option bytes
}.

(** [u8::is_ascii_alphanumeric], [-] and [_] *)
Definition safe_byte (b : byte) : bool := is_alnum b || byteb b "-" || byteb b "_".

Class Base64UrlLaws (C : Base64Url) : Prop := {
  b64_round_trip x : b64_decode (b64_encode x) = Some x;
  b64_alphabet x : Forall (λ b, safe_byte b = true) (b64_encode x);
  b64_nonempty x : x ≠ [] → b64_encode x ≠ []
}.

Definition NODE_SELECTOR_PREFIX : bytes := lit "name-".

Definition is_safe_credential (value : bytes) : bool :=
  negb (bool_decide (value = [])) && (length value <=? 255)%nat && forallb safe_byte value.

Section Selectors.
Context `{Base64Url}.

Definition node_selector (name : bytes) : result bytes :=
  if bool_decide (name = []) then Err (Bail "managed proxy name is invalid")
  else
    let selector := NODE_SELECTOR_PREFIX ++ b64_encode name in
    if negb (is_safe_credential selector)
    then Err (Bail "managed proxy name is too long for a SOCKS5 selector")
    else Ok selector.

Definition selector_encoding_invalid : error := Bail "node selector encoding is invalid".

Definition node_name_from_selector (selector : bytes) : result bytes :=
  encoded ← ok_or (Bail "node selector prefix is invalid") (strip_prefix NODE_SELECTOR_PREFIX selector);
  decoded ← ok_or selector_encoding_invalid (b64_decode encoded);
  if bool_decide (decoded = []) then Err selector_encoding_invalid
  else ok_or selector_encoding_invalid (from_utf8 decoded).
End Selectors.

(** ** Validation and parsing *)

Section Catalog.
Context `{Base64Url} {EchConfig Value : Type}.
(** [parse_ech_config]; the first document of a YAML stream as the list of its
    nodes (a syntax error or another schema is [None]), whether another document
    follows, and a node's value read strictly. *)
Context (parse_ech_config : bytes → result EchConfig).
Context (first_document : bytes → option (option (list Value))) (more_documents : bytes → bool).
Context (proxy_of_value : Value → option Proxy).

Definition validate_proxy (p : Proxy) : result unit :=
  if bool_decide (trim (name p) = []) then Err (Bail "name is required")
  else if negb (bytes_eqb (proxy_type p) (lit "snell")) || negb (version p =? 4)
  then Err (Bail "only Snell v4 nodes are supported")
  else if bool_decide (trim (server p) = []) || (port p =? 0) || bool_decide (psk p = [])
  then Err (Bail "server, port, and PSK are required")
  else if negb (identity p) then Err (Bail "identity authentication is required")
  else if negb (bytes_eqb (mode (obfs p)) (lit "ech-tls"))
          || negb (bytes_eqb (alpn (obfs p)) (lit "snell-ech/1"))
          || negb (identity_version (obfs p) =? 2) || legacy_fallback (obfs p) || skip_cert_verify (obfs p)
  then Err (Bail "unsupported ECH-TLS settings")
  else if bool_decide (sni (obfs p) = []) || bool_decide (path (obfs p) = [])
          || bool_decide (ech_config (obfs p) = [])
  then Err (Bail "SNI, path, and ECH config are required")
  else
    _ ← parse_ech_config (ech_config (obfs p));
    _ ← node_selector (name p);
    Ok tt.

Definition from_value (value : Value) : result Proxy :=
  proxy ← ok_or (Bail "does not match the expected schema") (proxy_of_value value);
  _ ← validate_proxy proxy;
  Ok proxy.

Record ManagedConfig : Type := MkManaged { proxies : list Proxy }.

(** The loop of [validate] from an index on. *)
Fixpoint validate_from (index : nat) (names : list bytes) (ps : list Proxy) : result unit :=
  match ps with
  | [] => Ok tt
  | p :: ps' =>
      match validate_proxy p with
      | Err e => Err (Context ("proxy at index " +:+ pretty index) e)
      | Ok _ =>
          if bool_decide (name p ∈ names) then Err (Bail ("proxy at index " +:+ pretty index +:+ " has a duplicate name"))
          else validate_from (S index) (name p :: names) ps'
      end
  end.

Definition validate (c : ManagedConfig) : result unit :=
  if bool_decide (proxies c = []) then Err (Bail "managed config contains no proxies")
  else validate_from 0 [] (proxies c).

(** The loop of [parse]: unusable nodes and repeated names are skipped. *)
Fixpoint parse_nodes (names : list bytes) (values : list Value) : list Proxy :=
  match values with
  | [] => []
  | value :: values' =>
      match from_value value with
      | Ok proxy =>
          if bool_decide (name proxy ∈ names) then parse_nodes names values'
          else proxy :: parse_nodes (name proxy :: names) values'
      | Err _ => parse_nodes names values'
      end
  end.

Definition schema_error : error := Bail "managed config does not match the expected YAML schema".

Definition parse (content : bytes) : result ManagedConfig :=
  if bool_decide (content = []) || (MAX_MANAGED_CONFIG_BYTES <? Z.of_nat (length content))
  then Err (Bail "managed config size is invalid")
  else
    first ← ok_or schema_error (first_document content);
    values ← ok_or schema_error first;
    if more_documents content then Err (Bail "managed config contains multiple YAML documents")
    else
      let config := MkManaged (parse_nodes [] values) in
      _ ← validate config;
      Ok config.

End Catalog.

(** ** The filter *)

Section Filter.
Context (to_lowercase : bytes → bytes) (is_alphanumeric : Z → bool).

Definition is_allowed_node_name (n : bytes) : bool :=
  contains_sub (lit "fusion") (to_lowercase n)
  || existsb (λ token, eq_ignore_case (unchars token) (lit "cia"))
       (split_by (λ c, negb (is_alphanumeric (fst c))) (chars n)).

Record NodeFilter : Type := MkFilter {
  lines : list bytes;
  regions : list bytes;
  include : list bytes;
  exclude : list bytes
}.

Definition alternatives (value : bytes) : result (list bytes) :=
  if bool_decide (value = []) then Ok []
  else if (4096 <? Z.of_nat (length value)) || existsb (λ c, is_control (fst c)) (chars value)
  then Err (Bail "node filter is too long or contains control characters")
  else
    let parts := (λ p, to_lowercase (trim p)) <$> split_on "|" value in
    if (64 <? length parts)%nat || existsb (λ p, bool_decide (p = [])) parts
    then Err (Bail "node filter requires at most 64 nonempty alternatives separated by |")
    else Ok parts.

Definition filter_new (lines regions include exclude : bytes) : result NodeFilter :=
  lines ← alternatives lines;
  if existsb (λ line, negb (forallb is_alnum line)) lines
  then Err (Bail "node filter lines must be ASCII alphanumeric markers, such as Fusion, CIA or IXP")
  else
    regions ← alternatives regions;
    include ← alternatives include;
    exclude ← alternatives exclude;
    Ok (MkFilter lines regions include exclude).

Definition is_custom (f : NodeFilter) : bool :=
  negb (bool_decide (lines f = [])) || negb (bool_decide (regions f = []))
  || negb (bool_decide (include f = [])) || negb (bool_decide (exclude f = [])).

(** The tokens between characters that are not ASCII letters or digits. Cutting
    at bytes adds empty tokens inside a multi-byte character; a line of a
    filter is never empty, so they match nothing. *)
Definition ascii_tokens (n : bytes) : list bytes := split_by (λ b, negb (is_alnum b)) n.

Definition filter_matches (f : NodeFilter) (n : bytes) : bool :=
  if negb (is_custom f) then is_allowed_node_name n
  else
    let lower := to_lowercase n in
    let contains_any patterns := existsb (λ p, contains_sub p lower) patterns in
    let line_matches := bool_decide (lines f = [])
          || existsb (λ token, existsb (λ line, eq_ignore_case token line) (lines f)) (ascii_tokens n) in
    line_matches
    && (bool_decide (regions f = []) || contains_any (regions f))
    && (bool_decide (include f = []) || contains_any (include f))
    && negb (contains_any (exclude f)).

Definition filtered_proxies (c : ManagedConfig) (f : NodeFilter) : result (list Proxy) :=
  let kept := List.filter (λ p, filter_matches f (name p)) (proxies c) in
  if bool_decide (kept = [])
  then Err (Bail "node filter kept no nodes; use preview-nodes to inspect the selection") else Ok kept.

Definition allowed_proxies (c : ManagedConfig) : list Proxy :=
  List.filter (λ p, is_allowed_node_name (name p)) (proxies c).

Definition filter_allowed_nodes (c : ManagedConfig) : result ManagedConfig :=
  let kept := allowed_proxies c in
  if bool_decide (kept = []) then Err (Bail "managed config contains no allowed Fusion/CIA proxies")
  else Ok (MkManaged kept).

Record FilterPreview : Type := MkPreview {
  preview_mode : string;
  total : nat;
  kept : nat;
  excluded : nat;
  nodes : list bytes
}.

Definition preview (f : NodeFilter) (ps : list Proxy) (all : bool) : FilterPreview :=
  let nodes := name <$> List.filter (λ p, all || filter_matches f (name p)) ps in
  MkPreview (if all then "all" else if is_custom f then "custom" else "default")
    (length ps) (length nodes) (length ps - length nodes) nodes.

End Filter.

(** ** Properties of the catalog *)

Section CatalogProofs.
Context `{Base64Url} {EchConfig Value : Type}.
Context (parse_ech_config : bytes → result EchConfig).
Context (first_document : bytes → option (option (list Value))) (more_documents : bytes → bool).
Context (proxy_of_value : Value → option Proxy).

Abbreviation node_of := (from_value parse_ech_config proxy_of_value).
Abbreviation kept_nodes := (parse_nodes parse_ech_config proxy_of_value).
Abbreviation valid_proxy := (validate_proxy parse_ech_config).
Abbreviation valid_from := (validate_from parse_ech_config).
Abbreviation parse_doc := (parse parse_ech_config first_document more_documents proxy_of_value).

Definition usable (v : Value) (p : Proxy) : Prop := node_of v = Ok p.

Lemma usable_valid v p : usable v p → valid_proxy p = Ok tt.
Proof.
  unfold usable, from_value. intros (q & _ & Hv)%result_bind_inv.
  apply result_bind_inv in Hv as ([] & Hv & [= ->]). done.
Qed.

Lemma parse_nodes_elem names vs p :
  p ∈ kept_nodes names vs ↔
  name p ∉ names ∧ ∃ i v, vs !! i = Some v ∧ usable v p ∧
    ∀ j v' p', (j < i)%nat → vs !! j = Some v' → usable v' p' → name p' ≠ name p.
Proof.
  revert names; induction vs as [|v vs IH]; intros names; cbn [parse_nodes].
  { split; [by intros ?%not_elem_of_nil|]. by intros (_ & i & v & Hi & _). }
  (* moving the claim on the tail to the list *)
  assert (Htail : ∀ ns, (name p ∉ ns ∧ ∃ i w, vs !! i = Some w ∧ usable w p ∧
              ∀ j v' p', (j < i)%nat → vs !! j = Some v' → usable v' p' → name p' ≠ name p) ↔
            p ∈ kept_nodes ns vs) by (intros; symmetry; apply IH).
  destruct (node_of v) as [q|e] eqn:Hq; [destruct (decide (name q ∈ names)) as [Hin|Hin]|].
  - rewrite bool_decide_eq_true_2 by done. rewrite <-Htail. split; intros (Hp & i & w & Hi & Hu & Hj).
    + split; [done|]. exists (S i), w. split_and!; [done|done|].
      intros [|j] v' p' Hlt Hv Hu'; [|by eapply (Hj j); [lia|..]].
      simpl in Hv. injection Hv as <-. unfold usable in Hu'. congruence.
    + split; [done|]. destruct i as [|i].
      * simpl in Hi. injection Hi as <-. unfold usable in Hu. congruence.
      * exists i, w. split_and!; [done|done|]. intros j v' p' Hlt. apply (Hj (S j)). lia.
  - rewrite bool_decide_eq_false_2 by done. rewrite elem_of_cons, <-Htail. split.
    + intros [->|(Hp & i & w & Hi & Hu & Hj)].
      * split; [done|]. exists 0%nat, v. split_and!; [done|done|lia].
      * rewrite not_elem_of_cons in Hp. destruct Hp as [Hne Hp]. split; [done|].
        exists (S i), w. split_and!; [done|done|].
        intros [|j] v' p' Hlt Hv Hu'; [|by eapply (Hj j); [lia|..]].
        simpl in Hv. injection Hv as <-. unfold usable in Hu'. congruence.
    + intros (Hp & [|i] & w & Hi & Hu & Hj).
      * simpl in Hi. injection Hi as <-. unfold usable in Hu. left. congruence.
      * right. rewrite not_elem_of_cons. split; [split; [|done]|].
        -- intros Heq. by apply (Hj 0%nat v q); [lia| | |].
        -- exists i, w. split_and!; [done|done|]. intros j v' p' Hlt. apply (Hj (S j)). lia.
  - rewrite <-Htail. split; intros (Hp & i & w & Hi & Hu & Hj).
    + split; [done|]. exists (S i), w. split_and!; [done|done|].
      intros [|j] v' p' Hlt Hv Hu'; [|by eapply (Hj j); [lia|..]].
      simpl in Hv. injection Hv as <-. unfold usable in Hu'. congruence.
    + split; [done|]. destruct i as [|i].
      * simpl in Hi. injection Hi as <-. unfold usable in Hu. congruence.
      * exists i, w. split_and!; [done|done|]. intros j v' p' Hlt. apply (Hj (S j)). lia.
Qed.

Lemma parse_nodes_names names vs :
  NoDup (name <$> kept_nodes names vs).
Proof.
  revert names; induction vs as [|v vs IH]; intros names; cbn [parse_nodes]; [constructor|].
  destruct (node_of v) as [q|e]; [|done]. case_bool_decide; [done|]. csimpl. constructor; [|done].
  intros (p & Hp & Hin)%list_elem_of_fmap. apply parse_nodes_elem in Hin as [Hn _]. set_solver.
Qed.

Lemma parse_nodes_sublist names vs :
  kept_nodes names vs `sublist_of` omap (λ v, match node_of v with Ok p => Some p | Err _ => None end) vs.
Proof.
  revert names; induction vs as [|v vs IH]; intros names; cbn [parse_nodes]; [done|]. csimpl.
  destruct (node_of v) as [q|e]; [|done].
  case_bool_decide; [by apply sublist_cons|by apply sublist_skip].
Qed.

(** The strict validation has nothing to object to. *)
Lemma validate_from_ok index names ps :
  Forall (λ p, valid_proxy p = Ok tt) ps → NoDup (name <$> ps) →
  (∀ p, p ∈ ps → name p ∉ names) → valid_from index names ps = Ok tt.
Proof.
  revert index names; induction ps as [|p ps IH]; intros index names Hv Hd Hn; cbn [validate_from]; [done|].
  apply Forall_cons in Hv as [-> Hv]. csimpl in Hd. apply NoDup_cons in Hd as [Hp Hd].
  rewrite bool_decide_eq_false_2 by (apply Hn; by left).
  apply IH; [done|done|]. intros q Hq. rewrite not_elem_of_cons. split; [|apply Hn; by right].
  intros Heq. apply Hp. rewrite <-Heq. apply list_elem_of_fmap. eauto.
Qed.

(** One bad node does not take the catalog down. For a document in the
    schema, [parse] fails only when no node is usable; otherwise it keeps
    exactly the nodes that are valid and the first valid ones of their name, in
    the document's order, so their names are distinct and each of them passes
    the strict validation. *)
Theorem parse_keeps_usable content values :
  content ≠ [] → Z.of_nat (length content) <= MAX_MANAGED_CONFIG_BYTES →
  first_document content = Some (Some values) → more_documents content = false →
  ∃ ps,
    parse_doc content = (if bool_decide (ps = []) then Err (Bail "managed config contains no proxies")
                     else Ok (MkManaged ps))
    ∧ ps `sublist_of` omap (λ v, match node_of v with Ok p => Some p | Err _ => None end) values
    ∧ NoDup (name <$> ps)
    ∧ (∀ p, p ∈ ps → valid_proxy p = Ok tt)
    ∧ ∀ p, p ∈ ps ↔ ∃ i v, values !! i = Some v ∧ usable v p ∧
        ∀ j v' p', (j < i)%nat → values !! j = Some v' → usable v' p' → name p' ≠ name p.
Proof.
  intros Hne Hlen Hdoc Hmore. exists (kept_nodes [] values).
  assert (Hvalid : ∀ p, p ∈ kept_nodes [] values → valid_proxy p = Ok tt).
  { intros p (_ & i & v & _ & Hu & _)%parse_nodes_elem. by eapply usable_valid. }
  split_and!.
  - unfold parse. rewrite bool_decide_eq_false_2 by done.
    rewrite (proj2 (Z.ltb_ge _ _)) by lia. cbn [orb]. rewrite Hdoc, Hmore. simpl.
    unfold validate. simpl. case_bool_decide as He; [done|].
    rewrite validate_from_ok; [done| |apply parse_nodes_names|set_solver].
    by apply Forall_forall.
  - apply parse_nodes_sublist.
  - apply parse_nodes_names.
  - done.
  - intros p. rewrite parse_nodes_elem. set_solver.
Qed.
End CatalogProofs.

(** ** Selectors name nodes *)

Section SelectorProofs.
Context `{Base64UrlLaws}.

Lemma node_selector_inv n s :
  node_selector n = Ok s → n ≠ [] ∧ s = NODE_SELECTOR_PREFIX ++ b64_encode n ∧ is_safe_credential s = true.
Proof.
  unfold node_selector. case_bool_decide; [done|].
  destruct (is_safe_credential _) eqn:E; [|done]. intros [= <-]. done.
Qed.

(** A selector gives back the name it was made from. *)
Lemma selector_round_trip n s :
  node_selector n = Ok s → from_utf8 n = Some n → node_name_from_selector s = Ok n.
Proof.
  intros (Hn & -> & _)%node_selector_inv Hu. unfold node_name_from_selector, strip_prefix.
  assert (starts_with NODE_SELECTOR_PREFIX (NODE_SELECTOR_PREFIX ++ b64_encode n) = true) as ->
    by (apply starts_with_spec; by exists (b64_encode n)).
  rewrite drop_app_length. simpl. rewrite b64_round_trip. simpl. by rewrite bool_decide_eq_false_2, Hu.
Qed.

Lemma node_selector_inj n m s : node_selector n = Ok s → node_selector m = Ok s → n = m.
Proof.
  intros (_ & -> & _)%node_selector_inv (_ & He & _)%node_selector_inv.
  apply app_inv_head in He. apply (f_equal b64_decode) in He. rewrite !b64_round_trip in He. congruence.
Qed.
End SelectorProofs.

(** ** Witnesses: hexadecimal text stands for the base64 of a crate *)

Fixpoint hex_decode (l : bytes) : option bytes :=
  match l with
  | [] => Some []
  | a :: b :: l' =>
      x ← hex_val a; y ← hex_val b; r ← hex_decode l'; Some (z2b (16 * x + y) :: r)
  | _ => None
  end.

#[export] Instance toy_base64 : Base64Url := {
  b64_encode x := x ≫= λ b, [hex_digit (b2z b / 16); hex_digit (b2z b mod 16)];
  b64_decode := hex_decode
}.

Lemma hex_byte b :
  hex_decode [hex_digit (b2z b / 16); hex_digit (b2z b mod 16)] = Some [b]
  ∧ safe_byte (hex_digit (b2z b / 16)) = true ∧ safe_byte (hex_digit (b2z b mod 16)) = true.
Proof. by destruct b. Qed.

#[export] Instance toy_base64_laws : Base64UrlLaws toy_base64.
Proof.
  split.
  - intros x. induction x as [|b x IH]; [done|]. cbn [b64_encode b64_decode toy_base64] in *.
    pose proof (proj1 (hex_byte b)) as Hb. cbn [mbind list_bind app hex_decode] in *.
    destruct (hex_val (hex_digit (b2z b / 16))) as [u|]; [|done]. simpl in *.
    destruct (hex_val (hex_digit (b2z b mod 16))) as [v|]; [|done]. simpl in *.
    rewrite IH. simpl. congruence.
  - intros x. induction x as [|b x IH]; [constructor|]. cbn [b64_encode toy_base64] in *.
    cbn [mbind list_bind app]. destruct (hex_byte b) as (_ & ? & ?). repeat constructor; done.
  - intros [|b x] Hx; [done|]. done.
Qed.

Definition demo_proxy (n : bytes) : Proxy :=
  MkProxy n (lit "snell") (lit "node.test") 443 (lit "key") 4 true false true true
    (MkObfs (lit "ech-tls") (lit "sni.test") (lit "/p") (lit "snell-ech/1") (lit "AA") 2 false false 0).

(** The second node has no key, the third repeats a name. *)
Definition demo_values : list (option Proxy) :=
  [Some (demo_proxy (lit "Fusion 01")); None; Some (demo_proxy (lit "Fusion 01")); Some (demo_proxy (lit "CIA 02"))].

Lemma parse_keeps_usable_witness :
  ∃ ps, parse (λ _, Ok tt) (λ _, Some (Some demo_values)) (λ _, false) (λ v, v) (lit "proxies:")
          = Ok (MkManaged ps)
        ∧ ps = [demo_proxy (lit "Fusion 01"); demo_proxy (lit "CIA 02")] ∧ NoDup (name <$> ps).
Proof.
  destruct (parse_keeps_usable (λ _, Ok tt) (λ _, Some (Some demo_values)) (λ _, false) (λ v, v)
              (lit "proxies:") demo_values) as (ps & Hparse & _ & Hdup & _).
  - discriminate.
  - vm_compute. discriminate.
  - reflexivity.
  - reflexivity.
  - assert (Hps : parse (λ _, Ok tt) (λ _, Some (Some demo_values)) (λ _, false) (λ v, v) (lit "proxies:")
                  = Ok (MkManaged [demo_proxy (lit "Fusion 01"); demo_proxy (lit "CIA 02")]))
      by (vm_compute; reflexivity).
    exists ps. rewrite Hps in Hparse. case_bool_decide; [discriminate|]. injection Hparse as <-.
    split; [exact Hps|]. split; [reflexivity|exact Hdup].
Defined.
