(* ===== verification/Network.v ===== *)
(** * Network: the egress interface and its monitor ([src/network.rs])

    The choice of an interface and of its source addresses, the cache of the
    default route, the generations of the monitor, and the binding of sockets,
    as compiled for Linux. The system's answers are inputs: what [getifaddrs],
    [/proc/net/route] and [/proc/net/if_inet6] hold, and whether [bind]
    succeeds. Times are milliseconds. *)
From Stdlib Require Import Sorting.Sorted.
From S2P Require Import Prelude Bytes Text Ip.
Local Open Scope Z_scope.

Definition REFRESH_INTERVAL : Z := 2000.
Definition DEFAULT_ROUTE_RECHECK : Z := 30000.
Definition U32_MAX : Z := 2 ^ 32 - 1.
Definition U128_MAX : Z := 2 ^ 128 - 1.

(** [Ipv4Addr] and [Ipv6Addr], as the fields of a selection are typed *)
Abbreviation Ipv4Addr := (byte * byte * byte * byte)%type.
Abbreviation Ipv6Addr := bytes.
Definition of_v4 (a : Ipv4Addr) : IpAddr := let '(a, b, c, d) := a in V4 a b c d.

Record AddressState : Type := MkAddressState { temporary : bool; deprecated : bool; unassignable : bool }.
Definition default_state : AddressState := MkAddressState false false false.

Record InterfaceAddress : Type := MkInterface {
  name : bytes; index : Z; address : IpAddr; state : AddressState;
}.

#[export] Instance address_state_eq_dec : EqDecision AddressState.
Proof. solve_decision. Defined.
#[export] Instance interface_address_eq_dec : EqDecision InterfaceAddress.
Proof. solve_decision. Defined.

(** ** The default route, looked up at most every recheck interval *)

Record DefaultRouteCache : Type := MkRouteCache {
  rc_addresses : list InterfaceAddress; rc_interface : option bytes; rc_checked_at : option Z;
}.
Definition empty_route_cache : DefaultRouteCache := MkRouteCache [] None None.

(** [interface], at [now]; a lookup answers [lookup] and is over at [done]. *)
Definition route_interface (now done : Z) (lookup : option bytes) (addresses : list InterfaceAddress)
    (c : DefaultRouteCache) : option bytes * DefaultRouteCache :=
  let current := bool_decide (rc_addresses c = addresses)
                 && match rc_checked_at c with
                    | Some checked => now - checked <? DEFAULT_ROUTE_RECHECK | None => false end in
  let c := if current then c else MkRouteCache addresses lookup (Some done) in
  (rc_interface c, c).

(** ** Selecting an interface *)

Record EgressSelection : Type := MkEgress {
  interface_name : option bytes; interface_index : option Z;
  ipv4 : option Ipv4Addr; ipv6 : option Ipv6Addr;
}.

#[export] Instance egress_eq_dec : EqDecision EgressSelection.
Proof. solve_decision. Defined.

Definition egress_empty : EgressSelection := MkEgress None None None None.
Definition has_address (s : EgressSelection) : bool := bool_decide (is_Some (ipv4 s)) || bool_decide (is_Some (ipv6 s)).
Definition set_index (i : Z) (s : EgressSelection) : EgressSelection :=
  MkEgress (interface_name s) (Some i) (ipv4 s) (ipv6 s).
(** [ipv4.get_or_insert(address)] *)
Definition insert_ipv4 (a : Ipv4Addr) (s : EgressSelection) : EgressSelection :=
  MkEgress (interface_name s) (interface_index s) (match ipv4 s with Some b => Some b | None => Some a end) (ipv6 s).
Definition set_ipv6 (a : option Ipv6Addr) (s : EgressSelection) : EgressSelection :=
  MkEgress (interface_name s) (interface_index s) (ipv4 s) a.

Definition pinned_without_interface (a : IpAddr) : EgressSelection :=
  match a with
  | V4 a b c d => MkEgress None None (Some (a, b, c, d)) None
  | V6 o => MkEgress None None None (Some o)
  end.

(** [Ipv6Addr::is_unique_local]: fc00::/7 *)
Definition is_unique_local (o : Ipv6Addr) : bool :=
  match o with x :: _ => Z.land (b2z x) 254 =? 252 | [] => false end.

(** Ranks are compared as tuples of [bool]s, [false] first. *)
Abbreviation Rank := (bool * bool * bool)%type.
Definition rank (o : Ipv6Addr) (s : AddressState) : Rank := (is_unique_local o, deprecated s, temporary s).
Definition bool_ltb (a b : bool) : bool := negb a && b.
Definition rank_ltb (r s : Rank) : bool :=
  let '(a, b, c) := r in let '(x, y, z) := s in
  bool_ltb a x || (eqb a x && (bool_ltb b y || (eqb b y && bool_ltb c z))).

(** One turn of the loop: the selection and the best IPv6 address so far. *)
Definition consider (pinned_ip : option IpAddr) (acc : EgressSelection * option (Rank * Ipv6Addr))
    (entry : InterfaceAddress) : EgressSelection * option (Rank * Ipv6Addr) :=
  let '(selection, best) := acc in
  let selection := set_index (index entry) selection in
  if match pinned_ip with Some p => negb (bool_decide (p = address entry)) | None => false end
  then (selection, best)
  else match address entry with
  | V4 a b c d => (insert_ipv4 (a, b, c, d) selection, best)
  | V6 o =>
      if bool_decide (is_Some pinned_ip) || negb (unassignable (state entry)) then
        let r := rank o (state entry) in
        (selection, match best with
                    | Some (b, _) => if rank_ltb r b then Some (r, o) else best
                    | None => Some (r, o) end)
      else (selection, best)
  end.

Definition selection_for_interface (addresses : list InterfaceAddress) (n : bytes) (pinned_ip : option IpAddr) :
    EgressSelection :=
  let start := MkEgress (Some n) None None None in
  let '(selection, best) :=
    fold_left (consider pinned_ip) (filter (λ e, name e = n) addresses) (start, None) in
  set_ipv6 (snd <$> best) selection.

Definition interface_score (n : bytes) (preferred : option bytes) : Z :=
  (if bool_decide (Some n = preferred) then 1000 else 0)
  + (if bytes_eqb n (lit "en0") || bytes_eqb n (lit "br-lan") then 500
     else if starts_with (lit "en") n || starts_with (lit "eth") n || starts_with (lit "wlan") n
             || starts_with (lit "wl") n || starts_with (lit "ppp") n then 400
     else 100).

Definition virtual_prefixes : list bytes :=
  [lit "lo"; lit "utun"; lit "tun"; lit "tap"; lit "wg"; lit "tailscale"; lit "docker"; lit "veth";
   lit "vmnet"; lit "awdl"; lit "llw"].
Definition is_virtual_interface (n : bytes) : bool := existsb (λ prefix, starts_with prefix n) virtual_prefixes.

(** [default_interface] may change what its caller lends it. *)
Definition detect_egress_from_addresses {S : Type} (addresses : result (list InterfaceAddress))
    (pinned_ip : option IpAddr) (default_interface : list InterfaceAddress → S → option bytes * S) (s : S) :
    result EgressSelection * S :=
  match addresses with
  | Err e => (match pinned_ip with Some p => Ok (pinned_without_interface p) | None => Err e end, s)
  | Ok addresses =>
      match pinned_ip with
      | Some p =>
          (Ok match position (λ e, bool_decide (address e = p)) addresses ≫= λ i, addresses !! i with
              | Some pinned => selection_for_interface addresses (name pinned) (Some p)
              | None => egress_empty
              end, s)
      | None =>
          let '(preferred, s) := default_interface addresses s in
          let selected := max_by_key (λ e, interface_score (name e) preferred)
                            (filter (λ e, is_virtual_interface (name e) = false) addresses) in
          (Ok match selected with
              | Some e => selection_for_interface addresses (name e) None
              | None => egress_empty
              end, s)
      end
  end.

(** ** What the system reports *)

(** A line of [/proc/net/route] that is the default route of a physical
    interface in use: its metric and interface. *)
Definition route_line (line : bytes) : option (Z * bytes) :=
  match split_whitespace line with
  | interface :: destination :: _ :: flags :: _ :: _ :: metric :: _ :: _ =>
      if negb (bytes_eqb destination (lit "00000000")) || is_virtual_interface interface then None
      else
        flags ← parse_hex U32_MAX flags;
        if Z.land flags 1 =? 0 then None
        else metric ← parse_uint U32_MAX metric; Some (metric, interface)
  | _ => None
  end.
(** [routes] is the file, when it can be read *)
Definition default_physical_interface (routes : option bytes) : option bytes :=
  routes ← routes; snd <$> min_by_key fst (omap route_line (drop 1 (lines routes))).

(** [Ipv6Addr::from(u128)] *)
Fixpoint be_octets (n : nat) (z : Z) : bytes :=
  match n with O => [] | S n' => be_octets n' (z / 256) ++ [z2b z] end.

Definition if_inet6_line (line : bytes) : option (bytes * Ipv6Addr * AddressState) :=
  match split_whitespace line with
  | [address; _; _; _; flags; n] =>
      address ← parse_hex U128_MAX address;
      flags ← parse_hex 255 flags;
      let bit m := negb (Z.land flags m =? 0) in
      Some (n, be_octets 16 address,
            MkAddressState (bit 1) (bit 32) (bit 8 || (bit 64 && negb (bit 4))))
  | _ => None
  end.
Definition parse_if_inet6 (content : bytes) : list (bytes * Ipv6Addr * AddressState) :=
  omap if_inet6_line (lines content).
(** [Ipv6States::get] *)
Definition states_get (states : list (bytes * Ipv6Addr * AddressState)) (n : bytes) (a : Ipv6Addr) : AddressState :=
  match position (λ e : bytes * Ipv6Addr * AddressState, bytes_eqb e.1.1 n && bytes_eqb e.1.2 a) states
        ≫= λ i, states !! i with
  | Some e => e.2
  | None => default_state
  end.

(** [Ipv4Addr::is_link_local] and [Ipv6Addr::is_unicast_link_local] *)
Definition is_link_local (ip : IpAddr) : bool :=
  match ip with
  | V4 a b _ _ => (b2z a =? 169) && (b2z b =? 254)
  | V6 (x :: y :: _) => (b2z x =? 254) && (Z.land (b2z y) 192 =? 128)
  | V6 _ => false
  end.
Definition is_usable_address (ip : IpAddr) : bool :=
  negb (is_unspecified ip) && negb (is_loopback ip) && negb (is_multicast ip) && negb (is_link_local ip).

(** An entry of the [getifaddrs] list; [ifa_addr] is [None] for a null
    pointer, and [Some None] for an address of another family. *)
Record IfAddrs : Type := MkIfAddrs { ifa_addr : option (option IpAddr); ifa_flags : Z; ifa_name : bytes }.
Definition IFF_UP : Z := 1.
Definition IFF_LOOPBACK : Z := 8.

Section InterfaceAddresses.
Context (if_nametoindex : bytes → Z).

Definition interface_of (states : list (bytes * Ipv6Addr * AddressState)) (item : IfAddrs) :
    option InterfaceAddress :=
  family ← ifa_addr item;
  if (Z.land (ifa_flags item) IFF_UP =? 0) || negb (Z.land (ifa_flags item) IFF_LOOPBACK =? 0) then None
  else
    let n := from_utf8_lossy (ifa_name item) in
    a ← family;
    if negb (is_usable_address a) then None
    else
      let i := if_nametoindex (ifa_name item) in
      if i =? 0 then None
      else Some (MkInterface n i a
             (match a with V6 o => states_get states n o | V4 _ _ _ _ => default_state end)).

(** [getifaddrs] and [if_inet6]: what the calls return *)
Definition interface_addresses (getifaddrs : result (list IfAddrs)) (if_inet6 : option bytes) :
    result (list InterfaceAddress) :=
  let states := match if_inet6 with Some content => parse_if_inet6 content | None => [] end in
  omap (M := list) (interface_of states) <$> getifaddrs.
End InterfaceAddresses.

(** ** The monitor *)

(** What a detection meets: the addresses, the time the cached route is
    consulted, and the answer of a lookup and when it is over. *)
Record Probe : Type := MkProbe {
  p_addresses : result (list InterfaceAddress); p_now : Z; p_lookup : option bytes; p_done : Z;
}.

Definition detect_egress (probe : Probe) (pinned_ip : option IpAddr) (c : DefaultRouteCache) :
    result EgressSelection * DefaultRouteCache :=
  detect_egress_from_addresses (p_addresses probe) pinned_ip
    (route_interface (p_now probe) (p_done probe) (p_lookup probe)) c.

Record MonitorState : Type := MkMonitor {
  selection : EgressSelection; generation : Z; checked_at : Z; default_route : DefaultRouteCache;
}.

Record NetworkSnapshot : Type := MkSnapshot {
  s_selection : EgressSelection; s_pinned_ip : option IpAddr; s_generation : Z;
}.

(** [NetworkMonitor::new]; the monitor is made at [now]. *)
Definition monitor_new (probe : Probe) (now : Z) (pinned_ip : option IpAddr) : MonitorState :=
  let '(detected, c) := detect_egress probe pinned_ip empty_route_cache in
  MkMonitor (match detected with Ok s => s | Err _ => egress_empty end) 1 now c.

Definition update (s : EgressSelection) (m : MonitorState) : bool * MonitorState :=
  if bool_decide (selection m = s) then (false, m)
  else (true, MkMonitor s (Z.max 1 ((generation m + 1) mod 2 ^ 64)) (checked_at m) (default_route m)).

Definition set_checked (now : Z) (m : MonitorState) : MonitorState :=
  MkMonitor (selection m) (generation m) now (default_route m).
Definition set_route (c : DefaultRouteCache) (m : MonitorState) : MonitorState :=
  MkMonitor (selection m) (generation m) (checked_at m) c.

(** [snapshot], called at [now]. The detection runs on another thread with the
    cache taken out of the state: [None] when that thread fails. It is over at
    [after]. *)
Definition snapshot (now : Z) (probe : option Probe) (after : Z) (pinned_ip : option IpAddr) (m : MonitorState) :
    NetworkSnapshot * MonitorState :=
  let m :=
    if REFRESH_INTERVAL <=? now - checked_at m then
      match probe with
      | Some probe =>
          let '(detected, c) := detect_egress probe pinned_ip (default_route m) in
          let m := set_checked after (set_route c m) in
          match detected with Ok s => snd (update s m) | Err _ => m end
      | None => set_checked after (set_route empty_route_cache m)
      end
    else m in
  (MkSnapshot (selection m) pinned_ip (generation m), m).

(** [EgressSelection::diagnostic_fields] *)
Definition diagnostic_fields (generation : Z) (pinned_ip : option IpAddr) (s : EgressSelection) :
    list (bytes * bytes) :=
  let text {A} (f : A → bytes) (o : option A) := match o with Some a => f a | None => lit "none" end in
  [(lit "generation", dec generation);
   (lit "mode", if bool_decide (is_Some pinned_ip) then lit "pinned" else lit "automatic");
   (lit "interface", text (λ n, n) (interface_name s));
   (lit "interface_index", text dec (interface_index s));
   (lit "ipv4", text (λ a, ip_to_string (of_v4 a)) (ipv4 s));
   (lit "ipv6", text (λ a, ip_to_string (V6 a)) (ipv6 s))].
(** [NetworkSnapshot::diagnostic_fields] *)
Definition snapshot_fields (s : NetworkSnapshot) : list (bytes * bytes) :=
  diagnostic_fields (s_generation s) (s_pinned_ip s) (s_selection s).

(** ** Sockets *)

Definition addr_not_available : error :=
  Bail "configured outbound IP is not assigned to an active interface".

Definition preferred_source (s : NetworkSnapshot) : result (option IpAddr) :=
  let source := match ipv4 (s_selection s) with
                | Some a => Some (of_v4 a) | None => V6 <$> ipv6 (s_selection s) end in
  if bool_decide (source = None) && bool_decide (is_Some (s_pinned_ip s)) then Err addr_not_available
  else Ok source.

Definition source_for (destination : SocketAddr) (s : NetworkSnapshot) : option IpAddr :=
  match sa_ip destination with
  | V4 _ _ _ _ => of_v4 <$> ipv4 (s_selection s)
  | V6 _ => V6 <$> ipv6 (s_selection s)
  end.

Definition supports (destination : SocketAddr) (s : NetworkSnapshot) : bool :=
  if bool_decide (is_Some (s_pinned_ip s)) then bool_decide (is_Some (source_for destination s))
  else negb (has_address (s_selection s)) || bool_decide (is_Some (source_for destination s)).

Section Sockets.
(** [bind(2)] *)
Context (os_bind : SocketAddr → result unit).

(** A socket is the local address it was bound to. *)
Definition bind_address (a : SocketAddr) : M (option SocketAddr) unit :=
  lift (os_bind a);; modify (λ _, Some a).

(** Only other systems bind a socket to an interface. *)
Definition bind_interface (destination : SocketAddr) : M (option SocketAddr) unit := mret tt.

Definition bind_tcp (s : NetworkSnapshot) (destination : SocketAddr) : M (option SocketAddr) unit :=
  match source_for destination s with
  | Some source => bind_address (MkSocketAddr source 0)
  | None => if bool_decide (is_Some (s_pinned_ip s)) then throw addr_not_available else mret tt
  end;;
  bind_interface destination.

Definition bind_udp (s : NetworkSnapshot) (destination : SocketAddr) : M (option SocketAddr) unit :=
  bind_interface destination.

Definition unspecified_like (a : IpAddr) : IpAddr :=
  match a with V4 _ _ _ _ => V4 x00 x00 x00 x00 | V6 _ => V6 (replicate 16 x00) end.

Definition bind_udp_socket (s : NetworkSnapshot) (destination : SocketAddr) : M (option SocketAddr) unit :=
  let bind_ip := match source_for destination s with
                 | Some source => source | None => unspecified_like (sa_ip destination) end in
  if bool_decide (is_Some (s_pinned_ip s)) && is_unspecified bind_ip then throw addr_not_available
  else bind_address (MkSocketAddr bind_ip 0);; bind_udp s destination.
End Sockets.

(** ** The selection, as a specification

    What the loop of [selection_for_interface] is meant to compute. *)
Definition rank_key (r : Rank) : Z :=
  let '(a, b, c) := r in 4 * Z.b2z a + 2 * Z.b2z b + Z.b2z c.

Lemma rank_ltb_key r s : rank_ltb r s = (rank_key r <? rank_key s).
Proof. destruct r as [[[] []] []], s as [[[] []] []]; done. Qed.

(** The entries of the interface whose address may be used. *)
Definition usable_entry (n : bytes) (pinned_ip : option IpAddr) (e : InterfaceAddress) : bool :=
  bytes_eqb (name e) n && match pinned_ip with Some p => bool_decide (address e = p) | None => true end.
Definition entry_ipv4 (e : InterfaceAddress) : option Ipv4Addr :=
  match address e with V4 a b c d => Some (a, b, c, d) | V6 _ => None end.
Definition entry_ipv6 (pinned_ip : option IpAddr) (e : InterfaceAddress) : option (Rank * Ipv6Addr) :=
  match address e with
  | V6 o => if bool_decide (is_Some pinned_ip) || negb (unassignable (state e))
            then Some (rank o (state e), o) else None
  | V4 _ _ _ _ => None
  end.

Definition selection_spec (addresses : list InterfaceAddress) (n : bytes) (pinned_ip : option IpAddr) :
    EgressSelection :=
  let entries := filter (λ e, usable_entry n pinned_ip e = true) addresses in
  MkEgress (Some n)
    (index <$> last (filter (λ e, name e = n) addresses))
    (head (omap entry_ipv4 entries))
    (snd <$> min_by_key (rank_key ∘ fst) (omap (entry_ipv6 pinned_ip) entries)).

(** One turn of the loop, on each part of its state. *)
Definition better (best : option (Rank * Ipv6Addr)) (x : Rank * Ipv6Addr) : option (Rank * Ipv6Addr) :=
  match best with
  | Some y => if (rank_key ∘ fst) x <? (rank_key ∘ fst) y then Some x else best
  | None => Some x
  end.

Lemma consider_parts n pinned_ip sel best e :
  name e = n →
  consider pinned_ip (sel, best) e =
    let used := usable_entry n pinned_ip e in
    (MkEgress (interface_name sel) (Some (index e))
       (match ipv4 sel with Some a => Some a | None => if used then entry_ipv4 e else None end) (ipv6 sel),
     match (if used then entry_ipv6 pinned_ip e else None) with Some x => better best x | None => best end).
Proof.
  intros <-. cbn zeta. unfold consider, usable_entry.
  assert (bytes_eqb (name e) (name e) = true) as -> by by apply bool_decide_eq_true.
  set (used := match pinned_ip with Some p => bool_decide (address e = p) | None => true end).
  assert (Hu : match pinned_ip with Some p => negb (bool_decide (p = address e)) | None => false end = negb used).
  { subst used. destruct pinned_ip as [p|]; [|done]. f_equal. by apply bool_decide_ext. }
  rewrite Hu. clearbody used. unfold entry_ipv4, entry_ipv6.
  destruct used; cbn [negb andb]; [|by destruct sel as [? ? [] ?]].
  destruct (address e) as [a b c d|o]; [by destruct sel as [? ? [] ?]|].
  destruct (_ || _); [|by destruct sel as [? ? [] ?]].
  cbn zeta. unfold better, compose. destruct sel as [? ? [] ?]; destruct best as [[r a]|]; cbn [fst snd];
    rewrite ?rank_ltb_key; done.
Qed.

Lemma consider_fold n pinned_ip es sel best :
  Forall (λ e, name e = n) es →
  let entries := filter (λ e, usable_entry n pinned_ip e = true) es in
  fold_left (consider pinned_ip) es (sel, best) =
    (MkEgress (interface_name sel)
       (match last es with Some e => Some (index e) | None => interface_index sel end)
       (match ipv4 sel with Some a => Some a | None => head (omap entry_ipv4 entries) end) (ipv6 sel),
     fold_left better (omap (entry_ipv6 pinned_ip) entries) best).
Proof.
  intros Hes. revert sel best. induction Hes as [|e es He Hes IH]; intros sel best; cbn zeta.
  { simpl. destruct sel as [? ? [] ?]; done. }
  cbn [fold_left]. rewrite (consider_parts n) by done. cbn zeta. rewrite IH. cbn zeta.
  rewrite filter_cons. simpl. f_equal.
  - f_equal; [by rewrite last_cons; destruct (last es)|].
    destruct (ipv4 sel); [done|]. simpl. case_decide as Hu.
    + rewrite Hu. cbn [omap list_omap]. by destruct (entry_ipv4 e).
    + by apply not_true_is_false in Hu as ->.
  - case_decide as Hu.
    + rewrite Hu. cbn [omap list_omap]. by destruct (entry_ipv6 pinned_ip e).
    + by apply not_true_is_false in Hu as ->.
Qed.

(** Choosing the addresses of an interface, the single pass over the
    addresses with its running best computes exactly its specification: the
    index of the interface's last entry, its first usable IPv4 address, and,
    of its usable IPv6 addresses, the first of the lowest rank (not unique
    local, then not deprecated, then not temporary). Usable means the pinned
    address itself when one is configured, and otherwise any address past
    duplicate address detection. *)
Theorem selection_for_interface_spec addresses n pinned_ip :
  selection_for_interface addresses n pinned_ip = selection_spec addresses n pinned_ip.
Proof.
  unfold selection_for_interface. cbn zeta.
  rewrite (consider_fold n) by (apply Forall_forall; by intros e [? _]%list_elem_of_filter).
  cbn zeta. unfold set_ipv6, selection_spec; cbn [interface_name interface_index ipv4]. rewrite list_filter_filter_l.
  2: { intros e [?%bool_decide_eq_true _]%andb_true_iff. done. }
  cbn [interface_name interface_index ipv4].
  replace (fold_left better _ None) with
    (min_by_key (rank_key ∘ fst) (omap (entry_ipv6 pinned_ip)
       (filter (λ e, usable_entry n pinned_ip e = true) addresses)));
    [by destruct (last _)|].
  symmetry. exact (fold_min_by_key (rank_key ∘ fst) _ None).
Qed.

(** ** Which interface is selected *)

Definition physical (e : InterfaceAddress) : Prop := is_virtual_interface (name e) = false.

Lemma interface_score_bounds n preferred :
  100 <= interface_score n preferred <= 1500 ∧
  (preferred = Some n → 1000 < interface_score n preferred) ∧
  (preferred ≠ Some n → interface_score n preferred <= 500).
Proof.
  unfold interface_score. case_bool_decide as Hp; repeat case_match; split_and!; try lia; intros; try lia;
    by subst.
Qed.

(** Without a configured address, detection takes the name of a physical
    interface (none of the virtual prefixes) that has an address, as long as
    there is one, whatever the other addresses are: the interface of the
    default route when that is among them, and otherwise one of the highest
    score. The addresses it selects are those the specification of an
    interface's selection gives; with no physical interface, nothing is
    selected. *)
Theorem egress_follows_default_route {S : Type} addresses default_interface (s : S) sel s' :
  detect_egress_from_addresses (Ok addresses) None default_interface s = (Ok sel, s') →
  ∃ preferred, default_interface addresses s = (preferred, s') ∧
  ((∃ e, e ∈ addresses ∧ physical e) →
     ∃ e, e ∈ addresses ∧ physical e ∧ sel = selection_spec addresses (name e) None ∧
       (∀ f, f ∈ addresses → physical f → preferred = Some (name f) → name e = name f) ∧
       (∀ f, f ∈ addresses → physical f →
          interface_score (name f) preferred <= interface_score (name e) preferred)) ∧
  ((∀ e, e ∈ addresses → ¬ physical e) → sel = egress_empty).
Proof.
  unfold detect_egress_from_addresses. destruct (default_interface addresses s) as [preferred t] eqn:Hd.
  set (key := λ e : InterfaceAddress, interface_score (name e) preferred).
  set (es := filter _ addresses).
  assert (Hes : ∀ f, f ∈ es ↔ f ∈ addresses ∧ physical f).
  { intros f. unfold es. rewrite list_elem_of_filter. unfold physical. tauto. }
  clearbody es. intros [= Hsel ->]. exists preferred. split; [done|].
  destruct (max_by_key key es) as [e|] eqn:Hm.
  - apply max_by_key_Some in Hm as [He Hmax]. apply Hes in He as [He Hp].
    split; [intros _|by intros Hno; destruct (Hno e)]. exists e. split_and!; [done|done| | |].
    + rewrite <-Hsel. apply selection_for_interface_spec.
    + intros f Hf Hpf Hpref. specialize (Hmax f (proj2 (Hes f) (conj Hf Hpf))). unfold key in Hmax.
      destruct (interface_score_bounds (name f) preferred) as (_ & Hhigh & _).
      destruct (interface_score_bounds (name e) preferred) as (_ & _ & Hlow).
      destruct (decide (name e = name f)) as [|Hne]; [done|]. specialize (Hhigh Hpref).
      assert (interface_score (name e) preferred <= 500) by (apply Hlow; congruence). lia.
    + intros f Hf Hpf. by apply Hmax, Hes.
  - apply max_by_key_None in Hm as ->. split; [|done].
    intros (e & He & Hp). destruct (not_elem_of_nil e). by apply Hes.
Qed.

(** ** A configured address is never replaced by another *)

(** [sel] has no address but the configured one. *)
Definition only_address (p : IpAddr) (sel : EgressSelection) : Prop :=
  (∀ a, ipv4 sel = Some a → of_v4 a = p) ∧ (∀ o, ipv6 sel = Some o → V6 o = p).

Lemma selection_spec_only addresses n p : only_address p (selection_spec addresses n (Some p)).
Proof.
  split; simpl.
  - intros a Ha%head_Some_elem_of%list_elem_of_omap. destruct Ha as (e & [He _]%list_elem_of_filter & Ha).
    apply andb_true_iff in He as [_ <-%bool_decide_eq_true]. unfold entry_ipv4 in Ha.
    destruct (address e); [|done]. by injection Ha as <-.
  - intros o Ho. apply fmap_Some in Ho as ([r o'] & [Hin _]%min_by_key_Some & ->).
    apply list_elem_of_omap in Hin as (e & [He _]%list_elem_of_filter & Ho).
    apply andb_true_iff in He as [_ <-%bool_decide_eq_true]. unfold entry_ipv6 in Ho.
    destruct (address e); [done|]. simpl in Ho. by injection Ho as _ ->.
Qed.

Lemma detect_pinned {S} addresses p (f : list InterfaceAddress → S → option bytes * S) s sel s' :
  detect_egress_from_addresses addresses (Some p) f s = (Ok sel, s') → only_address p sel.
Proof.
  unfold detect_egress_from_addresses. destruct addresses as [addresses|e].
  - intros [= <- _]. destruct (_ ≫= _) as [entry|].
    + rewrite selection_for_interface_spec. apply selection_spec_only.
    + done.
  - intros [= <- _]. by destruct p; split; simpl; [intros ? [= <-]|..|intros ? [= <-]].
Qed.

(** ** Runs of the monitor *)

(** The snapshots a monitor has handed out, the last one first. *)
Inductive monitor_run (pinned_ip : option IpAddr) : list NetworkSnapshot → MonitorState → Prop :=
  | run_new probe now : monitor_run pinned_ip [] (monitor_new probe now pinned_ip)
  | run_snapshot ss m now probe after :
      monitor_run pinned_ip ss m →
      monitor_run pinned_ip ((snapshot now probe after pinned_ip m).1 :: ss) (snapshot now probe after pinned_ip m).2.

Lemma snapshot_of_state now probe after pinned_ip m :
  let '(s, m') := snapshot now probe after pinned_ip m in
  s = MkSnapshot (selection m') pinned_ip (generation m').
Proof. unfold snapshot. done. Qed.

(** What one call of [snapshot] does to the selection and the generation. *)
Lemma snapshot_update now probe after pinned_ip m :
  let m' := (snapshot now probe after pinned_ip m).2 in
  (selection m' = selection m ∧ generation m' = generation m) ∨
  (selection m' ≠ selection m ∧ generation m' = Z.max 1 ((generation m + 1) mod 2 ^ 64) ∧
   ∃ pr c c', probe = Some pr ∧ detect_egress pr pinned_ip c = (Ok (selection m'), c')).
Proof.
  unfold snapshot. simpl. destruct (_ <=? _); [|by left]. destruct probe as [pr|]; [|by left].
  destruct (detect_egress pr pinned_ip (default_route m)) as [[sel|e] c'] eqn:Hd; [|by left].
  unfold update, set_checked, set_route; simpl. case_bool_decide as Hs; [by left|]. right.
  simpl. split_and!; [congruence|done|eauto].
Qed.

Lemma monitor_pinned p ss m :
  monitor_run (Some p) ss m →
  only_address p (selection m) ∧ Forall (λ s, s_pinned_ip s = Some p ∧ only_address p (s_selection s)) ss.
Proof.
  induction 1 as [probe now|ss m now probe after _ [Hm Hss]].
  - split; [|done]. unfold monitor_new.
    destruct (detect_egress probe (Some p) empty_route_cache) as [[sel|e] c] eqn:Hd; simpl; [|done].
    by eapply detect_pinned.
  - pose proof (snapshot_of_state now probe after (Some p) m) as Heq.
    pose proof (snapshot_update now probe after (Some p) m) as Hu.
    destruct (snapshot now probe after (Some p) m) as [s m']. subst s. simpl in *.
    assert (only_address p (selection m')) as Hm'.
    { destruct Hu as [[-> _]|(_ & _ & pr & c & c' & _ & Hd)]; [done|]. by eapply detect_pinned. }
    split; [done|]. by constructor.
Qed.

Lemma source_for_only p dst s :
  only_address p (s_selection s) → ∀ a, source_for dst s = Some a → a = p ∧ is_ipv4 a = is_ipv4 (sa_ip dst).
Proof.
  intros [H4 H6] a. unfold source_for. destruct (sa_ip dst); intros (x & Hx & ->)%fmap_Some.
  - split; [by apply H4|]. by destruct x as [[[??]?]?].
  - split; [by apply H6|done].
Qed.

(** With a configured outbound address, no snapshot the monitor ever hands
    out sends from another address, whatever the interfaces did: the preferred
    source is the configured address or an error; a TCP socket and a UDP
    socket are bound to it, or the operation fails with the socket unbound;
    and only destinations of its family are reported as supported. *)
Theorem pinned_never_falls_back p ss m s os_bind dst b :
  monitor_run (Some p) ss m → s ∈ ss →
  (∀ o, preferred_source s = Ok o → o = Some p) ∧
  (∀ r b', bind_tcp os_bind s dst b = (r, b') → if is_ok r then b' = Some (MkSocketAddr p 0) else b' = b) ∧
  (∀ r b', bind_udp_socket os_bind s dst b = (r, b') → if is_ok r then b' = Some (MkSocketAddr p 0) else b' = b) ∧
  (supports dst s = true → is_ipv4 (sa_ip dst) = is_ipv4 p).
Proof.
  intros [_ Hss]%monitor_pinned Hs. rewrite Forall_forall in Hss. destruct (Hss s Hs) as [Hp Honly].
  pose proof (source_for_only p dst s Honly) as Hsource. split_and!.
  - unfold preferred_source. rewrite Hp. destruct Honly as [H4 H6], (ipv4 (s_selection s)) as [a|]; simpl.
    + intros o [= <-]. f_equal. by apply H4.
    + destruct (ipv6 (s_selection s)) as [o6|]; simpl; [|done]. intros o [= <-]. f_equal. by apply H6.
  - unfold bind_tcp. destruct (source_for dst s) as [a|].
    + destruct (Hsource a eq_refl) as [-> _]. unfold bind_address, bind_interface, mbind, M_bind, lift, modify.
      destruct (os_bind _); by intros r b' [= <- <-].
    + rewrite Hp. by intros r b' [= <- <-].
  - unfold bind_udp_socket. rewrite Hp. destruct (source_for dst s) as [a|].
    + destruct (Hsource a eq_refl) as [-> _]. unfold bind_address, bind_udp, bind_interface, mbind, M_bind, lift, modify.
      destruct (is_unspecified p); [by intros r b' [= <- <-]|]. simpl. destruct (os_bind _); by intros r b' [= <- <-].
    + by destruct (sa_ip dst); intros r b' [= <- <-].
  - unfold supports. rewrite Hp. simpl. intros Hsup%bool_decide_eq_true. destruct Hsup as [a Ha].
    destruct (Hsource a Ha) as [-> ?]. done.
Qed.

Lemma monitor_generation pinned_ip ss m :
  monitor_run pinned_ip ss m → Z.of_nat (length ss) < U64_MAX →
  1 <= generation m <= 1 + Z.of_nat (length ss) ∧
  Forall (λ s, s_generation s <= generation m ∧ (s_generation s = generation m → s_selection s = selection m)) ss.
Proof.
  induction 1 as [probe now|ss m now probe after _ IH]; intros Hlen.
  - unfold monitor_new. destruct (detect_egress _ _ _). simpl. split; [lia|done].
  - pose proof (snapshot_of_state now probe after pinned_ip m) as Heq.
    pose proof (snapshot_update now probe after pinned_ip m) as Hu.
    destruct (snapshot now probe after pinned_ip m) as [s m']. subst s. simpl in *.
    destruct IH as [Hg Hss]; [lia|]. unfold U64_MAX in *.
    assert (generation m <= generation m' <= generation m + 1 ∧ (generation m = generation m' → selection m = selection m'))
      as [Hg' Hsel].
    { destruct Hu as [[-> ->]|(_ & -> & _)]; [split; [lia|done]|].
      rewrite Z.mod_small by lia. split; lia. }
    split; [lia|]. constructor; [split; simpl; [lia|done]|].
    eapply Forall_impl; [exact Hss|]. intros t [Ht Heq]. split; [lia|]. intros. rewrite Heq by lia. apply Hsel. lia.
Qed.

(** A generation names one selection: over fewer than 2^64 - 1 snapshots of
    one monitor the generations never decrease, and two snapshots of equal
    generation have the same addresses and interface, so a cached decision
    keyed by the generation is still right. The generation always fits its
    64 bits and is never zero. *)
Theorem generation_names_selection pinned_ip ss m :
  monitor_run pinned_ip ss m →
  (1 <= generation m <= U64_MAX ∧ Forall (λ s, 1 <= s_generation s <= U64_MAX) ss) ∧
  (Z.of_nat (length ss) < U64_MAX →
   StronglySorted (λ newer older, s_generation older <= s_generation newer ∧
     (s_generation older = s_generation newer → s_selection older = s_selection newer)) ss).
Proof.
  intros Hrun. split.
  - induction Hrun as [probe now|ss m now probe after _ [Hm Hss]].
    + unfold monitor_new. destruct (detect_egress _ _ _). by split.
    + pose proof (snapshot_of_state now probe after pinned_ip m) as Heq.
      pose proof (snapshot_update now probe after pinned_ip m) as Hu.
      destruct (snapshot now probe after pinned_ip m) as [s m']. subst s. simpl in *.
      assert (1 <= generation m' <= U64_MAX) as Hm'.
      { destruct Hu as [[_ ->]|(_ & -> & _)]; [done|].
        pose proof (Z.mod_pos_bound (generation m + 1) (2 ^ 64) eq_refl). unfold U64_MAX in *. lia. }
      split; [done|]. by constructor.
  - induction Hrun as [probe now|ss m now probe after Hrun IH]; intros Hlen; [constructor|].
    simpl in Hlen. pose proof (monitor_generation pinned_ip _ _ (run_snapshot _ _ _ now probe after Hrun) Hlen) as [_ Hall].
    constructor; [apply IH; lia|].
    pose proof (snapshot_of_state now probe after pinned_ip m) as Heq.
    destruct (snapshot now probe after pinned_ip m) as [s m']. subst s. simpl in *.
    by apply Forall_cons in Hall as [_ ?].
Qed.

(** ** How old a default route can be *)

(** The lookups made by a sequence of calls, the last one first: when each was
    over, the addresses it was made for, and its answer. *)
Inductive route_run : list (Z * list InterfaceAddress * option bytes) → DefaultRouteCache → Prop :=
  | route_start : route_run [] empty_route_cache
  | route_hit log c now done lookup addresses :
      route_run log c → (route_interface now done lookup addresses c).2 = c → route_run log c
  | route_miss log c now done lookup addresses :
      route_run log c → (route_interface now done lookup addresses c).2 = MkRouteCache addresses lookup (Some done) →
      route_run ((done, addresses, lookup) :: log) (MkRouteCache addresses lookup (Some done)).

Lemma route_run_log log c :
  route_run log c → ∀ checked, rc_checked_at c = Some checked → (checked, rc_addresses c, rc_interface c) ∈ log.
Proof.
  induction 1; intros checked Hc; [done|auto|]. simpl in *. injection Hc as <-. left.
Qed.

(** Every answer is that of a lookup made for the very same addresses, either
    just now or less than the recheck interval ago. *)
Lemma default_route_fresh log c now done lookup addresses :
  route_run log c →
  let '(answer, c') := route_interface now done lookup addresses c in
  (c' = MkRouteCache addresses lookup (Some done) ∧ answer = lookup) ∨
  (c' = c ∧ ∃ checked, (checked, addresses, answer) ∈ log ∧ now - checked < DEFAULT_ROUTE_RECHECK).
Proof.
  intros Hrun. pose proof (route_run_log log c Hrun) as Hlog. unfold route_interface. simpl.
  destruct (bool_decide (rc_addresses c = addresses)) eqn:Ha; simpl; [|by left].
  destruct (rc_checked_at c) as [checked|]; [|by left].
  destruct (now - checked <? DEFAULT_ROUTE_RECHECK) eqn:Hn; [|by left]. right. reflect_bools. subst.
  split; [done|]. exists checked. split; [by apply Hlog|done].
Qed.

(** ** Witnesses and examples *)

Definition demo_v4 (z : Z) : IpAddr := V4 xc0 x00 x02 (z2b z).
Definition demo_v6 (a b : byte) (z : Z) : IpAddr := V6 ([a; b] ++ replicate 13 x00 ++ [z2b z]).
Definition demo_entry (n : string) (i : Z) (a : IpAddr) : InterfaceAddress := MkInterface (lit n) i a default_state.
Definition demo_interfaces : list InterfaceAddress :=
  [demo_entry "tun0" 3 (demo_v4 9); demo_entry "eth1" 4 (demo_v6 xfd x00 1); demo_entry "eth1" 4 (demo_v4 10);
   demo_entry "eth1" 4 (demo_v6 x20 x01 2); demo_entry "en0" 5 (demo_v4 11)].

Definition demo_probe (addresses : list InterfaceAddress) : Probe := MkProbe (Ok addresses) 0 (Some (lit "eth1")) 1.
Definition demo_detect : result EgressSelection * DefaultRouteCache :=
  detect_egress (demo_probe demo_interfaces) None empty_route_cache.

Definition demo_selection : EgressSelection :=
  MkEgress (Some (lit "eth1")) (Some 4) (Some (xc0, x00, x02, z2b 10)) (Some ([x20; x01] ++ replicate 13 x00 ++ [x02])).

Lemma egress_follows_default_route_witness :
  demo_detect = (Ok demo_selection, MkRouteCache demo_interfaces (Some (lit "eth1")) (Some 1)) ∧
  ∃ e, e ∈ demo_interfaces ∧ physical e ∧ name e = lit "eth1".
Proof.
  assert (Hd : demo_detect = (Ok demo_selection, MkRouteCache demo_interfaces (Some (lit "eth1")) (Some 1)))
    by by vm_compute.
  split; [exact Hd|].
  destruct (egress_follows_default_route demo_interfaces (route_interface 0 1 (Some (lit "eth1"))) empty_route_cache
              _ _ Hd) as (preferred & Hpref & Hsome & Hnone).
  destruct Hsome as (e & He & Hp & _ & Hdefault & _).
  { exists (demo_entry "en0" 5 (demo_v4 11)). split; [do 4 right; left|by vm_compute]. }
  exists e. split_and!; [done|done|].
  apply (Hdefault (demo_entry "eth1" 4 (demo_v4 10))); [do 2 right; left|by vm_compute|].
  by injection Hpref as <-.
Defined.

(** The configured address leaves, and comes back on another interface. *)
Definition demo_pinned_1 : MonitorState := monitor_new (demo_probe demo_interfaces) 0 (Some (demo_v4 11)).
Definition demo_pinned_2 : MonitorState :=
  (snapshot 2000 (Some (demo_probe [demo_entry "en0" 5 (demo_v4 12)])) 2001 (Some (demo_v4 11)) demo_pinned_1).2.
Definition demo_gone : NetworkSnapshot :=
  (snapshot 2000 (Some (demo_probe [demo_entry "en0" 5 (demo_v4 12)])) 2001 (Some (demo_v4 11)) demo_pinned_1).1.
Definition demo_back : NetworkSnapshot :=
  (snapshot 4001 (Some (demo_probe [demo_entry "en1" 6 (demo_v4 11)])) 4002 (Some (demo_v4 11)) demo_pinned_2).1.
Definition demo_destination : SocketAddr := MkSocketAddr (demo_v4 80) 443.

Lemma demo_monitor_run : ∃ m, monitor_run (Some (demo_v4 11)) [demo_back; demo_gone] m.
Proof. eexists. do 2 apply run_snapshot. apply run_new. Qed.

Lemma pinned_never_falls_back_witness :
  preferred_source demo_back = Ok (Some (demo_v4 11)) ∧
  bind_tcp (λ _, Ok tt) demo_gone demo_destination None = (Err addr_not_available, None) ∧
  bind_tcp (λ _, Ok tt) demo_back demo_destination None = (Ok tt, Some (MkSocketAddr (demo_v4 11) 0)).
Proof.
  destruct demo_monitor_run as [m Hrun].
  destruct (pinned_never_falls_back _ _ _ demo_back (λ _, Ok tt) demo_destination None Hrun) as (_ & Ht & _); [left|].
  split_and!; [by vm_compute|by vm_compute|].
  specialize (Ht _ _ (surjective_pairing _)). destruct (bind_tcp _ demo_back demo_destination None) as [[[]|e] b'] eqn:E.
  - by rewrite <-Ht.
  - discriminate E.
Defined.

Lemma generation_names_selection_witness :
  map s_generation [demo_back; demo_gone] = [3; 2] ∧
  s_generation demo_gone <= s_generation demo_back.
Proof.
  destruct demo_monitor_run as [m Hrun]. split; [by vm_compute|].
  destruct (generation_names_selection _ _ _ Hrun) as [_ Hsorted].
  specialize (Hsorted eq_refl). apply StronglySorted_inv in Hsorted as [_ Hall].
  apply Forall_cons in Hall as [[H _] _]. exact H.
Defined.

(** The tests of the source. *)
Example if_inet6_flags :
  (λ e : bytes * Ipv6Addr * AddressState, e.2) <$>
    parse_if_inet6 (join [x0a] [
      lit "20010db8000000000000000000000001 02 40 00 80     eth0"; lit "20010db8000000000000000000000002 02 40 00 01     eth0";
      lit "20010db8000000000000000000000003 02 40 00 a0     eth0"; lit "20010db8000000000000000000000004 02 40 00 40     eth0";
      lit "20010db8000000000000000000000005 02 40 00 44     eth0"; lit "malformed"])
  = [default_state; MkAddressState true false false; MkAddressState false true false;
     MkAddressState false false true; default_state].
Proof. by vm_compute. Qed.
