(* ===== verification/NetworkPlatforms.v ===== *)
(** * NetworkPlatforms: the network of macOS and Windows ([src/network.rs],
    [src/windows/network.rs])

    What [Network] takes from the platform, as built for the other two: the
    default interface, the adapters and address states, and the binding of a
    socket to an interface. Commands, ioctls and the adapter list are outcomes of
    the system. *)
From S2P Require Import Prelude Bytes Text Ip Network.
Local Open Scope Z_scope.

(** ** macOS *)

Section MacOS.

(** A line of [route -n get default]. *)
Definition interface_line (line : bytes) : option bytes := trim <$> strip_prefix (lit "interface:") (trim line).

(** The first value some line gives. *)
Fixpoint find_map {A B} (f : A → option B) (l : list A) : option B :=
  match l with [] => None | x :: l => match f x with Some y => Some y | None => find_map f l end end.

(** A line of [netstat -rn -f inet]. *)
Definition netstat_line (line : bytes) : option bytes :=
  let fields := split_whitespace line in
  name ← last fields;
  if bool_decide (head fields = Some (lit "default")) && negb (is_virtual_interface name) then Some name else None.

Definition physical_default_from_netstat (routes : bytes) : option bytes := find_map netstat_line (lines routes).

(** What the two commands print when they can be run: whether they succeeded,
    and the text. *)
Definition mac_default_physical_interface (route netstat : option (bool * bytes)) : option bytes :=
  '(ok, text) ← route;
  let named := if (ok : bool)
               then n ← find_map interface_line (lines (from_utf8_lossy text));
                    if is_virtual_interface n then None else Some n
               else None in
  match named with
  | Some n => Some n
  | None =>
      '(ok, text) ← netstat;
      if negb ok then None else physical_default_from_netstat (from_utf8_lossy text)
  end.

Definition IN6_IFF_TENTATIVE : Z := 2.
Definition IN6_IFF_DUPLICATED : Z := 4.
Definition IN6_IFF_DETACHED : Z := 8.
Definition IN6_IFF_DEPRECATED : Z := 16.
Definition IN6_IFF_TEMPORARY : Z := 128.
Definition IN6_IFF_OPTIMISTIC : Z := 512.
(** [ifr_name.len()] *)
Definition IFNAMSIZ : nat := 16.

(** [Ipv6States::get]: whether there is a socket, and what the ioctl gives. *)
Definition mac_states_get (socket : bool) (ioctl : bytes → Ipv6Addr → option Z) (n : bytes) (a : Ipv6Addr) : AddressState :=
  if negb socket || (IFNAMSIZ <=? length n)%nat then default_state
  else
    match ioctl n a with
    | None => default_state
    | Some flags =>
        let bit m := negb (Z.land flags m =? 0) in
        MkAddressState (bit IN6_IFF_TEMPORARY) (bit IN6_IFF_DEPRECATED)
          (negb (bit IN6_IFF_OPTIMISTIC)
           && bit (Z.lor (Z.lor IN6_IFF_TENTATIVE IN6_IFF_DUPLICATED) IN6_IFF_DETACHED))
    end.

Definition is_ipv4 (a : SocketAddr) : bool := match sa_ip a with V4 _ _ _ _ => true | V6 _ => false end.

(** [bind_interface]: [bind_device] binds by the index, for one family. *)
Definition mac_bind_interface (bind_device : bool → Z → result unit) (s : NetworkSnapshot) (destination : SocketAddr) :
    result unit :=
  match (i ← interface_index (s_selection s); if i =? 0 then None else Some i) with
  | None =>
      if bool_decide (is_Some (s_pinned_ip s)) then Err (Bail "configured outbound interface is unavailable") else Ok tt
  | Some index => bind_device (is_ipv4 destination) index
  end.
End MacOS.

(** ** Windows *)

Section Windows.
Context (to_lowercase : bytes → bytes).

(** The state of duplicate address detection, as far as it matters. *)
Inductive DadState : Type := DadPreferred | DadDeprecated | DadOther.

#[export] Instance dad_state_eq_dec : EqDecision DadState.
Proof. solve_decision. Defined.

(** An address of an adapter: [None] for a null pointer, [Some None] for another
    family; and whether its suffix is random. *)
Record Unicast : Type := MkUnicast { sockaddr : option (option IpAddr); random_suffix : bool; dad : DadState }.

Record Adapter : Type := MkAdapter {
  oper_up : bool; if_type : Z; friendly_name : bytes; description : bytes; unicast : list Unicast;
  has_gateway : bool; ipv4_index : Z; ipv6_index : Z; ipv4_metric : Z; ipv6_metric : Z
}.

Record Entry : Type := MkEntry { entry_address : InterfaceAddress; gateway : bool; metric : Z }.

Definition virtual_parts : list bytes :=
  lit <$> ["wintun"; "wireguard"; "tailscale"; "tap-windows"; "virtual"; "vpn"]%string.

(** [str::contains] *)
Definition contains (pat l : bytes) : bool := bool_decide (is_Some (find_sub pat l)).

(** An adapter that is left out. *)
Definition skipped (a : Adapter) : bool :=
  negb (oper_up a) || (if_type a =? 24) || (if_type a =? 131)
  || existsb (λ part, contains part (to_lowercase (description a))) virtual_parts
  || starts_with (lit "vethernet") (to_lowercase (friendly_name a)).

Definition entry_of (a : Adapter) (u : Unicast) : option Entry :=
  family ← sockaddr u;
  address ← family;
  let '(index, metric) := match address with
                          | V4 _ _ _ _ => (ipv4_index a, ipv4_metric a) | V6 _ => (ipv6_index a, ipv6_metric a) end in
  if (index =? 0) || negb (is_usable_address address) then None
  else Some (MkEntry
         (MkInterface (friendly_name a) index address
            (MkAddressState (random_suffix u) (bool_decide (dad u = DadDeprecated))
               (negb (bool_decide (dad u = DadPreferred)) && negb (bool_decide (dad u = DadDeprecated)))))
         (has_gateway a) metric).

Definition entries_of (l : list Adapter) : list Entry :=
  a ← l; if skipped a then [] else omap (entry_of a) (unicast a).

(** What one call of [GetAdaptersAddresses] comes to. *)
Inductive Adapters : Type := Overflow (length : Z) | NoData | Refused (e : error) | Listed (l : list Adapter).

(** [adapters]: four attempts, with the length the last one asked for. *)
Fixpoint adapters_loop (attempts : nat) (get_adapters : nat → Z → Adapters) (length : Z) : result (list Entry) :=
  match attempts with
  | O => Err (Bail "network adapters changed repeatedly during enumeration")
  | S attempts =>
      match get_adapters attempts length with
      | Overflow length => adapters_loop attempts get_adapters length
      | NoData => Ok []
      | Refused e => Err e
      | Listed l => Ok (entries_of l)
      end
  end.
Definition adapters (get_adapters : nat → Z → Adapters) : result (list Entry) := adapters_loop 4 get_adapters 16384.

Definition addresses (get_adapters : nat → Z → Adapters) : result (list InterfaceAddress) :=
  map entry_address <$> adapters get_adapters.

Definition default_interface (get_adapters : nat → Z → Adapters) : option bytes :=
  match adapters get_adapters with
  | Ok l => name ∘ entry_address <$> min_by_key metric (filter (λ e, gateway e = true) l)
  | Err _ => None
  end.

(** [u32::to_be] on a little-endian machine *)
Definition to_be (z : Z) : Z := le_val (be_octets 4 z).

(** [bind_interface]: the index, in network order for IPv4. *)
Definition win_bind_interface (setsockopt : bool → Z → result unit) (s : NetworkSnapshot) (destination : SocketAddr) :
    result unit :=
  match interface_index (s_selection s) with
  | None => Ok tt
  | Some index => setsockopt (is_ipv4 destination) (if is_ipv4 destination then to_be index else index)
  end.
End Windows.

(** ** Only physical interfaces *)

Lemma find_map_Some {A B} (f : A → option B) l y : find_map f l = Some y → ∃ x, x ∈ l ∧ f x = Some y.
Proof.
  induction l as [|x l IH]; [done|]. simpl. destruct (f x) eqn:E.
  - intros [= ->]. exists x. split; [by left|done].
  - intros (x' & ? & ?)%IH. exists x'. split; [by right|done].
Qed.

Lemma mac_default_physical route netstat n :
  mac_default_physical_interface route netstat = Some n → is_virtual_interface n = false.
Proof.
  unfold mac_default_physical_interface. destruct route as [[ok text]|]; [|done]. simpl.
  set (named := if ok then _ else _).
  assert (Hnamed : ∀ m, named = Some m → is_virtual_interface m = false).
  { intros m. unfold named. destruct ok; [|done]. destruct (find_map _ _) as [k|]; simpl; [|done].
    destruct (is_virtual_interface k) eqn:E; [done|]. by intros [= <-]. }
  destruct named as [m|] eqn:En; [intros [= <-]; by apply Hnamed|].
  destruct netstat as [[ok' text']|]; simpl; [|done]. destruct ok'; simpl; [|done].
  intros (line & _ & Hline)%find_map_Some. unfold netstat_line in Hline. destruct (last _) as [m|]; simpl in Hline; [|done].
  destruct (bool_decide _ && negb (is_virtual_interface m)) eqn:E; [|done]. injection Hline as ->. by reflect_bools.
Qed.

Section WindowsProofs.
Context (to_lowercase : bytes → bytes).
Abbreviation win_adapters := (adapters to_lowercase).

(** Where an entry comes from. *)
Definition adapter_entry (a : Adapter) (e : Entry) : Prop :=
  skipped to_lowercase a = false ∧ name (entry_address e) = friendly_name a ∧ gateway e = has_gateway a
  ∧ is_usable_address (address (entry_address e)) = true ∧ index (entry_address e) ≠ 0.

Lemma entries_of_elem l e : e ∈ entries_of to_lowercase l → ∃ a, a ∈ l ∧ adapter_entry a e.
Proof.
  unfold entries_of. intros (a & He & Ha)%list_elem_of_bind. exists a. split; [done|].
  destruct (skipped to_lowercase a) eqn:Es; [by apply elem_of_nil in He|].
  apply list_elem_of_omap in He as (u & _ & Hu). unfold entry_of in Hu.
  destruct (sockaddr u) as [[addr|]|]; simpl in Hu; try done.
  split; [done|]. destruct addr as [? ? ? ?|?]; simpl in Hu;
    (destruct (_ || _) eqn:E in Hu; [done|]); injection Hu as <-; reflect_bools; by split_and!.
Qed.

Lemma adapters_listed n get_adapters len l :
  adapters_loop to_lowercase n get_adapters len = Ok l →
  l = [] ∨ ∃ k length_ listed, (k < n)%nat ∧ get_adapters k length_ = Listed listed ∧ l = entries_of to_lowercase listed.
Proof.
  revert len. induction n as [|n IH]; intros len; simpl; [done|].
  destruct (get_adapters n len) as [len'| |e|listed] eqn:E; [|intros [= <-]; by left|done
    |intros [= <-]; right; exists n, len, listed; split_and!; [lia|done|done]].
  intros [?|(k & length_ & listed & ? & ? & ?)]%IH; [by left|]. right. exists k, length_, listed. split_and!; [lia|done..].
Qed.

(** The interfaces of the other platforms. On macOS the default interface is
    never a virtual one, and a socket of a pinned egress without an interface is
    refused. On Windows every address comes from an adapter that is up, is
    neither loopback nor tunnel nor virtual by its names, has an index and can be
    used; the default interface is that of the first entry with a gateway of the
    least metric; and after four overflows in a row the enumeration fails instead
    of trying on. *)
Theorem platform_interfaces_physical :
  (∀ route netstat n, mac_default_physical_interface route netstat = Some n → is_virtual_interface n = false) ∧
  (∀ bind_device s destination,
     interface_index (s_selection s) = None ∨ interface_index (s_selection s) = Some 0 → is_Some (s_pinned_ip s) →
     is_ok (mac_bind_interface bind_device s destination) = false) ∧
  (∀ get_adapters l i, addresses to_lowercase get_adapters = Ok l → i ∈ l →
     is_usable_address (address i) = true ∧ index i ≠ 0
     ∧ ∃ k length listed a, get_adapters k length = Listed listed ∧ a ∈ listed ∧ friendly_name a = name i
       ∧ skipped to_lowercase a = false) ∧
  (∀ get_adapters n, default_interface to_lowercase get_adapters = Some n →
     ∃ l e, win_adapters get_adapters = Ok l ∧ e ∈ l ∧ gateway e = true ∧ name (entry_address e) = n
       ∧ ∀ e', e' ∈ l → gateway e' = true → metric e <= metric e') ∧
  (∀ get_adapters, (∀ k len, ∃ len', get_adapters k len = Overflow len') → is_ok (win_adapters get_adapters) = false).
Proof.
  split_and!.
  - apply mac_default_physical.
  - intros bind_device s destination Hi Hp. unfold mac_bind_interface.
    destruct Hi as [->| ->]; simpl; by rewrite bool_decide_eq_true_2.
  - intros get_adapters l i Hl Hi. unfold addresses in Hl. destruct (win_adapters get_adapters) as [es|] eqn:Ea; [|done].
    injection Hl as <-. apply list_elem_of_fmap in Hi as (e & -> & He).
    destruct (adapters_listed _ _ _ _ Ea) as [->|(k & len & listed & _ & Hk & ->)]; [by apply elem_of_nil in He|].
    destruct (entries_of_elem _ _ He) as (a & Ha & Hs & Hn & _ & Hu & Hx). split_and!; [done|done|].
    by exists k, len, listed, a.
  - intros get_adapters n. unfold default_interface. destruct (win_adapters get_adapters) as [es|] eqn:Ea; [|done].
    intros (e & He & Hn)%fmap_Some. apply min_by_key_Some in He as [Hin Hmin].
    apply list_elem_of_filter in Hin as [Hg Hin]. exists es, e. split_and!; [done|done|done|done|].
    intros e' He' Hg'. apply Hmin. by apply list_elem_of_filter.
  - intros get_adapters Ho. unfold adapters. generalize 16384 4%nat. intros len n. revert len.
    induction n as [|n IH]; intros len; simpl; [done|]. by destruct (Ho n len) as [len' ->].
Qed.
End WindowsProofs.
