(* ===== verification/HappyEyeballs.v ===== *)
(** * HappyEyeballs: choosing and racing addresses ([src/transport/ech.rs])

    The order in which a dialer tries the addresses of a node, and the race of
    staggered connection attempts. Connecting is the system's: an event brings
    an attempt's outcome, another the end of the launch delay. *)
From S2P Require Import Prelude Bytes Ip.
Local Open Scope Z_scope.

(** ** The order of the addresses *)

Definition sa_ipv4 (a : SocketAddr) : bool := is_ipv4 (sa_ip a).
Definition sa_ipv6 (a : SocketAddr) : bool := is_ipv6 (sa_ip a).

(** The [filter] that inserts each address into [seen]. *)
Fixpoint unique_addresses (seen : list SocketAddr) (l : list SocketAddr) : list SocketAddr :=
  match l with
  | [] => []
  | a :: l' =>
      if bool_decide (a ∈ seen) then unique_addresses seen l'
      else a :: unique_addresses (a :: seen) l'
  end.

(** [remove(index)] and [insert(0, _)] *)
Definition move_to_front (preferred : option SocketAddr) (l : list SocketAddr) : list SocketAddr :=
  match preferred with
  | Some p => match position (λ a, bool_decide (a = p)) l with
              | Some index => p :: take index l ++ drop (S index) l
              | None => l
              end
  | None => l
  end.

(** The loop that takes from the two queues in turn; it takes an address each
    time, so their lengths are enough turns. *)
Fixpoint weave (turns : nat) (take_ipv4 : bool) (ipv4 ipv6 : list SocketAddr) : list SocketAddr :=
  match turns with
  | O => []
  | S turns' =>
      match take_ipv4, ipv4, ipv6 with
      | true, a :: ipv4', _ => a :: weave turns' false ipv4' ipv6
      | true, [], a :: ipv6' => a :: weave turns' false [] ipv6'
      | false, _, a :: ipv6' => a :: weave turns' true ipv4 ipv6'
      | false, a :: ipv4', [] => a :: weave turns' true ipv4' []
      | _, [], [] => []
      end
  end.

Definition interleave_addresses (addresses : list SocketAddr) (preferred : option SocketAddr) : list SocketAddr :=
  let unique := move_to_front preferred (unique_addresses [] addresses) in
  let prefer_ipv4 := match unique with a :: _ => sa_ipv4 a | [] => true end in
  let ipv4 := filter (λ a, sa_ipv4 a = true) unique in
  let ipv6 := filter (λ a, sa_ipv6 a = true) unique in
  weave (length ipv4 + length ipv6) prefer_ipv4 ipv4 ipv6.

(** ** The race *)

Section Race.
(** Streams and errors of the connection attempts. *)
Context {Stream E : Type}.

Record Race : Type := MkRace {
  pending : list SocketAddr;
  attempts : list SocketAddr;
  last_error : option E;
  exhausted : bool
}.

(** Whether an address was left to launch. *)
Definition launch_next (r : Race) : bool * Race :=
  match pending r with
  | [] => (false, r)
  | a :: p => (true, MkRace p (attempts r ++ [a]) (last_error r) (exhausted r))
  end.

Inductive race_event : Type :=
  | Attempt (address : SocketAddr) (outcome : Stream + E)
  | DelayOver.

(** [Failed None] stands for the error that there was nothing to connect to. *)
Inductive race_end : Type :=
  | Connected (stream : Stream) (address : SocketAddr)
  | Failed (error : option E).

Definition remove_one (a : SocketAddr) (l : list SocketAddr) : list SocketAddr :=
  match position (λ x, bool_decide (x = a)) l with
  | Some i => take i l ++ drop (S i) l
  | None => l
  end.

Definition set_exhausted (b : bool) (r : Race) : Race := MkRace (pending r) (attempts r) (last_error r) b.

(** An arm of the [select]: it goes on with a state, or the race is over. *)
Definition race_arm (ev : race_event) (r : Race) : race_end + Race :=
  match ev with
  | Attempt a (inl stream) => inl (Connected stream a)
  | Attempt a (inr error) =>
      let r := MkRace (pending r) (remove_one a (attempts r)) (Some error) (exhausted r) in
      let '(launched, r) := launch_next r in
      let r := set_exhausted (negb launched) r in
      if exhausted r && bool_decide (attempts r = []) then inl (Failed (last_error r)) else inr r
  | DelayOver =>
      let '(launched, r) := launch_next r in inr (set_exhausted (negb launched) r)
  end.

(** The guards: only a running attempt ends, and the delay only counts while
    there may be an address left. *)
Definition enabled (ev : race_event) (r : Race) : Prop :=
  match ev with
  | Attempt a _ => a ∈ attempts r
  | DelayOver => exhausted r = false
  end.

Definition race_start (addresses : list SocketAddr) : race_end + Race :=
  let '(launched, r) := launch_next (MkRace addresses [] None false) in
  if launched then inr r else inl (Failed None).

(** A race after some events, first event first. *)
Inductive race_run (addresses : list SocketAddr) : list race_event → race_end + Race → Prop :=
  | race_init : race_run addresses [] (race_start addresses)
  | race_next evs r ev :
      race_run addresses evs (inr r) → enabled ev r →
      race_run addresses (evs ++ [ev]) (race_arm ev r).

(** *** Invariant *)

(** The addresses whose attempt has failed so far. *)
Definition failed (evs : list race_event) : list SocketAddr :=
  omap (λ ev, match ev with Attempt a (inr _) => Some a | _ => None end) evs.

Record race_invariant (addresses : list SocketAddr) (evs : list race_event) (r : Race) : Prop := {
  inv_addresses : failed evs ++ attempts r ++ pending r ≡ₚ addresses;
  inv_running : attempts r ≠ [];
  inv_exhausted : exhausted r = true → pending r = [];
  inv_error : last_error r = None ↔ failed evs = [];
  inv_steps : (length evs + 2 * length (pending r) + length (attempts r)
               + (if exhausted r then 0 else 1) <= 2 * length addresses)%nat
}.

Lemma remove_one_perm a l : a ∈ l → a :: remove_one a l ≡ₚ l.
Proof.
  intros Hin. unfold remove_one.
  destruct (position (λ x, bool_decide (x = a)) l) as [i|] eqn:Ep.
  - apply position_Some in Ep as (x & Hi & Hx & _). apply bool_decide_eq_true in Hx as ->.
    rewrite <-(take_drop_middle l i a Hi) at 3. by rewrite Permutation_middle.
  - apply position_None in Ep. rewrite forallb_forall in Ep.
    apply list_elem_of_In, Ep in Hin. simpl in Hin. by rewrite bool_decide_eq_true_2 in Hin.
Qed.

Lemma failed_app evs ev : failed (evs ++ [ev]) = failed evs ++ failed [ev].
Proof. apply omap_app. Qed.

Lemma race_arm_invariant addresses evs r ev :
  race_invariant addresses evs r → enabled ev r →
  match race_arm ev r with
  | inr r' => race_invariant addresses (evs ++ [ev]) r'
  | inl (Connected s a) => ev = Attempt a (inl s)
  | inl (Failed e) => failed (evs ++ [ev]) ≡ₚ addresses ∧ ∃ a e', ev = Attempt a (inr e') ∧ e = Some e'
  end.
Proof.
  intros [Hperm Hrun Hexh Herr Hsteps] Hen. destruct r as [pend atts err ex]; simpl in *.
  destruct ev as [a [s|e]|]; simpl in Hen; [done| |].
  - pose proof (remove_one_perm _ _ Hen) as Hrem. pose proof (Permutation_length Hrem) as Hlen. simpl in Hlen.
    assert (Hf : failed (evs ++ [Attempt a (inr e)]) = failed evs ++ [a]) by by rewrite failed_app.
    unfold race_arm, launch_next, set_exhausted. simpl.
    set (rest := remove_one a atts) in *. clearbody rest.
    destruct pend as [|b pend]; simpl.
    + case_bool_decide as Hempty.
      * split; [|eauto]. rewrite Hf, <-Hperm, <-Hrem, Hempty. by rewrite app_nil_r.
      * split; simpl; [|done|done| |rewrite length_app; simpl in *; destruct ex; lia].
        -- rewrite Hf, <-Hperm, <-Hrem, !app_nil_r, <-app_assoc. done.
        -- rewrite Hf. split; [done|]. by destruct (failed evs).
    + split; simpl; [|by destruct rest|done| |].
      * rewrite Hf, <-Hperm, <-Hrem, <-!app_assoc. done.
      * rewrite Hf. split; [done|]. by destruct (failed evs).
      * rewrite !length_app. simpl in *. destruct ex; [by specialize (Hexh eq_refl)|lia].
  - subst ex. unfold race_arm, launch_next, set_exhausted. simpl.
    assert (Hf : failed (evs ++ [DelayOver]) = failed evs) by by rewrite failed_app, app_nil_r.
    destruct pend as [|b pend]; simpl.
    + split; simpl; [by rewrite Hf|done|done|by rewrite Hf|rewrite length_app; simpl in *; lia].
    + split; simpl; [|by destruct atts|done|by rewrite Hf|].
      * rewrite Hf, <-Hperm, <-!app_assoc. done.
      * rewrite !length_app. simpl in *. lia.
Qed.

Lemma race_run_invariant addresses evs st :
  race_run addresses evs st →
  match st with
  | inr r => race_invariant addresses evs r
  | inl (Connected s a) => a ∈ addresses ∧ last evs = Some (Attempt a (inl s))
  | inl (Failed e) => failed evs ≡ₚ addresses ∧ match e with
                      | Some e' => ∃ a, last evs = Some (Attempt a (inr e'))
                      | None => addresses = []
                      end
  end.
Proof.
  induction 1 as [|evs r ev Hrun IH Hen].
  - unfold race_start, launch_next. simpl. destruct addresses as [|a l]; simpl; [done|].
    split; simpl; [done|done|done|done|lia].
  - pose proof (race_arm_invariant _ _ _ _ IH Hen) as Harm.
    destruct (race_arm ev r) as [[s a|e]|r'] eqn:Ea; [| |done].
    + subst ev. rewrite last_snoc. split; [|done]. destruct IH as [Hperm _ _ _ _].
      rewrite <-Hperm. simpl in Hen. set_solver.
    + destruct Harm as (Hf & a & e' & -> & ->). split; [done|]. exists a. by rewrite last_snoc.
Qed.

(** The Happy Eyeballs race. It connects only through an attempt on one of
    the addresses that just succeeded; it fails only after an attempt on every
    address (each exactly once) has failed, with the error of the last one, or
    at once when there was no address. As long as it is undecided an attempt is
    running, so it never waits for nothing, and it is decided after at most
    twice as many events as there are addresses. *)
Theorem race_connects_complete addresses evs st :
  race_run addresses evs st →
  match st with
  | inl (Connected s a) => a ∈ addresses ∧ last evs = Some (Attempt a (inl s))
  | inl (Failed (Some e)) => failed evs ≡ₚ addresses ∧ ∃ a, last evs = Some (Attempt a (inr e))
  | inl (Failed None) => addresses = []
  | inr r => attempts r ≠ [] ∧ failed evs ++ attempts r ++ pending r ≡ₚ addresses
             ∧ (length evs < 2 * length addresses)%nat
  end.
Proof.
  intros Hrun%race_run_invariant. destruct st as [[s a|[e|]]|r]; [done|done|by destruct Hrun|].
  destruct Hrun as [Hperm Hr _ _ Hs]. split_and!; [done|done|].
  assert (length (attempts r) ≠ 0)%nat by (by destruct (attempts r)). lia.
Qed.
End Race.

(** ** The order of the addresses: lemmas *)

Lemma unique_elem seen l a : a ∈ unique_addresses seen l ↔ a ∈ l ∧ a ∉ seen.
Proof.
  revert seen; induction l as [|x l IH]; intros seen; cbn [unique_addresses]; [set_solver|].
  case_bool_decide as Hx; [rewrite IH; set_solver|].
  rewrite elem_of_cons, IH. destruct (decide (a = x)) as [->|]; set_solver.
Qed.

Lemma unique_NoDup seen l : NoDup (unique_addresses seen l).
Proof.
  revert seen; induction l as [|x l IH]; intros seen; cbn [unique_addresses]; [constructor|].
  case_bool_decide; [done|]. constructor; [|done]. rewrite unique_elem. set_solver.
Qed.

Lemma unique_head l : head (unique_addresses [] l) = head l.
Proof. by destruct l. Qed.

Lemma position_eq_Some (p : SocketAddr) l : p ∈ l →
  ∃ a b, position (λ x, bool_decide (x = p)) l = Some (length a) ∧ l = a ++ p :: b.
Proof.
  intros Hp. destruct (position (λ x, bool_decide (x = p)) l) as [i|] eqn:Ei.
  - apply position_Some in Ei as (x & Hi & Hx & _). apply bool_decide_eq_true in Hx as ->.
    exists (take i l), (drop (S i) l). split; [|by rewrite take_drop_middle].
    apply lookup_lt_Some in Hi. rewrite length_take. f_equal. lia.
  - apply position_None in Ei. rewrite forallb_forall in Ei. apply list_elem_of_In, Ei in Hp.
    simpl in Hp. by rewrite bool_decide_eq_true_2 in Hp.
Qed.

Lemma position_eq_None (p : SocketAddr) l : p ∉ l → position (λ x, bool_decide (x = p)) l = None.
Proof.
  intros Hp. apply position_None. apply forallb_forall. intros x Hx%list_elem_of_In.
  simpl. apply negb_true_iff, bool_decide_eq_false. by intros ->.
Qed.

Lemma move_to_front_perm pref l : move_to_front pref l ≡ₚ l.
Proof.
  unfold move_to_front. destruct pref as [p|]; [|done].
  destruct (decide (p ∈ l)) as [Hp|Hp]; [|by rewrite position_eq_None].
  destruct (position_eq_Some p l Hp) as (a & b & -> & ->).
  rewrite take_app_length, cons_middle, app_assoc, drop_app_len by (rewrite length_app; simpl; lia).
  rewrite <-app_assoc. apply Permutation_middle.
Qed.

Lemma move_to_front_head p l : p ∈ l → head (move_to_front (Some p) l) = Some p.
Proof.
  intros Hp. unfold move_to_front. by destruct (position_eq_Some p l Hp) as (a & b & -> & _).
Qed.

Lemma move_to_front_absent pref l : (∀ p, pref = Some p → p ∉ l) → move_to_front pref l = l.
Proof.
  unfold move_to_front. intros H. destruct pref as [p|]; [|done]. by rewrite position_eq_None by auto.
Qed.

Definition all4 (l : list SocketAddr) : Prop := Forall (λ a, sa_ipv4 a = true) l.
Definition all6 (l : list SocketAddr) : Prop := Forall (λ a, sa_ipv4 a = false) l.

Lemma weave_only4 n t v4 : n = length v4 → weave n t v4 [] = v4.
Proof.
  revert n t; induction v4 as [|a v4 IH]; intros n t ->; destruct t; simpl; try done; by rewrite IH.
Qed.
Lemma weave_only6 n t v6 : n = length v6 → weave n t [] v6 = v6.
Proof.
  revert n t; induction v6 as [|a v6 IH]; intros n t ->; destruct t; simpl; try done; by rewrite IH.
Qed.

(** The two queues leave in their order. *)
Lemma weave_filter n t v4 v6 :
  n = (length v4 + length v6)%nat → all4 v4 → all6 v6 →
  filter (λ a, sa_ipv4 a = true) (weave n t v4 v6) = v4
  ∧ filter (λ a, sa_ipv4 a = false) (weave n t v4 v6) = v6.
Proof.
  assert (Hstay : ∀ b l, Forall (λ a, sa_ipv4 a = b) l →
            filter (λ a, sa_ipv4 a = b) l = l ∧ filter (λ a, sa_ipv4 a = negb b) l = []).
  { intros b l. induction 1 as [|a l Ha Hl [IH1 IH2]]; [done|].
    rewrite filter_cons_True by done. rewrite filter_cons_False by (rewrite Ha; by destruct b).
    by rewrite IH1, IH2. }
  revert t v4 v6; induction n as [|n IH]; intros t v4 v6 Hn H4 H6.
  { destruct v4, v6; simpl in Hn; try lia. done. }
  destruct v4 as [|a v4].
  { rewrite weave_only6 by done. destruct (Hstay false v6 H6) as [E1 E2].
    change (negb false) with true in E2. by rewrite E1, E2. }
  destruct v6 as [|c v6].
  { rewrite weave_only4 by (simpl in *; lia). destruct (Hstay true (a :: v4) H4) as [E1 E2].
    change (negb true) with false in E2. by rewrite E1, E2. }
  pose proof H4 as [Ha H4']%Forall_cons. pose proof H6 as [Hc H6']%Forall_cons.
  destruct t; cbn [weave].
  - destruct (IH false v4 (c :: v6)) as [E1 E2]; [simpl in *; lia|done|done|].
    rewrite filter_cons_True, filter_cons_False by (rewrite ?Ha; done). by rewrite E1, E2.
  - destruct (IH true (a :: v4) v6) as [E1 E2]; [simpl in *; lia|done|done|].
    rewrite filter_cons_False, filter_cons_True by (rewrite ?Hc; done). by rewrite E1, E2.
Qed.

(** Two neighbours of one family are followed by that family only. *)
Fixpoint alternates (l : list SocketAddr) : Prop :=
  match l with
  | a :: (b :: _) as l' =>
      (sa_ipv4 a = sa_ipv4 b → Forall (λ x, sa_ipv4 x = sa_ipv4 a) l') ∧ alternates l'
  | _ => True
  end.

Lemma same_family_alternates b l : Forall (λ x, sa_ipv4 x = b) l → alternates l.
Proof.
  induction l as [|a [|c l] IH]; intros H; [done|done|]. apply Forall_cons in H as [Ha H].
  split; [|by apply IH]. intros _. eapply Forall_impl; [done|]. simpl. intros x ->. done.
Qed.

Lemma weave_alternates n t v4 v6 :
  n = (length v4 + length v6)%nat → all4 v4 → all6 v6 →
  alternates (weave n t v4 v6)
  ∧ (v4 ≠ [] → v6 ≠ [] → ∃ a l, weave n t v4 v6 = a :: l ∧ sa_ipv4 a = t).
Proof.
  revert t v4 v6; induction n as [|n IH]; intros t v4 v6 Hn H4 H6.
  { destruct v4, v6; simpl in Hn; try lia. done. }
  destruct v4 as [|a v4].
  { rewrite weave_only6 by done. split; [by eapply same_family_alternates|done]. }
  destruct v6 as [|c v6].
  { rewrite weave_only4 by (simpl in *; lia). split; [by eapply same_family_alternates|done]. }
  pose proof H4 as [Ha H4']%Forall_cons. pose proof H6 as [Hc H6']%Forall_cons.
  destruct t; cbn [weave]; (split; [|eauto]).
  - destruct (IH false v4 (c :: v6)) as [Hal Hhd]; [simpl in *; lia|done|done|].
    destruct v4 as [|a' v4].
    + rewrite weave_only6 in * by (simpl in *; lia). split; [|done]. congruence.
    + destruct Hhd as (x & l & Hw & Hx); [done|done|]. rewrite Hw in *. split; [|done]. congruence.
  - destruct (IH true (a :: v4) v6) as [Hal Hhd]; [simpl in *; lia|done|done|].
    destruct v6 as [|c' v6].
    + rewrite weave_only4 in * by (simpl in *; lia). split; [|done]. congruence.
    + destruct Hhd as (x & l & Hw & Hx); [done|done|]. rewrite Hw in *. split; [|done]. congruence.
Qed.

Lemma sa_ipv6_neg a : sa_ipv6 a = negb (sa_ipv4 a).
Proof. done. Qed.

Lemma filter_ipv6 (l : list SocketAddr) : filter (λ a, sa_ipv6 a = true) l = filter (λ a, sa_ipv4 a = false) l.
Proof. apply list_filter_iff. intros a. rewrite sa_ipv6_neg. destruct (sa_ipv4 a); split; done. Qed.

Lemma filter_all b (l : list SocketAddr) : Forall (λ a, sa_ipv4 a = b) (filter (λ a, sa_ipv4 a = b) l).
Proof. apply Forall_forall. by intros a [? _]%list_elem_of_filter. Qed.

(** A list is its two families shuffled together. *)
Lemma family_perm (l : list SocketAddr) : filter (λ a, sa_ipv4 a = true) l ++ filter (λ a, sa_ipv4 a = false) l ≡ₚ l.
Proof.
  induction l as [|a l IH]; [done|]. destruct (sa_ipv4 a) eqn:E.
  - rewrite filter_cons_True, filter_cons_False by congruence. simpl. by rewrite IH.
  - rewrite filter_cons_False, filter_cons_True by congruence. by rewrite <-Permutation_middle, IH.
Qed.

(** [interleave_addresses] tries every resolved address exactly once: the
    result has no duplicates and the addresses of the input. The address that
    worked last comes first when it was resolved again, the first resolved
    address otherwise; within a family the order is the resolver's (with the
    preferred address moved to the front), and the families alternate as long
    as both have addresses left. *)
Theorem interleave_addresses_order addresses preferred :
  let order := interleave_addresses addresses preferred in
  NoDup order ∧ (∀ a, a ∈ order ↔ a ∈ addresses) ∧
  (∀ p, preferred = Some p → p ∈ addresses → head order = Some p) ∧
  ((∀ p, preferred = Some p → p ∉ addresses) → head order = head addresses) ∧
  (∀ b, filter (λ a, sa_ipv4 a = b) order
        = filter (λ a, sa_ipv4 a = b) (move_to_front preferred (unique_addresses [] addresses))) ∧
  alternates order.
Proof.
  intros order. unfold order, interleave_addresses. clear order.
  set (u := move_to_front preferred (unique_addresses [] addresses)).
  rewrite filter_ipv6. set (v4 := filter _ u). set (v6 := filter _ u).
  set (t := match u with a :: _ => sa_ipv4 a | [] => true end).
  pose proof (move_to_front_perm preferred (unique_addresses [] addresses)) as Hu. fold u in Hu.
  destruct (weave_filter (length v4 + length v6) t v4 v6 eq_refl (filter_all true u) (filter_all false u))
    as [H4 H6].
  destruct (weave_alternates (length v4 + length v6) t v4 v6 eq_refl (filter_all true u) (filter_all false u))
    as [Halt _].
  set (w := weave _ t v4 v6) in *.
  assert (Hw : w ≡ₚ u) by (rewrite <-(family_perm w), H4, H6; apply family_perm).
  assert (Hhead : head w = head u).
  { unfold w, v4, v6, t. destruct u as [|a u']; [done|].
    destruct (sa_ipv4 a) eqn:E.
    - by rewrite filter_cons_True by done.
    - rewrite (filter_cons_False _ a) by congruence. rewrite filter_cons_True by done.
      simpl. rewrite Nat.add_comm. simpl. by case_match. }
  split_and!.
  - rewrite Hw, Hu. apply unique_NoDup.
  - intros a. rewrite Hw, Hu, unique_elem. set_solver.
  - intros p -> Hp. rewrite Hhead. apply move_to_front_head. rewrite unique_elem. set_solver.
  - intros Hp. rewrite Hhead. unfold u. rewrite move_to_front_absent; [apply unique_head|].
    intros p Hpp. rewrite unique_elem. specialize (Hp p Hpp). tauto.
  - intros [|]; [exact H4|exact H6].
  - exact Halt.
Qed.

(** ** Witness: the second address wins after the first fails *)

Definition demo_a : SocketAddr := MkSocketAddr (V4 x01 x02 x03 x04) 443.
Definition demo_b : SocketAddr := MkSocketAddr (V4 x05 x06 x07 x08) 443.
Definition demo_events : list (race_event (Stream := nat) (E := string)) :=
  ([] ++ [Attempt demo_a (inr "refused")]) ++ [Attempt demo_b (inl 7%nat)].

Lemma demo_race : race_run [demo_a; demo_b] demo_events (inl (Connected 7%nat demo_b)).
Proof.
  change (inl (Connected 7%nat demo_b)) with
    (race_arm (E := string) (Attempt demo_b (inl 7%nat)) (MkRace [] [demo_b] (Some "refused"%string) false)).
  apply race_next; [|by left].
  change (inr (MkRace [] [demo_b] (Some "refused"%string) false)) with
    (race_arm (Stream := nat) (Attempt demo_a (inr "refused"%string)) (MkRace [demo_b] [demo_a] None false)).
  apply race_next; [exact (race_init [demo_a; demo_b])|by left].
Qed.

Lemma race_connects_complete_witness :
  demo_b ∈ [demo_a; demo_b] ∧ last demo_events = Some (Attempt demo_b (inl 7%nat)).
Proof. exact (race_connects_complete [demo_a; demo_b] demo_events _ demo_race). Defined.
