(* ===== verification/PrivateDns.v ===== *)
(** * PrivateDns: the private resolver ([src/transport/private_dns.rs])

    Names and their signed form, the two queries of a lookup and how their
    answers merge, and the cache. DNS messages, Ed25519 and base32 are crates;
    [to_lowercase] is the standard library's Unicode table: parameters. Times
    are milliseconds. *)
From S2P Require Import Prelude Bytes Text Ip.
From S2P Require Network.
Local Open Scope Z_scope.

Definition CACHE_TTL : Z := 300000.
Definition PARTIAL_CACHE_TTL : Z := 30000.
Definition QUERY_ATTEMPTS : nat := 2.
Definition PRIVATE_DNS_SUFFIX : bytes := lit "cloud-nodes.com".

Definition resolve_error : error := Bail "resolve ECH-TLS node".

(** ** Replies *)

Inductive RecordType : Type := TypeA | TypeAAAA | TypeOther.

#[export] Instance record_type_eq_dec : EqDecision RecordType.
Proof. solve_decision. Defined.

Inductive DnsClass : Type := ClassIN | ClassOther.

#[export] Instance dns_class_eq_dec : EqDecision DnsClass.
Proof. solve_decision. Defined.

(** A question; the name is a text. *)
Record Query : Type := MkQuery { q_name : bytes; q_type : RecordType; q_class : DnsClass }.

(** [Query::eq]; a [Name] is compared without regard to the case of ASCII letters. *)
Definition same_query (a b : Query) : bool :=
  bytes_eqb (lower (q_name a)) (lower (q_name b)) && bool_decide (q_type a = q_type b)
  && bool_decide (q_class a = q_class b).

Inductive ResponseCode : Type := NoError | NXDomain | OtherCode.

(** The answer data the code looks at. *)
Inductive RData : Type := DataA (a b c d : byte) | DataAAAA (octets : bytes) | DataOther.

Record Message : Type := MkMessage {
  m_id : Z;
  m_is_response : bool;
  m_queries : list Query;
  m_truncated : bool;
  m_code : ResponseCode;
  m_answers : list RData
}.

Definition answer_address (query : Query) (d : RData) : option IpAddr :=
  match q_type query, d with
  | TypeA, DataA a b c d => Some (V4 a b c d)
  | TypeAAAA, DataAAAA o => Some (V6 o)
  | _, _ => None
  end.

(** [merge_families]: the family whose query ends first, the other one's result
    and whether it came within the grace period. *)
Definition merge_families (first second : result (list IpAddr)) (within_grace : bool) : list IpAddr * bool :=
  match first with
  | Ok (a :: addresses) =>
      if within_grace then
        match second with
        | Ok other => (a :: addresses ++ other, true)
        | Err _ => (a :: addresses, false)
        end
      else (a :: addresses, false)
  | _ => match second with
         | Ok addresses => (addresses, is_ok first)
         | Err _ => ([], false)
         end
  end.

(** [query]: the attempts as they go, [None] for a timeout. *)
Fixpoint query_attempts (n : nat) (attempts : list (option (result (list IpAddr)))) : result (list IpAddr) :=
  match n, attempts with
  | S n', Some (Ok addresses) :: _ => Ok addresses
  | S n', _ :: attempts' => query_attempts n' attempts'
  | _, _ => Err resolve_error
  end.
Definition query (attempts : list (option (result (list IpAddr)))) : result (list IpAddr) :=
  query_attempts QUERY_ATTEMPTS attempts.

(** [retain] with [seen] *)
Fixpoint retain_unseen (seen : list IpAddr) (l : list IpAddr) : list IpAddr :=
  match l with
  | [] => []
  | a :: l' =>
      if bool_decide (a ∈ seen) then retain_unseen seen l' else a :: retain_unseen (a :: seen) l'
  end.

Record CacheEntry : Type := MkEntry { addresses : list IpAddr; expires : Z; network_generation : Z }.

Abbreviation Cache := (gmap bytes CacheEntry).

Section Resolver.
(** [Message::from_vec]; the signature and its text; the Unicode table. *)
Context (message_from_vec : bytes → option Message).
Context (ed25519_sign : bytes → bytes) (base32_lower : bytes → bytes).
Context (to_lowercase : bytes → bytes).

Definition parse_response (response : bytes) (id : Z) (query : Query) : result (option (list IpAddr)) :=
  match message_from_vec response with
  | None => Ok None
  | Some m =>
      if negb (m_id m =? id) || negb (m_is_response m) || negb (match m_queries m with [q] => same_query q query | _ => false end)
      then Ok None
      else if m_truncated m then Err resolve_error
      else match m_code m with
           | NoError => Ok (Some (omap (answer_address query) (m_answers m)))
           | NXDomain => Ok (Some [])
           | OtherCode => Err resolve_error
           end
  end.

(** The receive loop of [query_once], on the datagrams as they arrive: only an
    answer of the server to this query ends it. *)
Fixpoint receive (server : SocketAddr) (id : Z) (query : Query) (datagrams : list (SocketAddr * bytes)) :
    option (result (list IpAddr)) :=
  match datagrams with
  | [] => None
  | (source, response) :: datagrams' =>
      if negb (bool_decide (source = server)) then receive server id query datagrams'
      else match parse_response response id query with
           | Err e => Some (Err e)
           | Ok (Some addresses) => Some (Ok addresses)
           | Ok None => receive server id query datagrams'
           end
  end.

(** *** Names *)

Definition normalize_dns_name (name : bytes) : bytes :=
  to_lowercase (trim_end_matches (byteb ".") (trim name)).

Definition ends_with (suffix l : bytes) : bool := starts_with (reverse suffix) (reverse l).

Definition matches_dns_suffix (host suffix : bytes) : bool :=
  let host := normalize_dns_name host in
  let suffix := normalize_dns_name suffix in
  bytes_eqb host suffix || ends_with (lit "." ++ suffix) host.

Definition validate_dns_name (name : bytes) : result unit :=
  if bool_decide (name = []) || (253 <? length name)%nat
     || existsb (λ label, bool_decide (label = []) || (63 <? length label)%nat) (split_on "." name)
  then Err (Bail "private DNS name is invalid") else Ok tt.

(** [i64::to_string] *)
Definition dec_signed (z : Z) : bytes := if z <? 0 then lit "-" ++ dec (- z) else dec z.

Definition signed_dns_name (host : bytes) (unix_seconds : Z) : result bytes :=
  let host := normalize_dns_name host in
  _ ← validate_dns_name host;
  let window := unix_seconds / 300 in
  let signature := ed25519_sign (host ++ lit "|" ++ dec_signed window) in
  let result := base32_lower (take 32 signature) ++ lit "." ++ base32_lower (drop 32 signature)
                ++ lit "." ++ host in
  _ ← validate_dns_name result;
  Ok result.

(** *** The cache *)

Definition cached (host : bytes) (gen now : Z) : M Cache (option (list IpAddr)) := λ cache,
  match cache !! host with
  | Some entry =>
      if (now <? expires entry) && (network_generation entry =? gen)
      then (Ok (Some (addresses entry)), cache) else (Ok None, delete host cache)
  | None => (Ok None, delete host cache)
  end.

(** [lookup]: [locked_at] is when it holds the lookup lock, [unix_seconds] the
    clock it signs with ([None] before the epoch), [answered] what the dual-stack
    query for the signed name brings and [answered_at] when. *)
Definition lookup (host : bytes) (gen now locked_at answered_at : Z) (unix_seconds : option Z)
    (answered : bytes → list IpAddr * bool) : M Cache (option (list IpAddr)) :=
  let host := normalize_dns_name host in
  if negb (matches_dns_suffix host PRIVATE_DNS_SUFFIX) then mret None
  else
    hit ← cached host gen now;
    match hit with
    | Some addresses => mret (Some addresses)
    | None =>
        hit ← cached host gen locked_at;
        match hit with
        | Some addresses => mret (Some addresses)
        | None =>
            seconds ← lift (ok_or (Bail "system clock is before Unix epoch") unix_seconds);
            query_name ← lift (signed_dns_name host seconds);
            let '(found, complete) := answered query_name in
            let found := retain_unseen [] found in
            if bool_decide (found = []) then throw resolve_error
            else
              modify (insert host (MkEntry found
                (answered_at + (if complete : bool then CACHE_TTL else PARTIAL_CACHE_TTL)) gen));;
              mret (Some found)
        end
    end.

(** *** Queries *)

(** [Name::from_ascii] *)
Context (name_from_ascii : bytes → option bytes).

(** One exchange with the server: the random bytes of the id, whether the query
    encodes, the outcomes of [bind] and of sending, the datagrams that arrive
    before the timeout, and whether receiving then fails. *)
Record Exchange : Type := MkExchange {
  id_bytes : option (byte * byte);
  encoded : bool;
  os_bind : SocketAddr → result unit;
  sent : bool;
  datagrams : list (SocketAddr * bytes);
  receive_fails : bool
}.

(** [query_once] within its timeout: [None] when that fires. *)
Definition query_once (server : SocketAddr) (network : Network.NetworkSnapshot) (name : bytes) (t : RecordType)
    (x : Exchange) : option (result (list IpAddr)) :=
  match id_bytes x with
  | None => Some (Err (Bail "generate private DNS query ID"))
  | Some (b0, b1) =>
      match name_from_ascii (name ++ lit ".") with
      | None => Some (Err (Bail "private DNS name is invalid"))
      | Some n =>
          let query := MkQuery n t ClassIN in
          if negb (encoded x) then Some (Err (Bail "encode private DNS query"))
          else if negb (is_ok (Network.bind_udp_socket (os_bind x) network server None).1 && sent x)
          then Some (Err resolve_error)
          else match receive server (from_be16 b0 b1) query (datagrams x) with
               | Some r => Some r
               | None => if receive_fails x then Some (Err resolve_error) else None
               end
      end
  end.

(** [query_dual_stack]: the exchanges of the two families, and which of them
    ends first. *)
Definition query_dual_stack (server : SocketAddr) (network : Network.NetworkSnapshot) (name : bytes)
    (ipv4 ipv6 : list Exchange) (ipv4_first within_grace : bool) : list IpAddr * bool :=
  let family t xs := query (query_once server network name t <$> xs) in
  if ipv4_first then merge_families (family TypeA ipv4) (family TypeAAAA ipv6) within_grace
  else merge_families (family TypeAAAA ipv6) (family TypeA ipv4) within_grace.
End Resolver.

(** ** Lemmas *)

Lemma retain_elem seen l a : a ∈ retain_unseen seen l ↔ a ∈ l ∧ a ∉ seen.
Proof.
  revert seen; induction l as [|x l IH]; intros seen; cbn [retain_unseen]; [set_solver|].
  case_bool_decide as Hx; [rewrite IH; set_solver|].
  rewrite elem_of_cons, IH. destruct (decide (a = x)) as [->|]; set_solver.
Qed.

Lemma retain_NoDup seen l : NoDup (retain_unseen seen l).
Proof.
  revert seen; induction l as [|x l IH]; intros seen; cbn [retain_unseen]; [constructor|].
  case_bool_decide; [done|]. constructor; [|done]. rewrite retain_elem. set_solver.
Qed.

Section CacheProofs.
Context (ed25519_sign : bytes → bytes) (base32_lower to_lowercase : bytes → bytes).
Abbreviation look := (lookup ed25519_sign base32_lower to_lowercase).
Abbreviation norm := (normalize_dns_name to_lowercase).

Definition fresh (gen now : Z) (e : CacheEntry) : bool := (now <? expires e) && (network_generation e =? gen).

Lemma cached_spec (host : bytes) (gen now : Z) (c : Cache) :
  cached host gen now c =
    match c !! host with
    | Some e => if fresh gen now e then (Ok (Some (addresses e)), c) else (Ok None, delete host c)
    | None => (Ok None, c)
    end.
Proof. unfold cached, fresh. destruct (c !! host) eqn:E; [done|]. by rewrite delete_id. Qed.

(** A fresh entry answers without a query. *)
Lemma lookup_hit (host : bytes) (gen now la aa : Z) (us : option Z) (answered : bytes → list IpAddr * bool) (c : Cache) e :
  matches_dns_suffix to_lowercase (norm host) PRIVATE_DNS_SUFFIX = true →
  c !! norm host = Some e → fresh gen now e = true →
  look host gen now la aa us answered c = (Ok (Some (addresses e)), c).
Proof.
  intros Hm He Hf. unfold lookup. rewrite Hm. cbn [negb].
  rewrite (M_bind_ok _ _ _ (Some (addresses e)) c); [done|]. by rewrite cached_spec, He, Hf.
Qed.

(** Without one, the query decides. *)
Lemma lookup_miss (host : bytes) (gen now la aa seconds : Z) (answered : bytes → list IpAddr * bool) (c : Cache) (name : bytes) :
  matches_dns_suffix to_lowercase (norm host) PRIVATE_DNS_SUFFIX = true →
  (∀ e, c !! norm host = Some e → fresh gen now e = false) →
  signed_dns_name ed25519_sign base32_lower to_lowercase (norm host) seconds = Ok name →
  look host gen now la aa (Some seconds) answered c =
    let found := retain_unseen [] (answered name).1 in
    if bool_decide (found = []) then (Err resolve_error, delete (norm host) c)
    else (Ok (Some found),
          <[norm host := MkEntry found (aa + (if (answered name).2 then CACHE_TTL else PARTIAL_CACHE_TTL)) gen]>
            (delete (norm host) c)).
Proof.
  intros Hm Hmiss Hs. unfold lookup. rewrite Hm. cbn [negb].
  rewrite (M_bind_ok _ _ _ None (delete (norm host) c)).
  2:{ rewrite cached_spec. destruct (c !! norm host) as [e|] eqn:E; [by rewrite Hmiss|]. by rewrite delete_id. }
  rewrite (M_bind_ok _ _ _ None (delete (norm host) c)).
  2:{ by rewrite cached_spec, lookup_delete_eq. }
  unfold lift at 1. cbn [ok_or]. rewrite (M_bind_ok _ _ _ seconds (delete (norm host) c)) by done.
  rewrite (M_bind_ok _ _ _ name (delete (norm host) c)) by (unfold lift; by rewrite Hs).
  destruct (answered name) as [found comp]. cbn [fst snd].
  destruct (bool_decide (retain_unseen [] found = [])); done.
Qed.

(** The life of a resolved name. When no fresh entry answers, a lookup
    returns what the query found, without duplicates, or fails (and then leaves
    no entry) when it found nothing; from then on and until the entry expires
    (the full time after a complete answer, the short time when a family
    failed), every lookup of the name on the same network generation returns
    these addresses and queries nothing, and any lookup after that time or on
    another generation queries again. Other names keep their entries. *)
Theorem dns_cache_lifetime (host : bytes) (gen now la aa seconds : Z) (answered : bytes → list IpAddr * bool) (c : Cache) (name : bytes) :
  matches_dns_suffix to_lowercase (norm host) PRIVATE_DNS_SUFFIX = true →
  (∀ e, c !! norm host = Some e → fresh gen now e = false) →
  signed_dns_name ed25519_sign base32_lower to_lowercase (norm host) seconds = Ok name →
  let found := retain_unseen [] (answered name).1 in
  let '(r, c1) := look host gen now la aa (Some seconds) answered c in
  NoDup found ∧ (∀ a, a ∈ found ↔ a ∈ (answered name).1) ∧
  (∀ h, h ≠ norm host → c1 !! h = c !! h) ∧
  (found = [] → r = Err resolve_error ∧ c1 !! norm host = None) ∧
  (found ≠ [] →
   r = Ok (Some found) ∧
   let until := aa + (if (answered name).2 then CACHE_TTL else PARTIAL_CACHE_TTL) in
   (∀ now' la' aa' us' answered', now' < until →
      look host gen now' la' aa' us' answered' c1 = (Ok (Some found), c1)) ∧
   (∀ gen' now' la' aa' seconds' answered' name', (until <= now' ∨ gen' ≠ gen) →
      signed_dns_name ed25519_sign base32_lower to_lowercase (norm host) seconds' = Ok name' →
      (look host gen' now' la' aa' (Some seconds') answered' c1).1 =
        let found' := retain_unseen [] (answered' name').1 in
        if bool_decide (found' = []) then Err resolve_error else Ok (Some found'))).
Proof.
  intros Hm Hmiss Hs found. rewrite (lookup_miss host gen now la aa seconds answered c name) by done.
  cbv zeta. fold found. case_bool_decide as Hf.
  - split_and!; [apply retain_NoDup|intros a; unfold found; rewrite retain_elem; set_solver| | |done].
    + intros h Hh. by rewrite lookup_delete_ne.
    + intros _. split; [done|]. apply lookup_delete_eq.
  - split_and!; [apply retain_NoDup|intros a; unfold found; rewrite retain_elem; set_solver| |done|].
    + intros h Hh. by rewrite lookup_insert_ne, lookup_delete_ne.
    + intros _. split; [done|]. split.
      * intros now' la' aa' us' answered' Hnow. set (e0 := MkEntry found _ gen).
        rewrite (lookup_hit host gen now' la' aa' us' answered' _ e0); [done|done|apply lookup_insert_eq|].
        unfold fresh. simpl. by rewrite (proj2 (Z.ltb_lt _ _) Hnow), Z.eqb_refl.
      * intros gen' now' la' aa' seconds' answered' name' Hold Hs'.
        rewrite (lookup_miss host gen' now' la' aa' seconds' answered' _ name'); [|done| |done].
        { cbv zeta. by case_bool_decide. }
        intros e. rewrite lookup_insert_eq. intros [= <-]. unfold fresh. simpl.
        apply andb_false_iff. destruct Hold as [Ho|Ho]; [left; by apply Z.ltb_ge|right].
        apply Z.eqb_neq. congruence.
Qed.
End CacheProofs.

(** ** Answers *)

Section AnswerProofs.
Context (message_from_vec : bytes → option Message) (name_from_ascii : bytes → option bytes).

(** [m] is for this query: a response with its id and its one question. *)
Definition replies (m : Message) (id : Z) (n : bytes) (t : RecordType) : Prop :=
  m_id m = id ∧ m_is_response m = true ∧
  ∃ q, m_queries m = [q] ∧ lower (q_name q) = lower n ∧ q_type q = t ∧ q_class q = ClassIN.

(** A record of the family of [t], with its address. *)
Definition record_address (t : RecordType) (d : RData) (a : IpAddr) : Prop :=
  (t = TypeA ∧ ∃ b0 b1 b2 b3, a = V4 b0 b1 b2 b3 ∧ d = DataA b0 b1 b2 b3) ∨
  (t = TypeAAAA ∧ ∃ o, a = V6 o ∧ d = DataAAAA o).

(** The addresses of the records of the family, in their order. *)
Inductive selects (t : RecordType) : list RData → list IpAddr → Prop :=
  | selects_none : selects t [] []
  | selects_record d ds a l : record_address t d a → selects t ds l → selects t (d :: ds) (a :: l)
  | selects_other d ds l : (∀ a, ¬ record_address t d a) → selects t ds l → selects t (d :: ds) l.

(** What an accepted reply says: that there is no such name, or the addresses. *)
Definition addresses_of (m : Message) (t : RecordType) (found : list IpAddr) : Prop :=
  m_truncated m = false ∧
  ((m_code m = NXDomain ∧ found = []) ∨ (m_code m = NoError ∧ selects t (m_answers m) found)).

Lemma record_address_iff n t c d a : answer_address (MkQuery n t c) d = Some a ↔ record_address t d a.
Proof.
  unfold record_address. split.
  - destruct t, d as [b0 b1 b2 b3|o|]; try discriminate; intros [= <-].
    + left. split; [reflexivity|]. exists b0, b1, b2, b3. split; reflexivity.
    + right. split; [reflexivity|]. exists o. split; reflexivity.
  - by intros [(-> & b0 & b1 & b2 & b3 & -> & ->)|(-> & o & -> & ->)].
Qed.

Lemma omap_selects n t c ds l : omap (answer_address (MkQuery n t c)) ds = l ↔ selects t ds l.
Proof.
  split.
  - intros <-. induction ds as [|d ds IH]; [constructor|]. cbn [omap list_omap].
    destruct (answer_address _ d) as [a|] eqn:E.
    + apply selects_record; [by apply record_address_iff in E|exact IH].
    + apply selects_other; [|exact IH]. intros a Ha%(record_address_iff n t c). congruence.
  - induction 1 as [|d ds a l Ha _ IH|d ds l Hno _ IH]; [done|..]; cbn [omap list_omap].
    + apply (record_address_iff n t c) in Ha. by rewrite Ha, IH.
    + destruct (answer_address _ d) as [a|] eqn:E; [|done]. apply record_address_iff in E. by destruct (Hno a).
Qed.

(** A datagram that is not the server's, or not for this query. *)
Definition irrelevant (server : SocketAddr) (id : Z) (n : bytes) (t : RecordType) (d : SocketAddr * bytes) : Prop :=
  d.1 ≠ server ∨ ∀ m, message_from_vec d.2 = Some m → ¬ replies m id n t.

Lemma replies_guard m id n t :
  negb (m_id m =? id) || negb (m_is_response m)
  || negb (match m_queries m with [q] => same_query q (MkQuery n t ClassIN) | _ => false end) = false ↔ replies m id n t.
Proof.
  unfold replies, same_query, bytes_eqb. rewrite !orb_false_iff, !negb_false_iff, Z.eqb_eq.
  destruct (m_queries m) as [|q [|q' l]].
  - split; [by intros [_ ?]|by intros (_ & _ & ? & ? & _)].
  - simpl. rewrite !andb_true_iff, !bool_decide_eq_true. split.
    + intros [[? ?] [[? ?] ?]]. split_and!; try done. by exists q.
    + intros (? & ? & q1 & [= <-] & ?). tauto.
  - split; [by intros [_ ?]|by intros (_ & _ & ? & ? & _)].
Qed.

Lemma parse_response_cases response id n t :
  match parse_response message_from_vec response id (MkQuery n t ClassIN) with
  | Ok None => ∀ m, message_from_vec response = Some m → ¬ replies m id n t
  | o => ∃ m, message_from_vec response = Some m ∧ replies m id n t ∧
           ∀ found, o = Ok (Some found) ↔ addresses_of m t found
  end.
Proof.
  unfold parse_response. destruct (message_from_vec response) as [m|]; [|done].
  destruct (_ || _) eqn:E.
  - intros m' [= <-] Hr%replies_guard. congruence.
  - apply replies_guard in E. unfold addresses_of.
    destruct (m_truncated m) eqn:Et; [exists m; split_and!; [done..|intros l; split; [done|intros [? _]; congruence]]|].
    destruct (m_code m) eqn:Ec; exists m; (split_and!; [done..|]); intros l; split.
    + intros [= <-]. split; [done|]. right. split; [done|]. by apply (omap_selects n t ClassIN).
    + intros [_ [[? _]|[_ Hs]]]; [congruence|]. by apply (omap_selects n t ClassIN) in Hs as ->.
    + intros [= <-]. split; [done|by left].
    + intros [_ [[_ ->]|[? _]]]; [done|congruence].
    + done.
    + intros [_ [[? _]|[? _]]]; congruence.
Qed.

Lemma receive_iff server id n t ds found :
  receive message_from_vec server id (MkQuery n t ClassIN) ds = Some (Ok found) ↔
  ∃ pre response post m, ds = pre ++ (server, response) :: post ∧ Forall (irrelevant server id n t) pre ∧
    message_from_vec response = Some m ∧ replies m id n t ∧ addresses_of m t found.
Proof.
  induction ds as [|[source response] ds IH]; cbn [receive].
  { split; [done|]. by intros ([|? ?] & ? & ? & ? & ? & _). }
  assert (Hskip : irrelevant server id n t (source, response) →
    (receive message_from_vec server id (MkQuery n t ClassIN) ds = Some (Ok found) ↔
     ∃ pre r post m, (source, response) :: ds = pre ++ (server, r) :: post ∧ Forall (irrelevant server id n t) pre ∧
       message_from_vec r = Some m ∧ replies m id n t ∧ addresses_of m t found)).
  { intros Hirr. rewrite IH. split.
    - intros (pre & r & post & m & -> & Hpre & Hrest). exists ((source, response) :: pre), r, post, m.
      split; [done|]. split; [by constructor|done].
    - intros ([|x pre] & r & post & m & Heq & Hpre & Hm & Hr & Ha); simplify_eq/=.
      + destruct Hirr as [Hs|Hn]; [done|by destruct (Hn m Hm)].
      + apply Forall_cons in Hpre as [_ ?]. by exists pre, r, post, m. }
  destruct (decide (source = server)) as [->|Hs]; [|rewrite bool_decide_false by done; apply Hskip; by left].
  rewrite bool_decide_true by done. cbn [negb]. pose proof (parse_response_cases response id n t) as Hp.
  destruct (parse_response _ _ _ _) as [[l|]|e]; [|apply Hskip; by right|];
    destruct Hp as (m & Hm & Hr & Hf); split.
  - intros [= ->]. exists [], response, ds, m. split_and!; [done|done|done|done|by apply Hf].
  - intros ([|x pre] & r & post & m' & Heq & Hpre & Hm' & Hr' & Ha); simplify_eq/=.
    + apply Hf in Ha. by simplify_eq.
    + apply Forall_cons in Hpre as [[?|Hn] _]; [done|by destruct (Hn m Hm)].
  - done.
  - intros ([|x pre] & r & post & m' & Heq & Hpre & Hm' & Hr' & Ha); simplify_eq/=.
    + by apply Hf in Ha.
    + apply Forall_cons in Hpre as [[?|Hn] _]; [done|by destruct (Hn m Hm)].
Qed.

(** The exchange sends its question, and [found] is what the first datagram of the
    server that is for it says. *)
Definition answered_by (server : SocketAddr) (network : Network.NetworkSnapshot) (name : bytes) (t : RecordType)
    (x : Exchange) (found : list IpAddr) : Prop :=
  ∃ b0 b1 n pre response post m,
    id_bytes x = Some (b0, b1) ∧ name_from_ascii (name ++ lit ".") = Some n ∧ encoded x = true ∧
    is_ok (Network.bind_udp_socket (os_bind x) network server None).1 = true ∧ sent x = true ∧
    datagrams x = pre ++ (server, response) :: post ∧ Forall (irrelevant server (from_be16 b0 b1) n t) pre ∧
    message_from_vec response = Some m ∧ replies m (from_be16 b0 b1) n t ∧ addresses_of m t found.

Lemma query_once_iff server network name t x found :
  query_once message_from_vec name_from_ascii server network name t x = Some (Ok found) ↔
  answered_by server network name t x found.
Proof.
  unfold query_once, answered_by.
  destruct (id_bytes x) as [[b0 b1]|]; [|split; [done|intros (? & ? & ? & ? & ? & ? & ? & ? & _); congruence]].
  destruct (name_from_ascii _) as [n|]; [|split; [done|intros (? & ? & ? & ? & ? & ? & ? & _ & ? & _); congruence]].
  destruct (encoded x); simpl; [|split; [done|intros (? & ? & ? & ? & ? & ? & ? & _ & _ & ? & _); congruence]].
  destruct (is_ok _) eqn:Eb; simpl; [|split; [done|intros (? & ? & ? & ? & ? & ? & ? & _ & _ & _ & ? & _); congruence]].
  destruct (sent x); simpl; [|split; [done|intros (? & ? & ? & ? & ? & ? & ? & _ & _ & _ & _ & ? & _); congruence]].
  transitivity (receive message_from_vec server (from_be16 b0 b1) (MkQuery n t ClassIN) (datagrams x) = Some (Ok found)).
  { destruct (receive _ _ _ _ _); [done|]. by destruct (receive_fails x). }
  rewrite receive_iff. split.
  - intros (pre & r & post & m & ?). by exists b0, b1, n, pre, r, post, m.
  - intros (b0' & b1' & n' & pre & r & post & m & [= <- <-] & [= <-] & _ & _ & _ & ?). by exists pre, r, post, m.
Qed.

(** Within its two attempts a family's query has the answer of the first exchange
    that gets one. *)
Definition family_answered (server : SocketAddr) (network : Network.NetworkSnapshot) (name : bytes) (t : RecordType)
    (xs : list Exchange) (found : list IpAddr) : Prop :=
  (∃ x rest, xs = x :: rest ∧ answered_by server network name t x found) ∨
  (∃ x y rest, xs = x :: y :: rest ∧ (∀ l, ¬ answered_by server network name t x l) ∧
     answered_by server network name t y found).

(** One family's query over its exchanges. *)
Abbreviation family server network name t xs :=
  (query (query_once message_from_vec name_from_ascii server network name t <$> xs)).

Lemma family_iff server network name t xs found :
  family server network name t xs = Ok found ↔ family_answered server network name t xs found.
Proof.
  unfold query, QUERY_ATTEMPTS, family_answered. setoid_rewrite <-query_once_iff.
  destruct xs as [|x [|y xs]]; csimpl; cbn [query_attempts].
  - split; [done|]. by intros [(? & ? & ? & _)|(? & ? & ? & ? & _)].
  - split.
    + destruct (query_once _ _ _ _ _ _ x) as [[l|e]|] eqn:Ex; intros Hl; simplify_eq. left. by exists x, [].
    + intros [(x0 & rest & [= <- <-] & Hx)|(x0 & y0 & rest & ? & _)]; [by rewrite Hx|done].
  - split.
    + destruct (query_once _ _ _ _ _ _ x) as [[l|e]|] eqn:Ex.
      1: { intros [= ->]. left. by exists x, (y :: xs). }
      all: destruct (query_once _ _ _ _ _ _ y) as [[l|e']|] eqn:Ey; intros Hl; simplify_eq; right; exists x, y, xs;
        split_and!; [done|intros l'; congruence|done].
    + intros [(x0 & rest & [= <- _] & Hx)|(x0 & y0 & rest & [= <- <- _] & Hx & Hy)]; [by rewrite Hx|].
      destruct (query_once _ _ _ _ _ _ x) as [[l|e]|]; [by destruct (Hx l)|by rewrite Hy..].
Qed.

(** What a dual-stack query makes of the results of the families, the [first] of
    which ends first; [grace] is whether the other ends within the grace period. *)
Definition merged (first second : result (list IpAddr)) (grace : bool) (found : list IpAddr) (complete : bool) : Prop :=
  (∀ a l, first = Ok (a :: l) →
     (∀ l', grace = true → second = Ok l' → found = (a :: l) ++ l' ∧ complete = true) ∧
     (grace = false ∨ is_ok second = false → found = a :: l ∧ complete = false)) ∧
  (first = Ok [] ∨ is_ok first = false →
     (∀ l', second = Ok l' → found = l' ∧ complete = is_ok first) ∧
     (is_ok second = false → found = [] ∧ complete = false)).

Lemma merge_families_merged first second grace :
  merged first second grace (merge_families first second grace).1 (merge_families first second grace).2.
Proof.
  unfold merged, merge_families. destruct first as [[|x l]|e], second as [l'|e'], grace; cbn [fst snd is_ok];
    split; try done; naive_solver.
Qed.

(** C30: What a lookup accepts from the network. A family's query succeeds exactly
    when one of its first two exchanges has sent its question from a bound socket
    and the first datagram that is for it gives an answer: one from the configured
    server that parses as a response with the random id of the exchange and with
    its one question (the name, in any case of its letters, the record type of
    the family and the class IN), that is not truncated and has no error code. The
    result is then no addresses when it says that the name does not exist, and
    else exactly the addresses of its answer records of the family that was asked.
    A dual-stack query finds the addresses of the family that ends first, followed
    by those of the other one when that comes within the grace period; it has only
    the other's when the first has none. It counts as complete, to be kept for the
    full time, only when both families were answered and nothing is missing. *)
Theorem dns_answers_authentic server network name ipv4 ipv6 ipv4_first within_grace :
  let '(found, complete) :=
    query_dual_stack message_from_vec name_from_ascii server network name ipv4 ipv6 ipv4_first within_grace in
  ∃ r4 r6, (∀ l, r4 = Ok l ↔ family_answered server network name TypeA ipv4 l) ∧
    (∀ l, r6 = Ok l ↔ family_answered server network name TypeAAAA ipv6 l) ∧
    (if ipv4_first then merged r4 r6 within_grace found complete else merged r6 r4 within_grace found complete).
Proof.
  unfold query_dual_stack.
  set (r4 := family server network name TypeA ipv4). set (r6 := family server network name TypeAAAA ipv6).
  destruct ipv4_first; [pose proof (merge_families_merged r4 r6 within_grace) as Hm
                       |pose proof (merge_families_merged r6 r4 within_grace) as Hm];
    (destruct (merge_families _ _ _) as [found complete]; exists r4, r6; split_and!;
      [intros l; apply family_iff|intros l; apply family_iff|exact Hm]).
Qed.

(** The exchange as the tests have it: a reply whose question has capitals. *)
Lemma reply_in_capitals m n c :
  m = MkMessage 7 true [MkQuery (lit "A.Node.Cloud-Nodes.Com.") TypeA ClassIN] false NoError [DataA x01 x02 x03 x04] →
  message_from_vec n = Some m → c = MkQuery (lit "a.node.cloud-nodes.com.") TypeA ClassIN →
  parse_response message_from_vec n 7 c = Ok (Some [V4 x01 x02 x03 x04]).
Proof. intros -> Hm ->. unfold parse_response. by rewrite Hm. Qed.
End AnswerProofs.

(** ** Witness: a partial answer, reused within its short time *)

Definition demo_host : bytes := lit "N1.cloud-nodes.com.".
Definition demo_lookup (now : Z) (answer : list IpAddr * bool) : M Cache (option (list IpAddr)) :=
  lookup (λ m, m) (λ s, lit "sig") lower demo_host 3 now now now (Some 1000) (λ _, answer).
Definition demo_ip : IpAddr := V4 x01 x02 x03 x04.

Lemma dns_cache_lifetime_witness :
  let '(r, c1) := demo_lookup 100 ([demo_ip; demo_ip], false) ∅ in
  r = Ok (Some [demo_ip])
  ∧ (∀ now' answered, now' < 30100 → demo_lookup now' answered c1 = (Ok (Some [demo_ip]), c1)).
Proof.
  pose proof (dns_cache_lifetime (λ m, m) (λ s, lit "sig") lower demo_host 3 100 100 100 1000
                (λ _, ([demo_ip; demo_ip], false)) ∅ (lit "sig.sig.n1.cloud-nodes.com")) as H.
  specialize (H ltac:(vm_compute; reflexivity)).
  specialize (H (λ e He, ltac:(exfalso; rewrite lookup_empty in He; discriminate He))).
  specialize (H ltac:(vm_compute; reflexivity)).
  cbv zeta in H. unfold demo_lookup.
  destruct (lookup _ _ _ demo_host 3 100 100 100 (Some 1000) _ ∅) as [r c1].
  destruct H as (_ & _ & _ & _ & H). destruct H as (Hr & Hhit & _); [vm_compute; discriminate|].
  split; [rewrite Hr; vm_compute; reflexivity|].
  intros now' answered Hnow. rewrite (Hhit now' now' now' (Some 1000) (λ _, answered)).
  - vm_compute. reflexivity.
  - exact Hnow.
Defined.
