(* ===== verification/DialTcp.v ===== *)
(** * DialTcp: the TCP connection of a node ([dial_tcp] of [src/transport/ech.rs])

    Resolving a node's host through the private resolver or the system, the
    candidates the egress supports in Happy Eyeballs order, the attempts bound
    to the egress, and the address remembered for the next dial. It composes
    [PrivateDns], [Network] and [HappyEyeballs]; what the system answers, and
    in which order attempts end, is the environment of one dial. *)
From S2P Require Import Prelude Bytes Ip HappyEyeballs.
From S2P Require Network PrivateDns Diagnostics.
Local Open Scope Z_scope.

(** What a step of a dial comes to: a value, an error with the kind of the
    system error in it, or nothing yet when the timeout of the dial fires. *)
Inductive outcome (A : Type) : Type :=
  | Finished (a : A)
  | Broken (e : error) (io : option Diagnostics.io_kind)
  | Unfinished.
Arguments Finished {A} a.
Arguments Broken {A} e io.
Arguments Unfinished {A}.

(** [io::Error] *)
Record IoError : Type := MkIoError { io_error : error; io_kind_of : Diagnostics.io_kind }.

(** ** Resolution *)

(** How a lookup goes: the clocks and answers of the private resolver, those of
    the system, and whether it is still waiting when the dial's timeout fires. *)
Record Resolution : Type := MkResolution {
  looked_at : Z; locked_at : Z; answered_at : Z; unix_seconds : option Z;
  answered : bytes → list IpAddr * bool;
  lookup_host : bytes → Z → list SocketAddr + IoError;
  cut : bool
}.

Section DialTcp.
Context {Stream : Type}.
Context (ed25519_sign : bytes → bytes) (base32_lower to_lowercase : bytes → bytes).

(** A lookup that is cut has looked at the cache, which drops a stale entry. *)
Definition resolve_addresses (r : Resolution) (network : Network.NetworkSnapshot) (host : bytes) (port : Z)
    (c : PrivateDns.Cache) : outcome (list SocketAddr) * PrivateDns.Cache :=
  let gen := Network.s_generation network in
  if cut r then
    let host := PrivateDns.normalize_dns_name to_lowercase host in
    (Unfinished, if PrivateDns.matches_dns_suffix to_lowercase host PrivateDns.PRIVATE_DNS_SUFFIX
                 then (PrivateDns.cached host gen (looked_at r) c).2 else c)
  else
    match PrivateDns.lookup ed25519_sign base32_lower to_lowercase host gen (looked_at r) (locked_at r)
            (answered_at r) (unix_seconds r) (answered r) c with
    | (Err e, c) => (Broken e None, c)
    | (Ok (Some addresses), c) => (Finished ((λ ip, MkSocketAddr ip port) <$> addresses), c)
    | (Ok None, c) =>
        (match lookup_host r host port with
         | inl addresses => Finished addresses
         | inr e => Broken (Context "resolve ECH-TLS node" (io_error e)) (Some (io_kind_of e))
         end, c)
    end.

(** [TransportContext::resolve_host] *)
Definition resolve_host (r : Resolution) (network : Network.NetworkSnapshot) (host : bytes) (c : PrivateDns.Cache) :
    outcome (list IpAddr) * PrivateDns.Cache :=
  let '(resolved, c) := resolve_addresses r network host 0 c in
  (match resolved with
   | Finished addresses => Finished (sa_ip <$> addresses)
   | Broken e io => Broken e io
   | Unfinished => Unfinished
   end, c).

(** ** Connecting *)

(** The socket calls: making one, binding it, connecting it from the address it
    is bound to. *)
Record Sockets : Type := MkSockets {
  new_socket : SocketAddr → option IoError;
  os_bind : SocketAddr → option IoError;
  os_connect : SocketAddr → option SocketAddr → Stream + IoError
}.

(** [bind_tcp] with the errors of [bind(2)]: only its own error is not one of
    the system. *)
Definition bind_result (w : Sockets) (network : Network.NetworkSnapshot) (address : SocketAddr) :
    option SocketAddr + IoError :=
  let bound := λ a, match os_bind w a with Some e => Err (io_error e) | None => Ok tt end in
  match Network.bind_tcp bound network address None with
  | (Ok _, local) => inl local
  | (Err e, _) =>
      inr (match Network.source_for address network with
           | Some source => default (MkIoError e Diagnostics.OtherIo) (os_bind w (MkSocketAddr source 0))
           | None => MkIoError e Diagnostics.AddrNotAvailable
           end)
  end.

Definition connect_from (w : Sockets) (network : Network.NetworkSnapshot) (address : SocketAddr) : Stream + IoError :=
  match new_socket w address with
  | Some e => inr e
  | None =>
      match bind_result w network address with
      | inr e => inr e
      | inl local => os_connect w address local
      end
  end.

(** The race over the events that happen: the attempt on an address ends, or the
    launch delay does ([None]). The [select] takes no disabled arm; when the
    events are over the race is still waiting. *)
Definition event_of (connect : SocketAddr → Stream + IoError) (ev : option SocketAddr) :
    race_event (Stream := Stream) (E := IoError) :=
  match ev with Some a => Attempt a (connect a) | None => DelayOver end.

Definition ready (ev : option SocketAddr) (r : Race (E := IoError)) : bool :=
  match ev with
  | Some a => bool_decide (a ∈ attempts r)
  | None => negb (exhausted r)
  end.

Fixpoint race_loop (connect : SocketAddr → Stream + IoError) (order : list (option SocketAddr))
    (r : Race (E := IoError)) : option (race_end (Stream := Stream) (E := IoError)) :=
  match order with
  | [] => None
  | ev :: order =>
      if ready ev r then
        match race_arm (event_of connect ev) r with
        | inl e => Some e
        | inr r => race_loop connect order r
        end
      else race_loop connect order r
  end.

Definition no_addresses : IoError := MkIoError (Bail "no resolved addresses") Diagnostics.AddrNotAvailable.

Definition connect_happy_eyeballs (connect : SocketAddr → Stream + IoError) (order : list (option SocketAddr))
    (addresses : list SocketAddr) : outcome (Stream * SocketAddr) :=
  match (match race_start addresses with
         | inl e => Some e
         | inr r => race_loop connect order r
         end) with
  | None => Unfinished
  | Some (Connected stream address) => Finished (stream, address)
  | Some (Failed e) =>
      let e := default no_addresses e in
      Broken (Context "connect to ECH-TLS node" (io_error e)) (Some (io_kind_of e))
  end.

(** ** One dial *)

(** What a dialer keeps from one dial to the next, and the timings of the dial
    under way. *)
Record TcpState : Type := MkTcp {
  dns : PrivateDns.Cache;
  last_success : option (Z * SocketAddr);
  timings : Diagnostics.DialTimings
}.

Definition time (f : Diagnostics.DialTimings → Diagnostics.DialTimings) (s : TcpState) : TcpState :=
  MkTcp (dns s) (last_success s) (f (timings s)).
Definition set_dns (c : PrivateDns.Cache) (s : TcpState) : TcpState := MkTcp c (last_success s) (timings s).
Definition remember (l : Z * SocketAddr) (s : TcpState) : TcpState := MkTcp (dns s) (Some l) (timings s).

Record TcpEnv : Type := MkTcpEnv {
  network : Network.NetworkSnapshot;
  resolution : Resolution;
  sockets : Sockets;
  order : list (option SocketAddr);
  dns_started : Z; dns_over : Z; tcp_started : Z; tcp_over : Z
}.

(** [last_success] when it is of this network generation. *)
Definition preferred_address (network : Network.NetworkSnapshot) (last : option (Z * SocketAddr)) : option SocketAddr :=
  match last with
  | Some (generation, address) => if generation =? Network.s_generation network then Some address else None
  | None => None
  end.

Definition candidates (network : Network.NetworkSnapshot) (last : option (Z * SocketAddr))
    (resolved : list SocketAddr) : list SocketAddr :=
  interleave_addresses (filter (λ a, Network.supports a network = true) resolved) (preferred_address network last).

Definition dial_tcp (env : TcpEnv) (server : bytes) (port : Z) (s : TcpState) : outcome (Stream * Z) * TcpState :=
  let network := network env in
  let s := time (Diagnostics.start Diagnostics.Dns (dns_started env)) s in
  let '(resolved, c) := resolve_addresses (resolution env) network server port (dns s) in
  let s := set_dns c s in
  match resolved with
  | Unfinished => (Unfinished, s)
  | Broken e io => (Broken e io, time (Diagnostics.finish (dns_over env)) s)
  | Finished addresses =>
      let s := time (Diagnostics.finish (dns_over env)) s in
      let addresses := candidates network (last_success s) addresses in
      let s := time (Diagnostics.start Diagnostics.Tcp (tcp_started env)) s in
      match connect_happy_eyeballs (connect_from (sockets env) network) (order env) addresses with
      | Unfinished => (Unfinished, s)
      | Broken e io => (Broken e io, time (Diagnostics.finish (tcp_over env)) s)
      | Finished (stream, address) =>
          let s := time (Diagnostics.finish (tcp_over env)) s in
          (Finished (stream, Network.s_generation network),
           remember (Network.s_generation network, address) s)
      end
  end.

(** ** Lemmas *)

Lemma ready_enabled connect ev r : ready ev r = true → enabled (event_of connect ev) r.
Proof. destruct ev as [a|]; simpl; intros H; reflect_bools; done. Qed.

(** The attempts of the loop end as [connect] says. *)
Definition attempts_as (connect : SocketAddr → Stream + IoError) (evs : list (race_event (Stream := Stream) (E := IoError))) : Prop :=
  Forall (λ ev, match ev with Attempt a o => o = connect a | DelayOver => True end) evs.

Lemma attempts_as_event connect evs ev :
  attempts_as connect evs → attempts_as connect (evs ++ [event_of connect ev]).
Proof. intros H. apply Forall_app. split; [done|]. apply Forall_singleton. by destruct ev. Qed.

Lemma race_loop_run connect addresses order evs r e :
  race_run addresses evs (inr r) → attempts_as connect evs →
  race_loop connect order r = Some e →
  ∃ evs', race_run addresses evs' (inl e) ∧ attempts_as connect evs'.
Proof.
  revert evs r; induction order as [|ev order IH]; intros evs r Hrun Has; cbn [race_loop]; [done|].
  destruct (ready ev r) eqn:Er; [|by apply (IH evs)].
  pose proof (race_next _ _ _ _ Hrun (ready_enabled connect _ _ Er)) as Hn.
  destruct (race_arm (event_of connect ev) r) as [e'|r']; [intros [= ->]; exists (evs ++ [event_of connect ev]); split; [done|by apply attempts_as_event]|].
  apply (IH (evs ++ [event_of connect ev])); [done|by apply attempts_as_event].
Qed.

Lemma failed_connect connect evs a :
  attempts_as connect evs → a ∈ failed evs → ∃ e, connect a = inr e.
Proof.
  intros Has (ev & Hev & He)%list_elem_of_omap. unfold attempts_as in Has. rewrite Forall_forall in Has.
  specialize (Has _ Hev). destruct ev as [x [st|e]|]; simplify_eq/=. eauto.
Qed.

Lemma connect_happy_eyeballs_spec connect order addresses :
  match connect_happy_eyeballs connect order addresses with
  | Finished (stream, address) => address ∈ addresses ∧ connect address = inl stream
  | Broken _ io => ∀ a, a ∈ addresses → ∃ e, connect a = inr e
  | Unfinished => addresses ≠ []
  end.
Proof.
  unfold connect_happy_eyeballs.
  set (o := match race_start addresses with inl _ => _ | inr _ => _ end).
  assert (Hr : ∀ e, o = Some e → ∃ evs, race_run addresses evs (inl e) ∧ attempts_as connect evs).
  { intros e. unfold o. pose proof (race_init (Stream := Stream) (E := IoError) addresses) as Hi.
    destruct (race_start addresses) as [e'|r]; [intros [= <-]; exists []; split; [done|constructor]|].
    apply race_loop_run with []; [done|constructor]. }
  destruct o as [e|] eqn:Eo; [destruct (Hr e eq_refl) as (evs & Hrun & Has)|].
  - apply race_run_invariant in Hrun. destruct e as [stream a|e].
    + destruct Hrun as [Ha Hl]. split; [done|].
      unfold attempts_as in Has. rewrite Forall_forall in Has. symmetry. apply (Has (Attempt a (inl stream))).
      apply last_Some in Hl as [l ->]. set_solver.
    + destruct Hrun as [Hp _]. intros a Ha. apply (failed_connect connect evs); [done|]. by rewrite Hp.
  - intros ->. unfold o in Eo. simpl in Eo. done.
Qed.

Lemma candidates_elem network last resolved a :
  a ∈ candidates network last resolved ↔ a ∈ resolved ∧ Network.supports a network = true.
Proof.
  unfold candidates.
  pose proof (interleave_addresses_order (filter (λ a, Network.supports a network = true) resolved)
                (preferred_address network last)) as (_ & He & _).
  rewrite He, list_elem_of_filter. tauto.
Qed.

Lemma start_stage stage now t : Diagnostics.last_stage (Diagnostics.start stage now t) = Some stage.
Proof. done. Qed.
Lemma finish_stage now t : Diagnostics.last_stage (Diagnostics.finish now t) = Diagnostics.last_stage t.
Proof. unfold Diagnostics.finish. repeat case_match; done. Qed.
Lemma finish_active now t : Diagnostics.active (Diagnostics.finish now t) = None.
Proof. unfold Diagnostics.finish. repeat case_match; done. Qed.

(** *** The egress of an attempt

    The address of the egress that an attempt on [a] goes out from: the one of the
    family of [a]. *)
Definition egress_address (net : Network.NetworkSnapshot) (a : SocketAddr) (ip : IpAddr) : Prop :=
  let egress := Network.s_selection net in
  (is_ipv4 (sa_ip a) = true ∧ ∃ v4, Network.ipv4 egress = Some v4 ∧ ip = Network.of_v4 v4) ∨
  (is_ipv4 (sa_ip a) = false ∧ ∃ v6, Network.ipv6 egress = Some v6 ∧ ip = V6 v6).

(** The egress has an address of that family, or none is pinned and it has none
    at all. *)
Definition reachable (net : Network.NetworkSnapshot) (a : SocketAddr) : Prop :=
  (∃ ip, egress_address net a ip) ∨
  (Network.s_pinned_ip net = None ∧ Network.ipv4 (Network.s_selection net) = None ∧
   Network.ipv6 (Network.s_selection net) = None).

(** A new socket, bound to that address if there is one, and only unbound when no
    address is pinned, is connected from there. *)
Definition connected (w : Sockets) (net : Network.NetworkSnapshot) (a : SocketAddr) (stream : Stream) : Prop :=
  new_socket w a = None ∧
  ((∃ ip, egress_address net a ip ∧ os_bind w (MkSocketAddr ip 0) = None ∧
      os_connect w a (Some (MkSocketAddr ip 0)) = inl stream) ∨
   ((∀ ip, ¬ egress_address net a ip) ∧ Network.s_pinned_ip net = None ∧ os_connect w a None = inl stream)).

Lemma source_for_egress net a ip : Network.source_for a net = Some ip ↔ egress_address net a ip.
Proof.
  unfold Network.source_for, egress_address. destruct (sa_ip a); simpl; rewrite fmap_Some; naive_solver.
Qed.

Lemma supports_reachable net a : Network.supports a net = true ↔ reachable net a.
Proof.
  unfold Network.supports, reachable, Network.has_address.
  assert ((∃ ip, egress_address net a ip) ↔ is_Some (Network.source_for a net)) as ->
    by (unfold is_Some; by setoid_rewrite source_for_egress).
  assert (is_Some (Network.source_for a net) → ¬ (Network.ipv4 (Network.s_selection net) = None ∧
    Network.ipv6 (Network.s_selection net) = None)) as Hsome.
  { unfold Network.source_for. intros Hs [E4 E6]. rewrite E4, E6 in Hs. destruct (sa_ip a); by destruct Hs. }
  destruct (Network.s_pinned_ip net) as [pin|]; simpl.
  - rewrite bool_decide_eq_true. naive_solver.
  - destruct (Network.ipv4 (Network.s_selection net)), (Network.ipv6 (Network.s_selection net)); simpl;
      rewrite ?bool_decide_eq_true; naive_solver.
Qed.

Lemma connect_from_iff w net a stream : connect_from w net a = inl stream ↔ connected w net a stream.
Proof.
  unfold connect_from, connected, bind_result, Network.bind_tcp. setoid_rewrite <-source_for_egress.
  destruct (new_socket w a); [split; [done|by intros [? _]]|].
  destruct (Network.source_for a net) as [ip|]; simpl;
    unfold Network.bind_address, Network.bind_interface, mbind, M_bind, lift, modify, throw, mret, M_ret; simpl.
  - destruct (os_bind w (MkSocketAddr ip 0)) as [e|] eqn:Eb; simpl; split.
    + done.
    + intros [_ [(ip' & [= <-] & Hb & _)|[Hno _]]]; [congruence|by destruct (Hno ip)].
    + intros Hc. split; [done|]. left. by exists ip.
    + intros [_ [(ip' & [= <-] & _ & Hc)|[Hno _]]]; [done|by destruct (Hno ip)].
  - destruct (Network.s_pinned_ip net) as [pin|]; simpl; split.
    + done.
    + intros [_ [(ip' & ? & _)|(_ & ? & _)]]; done.
    + intros Hc. split; [done|]. right. by split_and!.
    + intros [_ [(ip' & ? & _)|(_ & _ & Hc)]]; done.
Qed.

Lemma connect_from_failed w net a : (∃ e, connect_from w net a = inr e) ↔ ∀ stream, ¬ connected w net a stream.
Proof.
  setoid_rewrite <-connect_from_iff. destruct (connect_from w net a) as [st|e]; [|naive_solver].
  split; [by intros [? ?]|]. intros Hno. by destruct (Hno st).
Qed.

(** The host resolves to [found]: the private resolver's addresses with the port
    that is dialed, or else what the system's lookup of host and port gives; the
    timeout did not cut it. *)
Definition resolves (r : Resolution) (net : Network.NetworkSnapshot) (host : bytes) (port : Z)
    (c : PrivateDns.Cache) (found : list SocketAddr) : Prop :=
  let answer := (PrivateDns.lookup ed25519_sign base32_lower to_lowercase host (Network.s_generation net) (looked_at r)
                   (locked_at r) (answered_at r) (unix_seconds r) (answered r) c).1 in
  cut r = false ∧
  ((∃ ips, answer = Ok (Some ips) ∧ found = ((λ ip, MkSocketAddr ip port) <$> ips))
   ∨ answer = Ok None ∧ lookup_host r host port = inl found).

Lemma resolves_iff r net host port c found :
  (resolve_addresses r net host port c).1 = Finished found ↔ resolves r net host port c found.
Proof.
  unfold resolve_addresses, resolves. cbv zeta. destruct (cut r); [split; [done|by intros [? _]]|].
  destruct (PrivateDns.lookup _ _ _ _ _ _ _ _ _ _ c) as [[[ips|]|e] c']; simpl; (split; [|intros [_ H]]).
  - intros [= <-]. split; [done|]. left. by exists ips.
  - by destruct H as [(? & [= <-] & ->)|[? _]].
  - destruct (lookup_host r host port) as [l|e] eqn:E; [|done]. intros [= <-]. split; [done|]. by right.
  - destruct H as [(? & ? & _)|[_ ->]]; done.
  - done.
  - by destruct H as [(? & ? & _)|[? _]].
Qed.

(** C27: One TCP dial of a node. The host resolves to the private resolver's
    addresses with the port of the node, or to what the system's lookup gives when
    the name is not private. It returns a connection only to an address the
    host resolved to and the egress can reach (it has an address of that family,
    or none is pinned and it has no address at all), made on a new socket that is
    bound to the egress's address of that family, or unbound when it has none and
    none is pinned; under the generation of the snapshot it used; and it
    remembers exactly that address for that generation. It fails only when
    resolving failed or when no attempt on a reachable address could connect so; a
    dial that fails or is cut by the timeout leaves the remembered address alone.
    The first candidate is the remembered address when it is of the current
    generation and still among the reachable ones. The running stage of the
    timings is over unless the dial was cut, and tells how far it came. *)
Theorem dial_tcp_exact (env : TcpEnv) (server : bytes) (port : Z) (s : TcpState) :
  let net := network env in
  let '(resolved, c) := resolve_addresses (resolution env) net server port (dns s) in
  let '(result, s') := dial_tcp env server port s in
  dns s' = c ∧
  (∀ found, resolved = Finished found ↔ resolves (resolution env) net server port (dns s) found) ∧
  (∀ found a, resolved = Finished found → last_success s = Some (Network.s_generation net, a) →
     a ∈ found → reachable net a → head (candidates net (last_success s) found) = Some a) ∧
  match result with
  | Finished (stream, generation) =>
      ∃ found a, resolved = Finished found ∧ a ∈ found ∧ reachable net a
        ∧ connected (sockets env) net a stream
        ∧ generation = Network.s_generation net
        ∧ last_success s' = Some (generation, a)
        ∧ Diagnostics.last_stage (timings s') = Some Diagnostics.Tcp ∧ Diagnostics.active (timings s') = None
  | Broken e io =>
      last_success s' = last_success s ∧ Diagnostics.active (timings s') = None ∧
      ((resolved = Broken e io ∧ Diagnostics.last_stage (timings s') = Some Diagnostics.Dns)
       ∨ ∃ found, resolved = Finished found
           ∧ (∀ a, a ∈ found → reachable net a → ∀ stream, ¬ connected (sockets env) net a stream)
           ∧ Diagnostics.last_stage (timings s') = Some Diagnostics.Tcp)
  | Unfinished =>
      last_success s' = last_success s ∧
      ((resolved = Unfinished ∧ Diagnostics.last_stage (timings s') = Some Diagnostics.Dns)
       ∨ ∃ found, resolved = Finished found ∧ (∃ a, a ∈ found ∧ reachable net a)
           ∧ Diagnostics.last_stage (timings s') = Some Diagnostics.Tcp)
  end.
Proof.
  intros net. unfold dial_tcp. fold net. cbn [dns time].
  assert (Hres : ∀ found, (resolve_addresses (resolution env) net server port (dns s)).1 = Finished found ↔
    resolves (resolution env) net server port (dns s) found) by (intros; apply resolves_iff).
  destruct (resolve_addresses (resolution env) net server port (dns s)) as [[found|e io|] c]; cbn [set_dns time]; cbn [fst] in Hres.
  2,3: split_and!; try done; try (by left); by apply finish_active.
  assert (Hhead : ∀ found' a, Finished found = Finished found' →
    last_success s = Some (Network.s_generation net, a) → a ∈ found' → reachable net a →
    head (candidates net (last_success s) found') = Some a).
  { intros found' a [= <-] -> Ha Hs%supports_reachable. unfold candidates, preferred_address. rewrite Z.eqb_refl.
    pose proof (interleave_addresses_order (filter (λ a, Network.supports a net = true) found) (Some a))
      as (_ & _ & Hp & _). apply Hp; [done|]. by apply list_elem_of_filter. }
  unfold set_dns, time, remember. cbn [last_success timings dns].
  set (cands := candidates net (last_success s) found).
  pose proof (connect_happy_eyeballs_spec (connect_from (sockets env) net) (order env) cands) as Hc.
  destruct (connect_happy_eyeballs _ _ cands) as [[stream a]|e io|]; cbn [last_success timings dns];
    (split; [done|]); (split; [exact Hres|]); (split; [exact Hhead|]).
  - destruct Hc as [Ha Hconn%connect_from_iff]. apply candidates_elem in Ha as [Ha Hs%supports_reachable].
    exists found, a. by split_and!.
  - split_and!; [done|apply finish_active|]. right. exists found. split_and!; [done| |done].
    intros a Ha Hs%supports_reachable. apply connect_from_failed, Hc. by apply candidates_elem.
  - split; [done|]. right. exists found. split_and!; [done| |done].
    destruct cands as [|a l] eqn:Ec; [done|]. exists a. rewrite <-supports_reachable.
    apply (candidates_elem net (last_success s)). fold cands. rewrite Ec. by left.
Qed.
End DialTcp.
