(* ===== verification/Dialer.v ===== *)
(** * Dialer: dialling an ECH-TLS node ([src/transport/ech.rs],
    [src/catalog_refresh.rs])

    Making a dialer from a node, the cached TLS configuration, one dial with its
    checks, the retry with the ECH configuration a server offers, the retry
    after a root reload, the timeout and the diagnostics of a dial, and the
    wakeup of the catalog refresh. The TCP part is [DialTcp]; TLS is a crate: an
    environment says how each attempt goes. *)
From S2P Require Import Prelude Bytes Ip Trust Nodes.
From S2P Require Network PrivateDns Diagnostics.
From S2P Require Import DialTcp.
Local Open Scope Z_scope.

Definition MAX_ECH_CONFIG_LENGTH : nat := Z.to_nat 65536.
Definition COOLDOWN : Z := 30000.

(** ** The catalog refresh *)

(** [Notify] holds at most one wakeup. *)
Record CatalogRefresh : Type := MkRefresh { last_request : option Z; wakeup : bool }.

Definition request_refresh (now : Z) (c : CatalogRefresh) : bool * CatalogRefresh :=
  if match last_request c with Some time => now - time <? COOLDOWN | None => false end
  then (false, c) else (true, MkRefresh (Some now) true).

(** ** Dialling *)

(** A shared value and the identity [Arc::ptr_eq] compares. *)
Record Arc (A : Type) : Type := MkArc { ptr : nat; val : A }.
Arguments MkArc {A} _ _.
Arguments ptr {A} _.
Arguments val {A} _.

(** What [validate_profile] asks of a node. *)
Definition validate_profile (p : Proxy) : result unit :=
  if negb (bytes_eqb (proxy_type p) (lit "snell"))
     || negb (version p =? 4)
     || negb (identity p)
     || bool_decide (server p = [])
     || (port p =? 0)
     || negb (bytes_eqb (mode (obfs p)) (lit "ech-tls"))
     || bool_decide (sni (obfs p) = [])
     || bool_decide (path (obfs p) = [])
     || negb (bytes_eqb (alpn (obfs p)) (lit "snell-ech/1"))
     || negb (identity_version (obfs p) =? 2)
     || legacy_fallback (obfs p)
     || skip_cert_verify (obfs p)
  then Err (Bail "unsupported Snell ECH-TLS node configuration") else Ok tt.

Section Dialer.
Context {Root EchConfig ClientConfig Stream Tls Exporter : Type} `{EqDecision Root}.
(** [base64], [EchConfig::new], and the client configuration of an ALPN
    protocol, an ECH configuration and a set of roots; [ServerName::try_from];
    what the private resolver signs names with. *)
Context (base64_decode : bytes → option bytes) (ech_new : bytes → option EchConfig).
Context (build : bytes → EchConfig → list Root → option ClientConfig).
Context (server_name_valid : bytes → bool).
Context (ed25519_sign : bytes → bytes) (base32_lower to_lowercase : bytes → bytes).

Definition ech_config_from_list (ech_bytes : bytes) : result EchConfig :=
  match ech_bytes with
  | b0 :: b1 :: _ :: _ :: _ =>
      if (MAX_ECH_CONFIG_LENGTH <? length ech_bytes)%nat
      then Err (Bail "ECH config list size is invalid")
      else if negb (from_be16 b0 b1 =? Z.of_nat (length ech_bytes) - 2)
      then Err (Bail "ECH config list length does not match")
      else ok_or (Bail "ECH config list is unsupported") (ech_new ech_bytes)
  | _ => Err (Bail "ECH config list size is invalid")
  end.

(** The longest text allowed: [div_ceil(3) * 4]. *)
Definition MAX_ECH_CONFIG_TEXT : nat := ((MAX_ECH_CONFIG_LENGTH + 2) / 3 * 4)%nat.

Definition parse_ech_config (encoded : bytes) : result EchConfig :=
  if bool_decide (encoded = []) || (MAX_ECH_CONFIG_TEXT <? length encoded)%nat
  then Err (Bail "ECH config size is invalid")
  else ech_bytes ← ok_or (Bail "ECH config is not valid Base64") (base64_decode encoded);
       ech_config_from_list ech_bytes.

Record CachedTlsConfig : Type := MkCached {
  c_generation : Z;
  c_ech : Arc EchConfig;
  c_config : ClientConfig
}.

(** Why a dial fails, as far as the code looks into it; [Waiting] when it has
    not ended when its timeout fires. *)
Inductive dial_error : Type :=
  | Other (e : error) (io : option Diagnostics.io_kind)
  | UnknownIssuer
  | EchRejected (retry_configs : option bytes)
  | Waiting.

Definition ech_rejected (e : dial_error) : bool := match e with EchRejected _ => true | _ => false end.
Definition unknown_issuer (e : dial_error) : bool := match e with UnknownIssuer => true | _ => false end.
Definition ech_retry_config (e : dial_error) : option EchConfig :=
  match e with
  | EchRejected (Some configs) =>
      match ech_config_from_list configs with Ok ech => Some ech | Err _ => None end
  | _ => None
  end.

(** The chain of causes, as [classify] looks at it. *)
Definition causes (e : dial_error) : list Diagnostics.cause :=
  match e with
  | Other _ (Some kind) => [Diagnostics.Io kind None]
  | UnknownIssuer => [Diagnostics.Io Diagnostics.OtherIo (Some Diagnostics.UnknownIssuer)]
  | EchRejected _ => [Diagnostics.Io Diagnostics.OtherIo (Some Diagnostics.EchRejection)]
  | Other _ None | Waiting => [Diagnostics.Unknown]
  end.

(** A connection after the handshake: its stream, whether it is TLS 1.3, the
    ALPN protocol it negotiated, and its exporter. *)
Record Handshake : Type := MkHandshake {
  stream : Tls;
  tls13 : bool;
  alpn_protocol : option bytes;
  exported : option Exporter
}.

Record EchConnection : Type := MkConnection { c_stream : Tls; c_exporter : Exporter; network_generation : Z }.

(** How one attempt goes: the TCP dial, then the handshake on its stream. *)
Record Attempted : Type := MkAttempted {
  tcp : TcpEnv (Stream := Stream);
  handshake : Stream → ClientConfig → dial_error + Handshake;
  tls_started : Z; tls_over : Z
}.

Record Profile : Type := MkProfile {
  p_server : bytes; p_sni : bytes; p_port : Z; p_alpn : bytes; p_timeout : Z
}.

(** The dialer, and what it has offered: the configurations of the handshakes
    so far. [wire] holds the cache of the shared resolver, the last address that
    worked and the timings of the dial under way. *)
Record Dialer : Type := MkDialer {
  profile : Profile;
  tls_config : option CachedTlsConfig;
  ech : Arc EchConfig;
  next_ptr : nat;
  catalog_refresh : CatalogRefresh;
  offered : list (TrustSnapshot Root * EchConfig * ClientConfig);
  attempts_made : nat;
  wire : TcpState
}.

Definition no_timings : Diagnostics.DialTimings := Diagnostics.MkTimings None None None 0 None None.

(** [new_with_context]; the resolver's cache and the wakeup are the context's.
    Durations are nanoseconds. *)
Definition new_with_context (p : Proxy) (dial_timeout : Z) (c : PrivateDns.Cache) (r : CatalogRefresh) :
    result Dialer :=
  if (dial_timeout =? 0) || (120 * 10 ^ 9 <? dial_timeout)
  then Err (Bail "ECH dial timeout must be between 1ns and 2m")
  else
    _ ← validate_profile p;
    ech ← parse_ech_config (ech_config (obfs p));
    Ok (MkDialer (MkProfile (server p) (sni (obfs p)) (port p) (alpn (obfs p)) dial_timeout)
          None (MkArc 0%nat ech) 1 r [] 0 (MkTcp c None no_timings)).

Definition cache_config (c : CachedTlsConfig) (d : Dialer) : Dialer :=
  MkDialer (profile d) (Some c) (ech d) (next_ptr d) (catalog_refresh d) (offered d) (attempts_made d) (wire d).
(** [*ech = Arc::new(retry)] *)
Definition set_ech (retry : EchConfig) (d : Dialer) : Dialer :=
  MkDialer (profile d) (tls_config d) (MkArc (next_ptr d) retry) (S (next_ptr d)) (catalog_refresh d) (offered d)
    (attempts_made d) (wire d).
Definition set_refresh (c : CatalogRefresh) (d : Dialer) : Dialer :=
  MkDialer (profile d) (tls_config d) (ech d) (next_ptr d) c (offered d) (attempts_made d) (wire d).
Definition note_attempt (d : Dialer) : Dialer :=
  MkDialer (profile d) (tls_config d) (ech d) (next_ptr d) (catalog_refresh d) (offered d) (S (attempts_made d)) (wire d).
Definition note_offer (o : TrustSnapshot Root * EchConfig * ClientConfig) (d : Dialer) : Dialer :=
  MkDialer (profile d) (tls_config d) (ech d) (next_ptr d) (catalog_refresh d) (offered d ++ [o]) (attempts_made d) (wire d).
Definition set_wire (w : TcpState) (d : Dialer) : Dialer :=
  MkDialer (profile d) (tls_config d) (ech d) (next_ptr d) (catalog_refresh d) (offered d) (attempts_made d) w.
Definition timed (f : Diagnostics.DialTimings → Diagnostics.DialTimings) (d : Dialer) : Dialer :=
  set_wire (time f (wire d)) d.

Definition config_for (trust : TrustSnapshot Root) : M Dialer ClientConfig := λ d,
  let hit := match tls_config d with
             | Some cached =>
                 if (c_generation cached =? generation trust) && (ptr (c_ech cached) =? ptr (ech d))%nat
                 then Some (c_config cached) else None
             | None => None
             end in
  match hit with
  | Some config => (Ok config, d)
  | None =>
      match build (p_alpn (profile d)) (val (ech d)) (roots trust) with
      | None => (Err (Bail "configure ECH-TLS"), d)
      | Some config => (Ok config, cache_config (MkCached (generation trust) (ech d) config) d)
      end
  end.

Section Dial.
(** The attempts as they will go, by number; the clock. *)
Context (attempt : nat → Attempted) (now : Z).

Definition dialled (A : Type) : Type := Dialer → (dial_error + A) * Dialer.

Definition check_handshake (offered_alpn : bytes) (gen : Z) (h : Handshake) : dial_error + EchConnection :=
  if negb (tls13 h) then inl (Other (Bail "ECH transport did not negotiate TLS 1.3") None)
  else if negb (bool_decide (alpn_protocol h = Some offered_alpn))
  then inl (Other (Bail "ECH transport negotiated an unexpected ALPN") None)
  else match exported h with
       | Some e => inr (MkConnection (stream h) e gen)
       | None => inl (Other (Bail "export ECH-TLS identity material") None)
       end.

Definition dial_once (trust : TrustSnapshot Root) : dialled EchConnection := λ d,
  let a := attempt (attempts_made d) in
  let d := note_attempt d in
  let '(raw, w) := dial_tcp ed25519_sign base32_lower to_lowercase (tcp a) (p_server (profile d)) (p_port (profile d)) (wire d) in
  let d := set_wire w d in
  match raw with
  | Unfinished => (inl Waiting, d)
  | Broken e io => (inl (Other e io), d)
  | Finished (raw, gen) =>
      if negb (server_name_valid (p_sni (profile d)))
      then (inl (Other (Bail "ECH-TLS server name is invalid") None), d)
      else
        match config_for trust d with
        | (Err e, d) => (inl (Other e None), d)
        | (Ok config, d) =>
            let d := timed (Diagnostics.start Diagnostics.TlsStage (tls_started a)) d in
            let d := note_offer (trust, val (ech d), config) d in
            match handshake a raw config with
            | inl Waiting => (inl Waiting, d)
            | inl e => (inl e, timed (Diagnostics.finish (tls_over a)) d)
            | inr h => (check_handshake (p_alpn (profile d)) gen h, timed (Diagnostics.finish (tls_over a)) d)
            end
        end
  end.

Definition dial_with_trust (trust : TrustSnapshot Root) : dialled EchConnection := λ d,
  let '(result, d) := dial_once trust d in
  match result with
  | inr c => (inr c, d)
  | inl error =>
      let d := if ech_rejected error then set_refresh (request_refresh now (catalog_refresh d)).2 d else d in
      match ech_retry_config error with
      | Some retry => dial_once trust (set_ech retry d)
      | None => (inl error, d)
      end
  end.

(** [refreshed]: the snapshot [TrustStore::refresh] returns for the generation
    that failed, unless the dial is still waiting for it when its timeout fires. *)
Definition dial_inner (trust : TrustSnapshot Root) (refreshed : option (TrustSnapshot Root)) :
    dialled EchConnection := λ d,
  let '(result, d) := dial_with_trust trust d in
  match result with
  | inr c => (inr c, d)
  | inl error =>
      if unknown_issuer error then
        match refreshed with
        | None => (inl Waiting, d)
        | Some refreshed =>
            if negb (generation refreshed =? generation trust) then dial_with_trust refreshed d
            else (inl error, d)
        end
      else (inl error, d)
  end.

Definition timed_out : dial_error :=
  Other (Bail "ECH-TLS node connection timed out") (Some Diagnostics.TimedOut).

(** [dial], which the clock shows from [started] to [ended] (milliseconds) and
    at [now] (seconds); the diagnostics of the node and of the transport. *)
Definition dial (started ended unix_now : Z) (trust : TrustSnapshot Root) (refreshed : option (TrustSnapshot Root))
    (d : Dialer) (node : Diagnostics.NodeState) (all : Diagnostics.DialSnapshot) :
    (dial_error + EchConnection) * Dialer * Diagnostics.NodeState * Diagnostics.DialSnapshot :=
  let '(result, d) := dial_inner trust refreshed (timed (λ _, no_timings) d) in
  let result := match result with inl Waiting => inl timed_out | _ => result end in
  let t := Diagnostics.finish ended (timings (wire d)) in
  let t := Diagnostics.MkTimings (Diagnostics.dns_ms t) (Diagnostics.tcp_ms t) (Diagnostics.tls_ms t)
             (Z.min (Z.max 0 (ended - started)) U64_MAX) (Diagnostics.last_stage t) (Diagnostics.active t) in
  let failure := match result with inl e => Some (causes e) | inr _ => None end in
  (result, timed (λ _, t) d, Diagnostics.node_record failure t unix_now node,
   Diagnostics.dial_record failure unix_now all).
End Dial.

(** *** The configuration cache *)

(** [names] gives the roots of a generation, as the trust store guarantees. The
    cached configuration is the one that would be built from what it is cached
    for, and its identity tells the dialer's ECH configuration from others. *)
Definition cache_ok (names : Z → list Root) (d : Dialer) : Prop :=
  (ptr (ech d) < next_ptr d)%nat ∧
  ∀ c, tls_config d = Some c →
    (ptr (c_ech c) < next_ptr d)%nat
    ∧ build (p_alpn (profile d)) (val (c_ech c)) (names (c_generation c)) = Some (c_config c)
    ∧ (ptr (c_ech c) = ptr (ech d) → val (c_ech c) = val (ech d)).

(** Every handshake so far offered the configuration of the ECH configuration
    and the roots in force. *)
Definition offers_ok (names : Z → list Root) (d : Dialer) : Prop :=
  Forall (λ '(trust, e, config), roots trust = names (generation trust)
            ∧ build (p_alpn (profile d)) e (names (generation trust)) = Some config) (offered d).

Definition all_ok (names : Z → list Root) (d : Dialer) : Prop := cache_ok names d ∧ offers_ok names d.

Lemma all_ok_wire names w d : all_ok names d → all_ok names (set_wire w d).
Proof. done. Qed.

Lemma config_for_spec names trust d :
  all_ok names d → roots trust = names (generation trust) →
  let '(r, d') := config_for trust d in
  r = ok_or (Bail "configure ECH-TLS") (build (p_alpn (profile d)) (val (ech d)) (roots trust))
  ∧ all_ok names d' ∧ ech d' = ech d ∧ offered d' = offered d ∧ attempts_made d' = attempts_made d
  ∧ profile d' = profile d.
Proof.
  intros [[Hp Hc] Hof] Hn. unfold config_for.
  destruct (match tls_config d with Some _ => _ | None => None end) as [config|] eqn:Eh.
  - destruct (tls_config d) as [c|] eqn:Et; [|done].
    destruct ((c_generation c =? generation trust) && (ptr (c_ech c) =? ptr (ech d))%nat) eqn:E; [|done].
    injection Eh as <-. reflect_bools. destruct (Hc c eq_refl) as (_ & Hb & Hv).
    rewrite <-Hv, Hn, <-H, Hb by done. split_and!; try done. split; [|done]. unfold cache_ok. rewrite Et. done.
  - clear Eh. destruct (build (p_alpn (profile d)) (val (ech d)) (roots trust)) as [config|] eqn:Eb; [|done].
    split_and!; try done. split; [|done]. split; [done|]. intros c [= <-]. simpl. by rewrite <-Hn.
Qed.

(** Making an attempt adds at most one handshake. *)
Definition one_more (d d' : Dialer) : Prop :=
  attempts_made d' = S (attempts_made d) ∧ (length (offered d') <= S (length (offered d)))%nat
  ∧ profile d' = profile d.

Lemma all_ok_offer names trust config d0 d :
  all_ok names d → offered d = offered d0 → attempts_made d = S (attempts_made d0) → profile d = profile d0 →
  roots trust = names (generation trust) →
  build (p_alpn (profile d)) (val (ech d)) (roots trust) = Some config →
  all_ok names (note_offer (trust, val (ech d), config) d) ∧ one_more d0 (note_offer (trust, val (ech d), config) d).
Proof.
  intros [Hc Hof] Ho Ha Hp Hn Hb. split; [split; [done|]|].
  - apply Forall_app. split; [done|]. apply Forall_singleton. simpl. by rewrite <-Hn.
  - split_and!; [done| |done]. simpl. rewrite length_app, Ho. simpl. lia.
Qed.

Lemma dial_once_spec names attempt trust d :
  all_ok names d → roots trust = names (generation trust) →
  all_ok names (dial_once attempt trust d).2 ∧ one_more d (dial_once attempt trust d).2.
Proof.
  intros Hok Hn. unfold dial_once.
  destruct (dial_tcp _ _ _ _ _ _ (wire (note_attempt d))) as [raw w].
  set (d1 := set_wire w (note_attempt d)).
  assert (Hd1 : all_ok names d1 ∧ one_more d d1) by (split; [exact Hok|split_and!; [done|simpl; lia|done]]).
  destruct raw as [[raw gen]|e io|]; [|exact Hd1|exact Hd1].
  destruct (negb (server_name_valid _)); [exact Hd1|].
  pose proof (config_for_spec names trust d1 (proj1 Hd1) Hn) as Hf.
  destruct (config_for trust d1) as [[config|e] d2]; destruct Hf as (Hr & Hc2 & He & Hof & Ham & Hp).
  - symmetry in Hr. apply ok_or_inv in Hr. rewrite <-He, <-Hp in Hr.
    pose proof (all_ok_offer names trust config d
      (timed (Diagnostics.start Diagnostics.TlsStage (tls_started (attempt (attempts_made d)))) d2)) as Hoff.
    specialize (Hoff Hc2 Hof Ham Hp Hn Hr).
    destruct (handshake _ _ _) as [[| | |]|h]; exact Hoff.
  - split; [done|]. split_and!; [done|simpl; rewrite Hof; simpl; lia|done].
Qed.

Lemma set_ech_spec names retry d : all_ok names d → all_ok names (set_ech retry d).
Proof.
  intros [[Hp Hc] Hof]. split; [|done]. split; [simpl; lia|]. intros c Ht. destruct (Hc c Ht) as (Hpc & Hb & Hv).
  simpl. split_and!; [lia|done|]. intros. lia.
Qed.

Lemma dial_with_trust_spec names attempt now trust d :
  all_ok names d → roots trust = names (generation trust) →
  let '(_, d') := dial_with_trust attempt now trust d in
  all_ok names d'
  ∧ (attempts_made d < attempts_made d' <= attempts_made d + 2)%nat
  ∧ (length (offered d') <= length (offered d) + 2)%nat ∧ profile d' = profile d.
Proof.
  intros Hc Hn. unfold dial_with_trust.
  pose proof (dial_once_spec names attempt trust d Hc Hn) as [Hc1 (Ha1 & Hl1 & Hp1)].
  destruct (dial_once attempt trust d) as [[error|c] d1]; simpl in Hc1, Ha1, Hl1, Hp1;
    [|split_and!; try done; lia].
  set (d2 := if ech_rejected error then _ else d1).
  assert (Hd2 : all_ok names d2 ∧ attempts_made d2 = attempts_made d1
                ∧ offered d2 = offered d1 ∧ profile d2 = profile d1) by (unfold d2; by destruct (ech_rejected error)).
  destruct Hd2 as (Hc2 & Ha2 & Hof2 & Hp2).
  destruct (ech_retry_config error) as [retry|]; [|rewrite Hof2, Ha2, Hp2; split_and!; try done; lia].
  pose proof (dial_once_spec names attempt trust (set_ech retry d2) (set_ech_spec _ _ _ Hc2) Hn) as [Hc3 (Ha3 & Hl3 & Hp3)].
  destruct (dial_once attempt trust (set_ech retry d2)) as [r d3]. simpl in *.
  rewrite Hof2, Ha2, Hp2 in *. split_and!; try done; try lia. congruence.
Qed.

(** The cached configuration is never stale, and a dial is bounded. Whatever
    was dialled before, every handshake of a dial offers the client
    configuration built from the ECH configuration in force at that moment and
    the roots of the trust snapshot it runs under, as if there were no cache; a
    dial makes at most four attempts (one per snapshot and one more for each
    retry configuration), and more than two only when the first ones ended with
    an unknown issuer and the refresh brought another generation. *)
Theorem dial_offers_current_config names attempt now trust refreshed d :
  cache_ok names d → offers_ok names d →
  roots trust = names (generation trust) → (∀ r, refreshed = Some r → roots r = names (generation r)) →
  let '(_, d') := dial_inner attempt now trust refreshed d in
  cache_ok names d' ∧ offers_ok names d' ∧ profile d' = profile d
  ∧ (attempts_made d < attempts_made d' <= attempts_made d + 4)%nat
  ∧ ((attempts_made d + 2 < attempts_made d')%nat →
     (dial_with_trust attempt now trust d).1 = inl UnknownIssuer
     ∧ ∃ r, refreshed = Some r ∧ generation r ≠ generation trust).
Proof.
  intros Hc Ho Hn Hr. unfold dial_inner.
  pose proof (dial_with_trust_spec names attempt now trust d (conj Hc Ho) Hn) as H1.
  destruct (dial_with_trust attempt now trust d) as [[error|c] d1];
    destruct H1 as ([Hc1 Ho1] & Ha1 & _ & Hp1); [|split_and!; try done; lia].
  destruct (unknown_issuer error) eqn:Eu; [|split_and!; try done; lia].
  destruct refreshed as [refreshed|]; [|split_and!; try done; lia].
  destruct (generation refreshed =? generation trust) eqn:Eg; cbn [negb]; [split_and!; try done; lia|].
  pose proof (dial_with_trust_spec names attempt now refreshed d1 (conj Hc1 Ho1) (Hr _ eq_refl)) as H2.
  destruct (dial_with_trust attempt now refreshed d1) as [r d2].
  destruct H2 as ([Hc2 Ho2] & Ha2 & _ & Hp2). reflect_bools.
  split_and!; try done; [congruence|lia|lia|]. split; [by destruct error|]. eauto.
Qed.

(** *** What a dial returns *)

(** The connection comes from attempt [n]: its TCP dial, then a handshake that
    offered [config] and was checked. *)
Definition verified (attempt : nat → Attempted) (alpn : bytes) (c : EchConnection) (d' : Dialer) : Prop :=
  ∃ n w server port raw gen t e config h,
    attempts_made d' = S n
    ∧ (dial_tcp ed25519_sign base32_lower to_lowercase (tcp (attempt n)) server port w).1 = Finished (raw, gen)
    ∧ server = p_server (profile d') ∧ port = p_port (profile d')
    ∧ server_name_valid (p_sni (profile d')) = true
    ∧ last (offered d') = Some (t, e, config)
    ∧ handshake (attempt n) raw config = inr h
    ∧ tls13 h = true ∧ alpn_protocol h = Some alpn
    ∧ exported h = Some (c_exporter c) ∧ c_stream c = stream h ∧ network_generation c = gen.

Lemma check_handshake_ok alpn gen h c :
  check_handshake alpn gen h = inr c →
  tls13 h = true ∧ alpn_protocol h = Some alpn ∧ exported h = Some (c_exporter c)
  ∧ c_stream c = stream h ∧ network_generation c = gen.
Proof.
  unfold check_handshake. destruct (tls13 h); cbn [negb]; [|done].
  case_bool_decide; cbn [negb]; [|done]. destruct (exported h); [|done]. by intros [= <-].
Qed.

Lemma config_for_profile trust d : profile (config_for trust d).2 = profile d
  ∧ attempts_made (config_for trust d).2 = attempts_made d.
Proof.
  unfold config_for. destruct (match tls_config d with Some _ => _ | None => None end); [done|].
  by destruct (build _ _ _).
Qed.

Lemma dial_once_verified attempt trust d c d' :
  dial_once attempt trust d = (inr c, d') → verified attempt (p_alpn (profile d)) c d'.
Proof.
  unfold dial_once.
  destruct (dial_tcp _ _ _ _ _ _ (wire (note_attempt d))) as [raw w] eqn:Et.
  destruct raw as [[raw gen]|e io|]; [|done|done].
  set (d1 := set_wire w (note_attempt d)).
  destruct (server_name_valid _) eqn:Es; [|done]. cbn [negb].
  pose proof (config_for_profile trust d1) as [Hp Ham].
  destruct (config_for trust d1) as [[config|e] d2]; [|done]. simpl in Hp, Ham.
  destruct (handshake _ _ _) as [[| | |]|h] eqn:Eh; try done.
  intros [= Hc <-]. apply check_handshake_ok in Hc as (Ht & Hal & He & Hs & Hg).
  exists (attempts_made d), (wire (note_attempt d)), (p_server (profile d)), (p_port (profile d)), raw, gen.
  eexists _, _, config, h. simpl in *. rewrite Hp, Ham, last_snoc. rewrite Et.
  split_and!; try done. congruence.
Qed.

Lemma dial_once_profile attempt trust d : profile (dial_once attempt trust d).2 = profile d.
Proof.
  unfold dial_once. destruct (dial_tcp _ _ _ _ _ _ _) as [[[raw gen]|e io|] w]; [|done|done].
  destruct (negb _); [done|].
  pose proof (config_for_profile trust (set_wire w (note_attempt d))) as [Hp _].
  destruct (config_for _ _) as [[config|e] d2]; [|done]. by destruct (handshake _ _ _) as [[| | |]|h].
Qed.

Lemma dial_with_trust_verified attempt now trust d c d' :
  dial_with_trust attempt now trust d = (inr c, d') → verified attempt (p_alpn (profile d)) c d'.
Proof.
  unfold dial_with_trust. pose proof (dial_once_profile attempt trust d) as Hp.
  destruct (dial_once attempt trust d) as [[error|c'] d1] eqn:E1.
  - simpl in Hp. destruct (ech_retry_config error) as [retry|]; [|done].
    set (d2 := set_ech _ _). intros H%dial_once_verified.
    replace (profile d2) with (profile d) in H; [done|]. rewrite <-Hp. unfold d2. by destruct (ech_rejected error).
  - intros [= -> <-]. by eapply dial_once_verified.
Qed.

Lemma dial_with_trust_profile attempt now trust d : profile (dial_with_trust attempt now trust d).2 = profile d.
Proof.
  unfold dial_with_trust. pose proof (dial_once_profile attempt trust d) as Hp.
  destruct (dial_once attempt trust d) as [[error|c'] d1]; [|done]. simpl in Hp.
  set (d2 := if ech_rejected error then _ else d1).
  assert (Hd2 : profile d2 = profile d) by (unfold d2; by destruct (ech_rejected error)).
  destruct (ech_retry_config error) as [retry|]; [|done].
  rewrite (dial_once_profile attempt trust (set_ech retry d2)). done.
Qed.

Lemma dial_inner_verified attempt now trust refreshed d c d' :
  dial_inner attempt now trust refreshed d = (inr c, d') → verified attempt (p_alpn (profile d)) c d'.
Proof.
  unfold dial_inner. pose proof (dial_with_trust_profile attempt now trust d) as Hp.
  destruct (dial_with_trust attempt now trust d) as [[error|c'] d1] eqn:E1.
  - simpl in Hp. destruct (unknown_issuer error); [|done]. destruct refreshed as [refreshed|]; [|done].
    destruct (negb _); [|done]. intros H%dial_with_trust_verified. by rewrite Hp in H.
  - intros [= -> <-]. by eapply dial_with_trust_verified.
Qed.

Lemma dial_verified attempt now started ended unix_now trust refreshed d node all c d' node' all' :
  dial attempt now started ended unix_now trust refreshed d node all = (inr c, d', node', all') →
  verified attempt (p_alpn (profile d)) c d'.
Proof.
  unfold dial. set (d0 := timed (λ _, no_timings) d).
  destruct (dial_inner attempt now trust refreshed d0) as [[[e io| |r|]|c'] d1] eqn:E; intros Hd; simplify_eq.
  by apply dial_inner_verified in E.
Qed.

(** What a dial returns and what it leaves behind. A connection is only
    returned from the dial's last attempt, over the stream of that attempt's TCP
    dial and under its network generation, after a handshake that offered the
    last configuration recorded and that negotiated TLS 1.3, exactly the
    protocol the node asks for, and an exporter. A dial that the timeout cuts
    fails as a timeout. Either way the dial is counted exactly once, for the
    node and for the transport: a success clears the node's run of failures, a
    failure is counted under its class with the stage the dial had reached. *)
Theorem dial_returns_verified attempt now started ended unix_now trust refreshed d node all :
  let '(result, d', node', all') := dial attempt now started ended unix_now trust refreshed d node all in
  match result with
  | inr c =>
      verified attempt (p_alpn (profile d)) c d'
      ∧ Diagnostics.succeeded (Diagnostics.dials node') = Diagnostics.succeeded (Diagnostics.dials node) + 1
      ∧ Diagnostics.failed (Diagnostics.dials node') = Diagnostics.failed (Diagnostics.dials node)
      ∧ Diagnostics.consecutive_failures node' = 0
      ∧ Diagnostics.succeeded all' = Diagnostics.succeeded all + 1
      ∧ Diagnostics.failed all' = Diagnostics.failed all
  | inl e =>
      e ≠ Waiting
      ∧ ((dial_inner attempt now trust refreshed (timed (λ _, no_timings) d)).1 = inl Waiting →
         Diagnostics.classify (causes e) = Diagnostics.Timeout)
      ∧ Diagnostics.succeeded (Diagnostics.dials node') = Diagnostics.succeeded (Diagnostics.dials node)
      ∧ Diagnostics.failed (Diagnostics.dials node') = Diagnostics.failed (Diagnostics.dials node) + 1
      ∧ Diagnostics.last_error (Diagnostics.dials node') = Some (Diagnostics.classify (causes e))
      ∧ Diagnostics.last_failure_stage node' = Diagnostics.last_stage (timings (wire d'))
      ∧ Diagnostics.failed all' = Diagnostics.failed all + 1
      ∧ Diagnostics.succeeded all' = Diagnostics.succeeded all
      ∧ Diagnostics.last_error all' = Some (Diagnostics.classify (causes e))
  end.
Proof.
  unfold dial. set (d0 := timed (λ _, no_timings) d).
  destruct (dial_inner attempt now trust refreshed d0) as [[[e io| |r|]|c] d1] eqn:E;
    try (split_and!; done).
  apply dial_inner_verified in E. split_and!; try done.
Qed.

(** A dialer starts with nothing cached, for a node whose protocol is the one
    this client speaks. *)
Lemma new_with_context_ok names p dial_timeout c r d :
  new_with_context p dial_timeout c r = Ok d →
  all_ok names d
  ∧ profile d = MkProfile (server p) (sni (obfs p)) (port p) (lit "snell-ech/1") dial_timeout
  ∧ server p ≠ [] ∧ sni (obfs p) ≠ [] ∧ skip_cert_verify (obfs p) = false
  ∧ 0 <> dial_timeout ∧ dial_timeout <= 120 * 10 ^ 9.
Proof.
  unfold new_with_context. destruct (_ || _) eqn:Et; [done|].
  intros (u & Hv & H)%result_bind_inv. apply result_bind_inv in H as (e & _ & [= <-]).
  unfold validate_profile, bytes_eqb in Hv. destruct (_ || skip_cert_verify (obfs p)) eqn:Ev; [done|].
  reflect_bools. split_and!; try done.
  - split; [split; [simpl; lia|done]|constructor].
  - simpl. congruence.
Qed.
End Dialer.

(** ** Witness: an unknown issuer, a reload, a retry configuration, success *)

Definition demo_address : SocketAddr := MkSocketAddr (V4 x01 x02 x03 x04) 443.
Definition demo_tcp : TcpEnv (Stream := nat) :=
  MkTcpEnv (Network.MkSnapshot Network.egress_empty None 3)
    (MkResolution 0 0 0 None (λ _, ([], false)) (λ _ _, inl [demo_address]) false)
    (MkSockets (λ _, None) (λ _, None) (λ _ _, inl 7%nat)) [Some demo_address] 0 1 1 2.

Definition demo_ech_new (l : bytes) : option nat := Some (length l).
Definition demo_build (alpn : bytes) (e : nat) (rs : list Z) : option (nat * list Z) := Some (e, rs).
Definition demo_attempt (n : nat) :
    Attempted (ClientConfig := nat * list Z) (Stream := nat) (Tls := nat) (Exporter := string) :=
  MkAttempted demo_tcp (λ raw _,
    match n with
    | O => inl UnknownIssuer
    | 1%nat => inl (EchRejected (Some [x00; x02; x07; x07]))
    | _ => inr (MkHandshake raw true (Some (lit "snell-ech/1")) (Some "exported"%string))
    end) 2 9.
Definition demo_node : Proxy :=
  MkProxy (lit "node") (lit "snell") (lit "node.test") 443 (lit "key") 4 true false true true
    (MkObfs (lit "ech-tls") (lit "node.test") (lit "/") (lit "snell-ech/1") (lit "config") 2 false false 0).
Definition demo_dialer : Dialer (Root := Z) (EchConfig := nat) (ClientConfig := nat * list Z) :=
  MkDialer (MkProfile (lit "node.test") (lit "node.test") 443 (lit "snell-ech/1") 1)
    None (MkArc 0 9%nat) 1 (MkRefresh None false) [] 0 (MkTcp ∅ None no_timings).
Definition demo_dial :=
  dial_inner demo_ech_new demo_build (λ _, true) (λ m, m) (λ m, m) (λ m, m) demo_attempt 5
    (MkTrust [1] 1) (Some (MkTrust [2] 2)) demo_dialer.

Lemma demo_dial_run :
  demo_dial.1 = inr (MkConnection 7%nat "exported"%string 3)
  ∧ offered demo_dial.2 = [(MkTrust [1] 1, 9%nat, (9%nat, [1])); (MkTrust [2] 2, 9%nat, (9%nat, [2]));
                           (MkTrust [2] 2, 4%nat, (4%nat, [2]))]
  ∧ wakeup (catalog_refresh demo_dial.2) = true
  ∧ last_success (wire demo_dial.2) = Some (3, demo_address).
Proof. by vm_compute. Qed.

Lemma dial_offers_current_config_witness :
  (attempts_made demo_dial.2 <= 4)%nat ∧ offers_ok demo_build (λ g, [g]) demo_dial.2.
Proof.
  pose proof (dial_offers_current_config demo_ech_new demo_build (λ _, true) (λ m, m) (λ m, m) (λ m, m)
                (λ g, [g]) demo_attempt 5 (MkTrust [1] 1) (Some (MkTrust [2] 2)) demo_dialer) as H.
  assert (Hc : cache_ok demo_build (λ g, [g]) demo_dialer) by (split; [simpl; lia|discriminate]).
  specialize (H Hc (Forall_nil_2 _) eq_refl).
  assert (Hr : ∀ r, Some (MkTrust [2] 2) = Some r → roots r = [generation r]) by (by intros r [= <-]).
  specialize (H Hr).
  unfold demo_dial. destruct (dial_inner _ _ _ _ _ _ _ _ _ _ demo_dialer) as [r d'].
  destruct H as (_ & Ho & _ & Ha & _). split; [|exact Ho]. simpl in *. lia.
Defined.
