(* ===== verification/Config.v ===== *)
(** * Config: the configuration file ([src/config.rs])

    Parsing of [key=value] files and of JSON files, Go durations with the
    floating-point arithmetic the code uses, defaults, bounds and the checks
    between settings. Parsed URLs are the [url] crate, JSON is [serde_json] and
    the file system is the operating system: interfaces of this file. Durations
    are nanoseconds. *)
From Stdlib Require Import Floats.SpecFloat.
From stdpp Require Import pretty.
From S2P Require Import Prelude Bytes Text Ip Socks5 Nodes.
Local Open Scope Z_scope.

Definition DEFAULT_API_BASE_URL : bytes := lit "https://oix-api.dler.io".
Definition DEFAULT_APP_SECRET : bytes := lit "4a7f27227e2779e5d3e9cd968ba06ceb".
Definition DEFAULT_LISTEN : bytes := lit "127.0.0.1:6172".
Definition DEFAULT_NODELIST_LISTEN : bytes := lit "127.0.0.1:6173".
Definition MAX_PROXY_CONFIG_BYTES : Z := 65536.

Definition NANOS : Z := 1000000000.
Definition from_secs (s : Z) : Z := s * NANOS.

(** The [url] crate, as far as the configuration looks into a URL. *)
Class UrlCrate : Type := {
  Url : Type;
  url_eq_dec :: EqDecision Url;
  url_parse : bytes → option Url;
  scheme : Url → bytes;
  host_str : Url → option bytes;
  username : Url → bytes;
  password : Url → option bytes;
  query : Url → option bytes;
  fragment : Url → option bytes;
}.

(** What the operating system says of a path: whether it is a regular file and
    its mode, and, once opened, what reading it gives. *)
Class FileSystem : Type := {
  metadata : bytes → result (bool * Z);
  open_file : bytes → result (result bytes);
}.

Definition bail_named {A} (name msg : string) : result A := Err (Bail (name +:+ msg)).
Definition with_context {A} (ctx : string) : result A → result A := map_err (Context ctx).

(** ** Durations *)

(** [f64] is IEEE 754 binary64. *)
Abbreviation f64 := spec_float.
Definition f64_mul : f64 → f64 → f64 := SFmul 53 1024.
Definition f64_add : f64 → f64 → f64 := SFadd 53 1024.
Definition f64_of_Z (z : Z) : f64 := binary_normalize 53 1024 z 0 false.

(** The correctly rounded quotient of two integers, as [str::parse] rounds a
    decimal fraction. *)
Definition f64_ratio (m d : Z) : f64 :=
  if m =? 0 then S754_zero false
  else if d =? 1 then f64_of_Z m
  else let '(q, e, l) := SFdiv_core_binary 53 1024 m 0 d 0 in binary_round_aux 53 1024 false q e l.

(** [str::parse::<f64>] of digits with at most one point. *)
Definition parse_f64 (l : bytes) : option f64 :=
  let '(whole, frac) := match split_once "." l with Some p => p | None => (l, []) end in
  if bool_decide (whole ++ frac = []) then None
  else Some (f64_ratio (digits_val (whole ++ frac)) (10 ^ Z.of_nat (length frac))).

(** [f64::round] then [as u64], which saturates; of a number that is not negative. *)
Definition f64_round_u64 (f : f64) : Z :=
  match f with
  | S754_finite false m e =>
      let r := if 0 <=? e then Zpos m * 2 ^ e else (Zpos m + 2 ^ (- e - 1)) / 2 ^ (- e) in
      Z.min r U64_MAX
  | S754_infinity false => U64_MAX
  | _ => 0
  end.

Definition f64_is_finite (f : f64) : bool :=
  match f with S754_zero _ | S754_finite _ _ _ => true | S754_infinity _ | S754_nan => false end.

Definition unit_multiplier (unit : bytes) : option f64 :=
  f64_of_Z <$>
  (if bytes_eqb unit (lit "ns") then Some 1
   else if bytes_eqb unit (lit "us") || bytes_eqb unit [xc2; xb5; x73] || bytes_eqb unit [xce; xbc; x73] then Some 1000
   else if bytes_eqb unit (lit "ms") then Some 1000000
   else if bytes_eqb unit (lit "s") then Some 1000000000
   else if bytes_eqb unit (lit "m") then Some 60000000000
   else if bytes_eqb unit (lit "h") then Some 3600000000000
   else None).

(** The digits and the first point at the front, and the rest. *)
Fixpoint span_number (dot_seen : bool) (l : bytes) : bytes * bytes :=
  match l with
  | b :: r =>
      if is_digit b || (negb dot_seen && byteb b ".")
      then let '(n, r) := span_number (dot_seen || byteb b ".") r in (b :: n, r)
      else ([], l)
  | [] => ([], [])
  end.

Definition invalid_duration : error := Bail "invalid duration".

(** The loop over the components; each takes at least one byte, so the length
    of the text is enough fuel. *)
Fixpoint duration_loop (fuel : nat) (total : f64) (l : bytes) : result f64 :=
  match l with
  | [] => Ok total
  | _ =>
      match fuel with
      | O => Err OutOfFuel
      | S fuel' =>
          let '(number, l) := span_number false l in
          if bool_decide (number = []) then Err invalid_duration
          else
            number ← ok_or (Context "invalid duration" (Bail "invalid float literal")) (parse_f64 number);
            let '(unit, l) := span_digits (λ b, negb (is_digit b) && negb (byteb b ".")) l in
            multiplier ← ok_or invalid_duration (unit_multiplier unit);
            duration_loop fuel' (f64_add total (f64_mul number multiplier)) l
      end
  end.

Definition parse_go_duration (value : bytes) : result Z :=
  if bool_decide (value = []) then Err invalid_duration
  else
    total ← duration_loop (length value) (S754_zero false) value;
    if negb (f64_is_finite total) || SFltb total (S754_zero false) || SFltb (f64_of_Z U64_MAX) total
    then Err invalid_duration
    else Ok (f64_round_u64 total).

Definition parse_bounded_duration (name : string) (value : bytes) (default minimum maximum : Z) : result Z :=
  if bool_decide (value = []) then Ok default
  else
    parsed ← with_context ("parse " +:+ name) (parse_go_duration value);
    if (parsed <? minimum) || (maximum <? parsed) then bail_named name " is outside the supported range"
    else Ok parsed.

(** ** Numbers *)

Definition out_of_bounds {A} (name : string) (minimum maximum : Z) : result A :=
  bail_named name (" must be between " +:+ pretty minimum +:+ " and " +:+ pretty maximum).

Definition bounded_value (name : string) (value minimum maximum : Z) : result Z :=
  if (value <? minimum) || (maximum <? value) then out_of_bounds name minimum maximum else Ok value.

Definition bounded_or_default (name : string) (value default minimum maximum : Z) : result Z :=
  let value := if value =? 0 then default else value in
  if (value <? minimum) || (maximum <? value) then out_of_bounds name minimum maximum else Ok value.

Definition nonzero_or (value default : Z) : Z := if value =? 0 then default else value.

Example go_durations :
  parse_go_duration (lit "1h30m5.5s") = Ok 5405500000000 ∧ parse_go_duration (lit "250ms") = Ok 250000000 ∧
  parse_go_duration (lit "0.1s") = Ok 100000000 ∧ parse_go_duration (lit "1d") = Err invalid_duration ∧
  parse_go_duration (lit "99999999h") = Err invalid_duration.
Proof. by vm_compute. Qed.

(** ** Addresses *)

Definition parse_listen (name : string) (value : option bytes) (default : bytes) : result SocketAddr :=
  let value := match value with Some v => v | None => default end in
  address ← ok_or (Bail (name +:+ " must be a numeric IP:port with a port between 1 and 65535"))
              (parse_socket_addr value);
  if sa_port address =? 0 then bail_named name " must be a numeric IP:port with a port between 1 and 65535"
  else if is_multicast (sa_ip address) then bail_named name " must not use a multicast IP"
  else Ok address.

Definition listens_conflict (first second : SocketAddr) : bool :=
  (sa_port first =? sa_port second)
  && (bool_decide (sa_ip first = sa_ip second) || is_unspecified (sa_ip first) || is_unspecified (sa_ip second)).

Definition parse_outbound_ip (value : option bytes) (socks5_ip : IpAddr) : result IpAddr :=
  match value with
  | None =>
      if is_unspecified socks5_ip then Err (Bail "outbound-ip is required when listen uses an unspecified IP")
      else Ok socks5_ip
  | Some value =>
      let invalid := Bail "outbound-ip must be a specific, non-multicast numeric IP" in
      outbound ← ok_or invalid (parse_ip value);
      if is_unspecified outbound || is_multicast outbound then Err invalid
      else if negb (eqb (is_ipv4 outbound) (is_ipv4 socks5_ip))
      then Err (Bail "outbound-ip and listen must use the same IP family")
      else Ok outbound
  end.

Definition parse_udp_port_range (value : bytes) : result UdpPortRange :=
  let form := Bail "udp-port-range must use START-END" in
  match split_once "-" value with
  | None => Err form
  | Some (first, last) =>
      if bool_decide (first = []) || bool_decide (last = []) || existsb (byteb "-") last then Err form
      else
        first ← ok_or (Bail "udp-port-range start must be between 1 and 65535") (parse_uint U16_MAX first);
        last ← ok_or (Bail "udp-port-range end must be between 1 and 65535") (parse_uint U16_MAX last);
        if (first =? 0) || (last =? 0) || (last <? first)
        then Err (Bail "udp-port-range must be an ordered non-zero START-END range")
        else
          let range := MkRange first last in
          if 4096 <? port_count range
          then Err (Bail "udp-port-range cannot contain more than 4096 ports") else Ok range
  end.

Definition parse_udp_advertise_address (value : bytes) (bind_ip : IpAddr) : result IpAddr :=
  let invalid := Bail "udp-advertise-address must be a specific, non-multicast numeric IP" in
  address ← ok_or invalid (parse_ip value);
  if is_unspecified address || is_multicast address then Err invalid
  else if negb (eqb (is_ipv4 address) (is_ipv4 bind_ip))
  then Err (Bail "udp-advertise-address and outbound-ip must use the same IP family")
  else Ok address.

(** ** The lines of the file *)

Definition allowed : list bytes := lit <$>
  ["token"; "api-base-url"; "api-fallback-urls"; "node-filter-lines"; "node-filter-regions"; "node-filter-include";
   "node-filter-exclude"; "listen"; "socks5-listen"; "nodelist-listen"; "allow-remote-raw-provider"; "outbound-ip";
   "udp-port-range"; "udp-advertise-address"; "node-refresh-interval"; "request-timeout"; "tcp-idle-timeout";
   "udp-idle-timeout"; "max-client-connections"; "dial-concurrency"; "per-node-dial-concurrency"; "reuse-max-idle";
   "reuse-max-uses"; "reuse-idle-timeout"; "perf-trace-sample-every"]%string.

Abbreviation values := (gmap bytes bytes).

Definition line_error {A} (line_number : nat) (what : string) : result A :=
  Err (Bail ("proxy config line " +:+ pretty line_number +:+ what)).

(** The quoted key of the messages is left out. *)
Fixpoint parse_lines (index : nat) (v : values) (ls : list bytes) : result values :=
  match ls with
  | [] => Ok v
  | original :: ls =>
      let line_number := S index in
      let line := trim original in
      if bool_decide (line = []) || starts_with (lit "#") line then parse_lines (S index) v ls
      else
        match split_once "=" line with
        | None => line_error line_number " must use key=value"
        | Some (key, value) =>
            let key := trim key in
            let value := trim value in
            if bool_decide (key = []) || bool_decide (value = []) then line_error line_number " must use key=value"
            else if negb (bool_decide (key ∈ allowed)) then line_error line_number " has unknown key"
            else if bool_decide (is_Some (v !! key)) then line_error line_number " duplicates key"
            else parse_lines (S index) (<[key := value]> v) ls
        end
  end.

Definition parse_proxy_config (content : bytes) : result values :=
  text ← ok_or (Context "read proxy config" (Bail "invalid utf-8 sequence")) (from_utf8 content);
  parse_lines 0 ∅ (Text.lines text).

Definition config_string (v : values) (name : string) : bytes := default [] (v !! lit name).

Definition config_usize (v : values) (name : string) (minimum maximum : Z) : result Z :=
  match v !! lit name with
  | None => Ok 0
  | Some value =>
      parsed ← ok_or (Context ("parse " +:+ name) (Bail "invalid digit found in string")) (parse_uint U64_MAX value);
      if (parsed <? minimum) || (maximum <? parsed) then out_of_bounds name minimum maximum else Ok parsed
  end.

Definition listen_value (v : values) : result (option bytes) :=
  match v !! lit "listen", v !! lit "socks5-listen" with
  | Some _, Some _ => Err (Bail "proxy config cannot set both listen and socks5-listen")
  | Some value, None | None, Some value => Ok (Some value)
  | None, None => Ok None
  end.

(** ** Files *)

Section Files.
Context `{FileSystem}.

Definition require_private_file (path : bytes) (allow_insecure : bool) : result unit :=
  '(is_file, mode) ← metadata path;
  if negb is_file then Err (Bail "path is not a regular file")
  else if negb allow_insecure && negb (Z.land mode 63 =? 0)
  then Err (Bail "file permissions; expected 0600 or stricter") else Ok tt.

Definition read_limited (path : bytes) (maximum : Z) (name : string) : result bytes :=
  file ← with_context ("open " +:+ name) (open_file path);
  content ← with_context ("read " +:+ name) (take (Z.to_nat (maximum + 1)) <$> file);
  if maximum <? Z.of_nat (length content) then Err (Bail (name +:+ " is too large")) else Ok content.

Definition read_to_string (path : bytes) : result bytes :=
  file ← open_file path; content ← file;
  ok_or (Bail "stream did not contain valid UTF-8") (from_utf8 content).

(** [PathBuf::is_absolute] and [join], on Unix *)
Definition resolve_path (base value : bytes) : bytes :=
  if starts_with (lit "/") value || bool_decide (base = []) then value
  else if bool_decide (last base = Some "/"%byte) then base ++ value
  else base ++ lit "/" ++ value.
End Files.

(** ** The settings of a run *)

Record FileConfig : Type := MkFile {
  f_access_token : bytes; f_access_token_file : bytes; f_app_secret : bytes; f_api_base_url : bytes;
  f_api_fallback_urls : list bytes; f_filter_lines : bytes; f_filter_regions : bytes; f_filter_include : bytes;
  f_filter_exclude : bytes; f_listen_address : bytes; f_serve_port : Z; f_map_base_port : Z;
  f_request_timeout : bytes; f_tcp_idle_timeout : bytes; f_udp_idle_timeout : bytes; f_allow_remote_access : bool;
  f_allow_remote_raw_provider : bool; f_socks_username : bytes; f_socks_password_file : bytes;
  f_max_client_connections : Z; f_dial_concurrency : Z; f_per_node_dial_concurrency : Z; f_reuse_max_idle : Z;
  f_reuse_max_uses : Z; f_reuse_idle_timeout : bytes; f_perf_trace_sample_every : Z;
  f_allow_insecure_file_permissions : bool;
}.

(** [FileConfig::default()] with a token or a token file. *)
Definition file_default (token token_file : bytes) : FileConfig :=
  MkFile token token_file [] [] [] [] [] [] [] [] 0 0 [] [] [] false false [] [] 0 0 0 0 0 [] 0 false.

Section Config.
Context `{UrlCrate} `{FileSystem}.
Context (to_lowercase : bytes → bytes).

Record RuntimeConfig : Type := MkRuntime {
  access_token : bytes; app_secret : bytes; api_base_url : Url; api_fallback_urls : list Url; node_filter : NodeFilter;
  listen_address : IpAddr; serve_port : Z; map_base_port : Z; request_timeout : Z; tcp_idle_timeout : Z;
  udp_idle_timeout : Z; allow_remote_access : bool; allow_remote_raw_provider : bool; socks_username : bytes;
  socks_password : bytes; max_client_connections : Z; dial_concurrency : Z; per_node_dial_concurrency : Z;
  reuse_max_idle : Z; reuse_max_uses : Z; reuse_idle_timeout : Z; perf_trace_sample_every : Z;
}.

Definition same_client_settings (a b : RuntimeConfig) : bool :=
  bytes_eqb (access_token a) (access_token b)
  && (request_timeout a =? request_timeout b)
  && (dial_concurrency a =? dial_concurrency b)
  && (per_node_dial_concurrency a =? per_node_dial_concurrency b)
  && (reuse_max_idle a =? reuse_max_idle b)
  && (reuse_max_uses a =? reuse_max_uses b)
  && (reuse_idle_timeout a =? reuse_idle_timeout b).

Definition validate_api_url (url : Url) : result unit :=
  if negb (bytes_eqb (scheme url) (lit "https")) || bool_decide (host_str url = None)
     || negb (bool_decide (username url = [])) || bool_decide (is_Some (password url))
     || bool_decide (is_Some (query url)) || bool_decide (is_Some (fragment url))
  then Err (Bail "API URL must be an absolute HTTPS URL without credentials, query, or fragment")
  else Ok tt.

Fixpoint fallback_loop (base : Url) (urls : list Url) (vs : list bytes) : result (list Url) :=
  match vs with
  | [] => Ok urls
  | value :: vs =>
      url ← ok_or (Context "parse API fallback URL" (Bail "invalid URL")) (url_parse value);
      validate_api_url url;;
      if bool_decide (url = base) || bool_decide (url ∈ urls) then Err (Bail "API URLs must be distinct")
      else fallback_loop base (urls ++ [url]) vs
  end.

Definition read_access_token (config_dir : bytes) (raw : FileConfig) : result bytes :=
  let inline_token := trim (f_access_token raw) in
  let token_path := trim (f_access_token_file raw) in
  if eqb (bool_decide (inline_token = [])) (bool_decide (token_path = []))
  then Err (Bail "configure exactly one of accessToken or accessTokenFile")
  else if negb (bool_decide (inline_token = [])) then Ok inline_token
  else
    let path := resolve_path config_dir token_path in
    with_context "validate token file permissions"
      (require_private_file path (f_allow_insecure_file_permissions raw));;
    token ← with_context "read access token file" (read_to_string path);
    if bool_decide (trim token = []) then Err (Bail "access token file is empty") else Ok (trim token).

Definition resolve_socks_credentials (config_dir : bytes) (raw : FileConfig) : result (bytes * bytes) :=
  let username := trim (f_socks_username raw) in
  let password_path := trim (f_socks_password_file raw) in
  if bool_decide (username = []) && bool_decide (password_path = []) then Ok ([], [])
  else if bool_decide (username = []) || bool_decide (password_path = [])
  then Err (Bail "configure both socksUsername and socksPasswordFile")
  else if (255 <? length username)%nat then Err (Bail "socksUsername is longer than 255 bytes")
  else
    let path := resolve_path config_dir password_path in
    with_context "validate SOCKS5 password file"
      (require_private_file path (f_allow_insecure_file_permissions raw));;
    password ← with_context "read SOCKS5 password file" (read_to_string path);
    let password := trim password in
    if bool_decide (password = []) || (255 <? length password)%nat
    then Err (Bail "SOCKS5 password must contain 1 to 255 bytes") else Ok (username, password).

Definition api_urls (raw : FileConfig) : result (Url * list Url) :=
  base ← ok_or (Context "parse apiBaseURL" (Bail "invalid URL"))
    (url_parse (if bool_decide (f_api_base_url raw = []) then DEFAULT_API_BASE_URL else f_api_base_url raw));
  validate_api_url base;;
  if (3 <? length (f_api_fallback_urls raw))%nat then Err (Bail "configure at most three API fallback URLs")
  else fallbacks ← fallback_loop base [] (f_api_fallback_urls raw); Ok (base, fallbacks).

Definition check_listen_address (raw : FileConfig) : result IpAddr :=
  let invalid := Bail "listenAddress must be a specific numeric IP" in
  address ← ok_or invalid
    (parse_ip (if bool_decide (f_listen_address raw = []) then lit "127.0.0.1" else f_listen_address raw));
  if is_unspecified address then Err invalid else Ok address.

Definition check_remote (address : IpAddr) (raw : FileConfig) (credentials : bytes * bytes) : result unit :=
  if is_loopback address then Ok tt
  else if negb (f_allow_remote_access raw) then Err (Bail "non-loopback listenAddress requires allowRemoteAccess")
  else if bool_decide (credentials.1 = []) || bool_decide (credentials.2 = [])
  then Err (Bail "non-loopback listenAddress requires SOCKS5 authentication") else Ok tt.

Definition runtime_from_raw (config_dir : bytes) (raw : FileConfig) : result RuntimeConfig :=
  token ← read_access_token config_dir raw;
  let secret := if bool_decide (trim (f_app_secret raw) = []) then DEFAULT_APP_SECRET else trim (f_app_secret raw) in
  '(base, fallbacks) ← api_urls raw;
  request ← parse_bounded_duration "requestTimeout" (f_request_timeout raw) (from_secs 15) 1 (from_secs 120);
  tcp_idle ← parse_bounded_duration "tcpIdleTimeout" (f_tcp_idle_timeout raw)
    (from_secs 3600) (from_secs 60) (from_secs (24 * 3600));
  udp_idle ← parse_bounded_duration "udpIdleTimeout" (f_udp_idle_timeout raw)
    (from_secs 300) (from_secs 1) (from_secs (24 * 3600));
  reuse_idle ← parse_bounded_duration "reuseIdleTimeout" (f_reuse_idle_timeout raw)
    (from_secs 90) (from_secs 1) (from_secs 600);
  address ← check_listen_address raw;
  credentials ← resolve_socks_credentials config_dir raw;
  check_remote address raw credentials;;
  nodes ← filter_new to_lowercase (f_filter_lines raw) (f_filter_regions raw) (f_filter_include raw)
    (f_filter_exclude raw);
  clients ← bounded_or_default "maxClientConnections" (f_max_client_connections raw) 256 1 4096;
  dials ← bounded_or_default "dialConcurrency" (f_dial_concurrency raw) 32 1 1024;
  node_dials ← bounded_or_default "perNodeDialConcurrency" (f_per_node_dial_concurrency raw) 8 1 128;
  max_idle ← bounded_or_default "reuseMaxIdle" (f_reuse_max_idle raw) 8 1 128;
  max_uses ← bounded_or_default "reuseMaxUses" (f_reuse_max_uses raw) 32 1 1024;
  sample ← bounded_value "perfTraceSampleEvery" (f_perf_trace_sample_every raw) 0 1000000;
  Ok (MkRuntime token secret base fallbacks nodes address (nonzero_or (f_serve_port raw) 6172)
        (nonzero_or (f_map_base_port raw) 7200) request tcp_idle udp_idle (f_allow_remote_access raw)
        (f_allow_remote_raw_provider raw) credentials.1 credentials.2 clients dials node_dials max_idle max_uses
        reuse_idle sample).

(** ** The proxy configuration *)

Record ProxyConfig : Type := MkProxyConfig {
  runtime : RuntimeConfig; listen : SocketAddr; nodelist_listen : SocketAddr; outbound_ip : IpAddr;
  udp_port_range : option UdpPortRange; udp_advertise_address : option IpAddr; node_refresh_interval : Z;
}.

(** [Option::map(..).transpose()] *)
Definition transpose {A B} (f : A → result B) (o : option A) : result (option B) :=
  match o with Some a => Some <$> f a | None => Ok None end.

Definition refresh_interval (value : option bytes) : result Z :=
  match value with
  | None => Ok (from_secs 3600)
  | Some value =>
      duration ← with_context "parse node-refresh-interval" (parse_go_duration value);
      if (duration <? from_secs 60) || (from_secs (24 * 3600) <? duration)
      then Err (Bail "node-refresh-interval must be between 1m0s and 24h0m0s") else Ok duration
  end.

Definition remote_raw_provider (value : option bytes) : result bool :=
  match value with
  | None => Ok false
  | Some value =>
      if bytes_eqb value (lit "true") then Ok true
      else if bytes_eqb value (lit "false") then Ok false
      else Err (Bail "allow-remote-raw-provider must be true or false")
  end.

(** The [FileConfig] that stands for the settings of a [key=value] file. *)
Definition file_of_values (v : values) (token : bytes) (listen : SocketAddr) : result FileConfig :=
  raw_provider ← remote_raw_provider (v !! lit "allow-remote-raw-provider");
  clients ← config_usize v "max-client-connections" 1 4096;
  dials ← config_usize v "dial-concurrency" 1 1024;
  node_dials ← config_usize v "per-node-dial-concurrency" 1 128;
  max_idle ← config_usize v "reuse-max-idle" 1 128;
  max_uses ← config_usize v "reuse-max-uses" 1 1024;
  sample ← config_usize v "perf-trace-sample-every" 0 1000000;
  Ok (MkFile token [] [] (config_string v "api-base-url")
        (match v !! lit "api-fallback-urls" with Some urls => trim <$> split_on "," urls | None => [] end)
        (config_string v "node-filter-lines") (config_string v "node-filter-regions")
        (config_string v "node-filter-include") (config_string v "node-filter-exclude")
        (lit "127.0.0.1") (sa_port listen) 0 (config_string v "request-timeout") (config_string v "tcp-idle-timeout")
        (config_string v "udp-idle-timeout") false raw_provider [] [] clients dials node_dials max_idle max_uses
        (config_string v "reuse-idle-timeout") sample false).

(** The three fields the proxy configuration sets again. *)
Definition listen_on (listen : SocketAddr) (r : RuntimeConfig) : RuntimeConfig :=
  MkRuntime (access_token r) (app_secret r) (api_base_url r) (api_fallback_urls r) (node_filter r)
    (sa_ip listen) (sa_port listen) (map_base_port r) (request_timeout r) (tcp_idle_timeout r) (udp_idle_timeout r)
    (negb (is_loopback (sa_ip listen))) (allow_remote_raw_provider r) (socks_username r) (socks_password r)
    (max_client_connections r) (dial_concurrency r) (per_node_dial_concurrency r) (reuse_max_idle r)
    (reuse_max_uses r) (reuse_idle_timeout r) (perf_trace_sample_every r).

Definition proxy_config_from_bytes (content : bytes) : result ProxyConfig :=
  v ← parse_proxy_config content;
  token ← ok_or (Bail "proxy config requires token")
    (t ← v !! lit "token"; if bool_decide (t = []) then None else Some t);
  value ← listen_value v;
  listen ← parse_listen "listen" value DEFAULT_LISTEN;
  nodelist ← parse_listen "nodelist-listen" (v !! lit "nodelist-listen") DEFAULT_NODELIST_LISTEN;
  if listens_conflict listen nodelist then Err (Bail "listen and nodelist-listen conflict")
  else
    outbound ← parse_outbound_ip (v !! lit "outbound-ip") (sa_ip listen);
    range ← transpose parse_udp_port_range (v !! lit "udp-port-range");
    advertise ← transpose (λ a, parse_udp_advertise_address a outbound) (v !! lit "udp-advertise-address");
    if negb (eqb (bool_decide (is_Some range)) (bool_decide (is_Some advertise)))
    then Err (Bail "udp-port-range and udp-advertise-address must be configured together")
    else
      interval ← refresh_interval (v !! lit "node-refresh-interval");
      raw ← file_of_values v token listen;
      runtime ← runtime_from_raw [] raw;
      Ok (MkProxyConfig (listen_on listen runtime) listen nodelist outbound range advertise interval).

Definition read_proxy_config (path : bytes) : result bytes :=
  with_context "validate proxy config permissions" (require_private_file path false);;
  read_limited path MAX_PROXY_CONFIG_BYTES "proxy config".

Definition load_proxy_config (path : bytes) : result ProxyConfig :=
  content ← read_proxy_config path; proxy_config_from_bytes content.

Definition load_token_file (path : bytes) : result RuntimeConfig :=
  runtime_from_raw [] (file_default [] (from_utf8_lossy path)).

Section Json.
(** [serde_json]: a [FileConfig] and whether nothing follows it; and
    [Path::parent]. *)
Context (decode : bytes → result (FileConfig * bool)) (parent : bytes → option bytes).

Definition load_json_config (path : bytes) : result RuntimeConfig :=
  with_context "validate config file" (require_private_file path true);;
  content ← read_limited path (2 ^ 20) "config";
  '(raw, ended) ← with_context "decode config" (decode content);
  if negb ended then Err (Context "decode trailing config data" (Bail "trailing characters"))
  else
    (if f_allow_insecure_file_permissions raw then Ok tt
     else with_context "validate config permissions" (require_private_file path false));;
    runtime_from_raw (default [] (parent path)) raw.
End Json.
End Config.

(** ** The lines of the file, as a specification *)

Definition ignored (line : bytes) : bool := bool_decide (trim line = []) || starts_with (lit "#") (trim line).

(** The setting of a line. *)
Definition setting (line : bytes) : option (bytes * bytes) :=
  '(key, value) ← split_once "=" (trim line);
  if bool_decide (trim key = []) || bool_decide (trim value = []) || negb (bool_decide (trim key ∈ allowed)) then None
  else Some (trim key, trim value).

Definition setting_lines (ls : list bytes) : list bytes := filter (λ l, ignored l = false) ls.

Lemma parse_lines_exact index v ls r :
  parse_lines index v ls = Ok r ↔
  ∃ settings, mapM setting (setting_lines ls) = Some settings ∧ NoDup settings.*1 ∧
              (∀ k, k ∈ settings.*1 → v !! k = None) ∧ r = list_to_map settings ∪ v.
Proof.
  revert index v. induction ls as [|l ls IH]; intros index v; cbn [parse_lines].
  { unfold setting_lines. simpl. split.
    - intros [= <-]. exists []. split_and!; [done|constructor|by intros k ?%not_elem_of_nil|].
      by rewrite list_to_map_nil, (left_id_L ∅ (∪)).
    - intros (settings & [= <-] & _ & _ & ->). by rewrite list_to_map_nil, (left_id_L ∅ (∪)). }
  unfold setting_lines. rewrite filter_cons. fold (setting_lines ls).
  change (bool_decide (trim l = []) || starts_with (lit "#") (trim l)) with (ignored l).
  destruct (ignored l) eqn:Hi; [by rewrite decide_False, IH|]. rewrite decide_True by done.
  cbn [mapM]. cbn zeta. set (others := mapM setting (setting_lines ls)) in *. clearbody others.
  unfold setting.
  destruct (split_once "=" (trim l)) as [[key value]|]; [|by split; [|intros (? & ? & _)]]. cbn [mbind option_bind].
  destruct (bool_decide (trim key = []) || bool_decide (trim value = [])).
  { split; [done|intros (? & Hm & _); discriminate Hm]. }
  cbn [orb]. destruct (negb (bool_decide (trim key ∈ allowed))).
  { split; [done|intros (? & Hm & _); discriminate Hm]. }
  set (k := trim key). set (x := trim value). clearbody k x. clear key value.
  case_bool_decide as Hk.
  { split; [done|]. intros (settings & Hm & _ & Hnew & _). destruct others as [rest|]; [|done].
    injection Hm as <-. destruct Hk as [y Hy]. rewrite (Hnew k) in Hy; [done|left]. }
  apply eq_None_not_Some in Hk. rewrite IH. cbn [mbind option_bind]. split.
  - intros (rest & -> & Hnd & Hnew & ->). exists ((k, x) :: rest). simpl. split_and!; [done| | |].
    + constructor; [|done]. intros Hin. specialize (Hnew k Hin). by rewrite lookup_insert_eq in Hnew.
    + intros k' [->|Hin]%elem_of_cons; [done|]. specialize (Hnew k' Hin). by apply lookup_insert_None in Hnew as [? _].
    + rewrite <-insert_union_l, insert_union_r; [done|]. apply not_elem_of_list_to_map_1.
      intros Hin. specialize (Hnew k Hin). by rewrite lookup_insert_eq in Hnew.
  - intros (settings & Hm & Hnd & Hnew & ->). destruct others as [rest|]; [|done]. injection Hm as <-.
    simpl in *. apply NoDup_cons in Hnd as [Hnk Hnd]. exists rest. split_and!; [done|done| |].
    + intros k' Hin. rewrite lookup_insert_ne; [apply Hnew; by right|]. by intros ->.
    + rewrite <-insert_union_l, insert_union_r; [done|]. by apply not_elem_of_list_to_map_1.
Qed.

(** A configuration file is accepted as a set of settings exactly when it is
    UTF-8, every line that is not blank or a comment is a known key, an equals
    sign and a value, both not empty once trimmed, and no key is set twice; and
    then the settings are those of its lines. *)
Theorem parse_proxy_config_exact content v :
  parse_proxy_config content = Ok v ↔
  from_utf8 content = Some content ∧
  ∃ settings, mapM setting (setting_lines (Text.lines content)) = Some settings ∧ NoDup settings.*1 ∧
              v = list_to_map settings.
Proof.
  unfold parse_proxy_config.
  assert (Hutf : from_utf8 content = Some content ∨ from_utf8 content = None).
  { unfold from_utf8. case_match; auto. }
  destruct Hutf as [->| ->]; simpl; [|split; [done|by intros [? _]]].
  rewrite parse_lines_exact. split.
  - intros (settings & Hm & Hnd & _ & ->). split; [done|]. exists settings.
    by rewrite (right_id_L ∅ (∪)).
  - intros (_ & settings & Hm & Hnd & ->). exists settings. rewrite (right_id_L ∅ (∪)).
    split_and!; [done|done|by intros|done].
Qed.

(** ** What an accepted configuration guarantees *)

Lemma parse_go_duration_u64 value d : parse_go_duration value = Ok d → u64 d.
Proof.
  unfold parse_go_duration. case_bool_decide; [done|]. intros (total & _ & Ht)%result_bind_inv.
  destruct (_ || _); [done|]. injection Ht as <-. unfold f64_round_u64, u64, U64_MAX.
  destruct total as [|[]| |[] m e]; try lia. split; [|lia]. apply Z.min_glb; [|lia]. destruct (0 <=? e) eqn:He.
  - apply Z.leb_le in He. pose proof (Z.pow_nonneg 2 e). lia.
  - apply Z.leb_gt in He. apply Z.div_pos; [|apply Z.pow_pos_nonneg; lia].
    pose proof (Z.pow_nonneg 2 (- e - 1)). lia.
Qed.

Lemma parse_bounded_duration_range name value d lo hi r :
  parse_bounded_duration name value d lo hi = Ok r → lo <= d <= hi → lo <= r <= hi.
Proof.
  unfold parse_bounded_duration. case_bool_decide; [by intros [= <-]|].
  intros (x & _ & Hx)%result_bind_inv. destruct (_ || _) eqn:E; [done|]. injection Hx as <-. reflect_bools. lia.
Qed.

Lemma bounded_or_default_range name value d lo hi r :
  bounded_or_default name value d lo hi = Ok r → lo <= r <= hi.
Proof.
  unfold bounded_or_default. destruct (_ || _) eqn:E; [done|]. intros [= <-]. reflect_bools. lia.
Qed.

Lemma bounded_value_range name value lo hi r : bounded_value name value lo hi = Ok r → lo <= r <= hi.
Proof.
  unfold bounded_value. destruct (_ || _) eqn:E; [done|]. intros [= <-]. reflect_bools. lia.
Qed.

Lemma refresh_interval_range value d : refresh_interval value = Ok d → from_secs 60 <= d <= from_secs 86400.
Proof.
  unfold refresh_interval. destruct value as [value|]; [|by intros [= <-]].
  intros (x & _ & Hx)%result_bind_inv. destruct (_ || _) eqn:E; [done|]. injection Hx as <-. reflect_bools.
  change (24 * 3600) with 86400 in *. lia.
Qed.

Lemma parse_udp_port_range_wf value r :
  parse_udp_port_range value = Ok r → range_wf r ∧ port_count r <= 4096.
Proof.
  unfold parse_udp_port_range. destruct (split_once _ _) as [[a b]|]; [|done]. destruct (_ || _); [done|].
  intros (x & Hx%ok_or_inv & H)%result_bind_inv. apply result_bind_inv in H as (y & Hy%ok_or_inv & H).
  destruct (_ || _) eqn:E; [done|]. destruct (4096 <? _) eqn:Ec; [done|]. injection H as <-. reflect_bools.
  assert (∀ s z, parse_uint U16_MAX s = Some z → 0 <= z <= U16_MAX) as Hu by apply parse_uint_range.
  apply Hu in Hx, Hy. unfold range_wf, U16_MAX in *; simpl. lia.
Qed.

Section Guarantees.
Context `{UrlCrate} `{FileSystem} (to_lowercase : bytes → bytes).

(** A URL that may be asked: HTTPS with a host, and nothing but a path besides. *)
Definition plain_https (u : Url) : Prop :=
  scheme u = lit "https" ∧ is_Some (host_str u) ∧ username u = [] ∧ password u = None ∧ query u = None ∧
  fragment u = None.

Lemma validate_api_url_iff u : validate_api_url u = Ok tt ↔ plain_https u.
Proof.
  unfold validate_api_url, plain_https, bytes_eqb.
  destruct (_ || _) eqn:E.
  - split; [done|]. intros (Hs & Hh & Hu & Hp & Hq & Hf). rewrite Hs, Hu, Hp, Hq, Hf in E.
    rewrite (bool_decide_eq_false_2 (host_str u = None)) in E by (by destruct Hh as [? ->]). discriminate E.
  - split; [intros _|done]. rewrite !orb_false_iff, !negb_false_iff, !bool_decide_eq_true, !bool_decide_eq_false in E.
    destruct E as [[[[[Hs Hh] Hu] Hp] Hq] Hf]. rewrite <-eq_None_not_Some in Hp, Hq, Hf.
    split_and!; try done. by destruct (host_str u).
Qed.

(** A regular file that nobody but its owner may open. *)
Definition private_file (path : bytes) : Prop := ∃ mode, metadata path = Ok (true, mode) ∧ Z.land mode 63 = 0.

Lemma require_private_file_ok path : require_private_file path false = Ok tt ↔ private_file path.
Proof.
  unfold require_private_file, private_file. destruct (metadata path) as [[[] mode]|e]; simpl.
  - destruct (Z.eqb_spec (Z.land mode 63) 0); simpl; split; try done; [by exists mode|].
    intros (? & [= <-] & ?). done.
  - split; [done|]. by intros (? & ? & _).
  - split; [done|]. by intros (? & ? & _).
Qed.

Lemma fallback_loop_ok base urls vs r :
  fallback_loop base urls vs = Ok r →
  base ∉ urls → NoDup urls → Forall plain_https urls →
  base ∉ r ∧ NoDup r ∧ Forall plain_https r ∧ length r = (length urls + length vs)%nat.
Proof.
  revert urls; induction vs as [|v vs IH]; intros urls; cbn [fallback_loop].
  { intros [= <-] ???. split_and!; [done..|]. simpl. lia. }
  intros (url & _ & Hr)%result_bind_inv. apply result_bind_inv in Hr as ([] & Hv%validate_api_url_iff & Hr).
  destruct (_ || _) eqn:E; [done|]. reflect_bools. intros Hb Hnd Hall.
  destruct (IH (urls ++ [url]) Hr) as (? & ? & ? & Hl).
  - rewrite elem_of_app, list_elem_of_singleton. naive_solver.
  - apply NoDup_app. split_and!; [done| |apply NoDup_singleton].
    intros x Hx ->%list_elem_of_singleton. done.
  - apply Forall_app. split; [done|]. by constructor.
  - split_and!; [done..|]. rewrite Hl, length_app. simpl. lia.
Qed.

(** Everything a [RuntimeConfig] promises its users. *)
Record runtime_ok (r : RuntimeConfig) : Prop := {
  ok_token : access_token r ≠ [];
  ok_secret : app_secret r ≠ [];
  ok_base : plain_https (api_base_url r);
  ok_fallbacks : NoDup (api_base_url r :: api_fallback_urls r) ∧
    Forall plain_https (api_fallback_urls r) ∧ (length (api_fallback_urls r) <= 3)%nat;
  ok_ports : 1 <= serve_port r <= U16_MAX ∧ 1 <= map_base_port r <= U16_MAX;
  ok_request : 1 <= request_timeout r <= from_secs 120;
  ok_tcp : from_secs 60 <= tcp_idle_timeout r <= from_secs 86400;
  ok_udp : from_secs 1 <= udp_idle_timeout r <= from_secs 86400;
  ok_reuse_idle : from_secs 1 <= reuse_idle_timeout r <= from_secs 600;
  ok_clients : 1 <= max_client_connections r <= 4096;
  ok_dials : 1 <= dial_concurrency r <= 1024;
  ok_node_dials : 1 <= per_node_dial_concurrency r <= 128;
  ok_max_idle : 1 <= reuse_max_idle r <= 128;
  ok_max_uses : 1 <= reuse_max_uses r <= 1024;
  ok_sample : 0 <= perf_trace_sample_every r <= 1000000;
  ok_credentials : (socks_username r = [] ↔ socks_password r = []) ∧
    (length (socks_username r) <= 255)%nat ∧ (length (socks_password r) <= 255)%nat;
  ok_address : is_unspecified (listen_address r) = false;
  ok_remote : is_loopback (listen_address r) = false →
    allow_remote_access r = true ∧ socks_username r ≠ [] ∧ socks_password r ≠ [];
}.

Lemma read_access_token_ok dir raw t : read_access_token dir raw = Ok t → t ≠ [].
Proof.
  unfold read_access_token. destruct (eqb _ _) eqn:E; [done|].
  case_bool_decide as Hi; cbn [negb]; [|by intros [= <-]].
  intros ([] & _ & Hr)%result_bind_inv. apply result_bind_inv in Hr as (token & _ & Hr).
  case_bool_decide; [done|]. by injection Hr as <-.
Qed.

Lemma resolve_socks_credentials_ok dir raw c :
  resolve_socks_credentials dir raw = Ok c →
  (c.1 = [] ↔ c.2 = []) ∧ (length c.1 <= 255)%nat ∧ (length c.2 <= 255)%nat.
Proof.
  unfold resolve_socks_credentials. destruct (_ && _); [intros [= <-]; simpl; split_and!; [done|lia..]|].
  destruct (_ || _) eqn:E; [done|]. destruct (255 <? _)%nat eqn:El; [done|].
  intros ([] & _ & Hr)%result_bind_inv. apply result_bind_inv in Hr as (p & _ & Hr).
  destruct (_ || (255 <? length (trim p))%nat) eqn:Ep; [done|]. injection Hr as <-. reflect_bools.
  cbn [fst snd]. split_and!; [done|lia|lia].
Qed.

Lemma api_urls_ok raw base fallbacks :
  api_urls raw = Ok (base, fallbacks) →
  plain_https base ∧ NoDup (base :: fallbacks) ∧ Forall plain_https fallbacks ∧
  (length fallbacks <= 3)%nat.
Proof.
  unfold api_urls. intros (b & _ & Hr)%result_bind_inv. apply result_bind_inv in Hr as ([] & Hb%validate_api_url_iff & Hr).
  destruct (3 <? _)%nat eqn:E; [done|]. apply result_bind_inv in Hr as (fs & Hf & [= -> ->]). reflect_bools.
  apply fallback_loop_ok in Hf as (Hn & Hnd & Hall & Hl);
    [|apply not_elem_of_nil|constructor|constructor].
  split_and!; [done|by constructor|done|simpl in Hl; lia].
Qed.

Lemma check_listen_address_ok raw a : check_listen_address raw = Ok a → is_unspecified a = false.
Proof.
  unfold check_listen_address. intros (x & _ & Hx)%result_bind_inv.
  destruct (is_unspecified x) eqn:E; [done|]. by injection Hx as <-.
Qed.

Lemma check_remote_ok a raw c :
  check_remote a raw c = Ok tt → is_loopback a = false → (c.1 ≠ [] ∧ c.2 ≠ []) ∧ f_allow_remote_access raw = true.
Proof.
  unfold check_remote. intros Hc Ha. rewrite Ha in Hc. destruct (f_allow_remote_access raw); [|done].
  simpl in Hc. destruct (_ || _) eqn:E; [done|]. by reflect_bools.
Qed.

Lemma runtime_from_raw_ok dir raw r :
  u16 (f_serve_port raw) → u16 (f_map_base_port raw) → runtime_from_raw to_lowercase dir raw = Ok r → runtime_ok r.
Proof.
  intros Hserve Hmap. unfold runtime_from_raw.
  intros (token & Htoken%read_access_token_ok & H1)%result_bind_inv.
  apply result_bind_inv in H1 as ([base fallbacks] & Hurls & H1).
  apply result_bind_inv in H1 as (request & Hrequest%parse_bounded_duration_range & H1); [|by vm_compute].
  apply result_bind_inv in H1 as (tcp & Htcp%parse_bounded_duration_range & H1); [|by vm_compute].
  apply result_bind_inv in H1 as (udp & Hudp%parse_bounded_duration_range & H1); [|by vm_compute].
  apply result_bind_inv in H1 as (reuse & Hreuse%parse_bounded_duration_range & H1); [|by vm_compute].
  apply result_bind_inv in H1 as (address & Haddress & H1).
  apply result_bind_inv in H1 as (credentials & Hcred%resolve_socks_credentials_ok & H1).
  apply result_bind_inv in H1 as ([] & Hremote & H1). apply result_bind_inv in H1 as (nodes & _ & H1).
  apply result_bind_inv in H1 as (clients & Hclients%bounded_or_default_range & H1).
  apply result_bind_inv in H1 as (dials & Hdials%bounded_or_default_range & H1).
  apply result_bind_inv in H1 as (node_dials & Hnode%bounded_or_default_range & H1).
  apply result_bind_inv in H1 as (max_idle & Hidle%bounded_or_default_range & H1).
  apply result_bind_inv in H1 as (max_uses & Huses%bounded_or_default_range & H1).
  apply result_bind_inv in H1 as (sample & Hsample%bounded_value_range & [= <-]).
  apply api_urls_ok in Hurls as (Hbase & Hnd & Hall & Hlen). apply check_listen_address_ok in Haddress.
  pose proof (check_remote_ok _ _ _ Hremote) as Hr.
  change (24 * 3600) with 86400 in *.
  assert (Hport : ∀ p d, u16 p → 1 <= d <= U16_MAX → 1 <= nonzero_or p d <= U16_MAX).
  { intros p d Hp Hd. unfold nonzero_or, u16 in *. destruct (p =? 0) eqn:E; reflect_bools; lia. }
  constructor; cbn [access_token app_secret api_base_url api_fallback_urls serve_port map_base_port request_timeout
    tcp_idle_timeout udp_idle_timeout reuse_idle_timeout max_client_connections dial_concurrency
    per_node_dial_concurrency reuse_max_idle reuse_max_uses perf_trace_sample_every socks_username socks_password
    listen_address allow_remote_access]; try assumption.
  - by case_bool_decide.
  - done.
  - split; apply Hport; done.
  - intros Ha. destruct (Hr Ha) as [[??] ?]. done.
Qed.

(** What is read of a file that is not too large is the whole file. *)
Lemma read_limited_whole path maximum name content :
  0 <= maximum → read_limited path maximum name = Ok content →
  open_file path = Ok (Ok content) ∧ Z.of_nat (length content) <= maximum.
Proof.
  intros Hmax. unfold read_limited. intros (file & Hf & H1)%result_bind_inv.
  apply result_bind_inv in H1 as (c & Hc & H1). destruct (maximum <? _) eqn:E; [done|]. injection H1 as <-.
  apply Z.ltb_ge in E. split; [|done]. unfold with_context in *. destruct (open_file path) as [o|]; [|done].
  injection Hf as <-. destruct o as [whole|]; [|done]. simpl in Hc. injection Hc as <-. rewrite length_take in E.
  rewrite take_ge; [done|lia].
Qed.

Lemma load_json_config_ok decode parent path r :
  load_json_config to_lowercase decode parent path = Ok r →
  ∃ content raw, open_file path = Ok (Ok content) ∧ Z.of_nat (length content) <= 2 ^ 20 ∧
    decode content = Ok (raw, true) ∧
    (f_allow_insecure_file_permissions raw = true ∨ private_file path) ∧
    runtime_from_raw to_lowercase (default [] (parent path)) raw = Ok r.
Proof.
  unfold load_json_config. intros ([] & _ & H1)%result_bind_inv.
  apply result_bind_inv in H1 as (content & Hc & H1). apply result_bind_inv in H1 as ([raw ended] & Hd & H1).
  destruct ended; [|done]. simpl in H1. apply result_bind_inv in H1 as ([] & Hp & H1).
  apply read_limited_whole in Hc as [Hc Hl]; [|done].
  exists content, raw. split_and!; [done|done|by destruct (decode content); simplify_eq/=| |done].
  destruct (f_allow_insecure_file_permissions raw); [by left|right]. apply require_private_file_ok.
  destruct (require_private_file path false) as [[]|]; [done|done].
Qed.

Lemma load_token_file_ok path r :
  load_token_file to_lowercase path = Ok r →
  private_file (trim (from_utf8_lossy path)) ∧
  runtime_from_raw to_lowercase [] (file_default [] (from_utf8_lossy path)) = Ok r.
Proof.
  unfold load_token_file. intros Hr. split; [|done]. unfold runtime_from_raw in Hr.
  apply result_bind_inv in Hr as (token & Ht & _). unfold read_access_token, file_default in Ht.
  cbn [f_access_token f_access_token_file f_allow_insecure_file_permissions] in Ht.
  rewrite (bool_decide_eq_true_2 (trim [] = [])) in Ht by done. cbn [negb] in Ht.
  destruct (eqb true _); [done|]. apply result_bind_inv in Ht as ([] & Hp & _).
  unfold resolve_path in Hp. rewrite orb_true_r in Hp.
  apply require_private_file_ok. by destruct (require_private_file _ false) as [[]|].
Qed.

(** C31: Whatever a JSON file or the path of a token file holds, the settings it
    is accepted with are within their bounds: each duration and each limit is in
    its range, defaults included; the ports are not zero; there is a token and a
    secret; the API URLs are distinct, at most four, and HTTPS with a host and
    without credentials, query or fragment; SOCKS5 credentials come in pairs of at
    most 255 bytes; an address other than loopback is only listened on with remote
    access allowed and credentials set. A JSON file is at most a mebibyte, read as a
    whole, with nothing after the settings. And the file was a regular file that
    only its owner may open, unless the settings of this very JSON file say it
    need not be. *)
Theorem loaded_settings_bounded decode parent path r :
  (∀ content raw ended, decode content = Ok (raw, ended) → u16 (f_serve_port raw) ∧ u16 (f_map_base_port raw)) →
  (load_json_config to_lowercase decode parent path = Ok r →
     runtime_ok r ∧ ∃ content raw, open_file path = Ok (Ok content) ∧ Z.of_nat (length content) <= 2 ^ 20 ∧
       decode content = Ok (raw, true) ∧
       (f_allow_insecure_file_permissions raw = true ∨ private_file path)) ∧
  (load_token_file to_lowercase path = Ok r →
     runtime_ok r ∧ private_file (trim (from_utf8_lossy path))).
Proof.
  intros Hwidth. split.
  - intros (content & raw & Hread & Hlen & Hd & Hp & Hr)%load_json_config_ok. destruct (Hwidth _ _ _ Hd).
    split; [by eapply runtime_from_raw_ok|]. by exists content, raw.
  - intros [Hp Hr]%load_token_file_ok. split; [|done]. eapply runtime_from_raw_ok; [..|exact Hr]; by vm_compute.
Qed.

Lemma parse_listen_ok name value d a :
  parse_listen name value d = Ok a → sa_port a ≠ 0 ∧ is_multicast (sa_ip a) = false.
Proof.
  unfold parse_listen. intros (x & _ & Hx)%result_bind_inv. destruct (sa_port x =? 0) eqn:Ep; [done|].
  destruct (is_multicast _) eqn:Em; [done|]. injection Hx as <-. by reflect_bools.
Qed.

(** A specific address of the family of another. *)
Definition specific (a like : IpAddr) : Prop :=
  is_unspecified a = false ∧ is_multicast a = false ∧ is_ipv4 a = is_ipv4 like.

Lemma parse_outbound_ip_ok value ip a :
  parse_outbound_ip value ip = Ok a → is_multicast ip = false → specific a ip.
Proof.
  unfold parse_outbound_ip. destruct value as [value|].
  - intros (x & _ & Hx)%result_bind_inv _. destruct (_ || _) eqn:E; [done|].
    destruct (negb _) eqn:Ef; [done|]. injection Hx as <-. reflect_bools. by apply eqb_prop in Ef.
  - destruct (is_unspecified ip) eqn:E; [done|]. by intros [= <-].
Qed.

Lemma parse_udp_advertise_address_ok value ip a : parse_udp_advertise_address value ip = Ok a → specific a ip.
Proof.
  unfold parse_udp_advertise_address. intros (x & _ & Hx)%result_bind_inv. destruct (_ || _) eqn:E; [done|].
  destruct (negb _) eqn:Ef; [done|]. injection Hx as <-. reflect_bools. by apply eqb_prop in Ef.
Qed.

Lemma transpose_ok {A B} (f : A → result B) o r :
  transpose f o = Ok r → match r with Some b => ∃ a, o = Some a ∧ f a = Ok b | None => o = None end.
Proof.
  unfold transpose. destruct o as [a|]; [|by intros [= <-]]. destruct (f a) as [b|] eqn:E; [|done].
  intros [= <-]. eauto.
Qed.

(** The UDP settings suit the relay that is made of them. *)
Definition udp_settings_ok (outbound : IpAddr) (range : option UdpPortRange) (advertise : option IpAddr) : Prop :=
  match range, advertise with
  | Some r, Some a => range_wf r ∧ port_count r <= 4096 ∧ udp_fixed outbound a r = Ok (MkRelay outbound a (Some r) 0)
  | None, None => True
  | _, _ => False
  end.

Lemma file_of_values_ports v token listen raw :
  file_of_values v token listen = Ok raw → f_serve_port raw = sa_port listen ∧ f_map_base_port raw = 0.
Proof.
  unfold file_of_values. intros Hr.
  repeat match type of Hr with (_ ≫= _) = Ok _ => apply result_bind_inv in Hr as (? & _ & Hr) end.
  by injection Hr as <-.
Qed.

Lemma parse_listen_u16 name value d a : parse_listen name value d = Ok a → u16 (sa_port a).
Proof.
  unfold parse_listen. intros (x & Hx%ok_or_inv & Hr)%result_bind_inv. destruct (sa_port x =? 0); [done|].
  destruct (is_multicast _); [done|]. injection Hr as <-. by eapply parse_socket_addr_u16.
Qed.

(** C34: A proxy configuration that is accepted can be run: the two listeners
    have ports other than zero and do not collide (with the same port they have
    different addresses, neither of them unspecified); the outbound address is a specific one of the family of the
    listener; the UDP range and advertised address come together, and the UDP
    relay can be made of them, with an ordered range of at most 4096 valid
    ports; the nodes are refreshed at least once a day and at most once a
    minute; and the settings are within their bounds, with the address and
    port of the listener. *)
Theorem proxy_config_runs content c :
  proxy_config_from_bytes to_lowercase content = Ok c →
  (sa_port (listen c) ≠ 0 ∧ sa_port (nodelist_listen c) ≠ 0 ∧
   (sa_port (listen c) = sa_port (nodelist_listen c) →
      sa_ip (listen c) ≠ sa_ip (nodelist_listen c) ∧ is_unspecified (sa_ip (listen c)) = false ∧
      is_unspecified (sa_ip (nodelist_listen c)) = false)) ∧
  specific (outbound_ip c) (sa_ip (listen c)) ∧
  udp_settings_ok (outbound_ip c) (udp_port_range c) (udp_advertise_address c) ∧
  from_secs 60 <= node_refresh_interval c <= from_secs 86400 ∧
  (∃ r, runtime_ok r ∧ runtime c = listen_on (listen c) r ∧
        listen_address (runtime c) = sa_ip (listen c) ∧ serve_port (runtime c) = sa_port (listen c)).
Proof.
  unfold proxy_config_from_bytes. intros (v & _ & H1)%result_bind_inv.
  apply result_bind_inv in H1 as (token & _ & H1). apply result_bind_inv in H1 as (value & _ & H1).
  apply result_bind_inv in H1 as (l & Hl & H1). apply result_bind_inv in H1 as (n & Hn%parse_listen_ok & H1).
  pose proof (parse_listen_u16 _ _ _ _ Hl) as Hport. apply parse_listen_ok in Hl as [Hl Hm].
  destruct (listens_conflict l n) eqn:Hconf; [done|].
  apply result_bind_inv in H1 as (out & Hout%parse_outbound_ip_ok & H1); [|done].
  apply result_bind_inv in H1 as (range & Hrange%transpose_ok & H1).
  apply result_bind_inv in H1 as (adv & Hadv%transpose_ok & H1).
  destruct (negb _) eqn:Hpair; [done|].
  apply result_bind_inv in H1 as (interval & Hint%refresh_interval_range & H1).
  apply result_bind_inv in H1 as (raw & Hraw%file_of_values_ports & H1).
  apply result_bind_inv in H1 as (r & Hr & [= <-]).
  cbn [runtime listen nodelist_listen outbound_ip udp_port_range udp_advertise_address node_refresh_interval].
  split_and!; try done.
  - by destruct Hn.
  - intros Hsame. unfold listens_conflict in Hconf. rewrite Hsame, Z.eqb_refl in Hconf. simpl in Hconf.
    rewrite !orb_false_iff, bool_decide_eq_false in Hconf. tauto.
  - apply negb_false_iff, eqb_prop in Hpair. unfold udp_settings_ok.
    destruct range as [range|], adv as [adv|]; try done.
    destruct Hrange as (? & _ & [Hwf Hcount]%parse_udp_port_range_wf).
    destruct Hadv as (? & _ & (Hu & Hm' & Hf)%parse_udp_advertise_address_ok). split_and!; [done|done|].
    unfold udp_fixed. destruct Hout as (-> & -> & _). rewrite Hu, Hm', Hf. simpl. by rewrite eqb_reflx.
  - lia.
  - lia.
  - exists r. destruct Hraw as [Hs Hb]. split_and!; [|done..].
    eapply runtime_from_raw_ok; [| |exact Hr]; [by rewrite Hs|by rewrite Hb].
Qed.
End Guarantees.

(** ** Witnesses: a toy URL is its text, and the file system is empty *)

#[export] Instance toy_url : UrlCrate := {
  Url := bytes; url_eq_dec := list_eq_dec;
  url_parse l := if bool_decide (l = []) then None else Some l;
  scheme l := match split_once ":" l with Some (s, _) => s | None => [] end;
  host_str l := Some l; username l := []; password l := None; query l := None; fragment l := None;
}.
#[export] Instance toy_files : FileSystem := {
  metadata _ := Err (Bail "No such file or directory"); open_file _ := Err (Bail "No such file or directory");
}.

Definition demo_file : bytes := join [x0a] [
  lit "# oixc-proxy"; lit "token = mock-secret"; []; lit "listen=0.0.0.0:6172"; lit "outbound-ip=192.0.2.10";
  lit "udp-port-range=10000-10099"; lit "udp-advertise-address=198.51.100.10"; lit "request-timeout=20s";
  lit "dial-concurrency=64"].

Lemma proxy_config_runs_witness :
  ∃ c, proxy_config_from_bytes lower demo_file = Ok c ∧
    ((dial_concurrency (runtime c) =? 64) && (request_timeout (runtime c) =? from_secs 20)
     && bool_decide (port_count <$> udp_port_range c = Some 100)) = true ∧
    udp_settings_ok (outbound_ip c) (udp_port_range c) (udp_advertise_address c).
Proof.
  assert (Hc : match proxy_config_from_bytes lower demo_file with
    | Ok c => (dial_concurrency (runtime c) =? 64) && (request_timeout (runtime c) =? from_secs 20)
              && bool_decide (port_count <$> udp_port_range c = Some 100)
    | Err _ => false end = true) by by vm_compute.
  destruct (proxy_config_from_bytes lower demo_file) as [c|e] eqn:E; [|discriminate Hc].
  destruct (proxy_config_runs lower demo_file c E) as (_ & _ & Hudp & _).
  exists c. split; [reflexivity|]. split; [exact Hc|exact Hudp].
Defined.

(** A file system where every file is private and holds one token. *)
Definition token_files : FileSystem := {|
  metadata _ := Ok (true, 384); open_file _ := Ok (Ok (lit "mock-secret"));
|}.

Lemma loaded_settings_bounded_witness :
  ∃ r, load_token_file (H0 := token_files) lower (lit "token.txt") = Ok r ∧ (max_client_connections r =? 256) = true ∧
    1 <= per_node_dial_concurrency r <= 128.
Proof.
  assert (Hr : match load_token_file (H0 := token_files) lower (lit "token.txt") with
    | Ok r => max_client_connections r =? 256 | Err _ => false end = true) by by vm_compute.
  destruct (load_token_file (H0 := token_files) lower (lit "token.txt")) as [r|e] eqn:E; [|discriminate Hr].
  destruct (loaded_settings_bounded (H0 := token_files) lower (λ _, Err (Bail "no JSON")) (λ _, None) (lit "token.txt") r)
    as [_ [Hok _]]; [discriminate|exact E|].
  exists r. split; [reflexivity|]. split; [exact Hr|exact (ok_node_dials r Hok)].
Defined.
