(* ===== verification/Provider.v ===== *)
(** * Provider: the policy documents ([src/surge.rs], [src/clash.rs])

    The documents Surge and Clash load: one entry per node, whose user name is
    the node's selector. *)
From S2P Require Import Prelude Bytes Text Ip Nodes.
Local Open Scope Z_scope.

Inductive ProviderProtocol : Type := Http | Socks5.

(** ** Policy names *)

(** A character that would break a policy line becomes a blank. *)
Definition unsafe_char (c : Z) : bool := (c =? 61) || (c =? 44) || is_control c.

Definition replace_unsafe (name : bytes) : bytes :=
  chars name ≫= λ c, if unsafe_char (fst c) then [x20] else snd c.

Definition sanitize_policy_name (name : bytes) : bytes :=
  let sanitized := join [x20] (split_whitespace (replace_unsafe name)) in
  if bool_decide (sanitized = []) then lit "Node" else sanitized.

(** ** The entries *)

Section Provider.
Context `{Base64Url}.

(** The checks both formats start with, under the name of the format. *)
Definition check_provider (format : string) (ps : list Proxy) (listen_address : bytes) (port : Z)
    (routing_secret : bytes) : result unit :=
  match parse_ip listen_address with
  | None => Err (Bail (format +:+ " provider requires a specific numeric listen IP"))
  | Some ip =>
      if is_unspecified ip || is_multicast ip
      then Err (Bail (format +:+ " provider requires a specific numeric listen IP"))
      else if port =? 0 then Err (Bail (format +:+ " provider listen port cannot be zero"))
      else if bool_decide (ps = []) then Err (Bail (format +:+ " provider requires at least one node"))
      else if negb (is_safe_credential routing_secret)
      then Err (Bail (format +:+ " provider routing secret is invalid"))
      else Ok tt
  end.

(** The loop over the proxies: each with its policy name and selector. *)
Fixpoint collect_policies (format : string) (selectors : list bytes) (ps : list Proxy) :
    result (list (Proxy * bytes * bytes)) :=
  match ps with
  | [] => Ok []
  | p :: ps' =>
      selector ← node_selector (name p);
      if bool_decide (selector ∈ selectors) then Err (Bail (format +:+ " provider selector collision"))
      else
        rendered ← collect_policies format (selector :: selectors) ps';
        Ok ((p, sanitize_policy_name (name p), selector) :: rendered)
  end.

(** The map that counts each policy name. *)
Definition name_count (rendered : list (Proxy * bytes * bytes)) (policy_name : bytes) : nat :=
  length (filter (λ r, r.1.2 = policy_name) rendered).

(** A name that is not unique gets its selector. *)
Definition final_name (rendered : list (Proxy * bytes * bytes)) (policy_name selector : bytes) : bytes :=
  if (1 <? name_count rendered policy_name)%nat
  then policy_name ++ lit " [" ++ selector ++ lit "]" else policy_name.

(** *** Surge *)

Definition surge_line (listen_address : bytes) (port : Z) (routing_secret : bytes)
    (protocol : ProviderProtocol) (udp_relay_advertised : bool) (p : Proxy) (policy_name selector : bytes) : bytes :=
  policy_name
  ++ (match protocol with Http => lit " = http, " | Socks5 => lit " = socks5, " end)
  ++ listen_address ++ lit ", " ++ dec port ++ lit ", " ++ selector ++ lit ", " ++ routing_secret
  ++ (match protocol with
      | Socks5 => if udp p && udp_relay_advertised
                  then lit ", udp-relay=true, test-udp=example.com@1.1.1.1" else []
      | Http => []
      end).

Definition render_surge (ps : list Proxy) (listen_address : bytes) (port : Z) (routing_secret : bytes)
    (protocol : ProviderProtocol) (udp_relay_advertised : bool) : result bytes :=
  _ ← check_provider "Surge" ps listen_address port routing_secret;
  rendered ← collect_policies "Surge" [] ps;
  Ok (rendered ≫= λ '(p, policy_name, selector),
        surge_line listen_address port routing_secret protocol udp_relay_advertised p
          (final_name rendered policy_name selector) selector ++ [x0a]).

(** *** Clash *)

(** [{:04x}] *)
Definition hex4 (z : Z) : bytes :=
  [hex_digit (z / 4096 mod 16); hex_digit (z / 256 mod 16); hex_digit (z / 16 mod 16); hex_digit (z mod 16)].

Definition quote_char (c : Z * bytes) : bytes :=
  if fst c =? 34 then [x5c; x22]
  else if fst c =? 92 then [x5c; x5c]
  else if fst c <? 32 then [x5c; x75] ++ hex4 (fst c)
  else snd c.

Definition yaml_quote (value : bytes) : bytes := [x22] ++ (chars value ≫= quote_char) ++ [x22].

Definition clash_lines (listen_address : bytes) (port : Z) (routing_secret : bytes)
    (protocol : ProviderProtocol) (udp_relay_advertised : bool) (p : Proxy) (policy_name selector : bytes) :
    list bytes :=
  [lit "- name: " ++ yaml_quote policy_name;
   match protocol with Http => lit "  type: http" | Socks5 => lit "  type: socks5" end;
   lit "  server: " ++ listen_address;
   lit "  port: " ++ dec port;
   lit "  username: " ++ selector;
   lit "  password: " ++ routing_secret]
  ++ match protocol with
     | Socks5 => [lit "  udp: " ++ (if udp p && udp_relay_advertised then lit "true" else lit "false")]
     | Http => []
     end.

Definition render_clash (ps : list Proxy) (listen_address : bytes) (port : Z) (routing_secret : bytes)
    (protocol : ProviderProtocol) (udp_relay_advertised : bool) : result bytes :=
  _ ← check_provider "Clash" ps listen_address port routing_secret;
  rendered ← collect_policies "Clash" [] ps;
  Ok (lit "proxies:" ++ [x0a] ++
      (rendered ≫= λ '(p, policy_name, selector),
         clash_lines listen_address port routing_secret protocol udp_relay_advertised p
           (final_name rendered policy_name selector) selector ≫= λ l, l ++ [x0a])).
End Provider.

(** ** Lemmas on characters *)

(** An ASCII character is its byte; the bytes of any other are not ASCII. *)
Definition char_wf (c : Z * bytes) : Prop :=
  (fst c < 128 ∧ snd c = [z2b (fst c)]) ∨ Forall (λ b, 128 <= b2z b) (snd c).

Lemma decode_step_char l c n :
  decode_step l = Some (Char c n) → char_wf (c, take n l).
Proof.
  unfold decode_step, char_wf, is_cont, in_range. destruct l as [|b0 r]; [done|]. cbn [fst snd].
  destruct (b2z b0 <? 128) eqn:E0.
  { intros [= <- <-]. reflect_bools. left. simpl. by rewrite z2b_b2z. }
  reflect_bools. intros H. right.
  repeat match type of H with
  | context [match ?x with _ => _ end] =>
      lazymatch x with context [match _ with _ => _ end] => fail | _ => destruct x eqn:? end; try done
  end; injection H as <- <-; reflect_bools; repeat constructor; simpl; try lia;
    repeat match goal with
    | Hx : (if ?b then 160 else 128) <= _ |- _ => destruct b; [lia|]
    | Hx : (if ?b then 144 else 128) <= _ |- _ => destruct b; [lia|]
    end; try lia.
Qed.

Lemma decode_fuel_chars n l :
  Forall (λ p : result Z * bytes, match p.1 with Ok c => char_wf (c, p.2) | Err _ => True end)
    (decode_fuel n l)
  ∧ (∀ p b, p ∈ decode_fuel n l → b ∈ p.2 → b ∈ l).
Proof.
  revert l; induction n as [|n IH]; intros l; cbn [decode_fuel].
  { split; [constructor|]. intros p b Hp. by apply not_elem_of_nil in Hp. }
  destruct (decode_step l) as [[c k|k]|] eqn:E.
  3:{ split; [constructor|]. intros p b Hp. by apply not_elem_of_nil in Hp. }
  all: destruct (IH (drop k l)) as [IH1 IH2]; split;
    [constructor; [try (by apply decode_step_char); done|done]|];
    intros p b [->|Hp]%elem_of_cons Hb; simpl in *;
    [rewrite <-(take_drop k l); set_solver|];
    rewrite <-(take_drop k l); pose proof (IH2 p b Hp Hb); set_solver.
Qed.

Lemma chars_wf l : Forall char_wf (chars l).
Proof.
  unfold chars, decode_utf8. destruct (decode_fuel_chars (length l) l) as [Hwf _].
  induction Hwf as [|[[c|e] enc] ps Hp Hps IH]; csimpl; [done|by constructor|done].
Qed.

Lemma chars_bytes l c b : c ∈ chars l → b ∈ snd c → b ∈ l.
Proof.
  unfold chars, decode_utf8. intros (p & Hp & Hc)%list_elem_of_omap Hb.
  destruct (decode_fuel_chars (length l) l) as [_ Hin]. apply (Hin p b Hp).
  destruct (p.1); [|done]. by injection Hc as <-.
Qed.

(** ** Policy names stay inside their field *)

(** Neither a separator of the Surge format nor an ASCII control. *)
Definition policy_byte (b : byte) : Prop := b ≠ x2c ∧ b ≠ x3d ∧ 32 <= b2z b ∧ b2z b ≠ 127.

Lemma safe_byte_policy b : safe_byte b = true → policy_byte b.
Proof. unfold policy_byte. destruct b; intros ?; try done; (split_and!; [done|done|done|done]). Qed.

Lemma policy_byte_lf b : policy_byte b → b ≠ x0a.
Proof. by intros (_ & _ & H & _) ->. Qed.

Lemma replace_unsafe_policy n : Forall policy_byte (replace_unsafe n).
Proof.
  unfold replace_unsafe. pose proof (chars_wf n) as Hwf.
  induction Hwf as [|[c enc] cs Hc Hcs IH]; csimpl; [constructor|].
  apply Forall_app. split; [|done]. destruct (unsafe_char c) eqn:E; [repeat constructor; done|].
  unfold unsafe_char, is_control in E. apply orb_false_iff in E as [E Ec].
  apply orb_false_iff in E as [E1 E2]. apply orb_false_iff in Ec as [Ec1 Ec2]. reflect_bools.
  destruct Hc as [[Hlt Henc]|Hge]; simpl in *.
  - subst enc. apply Forall_singleton. unfold policy_byte.
    assert (c <> 127) by (intros ->; done). rewrite b2z_z2b_small by lia.
    split_and!; [..|lia|lia]; intros Heq; apply (f_equal b2z) in Heq; rewrite b2z_z2b_small in Heq by lia; done.
  - eapply Forall_impl; [exact Hge|]. intros b Hb. simpl in Hb. unfold policy_byte.
    split_and!; [intros ->; done|intros ->; done|lia|lia].
Qed.

Lemma split_by_elem {A} (p : A → bool) l q x : q ∈ split_by p l → x ∈ q → x ∈ l.
Proof.
  revert q; induction l as [|y l IH]; intros q; cbn [split_by].
  { by intros ->%list_elem_of_singleton. }
  destruct (p y).
  { intros [->|Hq]%elem_of_cons Hx; [by apply not_elem_of_nil in Hx|right; eauto]. }
  destruct (split_by p l) as [|q' qs].
  { intros ->%list_elem_of_singleton ->%list_elem_of_singleton. by left. }
  intros [->|Hq]%elem_of_cons Hx.
  - apply elem_of_cons in Hx as [->|Hx]; [by left|right]. apply (IH q'); [by left|done].
  - right. apply (IH q); [by right|done].
Qed.

Lemma split_whitespace_forall (P : byte → Prop) l :
  Forall P l → Forall (Forall P) (split_whitespace l).
Proof.
  intros Hl. unfold split_whitespace. apply Forall_forall. intros w [_ Hw]%list_elem_of_filter.
  apply list_elem_of_fmap in Hw as (cs & -> & Hcs). apply Forall_forall. intros b Hb.
  unfold unchars in Hb. apply list_elem_of_In, in_concat in Hb as (enc & Henc & Hb).
  apply list_elem_of_In, list_elem_of_fmap in Henc as (c & -> & Hc). apply list_elem_of_In in Hb.
  eapply Forall_forall; [done|]. eapply chars_bytes; [|done]. by eapply split_by_elem.
Qed.

Lemma sanitize_policy n : Forall policy_byte (sanitize_policy_name n).
Proof.
  unfold sanitize_policy_name. case_bool_decide; [repeat constructor; done|].
  apply join_forall; [repeat constructor; done|].
  apply split_whitespace_forall, replace_unsafe_policy.
Qed.

Lemma safe_credential_policy v : is_safe_credential v = true → Forall policy_byte v.
Proof.
  unfold is_safe_credential. intros [_ H]%andb_true_iff. apply Forall_forall. intros b Hb.
  apply safe_byte_policy. rewrite forallb_forall in H. apply H. by apply list_elem_of_In.
Qed.

(** ** The documents *)

Lemma split_on_lines (ls : list bytes) :
  Forall (λ l, x0a ∉ l) ls → split_on x0a (ls ≫= λ l, l ++ [x0a]) = ls ++ [[]].
Proof.
  induction 1 as [|l ls Hl Hls IH]; [done|]. csimpl. rewrite <-app_assoc. simpl.
  by rewrite split_on_app, IH.
Qed.

Section ProviderProofs.
Context `{Base64Url}.

Lemma collect_policies_inv format sels ps rendered :
  collect_policies format sels ps = Ok rendered →
  (λ r, r.1.1) <$> rendered = ps
  ∧ Forall (λ r, r.1.2 = sanitize_policy_name (name r.1.1) ∧ node_selector (name r.1.1) = Ok r.2) rendered
  ∧ NoDup (snd <$> rendered) ∧ (∀ r, r ∈ rendered → r.2 ∉ sels).
Proof.
  revert sels rendered; induction ps as [|p ps IH]; intros sels rendered Hc; cbn [collect_policies] in Hc.
  - injection Hc as <-. split_and!; [done|constructor|constructor|]. by intros r ?%not_elem_of_nil.
  - apply result_bind_inv in Hc as (sel & Hsel & Hc). case_bool_decide as Hin; [done|].
    apply result_bind_inv in Hc as (rest & Hrest & [= <-]).
    apply IH in Hrest as (Hps & Hf & Hd & Hn). csimpl. rewrite Hps. split_and!; [done| | |].
    + constructor; [done|done].
    + constructor; [|done]. intros (r & Heq & Hr)%list_elem_of_fmap. apply (Hn r Hr). rewrite <-Heq. by left.
    + intros r [->|Hr]%elem_of_cons; [done|]. intros Hs. apply (Hn r Hr). by right.
Qed.

Lemma final_name_policy rendered policy sel :
  Forall policy_byte policy → Forall policy_byte sel → Forall policy_byte (final_name rendered policy sel).
Proof.
  intros Hp Hs. unfold final_name. destruct (1 <? _)%nat; [|done].
  rewrite !Forall_app. split_and!; [done|repeat constructor; done|done|repeat constructor; done].
Qed.

Lemma policy_no_lf l : Forall policy_byte l → x0a ∉ l.
Proof. intros Hl Hin. eapply Forall_forall in Hl; [|done]. by apply policy_byte_lf in Hl. Qed.

Lemma dec_no_lf port : u16 port → x0a ∉ dec port.
Proof.
  intros Hp Hin. assert (u64 port) as Hu by (unfold u16, u64, U16_MAX, U64_MAX in *; lia).
  pose proof (dec_digits port Hu) as Hd. eapply Forall_forall in Hd; [|exact Hin]. by vm_compute in Hd.
Qed.

Lemma check_provider_secret format ps la port secret :
  check_provider format ps la port secret = Ok tt → is_safe_credential secret = true ∧ ps ≠ [] ∧ port ≠ 0.
Proof.
  unfold check_provider. destruct (parse_ip la) as [ip|]; [|done].
  destruct (is_unspecified ip || is_multicast ip); [done|].
  destruct (port =? 0) eqn:Ep; [done|]. case_bool_decide; [done|].
  destruct (is_safe_credential secret); [|done]. reflect_bools. done.
Qed.

(** A node's name cannot reach outside its policy. A rendered Surge document
    is exactly one line per node, in order; each line is the policy name, free
    of separators and line breaks whatever the node is called, up to its first
    equals sign, and then the protocol, the listening address and port, the
    selector of that node and the routing secret. The selectors are distinct. *)
Theorem surge_lines_exact ps la port secret protocol adv doc :
  x0a ∉ la → u16 port →
  render_surge ps la port secret protocol adv = Ok doc →
  ∃ rendered,
    (λ r, r.1.1) <$> rendered = ps ∧ NoDup (snd <$> rendered) ∧
    split_on x0a doc = ((λ r, surge_line la port secret protocol adv r.1.1
                                (final_name rendered r.1.2 r.2) r.2) <$> rendered) ++ [[]] ∧
    ∀ p policy sel, (p, policy, sel) ∈ rendered →
      node_selector (name p) = Ok sel ∧ policy = sanitize_policy_name (name p) ∧
      Forall policy_byte (final_name rendered policy sel) ∧
      ∃ rest, split_once x3d (surge_line la port secret protocol adv p (final_name rendered policy sel) sel)
                = Some (final_name rendered policy sel ++ [x20], rest)
              ∧ rest = (match protocol with Http => lit " http, " | Socks5 => lit " socks5, " end)
                       ++ la ++ lit ", " ++ dec port ++ lit ", " ++ sel ++ lit ", " ++ secret
                       ++ (match protocol with
                           | Socks5 => if udp p && adv
                                       then lit ", udp-relay=true, test-udp=example.com@1.1.1.1" else []
                           | Http => []
                           end).
Proof.
  intros Hla Hport Hr. unfold render_surge in Hr.
  apply result_bind_inv in Hr as ([] & Hcheck & Hr).
  apply check_provider_secret in Hcheck as (Hsecret & _ & _).
  apply result_bind_inv in Hr as (rendered & Hc & [= <-]).
  apply collect_policies_inv in Hc as (Hps & Hf & Hd & _).
  assert (Hrow : ∀ p policy sel, (p, policy, sel) ∈ rendered →
            node_selector (name p) = Ok sel ∧ policy = sanitize_policy_name (name p) ∧
            Forall policy_byte sel ∧ Forall policy_byte (final_name rendered policy sel)).
  { intros p policy sel Hin. eapply Forall_forall in Hf; [|exact Hin]. simpl in Hf. destruct Hf as [-> Hs].
    assert (Forall policy_byte sel) as Hsp.
    { apply safe_credential_policy. by apply node_selector_inv in Hs as (_ & _ & ?). }
    split_and!; [done|done|done|]. apply final_name_policy; [apply sanitize_policy|done]. }
  exists rendered. split_and!; [done|done| |].
  - assert (Hb : ∀ l, (l ≫= λ '(p, policy_name, selector),
                surge_line la port secret protocol adv p (final_name rendered policy_name selector) selector ++ [x0a])
              = (((λ r, surge_line la port secret protocol adv r.1.1 (final_name rendered r.1.2 r.2) r.2) <$> l)
                   ≫= λ l, l ++ [x0a])).
    { induction l as [|[[p pol] sel] l IH]; [done|]. csimpl. by rewrite IH. }
    rewrite Hb. apply split_on_lines. apply Forall_forall.
    intros line (((p & pol) & sel) & -> & Hin)%list_elem_of_fmap. simpl.
    destruct (Hrow _ _ _ Hin) as (_ & _ & Hsel & Hfin).
    unfold surge_line. rewrite !elem_of_app.
    pose proof (policy_no_lf _ Hsel). pose proof (policy_no_lf _ Hfin). pose proof (dec_no_lf _ Hport).
    pose proof (policy_no_lf _ (safe_credential_policy _ Hsecret)).
    assert (x0a ∉ lit ", ") by (apply position_byte_None; by vm_compute).
    destruct protocol; [assert (x0a ∉ lit " = http, ") by (apply position_byte_None; by vm_compute); set_solver|].
    assert (x0a ∉ lit " = socks5, ") by (apply position_byte_None; by vm_compute).
    assert (x0a ∉ lit ", udp-relay=true, test-udp=example.com@1.1.1.1").
    { apply position_byte_None. by vm_compute. }
    destruct (udp p && adv); set_solver.
  - intros p policy sel Hin. destruct (Hrow _ _ _ Hin) as (Hs & Hpol & _ & Hfin).
    split_and!; [done|done|done|]. eexists. split; [|reflexivity]. apply split_once_spec.
    split; [unfold surge_line; destruct protocol; by rewrite <-app_assoc|].
    rewrite elem_of_app, list_elem_of_singleton. intros [Hx|Hx]; [|done].
    eapply Forall_forall in Hfin; [|exact Hx]. by destruct Hfin as (_ & Hne & _).
Qed.
End ProviderProofs.

(** ** Witness: a name with separators and a line break *)

Definition demo_nodes : list Proxy :=
  [demo_proxy (lit "A = b," ++ [x0a] ++ lit "c"); demo_proxy (lit "A b c")].

Lemma surge_lines_exact_witness :
  ∃ (doc : bytes) (rendered : list (Proxy * bytes * bytes)),
    render_surge demo_nodes (lit "127.0.0.1") 6172 (lit "secret") Http true = Ok doc
    ∧ length (split_on x0a doc) = 3%nat ∧ (λ r, r.1.1) <$> rendered = demo_nodes.
Proof.
  destruct (render_surge demo_nodes (lit "127.0.0.1") 6172 (lit "secret") Http true) as [doc|e] eqn:E;
    [|vm_compute in E; discriminate].
  destruct (surge_lines_exact demo_nodes (lit "127.0.0.1") 6172 (lit "secret") Http true doc)
    as (rendered & Hps & _ & Hlines & _).
  - apply position_byte_None. by vm_compute.
  - unfold u16, U16_MAX. lia.
  - exact E.
  - exists doc, rendered. split; [reflexivity|]. split; [|exact Hps].
    rewrite Hlines. rewrite length_app, length_fmap.
    assert (Hn : length rendered = length demo_nodes) by (rewrite <-Hps; by rewrite length_fmap).
    rewrite Hn. reflexivity.
Defined.

(** A disambiguated name can still meet another node's own name. *)
Definition clashing_nodes : list Proxy :=
  [demo_proxy (lit "X"); demo_proxy (lit "X ");
   demo_proxy (lit "X [name-58]")].

Lemma disambiguated_names_clash :
  ∃ rendered, collect_policies "Clash" [] clashing_nodes = Ok rendered
    ∧ ¬ NoDup ((λ r, final_name rendered r.1.2 r.2) <$> rendered).
Proof.
  eexists. split; [vm_compute; reflexivity|]. intros Hd.
  pose proof (NoDup_lookup _ 0 2 (lit "X [name-58]") Hd) as Hcol.
  discriminate Hcol; by vm_compute.
Qed.
