(* ===== verification/RawProvider.v ===== *)
(** * RawProvider: the opt-in export of the nodes themselves ([src/raw_provider.rs])

    Which nodes can be written as Surge lines, the cache of their addresses,
    and the document. The base64 of [parse_ech_config] and DNS are parameters;
    the tasks that resolve hosts may finish in any order. *)
From S2P Require Import Prelude Bytes Text Ip Nodes Provider.
From S2P Require Dialer.
Local Open Scope Z_scope.

Definition CONCURRENCY : nat := 8.

(** ** Which nodes can be rendered *)

Definition one_of (special : bytes) (c : Z) : bool := existsb (λ b, b2z b =? c) special.

Definition safe_parameter (value : bytes) : bool :=
  negb (bool_decide (value = []))
  && negb (existsb (λ c, is_whitespace (fst c) || is_control (fst c) || one_of [x2c; x22; x27; x5c; x23; x3b] (fst c))
             (chars value)).

Definition host_byte (b : byte) : bool := is_alnum b || byteb b "-" || byteb b "_".

Definition safe_label (label : bytes) : bool :=
  negb (bool_decide (label = [])) && (length label <=? 63)%nat && negb (starts_with (lit "-") label)
  && negb (bool_decide (last label = Some "-"%byte)) && forallb host_byte label.

(** [strip_suffix('.').unwrap_or(host)] *)
Definition strip_dot (host : bytes) : bytes := strip_suffix_byte "." host.

Definition safe_host (host : bytes) : bool :=
  bool_decide (is_Some (parse_ip host))
  || (negb (bool_decide (host = [])) && (length host <=? 253)%nat && forallb safe_label (split_on "." (strip_dot host))).

Record RawNode : Type := MkRawNode { policy : bytes; proxy : Proxy }.
Record RawNodes : Type := MkRawNodes { nodes : list RawNode; skipped : nat }.

(** The loop's collections: the nodes kept, how often each name was used, and
    the selectors taken. *)
Record Collected : Type := MkCollected {
  c_nodes : list RawNode; c_names : gmap bytes nat; c_selectors : gset bytes;
}.

Section RawNodes.
Context `{Base64Url} {EchConfig : Type} (parse_ech_config : bytes → result EchConfig).

Definition supported (p : Proxy) : bool :=
  bytes_eqb (proxy_type p) (lit "snell") && (version p =? 4) && bytes_eqb (mode (obfs p)) (lit "ech-tls")
  && (identity_version (obfs p) =? 2) && negb (port p =? 0) && safe_host (server p)
  && (bool_decide (sni (obfs p) = []) || safe_host (sni (obfs p))) && safe_parameter (psk p)
  && is_ok (parse_ech_config (ech_config (obfs p))).

(** One turn of the loop over the proxies. *)
Definition collect (p : Proxy) (c : Collected) : Collected :=
  if negb (supported p) then c
  else
    match node_selector (name p) with
    | Err _ => c
    | Ok selector =>
        if bool_decide (selector ∈ c_selectors c) then c
        else
          let selectors := {[ selector ]} ∪ c_selectors c in
          let policy := sanitize_policy_name (name p) in
          if existsb (λ ch, one_of [x23; x3b; x22; x27; x5c] (fst ch)) (chars policy)
          then MkCollected (c_nodes c) (c_names c) selectors
          else
            let count := default 0%nat (c_names c !! policy) in
            MkCollected (c_nodes c ++ [MkRawNode policy p]) (<[policy := S count]> (c_names c)) selectors
    end.

(** A name used more than once gets the selector, which is known to exist. *)
Definition disambiguate (names : gmap bytes nat) (n : RawNode) : RawNode :=
  if (1 <? default 0 (names !! policy n))%nat then
    match node_selector (name (proxy n)) with
    | Ok selector => MkRawNode (policy n ++ lit " [" ++ selector ++ lit "]") (proxy n)
    | Err _ => n
    end
  else n.

Definition raw_nodes (ps : list Proxy) : RawNodes :=
  let c := fold_left (λ c p, collect p c) ps (MkCollected [] ∅ ∅) in
  MkRawNodes (disambiguate (c_names c) <$> c_nodes c) (length ps - length (c_nodes c)).
End RawNodes.

(** ** Addresses *)

Abbreviation LastGood := (gmap bytes IpAddr).

Definition host_key (host : bytes) : bytes := lower (trim_end_matches (byteb ".") host).

(** [resolve]: what the lookup answered, an error standing for a timeout too. *)
Definition resolve (host : bytes) (fresh : result (list IpAddr)) (g : LastGood) : bytes * LastGood :=
  match parse_ip host with
  | Some ip => (ip_to_string ip, g)
  | None =>
      let key := host_key host in
      let preferred := match fresh with
        | Ok addresses =>
            match List.find is_ipv4 addresses with Some ip => Some ip | None => head addresses end
        | Err _ => None end in
      match preferred with
      | Some ip => (ip_to_string ip, <[key := ip]> g)
      | None => (match g !! key with Some ip => ip_to_string ip | None => host end, g)
      end
  end.

(** A task that is over: its host, and what its lookup answered unless the task
    failed. *)
Abbreviation Completion := (bytes * option (result (list IpAddr)))%type.

(** The tasks in the order they finish: each host's address and the cache. *)
Fixpoint join_tasks (tasks : list Completion) (addresses : gmap bytes bytes) (g : LastGood) :
    gmap bytes bytes * LastGood :=
  match tasks with
  | [] => (addresses, g)
  | (_, None) :: tasks => join_tasks tasks addresses g
  | (host, Some fresh) :: tasks =>
      let '(address, g) := resolve host fresh g in
      join_tasks tasks (<[host := address]> addresses) g
  end.

Definition bool_text (b : bool) : bytes := if b then lit "true" else lit "false".

Definition raw_line (addresses : gmap bytes bytes) (n : RawNode) : bytes :=
  let p := proxy n in
  let server_text := default (server p) (addresses !! server p) in
  let sni_text := if bool_decide (sni (obfs p) = []) then server p else sni (obfs p) in
  policy n ++ lit " = snell, " ++ server_text ++ lit ", " ++ dec (port p) ++ lit ", psk=" ++ psk p
  ++ lit ", version=4, obfs=ech-tls, obfs-host=" ++ sni_text ++ lit ", ech-config=" ++ ech_config (obfs p)
  ++ lit ", reuse=" ++ bool_text (reuse p) ++ lit ", udp-relay=" ++ bool_text (udp p)
  ++ (if tfo p then lit ", tfo=true" else [])
  ++ (if skip_cert_verify (obfs p) then lit ", skip-cert-verify=true" else []).

(** The hosts that get a task: each server once. *)
Definition task_hosts (ns : RawNodes) : list bytes := remove_dups (server ∘ proxy <$> nodes ns).

Definition render (ns : RawNodes) (tasks : list Completion) (g : LastGood) : bytes * LastGood :=
  let '(addresses, g) := join_tasks tasks ∅ g in
  (nodes ns ≫= λ n, raw_line addresses n ++ [x0a], g).

(** ** Nothing leaves its field

    The separators of a line and of the document. *)
Definition field_byte (b : byte) : Prop := b ≠ x2c ∧ b ≠ x0a.
Abbreviation in_field := (Forall field_byte).

Lemma ip_byte_field b : ip_byte b = true → field_byte b.
Proof. unfold field_byte. by destruct b. Qed.
Lemma ip_text_field l : ip_text l → in_field l.
Proof. intros Hl. eapply Forall_impl; [exact Hl|apply ip_byte_field]. Qed.
Lemma policy_byte_field b : policy_byte b → field_byte b.
Proof. intros Hb. split; [by destruct Hb|by apply policy_byte_lf]. Qed.
Lemma host_byte_field b : host_byte b = true → field_byte b.
Proof. unfold field_byte. by destruct b. Qed.
Lemma dec_field n : u64 n → in_field (dec n).
Proof.
  intros Hn. eapply Forall_impl; [by apply dec_digits|]. intros b Hb. apply host_byte_field. by destruct b.
Qed.

Lemma safe_parameter_field v : safe_parameter v = true → in_field v.
Proof.
  unfold safe_parameter. intros [_ Hs]%andb_true_iff. apply negb_true_iff in Hs.
  assert (Hno : ∀ b, b2z b < 128 → is_whitespace (b2z b) || is_control (b2z b)
                       || one_of [x2c; x22; x27; x5c; x23; x3b] (b2z b) = true → b ∉ v).
  { intros b Hlt Hbad Hin. rewrite <-not_true_iff_false in Hs. apply Hs, existsb_exists.
    exists (b2z b, [b]). split; [|exact Hbad]. by apply list_elem_of_In, chars_ascii_elem. }
  apply Forall_forall. intros b Hb.
  split; intros ->; [apply (Hno x2c)|apply (Hno x0a)]; done.
Qed.

Lemma strip_suffix_byte_cases b l : strip_suffix_byte b l = l ∨ l = strip_suffix_byte b l ++ [b].
Proof.
  unfold strip_suffix_byte. destruct (reverse l) as [|c r] eqn:E; [by left|].
  destruct (byteb b c) eqn:Eb; [|by left]. right. apply byteb_eq in Eb as <-.
  by rewrite <-reverse_cons, <-E, reverse_involutive.
Qed.

Lemma safe_host_field h : safe_host h = true → in_field h.
Proof.
  unfold safe_host. intros [Hip|Hh]%orb_true_iff.
  { apply bool_decide_eq_true in Hip as [ip Hip]. by eapply ip_text_field, parse_ip_text. }
  apply andb_true_iff in Hh as [_ Hl].
  assert (in_field (strip_dot h)) as Hs.
  { rewrite <-(join_split_on "." (strip_dot h)). apply join_forall; [by repeat constructor|].
    apply forallb_Forall_true in Hl. eapply Forall_impl; [exact Hl|]. unfold safe_label. intros q Hq.
    apply andb_true_iff in Hq as [_ Hq%forallb_Forall_true]. eapply Forall_impl; [exact Hq|apply host_byte_field]. }
  destruct (strip_suffix_byte_cases "." h) as [<-| ->]; [done|]. apply Forall_app. split; [done|by repeat constructor].
Qed.

(** ** The collected nodes *)

Section Nodes.
Context `{Base64Url} {EchConfig : Type} (parse_ech_config : bytes → result EchConfig).
Abbreviation is_supported := (supported parse_ech_config).

Record collected (ps : list Proxy) (c : Collected) : Prop := {
  col_sublist : proxy <$> c_nodes c `sublist_of` ps;
  col_nodes : Forall (λ n, is_supported (proxy n) = true ∧ Forall policy_byte (policy n) ∧
                           ∃ selector, node_selector (name (proxy n)) = Ok selector) (c_nodes c);
}.

Lemma collect_collected ps p c : collected ps c → collected (ps ++ [p]) (collect parse_ech_config p c).
Proof.
  intros [Hsub Hall]. assert (Hskip : collected (ps ++ [p]) c).
  { split; [|done]. by apply sublist_inserts_r. }
  unfold collect. destruct (negb (is_supported p)) eqn:Hs; [done|].
  destruct (node_selector (name p)) as [sel|e] eqn:Hsel; [|done]. case_bool_decide; [done|].
  destruct (existsb _ _); [by destruct Hskip; split|]. split; simpl.
  - rewrite fmap_app. by apply sublist_app.
  - apply Forall_app. split; [done|]. constructor; [|constructor]. simpl. apply negb_false_iff in Hs.
    split_and!; [done|apply sanitize_policy|eauto].
Qed.

Lemma collect_all ps ps' c :
  collected ps c → collected (ps ++ ps') (fold_left (λ c p, collect parse_ech_config p c) ps' c).
Proof.
  revert ps c; induction ps' as [|p ps' IH]; intros ps c Hc; simpl; [by rewrite app_nil_r|].
  rewrite cons_middle, app_assoc. by apply IH, collect_collected.
Qed.

Lemma disambiguate_proxy names n : proxy (disambiguate names n) = proxy n.
Proof. unfold disambiguate. destruct (1 <? _)%nat; [|done]. by destruct (node_selector _). Qed.

Lemma raw_nodes_collected ps :
  let ns := raw_nodes parse_ech_config ps in
  proxy <$> nodes ns `sublist_of` ps ∧ skipped ns = (length ps - length (nodes ns))%nat ∧
  Forall (λ n, is_supported (proxy n) = true ∧ Forall policy_byte (policy n)) (nodes ns).
Proof.
  unfold raw_nodes. cbn zeta. set (c := fold_left _ ps _).
  assert (collected ps c) as [Hsub Hall].
  { unfold c. apply (collect_all [] ps). split; [done|constructor]. }
  clearbody c. cbn [nodes skipped]. split_and!.
  - rewrite <-list_fmap_compose. erewrite list_fmap_ext; [exact Hsub|]. intros i n _. apply disambiguate_proxy.
  - by rewrite length_fmap.
  - apply Forall_fmap. eapply Forall_impl; [exact Hall|]. intros n (Hs & Hp & sel & Hsel). simpl.
    rewrite disambiguate_proxy. split; [done|]. unfold disambiguate. destruct (1 <? _)%nat; [|done].
    rewrite Hsel. cbn [policy]. rewrite !Forall_app. split_and!; [done|repeat constructor; done| |repeat constructor; done].
    apply safe_credential_policy. by apply node_selector_inv in Hsel as (_ & _ & ?).
Qed.
End Nodes.

(** ** Addresses *)

(** *** Whose address it is

    Two texts name the same host when they differ only in the case of their letters
    and in the dots at their ends. *)
Definition same_host (a b : bytes) : Prop :=
  ∃ base i j, lower a = base ++ replicate i "."%byte ∧ lower b = base ++ replicate j "."%byte.

(** What a lookup answered, as one address: its first IPv4 one, or else its first. *)
Definition picks (fresh : result (list IpAddr)) (ip : IpAddr) : Prop :=
  ∃ addresses, fresh = Ok addresses ∧
    ((∃ pre post, addresses = pre ++ ip :: post ∧ is_ipv4 ip = true ∧ Forall (λ a, is_ipv4 a = false) pre) ∨
     (Forall (λ a, is_ipv4 a = false) addresses ∧ head addresses = Some ip)).

(** A task that has found an address of the host it names. *)
Definition found (task : Completion) (host : bytes) (ip : IpAddr) : Prop :=
  same_host task.1 host ∧ parse_ip task.1 = None ∧ ∃ fresh, task.2 = Some fresh ∧ picks fresh ip.

(** The address given for a host after the tasks [past] are over: its own if it is
    one; what its lookup just answered; the address that the last task before it
    found for the same host; or the host as it is. *)
Inductive given (past : list Completion) (host : bytes) (fresh : result (list IpAddr)) : bytes → Prop :=
  | given_own ip : parse_ip host = Some ip → given past host fresh (ip_to_string ip)
  | given_fresh ip : parse_ip host = None → picks fresh ip → given past host fresh (ip_to_string ip)
  | given_last before task after ip : parse_ip host = None → (∀ ip, ¬ picks fresh ip) →
      past = before ++ task :: after → found task host ip →
      Forall (λ t, ∀ ip, ¬ found t host ip) after → given past host fresh (ip_to_string ip)
  | given_name : parse_ip host = None → (∀ ip, ¬ picks fresh ip) →
      Forall (λ t, ∀ ip, ¬ found t host ip) past → given past host fresh host.

Lemma lower_trim l : lower (trim_end_matches (byteb ".") l) = trim_end_matches (byteb ".") (lower l).
Proof.
  unfold trim_end_matches, lower. rewrite <-(fmap_reverse lower_byte l), (fmap_reverse lower_byte (drop_while _ _)). f_equal. generalize (reverse l) as m. clear l.
  induction m as [|b m IH]; [done|]. cbn [drop_while]. csimpl.
  assert (byteb "." (lower_byte b) = byteb "." b) as -> by by destruct b.
  by destruct (byteb "." b).
Qed.

Lemma trim_dots l i : trim_end_matches (byteb ".") (l ++ replicate i "."%byte) = trim_end_matches (byteb ".") l.
Proof.
  unfold trim_end_matches. rewrite reverse_app, reverse_replicate. f_equal. induction i as [|i IH]; [done|].
  cbn [replicate app drop_while]. by rewrite byteb_refl.
Qed.

Lemma trim_split l : ∃ i, l = trim_end_matches (byteb ".") l ++ replicate i "."%byte.
Proof.
  induction l as [|b l IH] using rev_ind; [by exists 0%nat|].
  destruct (decide (b = "."%byte)) as [->|Hb].
  - destruct IH as [i IH]. exists (S i). change [("."%byte : byte)] with (replicate 1 ("."%byte : byte)).
    rewrite (trim_dots l 1), (replicate_S_end i), app_assoc. by rewrite <-IH.
  - exists 0%nat. rewrite app_nil_r. unfold trim_end_matches. rewrite reverse_snoc. cbn [drop_while].
    assert (byteb "." b = false) as -> by (apply not_true_iff_false; rewrite byteb_eq; congruence).
    by rewrite reverse_cons, reverse_involutive.
Qed.

Lemma same_host_key a b : host_key a = host_key b ↔ same_host a b.
Proof.
  unfold host_key, same_host. rewrite !lower_trim. split.
  - intros Hk. destruct (trim_split (lower a)) as [i Ha], (trim_split (lower b)) as [j Hb].
    exists (trim_end_matches (byteb ".") (lower a)), i, j. split; [done|]. by rewrite Hk.
  - intros (base & i & j & -> & ->). by rewrite !trim_dots.
Qed.

(** The address a lookup's answer is read as. *)
Definition preferred (fresh : result (list IpAddr)) : option IpAddr :=
  match fresh with
  | Ok addresses => match List.find is_ipv4 addresses with Some ip => Some ip | None => head addresses end
  | Err _ => None
  end.

Lemma find_first {A} (f : A → bool) l :
  match List.find f l with
  | Some x => ∃ pre post, l = pre ++ x :: post ∧ f x = true ∧ Forall (λ y, f y = false) pre
  | None => Forall (λ y, f y = false) l
  end.
Proof.
  induction l as [|x l IH]; [constructor|]. cbn [List.find]. destruct (f x) eqn:E; [by exists [], l|].
  destruct (List.find f l) as [y|]; [|by constructor]. destruct IH as (pre & post & -> & Hy & Hpre).
  exists (x :: pre), post. split_and!; [done|done|by constructor].
Qed.

Lemma find_skip {A} (f : A → bool) pre x post :
  Forall (λ y, f y = false) pre → f x = true → List.find f (pre ++ x :: post) = Some x.
Proof. intros Hpre Hx. induction Hpre as [|y pre Hy _ IH]; simpl; [by rewrite Hx|]. by rewrite Hy. Qed.

Lemma preferred_picks fresh ip : preferred fresh = Some ip ↔ picks fresh ip.
Proof.
  unfold preferred, picks. destruct fresh as [l|e]; [|split; [done|by intros (? & ? & _)]]. split.
  - pose proof (find_first is_ipv4 l) as Hf. destruct (List.find is_ipv4 l) as [x|].
    + intros [= <-]. eexists. split; [done|]. by left.
    + intros Hh. eexists. split; [done|]. by right.
  - intros (? & [= <-] & [(pre & post & -> & Hip & Hpre)|[Hall Hh]]); [by rewrite find_skip|].
    pose proof (find_first is_ipv4 l) as Hf. destruct (List.find is_ipv4 l) as [x|]; [|done].
    destruct Hf as (pre & post & -> & Hx & _). apply Forall_app in Hall as [_ Hall].
    apply Forall_cons in Hall as [Hall _]. congruence.
Qed.

(** The address that the last of the tasks [past] to find one has found. *)
Definition last_found (past : list Completion) (host : bytes) (o : option IpAddr) : Prop :=
  match o with
  | Some ip => ∃ before task after, past = before ++ task :: after ∧ found task host ip ∧
                 Forall (λ t, ∀ ip, ¬ found t host ip) after
  | None => Forall (λ t, ∀ ip, ¬ found t host ip) past
  end.
(** The cache after the tasks [past]. *)
Definition cached_by (past : list Completion) (g : LastGood) : Prop :=
  ∀ host, last_found past host (g !! host_key host).

Lemma cached_by_start : cached_by [] ∅.
Proof. intros host. rewrite lookup_empty. constructor. Qed.

Lemma last_found_skip past host o task :
  last_found past host o → (∀ ip, ¬ found task host ip) → last_found (past ++ [task]) host o.
Proof.
  intros Hl Hno. destruct o as [ip|]; simpl in *.
  - destruct Hl as (before & t & after & -> & Ht & Hafter). exists before, t, (after ++ [task]).
    rewrite <-app_assoc. split_and!; [done|done|]. apply Forall_app. split; [done|]. by apply Forall_singleton.
  - apply Forall_app. split; [done|]. by apply Forall_singleton.
Qed.

Lemma cached_by_skip past g task :
  cached_by past g → (∀ host ip, ¬ found task host ip) → cached_by (past ++ [task]) g.
Proof. intros Hg Hno host. by apply last_found_skip. Qed.

Lemma cached_by_found past g h fresh ip :
  cached_by past g → parse_ip h = None → picks fresh ip →
  cached_by (past ++ [(h, Some fresh)]) (<[host_key h := ip]> g).
Proof.
  intros Hg Hh Hip host. destruct (decide (host_key h = host_key host)) as [Heq|Hne].
  - rewrite Heq, lookup_insert_eq. exists past, (h, Some fresh), []. split_and!; [done| |constructor].
    split; [by apply same_host_key|]. split; [done|by exists fresh].
  - rewrite lookup_insert_ne by done. apply last_found_skip; [apply Hg|].
    intros ip' [Hs _]. by apply same_host_key in Hs.
Qed.

Lemma resolve_given past host fresh g a g' :
  cached_by past g → resolve host fresh g = (a, g') →
  given past host fresh a ∧ cached_by (past ++ [(host, Some fresh)]) g'.
Proof.
  intros Hg. unfold resolve. destruct (parse_ip host) as [own|] eqn:Ep.
  { intros [= <- <-]. split; [by constructor|]. apply cached_by_skip; [done|]. intros h ip (_ & Hn & _). simpl in Hn. congruence. }
  fold (preferred fresh). destruct (preferred fresh) as [ip|] eqn:Ef.
  { apply preferred_picks in Ef. intros [= <- <-]. split; [by apply given_fresh|by apply cached_by_found]. }
  assert (Hno : ∀ ip, ¬ picks fresh ip) by (intros ip Hip%preferred_picks; congruence).
  intros Hr. assert (g' = g) as -> by by injection Hr. split.
  - pose proof (Hg host) as Hl. destruct (g !! host_key host) as [ip|]; injection Hr as <-.
    + destruct Hl as (before & task & after & ? & ? & ?). by eapply given_last.
    + by apply given_name.
  - apply cached_by_skip; [done|]. intros h ip (_ & _ & f & Hf & Hip). simpl in Hf. injection Hf as <-. by destruct (Hno ip).
Qed.

(** What the tasks of an export give each host. *)
Lemma join_tasks_given past tasks addresses g addresses' g' :
  cached_by past g → join_tasks tasks addresses g = (addresses', g') →
  cached_by (past ++ tasks) g' ∧
  ∀ host,
    (Forall (λ t : Completion, t.1 = host → t.2 = None) tasks ∧ addresses' !! host = addresses !! host) ∨
    ∃ pre fresh post a, tasks = pre ++ (host, Some fresh) :: post ∧
      Forall (λ t : Completion, t.1 = host → t.2 = None) post ∧
      given (past ++ pre) host fresh a ∧ addresses' !! host = Some a.
Proof.
  revert past addresses g; induction tasks as [|[h o] tasks IH]; intros past addresses g Hg; cbn [join_tasks].
  { intros [= <- <-]. rewrite app_nil_r. split; [done|]. intros host. by left. }
  assert (Hext : ∀ g1 addresses1, cached_by (past ++ [(h, o)]) g1 → join_tasks tasks addresses1 g1 = (addresses', g') →
    cached_by (past ++ (h, o) :: tasks) g' ∧ ∀ host,
      (Forall (λ t : Completion, t.1 = host → t.2 = None) tasks ∧ addresses' !! host = addresses1 !! host) ∨
      ∃ pre fresh post a, (h, o) :: tasks = pre ++ (host, Some fresh) :: post ∧
        Forall (λ t : Completion, t.1 = host → t.2 = None) post ∧ given (past ++ pre) host fresh a ∧
        addresses' !! host = Some a).
  { intros g1 addresses1 Hg1 Hj. destruct (IH _ _ _ Hg1 Hj) as [Hc Hh]. rewrite <-app_assoc in Hc. split; [done|].
    intros host. destruct (Hh host) as [?|(pre & fresh & post & a & -> & Hpost & Hgiven & Ha)]; [by left|right].
    exists ((h, o) :: pre), fresh, post, a. rewrite <-app_assoc in Hgiven. by split_and!. }
  destruct o as [fresh|].
  - destruct (resolve h fresh g) as [b g1] eqn:Er. destruct (resolve_given _ _ _ _ _ _ Hg Er) as [Hgiven Hg1]. intros Hj.
    destruct (Hext _ _ Hg1 Hj) as [Hc Hh]. split; [done|]. intros host. destruct (Hh host) as [[Hnone Hl]|?]; [|by right].
    destruct (decide (h = host)) as [->|Hne].
    + right. exists [], fresh, tasks, b. rewrite app_nil_r. split_and!; try done. by rewrite Hl, lookup_insert_eq.
    + left. split; [by constructor|]. by rewrite Hl, lookup_insert_ne.
  - intros Hj. destruct (Hext g addresses) as [Hc Hh]; [|done|].
    { apply cached_by_skip; [done|]. by intros host ip (_ & _ & ? & ? & _). }
    split; [done|]. intros host. destruct (Hh host) as [[Hnone Hl]|?]; [|by right]. left. split; [by constructor|done].
Qed.

Lemma given_text past host fresh a : given past host fresh a → a = host ∨ ∃ ip, a = ip_to_string ip.
Proof. intros []; eauto. Qed.

Section Document.
Context `{Base64Url} {EchConfig : Type} (base64_decode : bytes → option bytes) (ech_new : bytes → option EchConfig).

(** The cache depends on the tasks alone, in their order. *)
Lemma join_tasks_cache past tasks a b g g1 h :
  (join_tasks past a g).2 = g1 → join_tasks tasks ∅ g1 = (b, h) → (join_tasks (past ++ tasks) a g).2 = h.
Proof.
  assert (Hany : ∀ tasks a b g, (join_tasks tasks a g).2 = (join_tasks tasks b g).2).
  { clear. induction tasks as [|[host [fresh|]] tasks IH]; intros a b g; cbn [join_tasks]; [done|..|by apply IH].
    destruct (resolve host fresh g) as [c g']. apply IH. }
  revert a g; induction past as [|[host [fresh|]] past IH]; intros a g; cbn [join_tasks app].
  - intros Hg Hj. simpl in Hg. subst g1. by rewrite (Hany tasks a ∅ g), Hj.
  - destruct (resolve host fresh g) as [c g']. apply IH.
  - apply IH.
Qed.

(** The alphabet of [STANDARD], with its padding. *)
Definition base64_byte (b : byte) : bool := is_alnum b || byteb b "+" || byteb b "/" || byteb b "=".
Hypothesis base64_alphabet : ∀ text decoded, base64_decode text = Some decoded → Forall (λ b, base64_byte b = true) text.

Abbreviation parse_ech := (Dialer.parse_ech_config base64_decode ech_new).

Lemma parse_ech_field text : is_ok (parse_ech text) = true → in_field text.
Proof.
  unfold Dialer.parse_ech_config. destruct (_ || _); [done|].
  destruct (base64_decode text) as [d|] eqn:E; [|done]. intros _.
  eapply Forall_impl; [by eapply base64_alphabet|]. intros b. unfold field_byte. by destruct b.
Qed.

(** The fields of a node's line. *)
Definition raw_fields (addresses : gmap bytes bytes) (n : RawNode) : list bytes :=
  let p := proxy n in
  [policy n ++ lit " = snell"; lit " " ++ default (server p) (addresses !! server p); lit " " ++ dec (port p);
   lit " psk=" ++ psk p; lit " version=4"; lit " obfs=ech-tls";
   lit " obfs-host=" ++ (if bool_decide (sni (obfs p) = []) then server p else sni (obfs p));
   lit " ech-config=" ++ ech_config (obfs p); lit " reuse=" ++ bool_text (reuse p); lit " udp-relay=" ++ bool_text (udp p)]
  ++ (if tfo p then [lit " tfo=true"] else []) ++ (if skip_cert_verify (obfs p) then [lit " skip-cert-verify=true"] else []).

Lemma raw_line_fields addresses n : raw_line addresses n = join [x2c] (raw_fields addresses n).
Proof.
  unfold raw_line, raw_fields. destruct (tfo (proxy n)), (skip_cert_verify (obfs (proxy n)));
    cbn [app join]; rewrite <-?app_assoc, ?app_nil_r; reflexivity.
Qed.

Lemma bool_text_field b : in_field (bool_text b).
Proof. by destruct b; repeat constructor. Qed.

Lemma raw_fields_ok addresses n :
  supported parse_ech (proxy n) = true → Forall policy_byte (policy n) → u16 (port (proxy n)) →
  (∀ host a, addresses !! host = Some a → a = host ∨ ∃ ip, a = ip_to_string ip) →
  Forall in_field (raw_fields addresses n).
Proof.
  intros Hs Hp Hport Haddr. unfold supported in Hs.
  repeat match type of Hs with (_ && _)%bool = true => apply andb_true_iff in Hs as [Hs ?] end.
  repeat match goal with
  | Hx : is_ok _ = true |- _ => apply parse_ech_field in Hx
  | Hx : safe_parameter _ = true |- _ => apply safe_parameter_field in Hx
  | Hx : safe_host (server _) = true |- _ => apply safe_host_field in Hx
  end.
  assert (in_field (default (server (proxy n)) (addresses !! server (proxy n)))) as Hserver.
  { destruct (addresses !! server (proxy n)) as [a|] eqn:E; simpl; [|done].
    destruct (Haddr _ _ E) as [->|[ip ->]]; [done|]. apply ip_text_field, ip_to_string_text. }
  assert (in_field (if bool_decide (sni (obfs (proxy n)) = []) then server (proxy n) else sni (obfs (proxy n)))) as Hsni.
  { case_bool_decide; [done|]. by apply safe_host_field. }
  assert (in_field (policy n)) as Hpol by (eapply Forall_impl; [exact Hp|apply policy_byte_field]).
  assert (u64 (port (proxy n))) as Hu by (unfold u16, u64, U16_MAX, U64_MAX in *; lia).
  unfold raw_fields. rewrite !Forall_app. split_and!.
  - repeat apply Forall_cons_2; [..|constructor]; try (apply Forall_app; split); try done;
      try (by repeat constructor); auto using dec_field, bool_text_field.
  - by destruct (tfo _); repeat constructor.
  - by destruct (skip_cert_verify _); repeat constructor.
Qed.

(** C35: The raw export cannot be broken by what a node is called or configured
    with. It is exactly one line per exported node, the exported nodes are
    supported ones in the order of the catalog and the others are counted as
    skipped, and every line splits at its commas into exactly the fields
    meant, with no field added by a name, key, host or ECH configuration. After
    earlier exports, whose tasks [past] made the cache, the server of a line is the
    node's own when no lookup of it ended, and else: the host itself if it is an
    address; the address its lookup just gave, an IPv4 one if there is one; the one
    that the last task to find any has found for the same host, up to the case of
    its letters and dots at its end; or the host as it is. *)
Theorem raw_lines_exact ps past tasks g doc g' :
  Forall (λ p, u16 (port p)) ps → (join_tasks past ∅ ∅).2 = g →
  render (raw_nodes parse_ech ps) tasks g = (doc, g') →
  let ns := raw_nodes parse_ech ps in
  proxy <$> nodes ns `sublist_of` ps ∧ skipped ns = (length ps - length (nodes ns))%nat ∧
  (join_tasks (past ++ tasks) ∅ ∅).2 = g' ∧
  ∃ addresses,
    split_on x0a doc = (raw_line addresses <$> nodes ns) ++ [[]] ∧
    (∀ n, n ∈ nodes ns → supported parse_ech (proxy n) = true ∧
       split_on x2c (raw_line addresses n) = raw_fields addresses n) ∧
    (∀ host,
       (Forall (λ t : Completion, t.1 = host → t.2 = None) tasks ∧ addresses !! host = None) ∨
       ∃ pre fresh post a, tasks = pre ++ (host, Some fresh) :: post ∧
         Forall (λ t : Completion, t.1 = host → t.2 = None) post ∧
         given (past ++ pre) host fresh a ∧ addresses !! host = Some a).
Proof.
  intros Hports Hg Hr. cbn zeta. destruct (raw_nodes_collected parse_ech ps) as (Hsub & Hskip & Hall).
  split; [done|]. split; [done|]. unfold render in Hr.
  destruct (join_tasks tasks ∅ g) as [addresses h] eqn:Hj. injection Hr as <- <-.
  split; [by eapply join_tasks_cache|]. exists addresses.
  assert (Hcache : cached_by past g).
  { destruct (join_tasks past ∅ ∅) as [x y] eqn:Hp. simpl in Hg. subst y.
    destruct (join_tasks_given [] past ∅ ∅ _ _ cached_by_start Hp) as [Hc _]. exact Hc. }
  destruct (join_tasks_given past tasks ∅ g _ _ Hcache Hj) as [_ Hgiven].
  assert (Haddr : ∀ host a, addresses !! host = Some a → a = host ∨ ∃ ip, a = ip_to_string ip).
  { intros host a Ha. destruct (Hgiven host) as [[_ Hn]|(? & ? & ? & b & _ & _ & Hb & Hl)].
    - by rewrite Hn, lookup_empty in Ha.
    - simplify_eq. by eapply given_text. }
  assert (Hfields : ∀ n, n ∈ nodes (raw_nodes parse_ech ps) → Forall in_field (raw_fields addresses n)).
  { intros n Hn. rewrite Forall_forall in Hall. destruct (Hall n Hn) as [Hs Hp].
    apply raw_fields_ok; [done|done| |].
    - rewrite Forall_forall in Hports. apply Hports. eapply elem_of_sublist; [|exact Hsub].
      apply list_elem_of_fmap. eauto.
    - done. }
  split_and!; [| |exact Hgiven].
  - assert (Hb : ∀ l : list RawNode, (l ≫= λ n, raw_line addresses n ++ [x0a])
                 = ((raw_line addresses <$> l) ≫= λ l, l ++ [x0a])).
    { induction l as [|n l IH]; [done|]. csimpl. by rewrite IH. }
    rewrite Hb. apply split_on_lines, Forall_fmap, Forall_forall. intros n Hn. simpl.
    rewrite raw_line_fields. intros Hin.
    assert (Forall (λ b, b ≠ x0a) (join [x2c] (raw_fields addresses n))) as Hlf.
    { apply join_forall; [by repeat constructor|]. eapply Forall_impl; [by apply Hfields|]. intros q Hq.
      eapply Forall_impl; [exact Hq|]. by intros b [_ ?]. }
    rewrite Forall_forall in Hlf. by apply (Hlf _ Hin).
  - intros n Hn. rewrite Forall_forall in Hall. destruct (Hall n Hn) as [Hs _]. split; [done|].
    rewrite raw_line_fields. apply split_on_join; [done|]. eapply Forall_impl; [by apply Hfields|].
    intros q Hq Hin. rewrite Forall_forall in Hq. by destruct (Hq _ Hin).
Qed.
End Document.

(** ** Witness: a name with a comma, and a node whose key has one *)

Definition demo_decode (text : bytes) : option bytes :=
  if forallb base64_byte text then Some [x00; x02; x00; x00] else None.
Definition demo_bad_key : Proxy :=
  let p := demo_proxy (lit "Fusion 02") in
  MkProxy (name p) (proxy_type p) (server p) (port p) (lit "a,b=c") (version p) (udp p) (tfo p) (reuse p)
    (identity p) (obfs p).
Definition demo_raw_proxies : list Proxy := [demo_proxy (lit "Fusion, 01"); demo_bad_key].
Definition demo_parse_ech : bytes → result unit := Dialer.parse_ech_config demo_decode (λ _, Some tt).
Definition demo_tasks : list Completion :=
  [(lit "node.test", Some (Ok [V6 (replicate 15 x00 ++ [x02]); V4 xc0 x00 x02 x01]))].

Lemma raw_lines_exact_witness :
  ∃ doc g', render (raw_nodes demo_parse_ech demo_raw_proxies) demo_tasks ∅ = (doc, g') ∧
    doc = lit "Fusion 01 = snell, 192.0.2.1, 443, psk=key, version=4, obfs=ech-tls, obfs-host=sni.test, ech-config=AA, reuse=true, udp-relay=true"
          ++ [x0a] ∧
    proxy <$> nodes (raw_nodes demo_parse_ech demo_raw_proxies) `sublist_of` demo_raw_proxies.
Proof.
  destruct (render (raw_nodes demo_parse_ech demo_raw_proxies) demo_tasks ∅) as [doc g'] eqn:Hr.
  exists doc, g'. split; [reflexivity|]. split.
  - change doc with (doc, g').1. rewrite <-Hr. by vm_compute.
  - assert (Halpha : ∀ text decoded, demo_decode text = Some decoded → Forall (λ b, base64_byte b = true) text).
    { unfold demo_decode. intros text decoded. destruct (forallb base64_byte text) eqn:E; [|done].
      intros _. by apply forallb_Forall_true. }
    refine (proj1 (raw_lines_exact demo_decode (λ _, Some tt) Halpha demo_raw_proxies [] demo_tasks ∅ doc g' _ eq_refl Hr)).
    repeat constructor; discriminate.
Defined.
