(* ===== verification/Subscription.v ===== *)
(** * Subscription: the account's traffic quota ([src/subscription.rs])

    Parsing and rendering of the [Subscription-Userinfo] header. *)
From S2P Require Import Prelude Bytes Text.
Local Open Scope Z_scope.

Definition MAX_USERINFO_AGE : Z := 24 * 3600.
(** The last second of the year 9999. *)
Definition MAX_EXPIRE : Z := 253402300799.

Record UserInfo : Type := MkUserInfo { upload : Z; download : Z; total : Z; expire : option Z }.

#[export] Instance user_info_eq_dec : EqDecision UserInfo.
Proof. solve_decision. Defined.

(** [checked_add] *)
Definition checked_add (a b : Z) : option Z := if a + b <=? U64_MAX then Some (a + b) else None.
(** [checked_sub] *)
Definition checked_sub (a b : Z) : option Z := if b <=? a then Some (a - b) else None.

Definition valid (info : UserInfo) : bool :=
  bool_decide (is_Some (checked_add (upload info) (download info)))
  && match expire info with Some time => time <=? MAX_EXPIRE | None => true end.

Definition field_names : list bytes := [lit "upload"; lit "download"; lit "total"; lit "expire"].

Abbreviation fields := (gmap bytes Z).

(** One part of the header, added to the fields read so far. *)
Definition parse_part (f : fields) (part : bytes) : option fields :=
  '(key, value) ← split_once "=" part;
  let key := trim key in
  let value := trim value in
  if negb (bool_decide (key ∈ field_names)) || bool_decide (value = []) || negb (forallb is_digit value) then None
  else
    n ← parse_uint U64_MAX value;
    if bool_decide (is_Some (f !! key)) then None else Some (<[key := n]> f).

Fixpoint parse_parts (f : fields) (parts : list bytes) : option fields :=
  match parts with
  | [] => Some f
  | part :: parts => f ← parse_part f part; parse_parts f parts
  end.

Definition parse (value : bytes) : option UserInfo :=
  if (2048 <? length value)%nat || existsb (λ c, is_control (fst c)) (chars value) then None
  else
    f ← parse_parts ∅ (filter (λ part, trim part ≠ []) (split_on ";" value));
    u ← f !! lit "upload"; d ← f !! lit "download"; t ← f !! lit "total";
    let info := MkUserInfo u d t (f !! lit "expire") in
    if valid info then Some info else None.

Definition header (fetched_at : option Z) (now : Z) (info : UserInfo) : option bytes :=
  fetched ← fetched_at;
  age ← checked_sub now fetched;
  if (MAX_USERINFO_AGE <? age) || negb (valid info) then None
  else Some (lit "upload=" ++ dec (upload info) ++ lit "; download=" ++ dec (download info)
             ++ lit "; total=" ++ dec (total info)
             ++ match expire info with Some time => lit "; expire=" ++ dec time | None => [] end).

(** The tests of the source. *)
Example parse_examples :
  parse (lit "upload=0; download=100; total=1000; expire=1700000000") = Some (MkUserInfo 0 100 1000 (Some 1700000000)) ∧
  parse [] = None ∧ parse (lit "upload=0; download=0") = None ∧ parse (lit "upload=-1; download=2; total=3") = None ∧
  parse (lit "upload=1;upload=2;download=2;total=3") = None ∧
  parse (lit "upload=1;download=2;total=18446744073709551616") = None ∧
  parse (lit "upload=1;download=2;total=3;expire=18446744073709551615") = None.
Proof. by vm_compute. Qed.

(** ** Bounds of what is parsed *)

Definition user_info_ok (info : UserInfo) : Prop :=
  u64 (upload info) ∧ u64 (download info) ∧ u64 (total info) ∧ upload info + download info <= U64_MAX ∧
  (∀ time, expire info = Some time → 0 <= time <= MAX_EXPIRE).

Definition fields_ok (f : fields) : Prop := ∀ k n, f !! k = Some n → u64 n ∧ k ∈ field_names.

Lemma parse_part_ok f part f' : parse_part f part = Some f' → fields_ok f → fields_ok f'.
Proof.
  unfold parse_part. intros ([key value] & _ & Hp)%bind_Some Hf. destruct (_ || _) eqn:E; [done|].
  apply bind_Some in Hp as (n & Hn%parse_uint_range & Hp). case_bool_decide; [done|]. injection Hp as <-.
  reflect_bools. intros k m [[<- <-]|[_ Hk]]%lookup_insert_Some; [|by apply Hf].
  done.
Qed.

Lemma parse_parts_ok f parts f' : parse_parts f parts = Some f' → fields_ok f → fields_ok f'.
Proof.
  revert f; induction parts as [|p parts IH]; intros f; simpl; [by intros [= <-]|].
  intros (g & Hg & Hp)%bind_Some Hf. eapply IH; [done|]. by eapply parse_part_ok.
Qed.

(** Whatever the API sends as its quota, what is accepted of it is a total
    of 64-bit counters whose upload and download can be added without
    overflow, and an expiry that is a representable date; anything else is no
    quota, never a zero. *)
Theorem parse_bounds value info : parse value = Some info → user_info_ok info.
Proof.
  unfold parse. destruct (_ || _); [done|]. intros (f & Hf & Hp)%bind_Some.
  assert (Hok : fields_ok f) by (eapply parse_parts_ok; [exact Hf|by intros k n ?%lookup_empty_Some]).
  apply bind_Some in Hp as (u & Hu & Hp). apply bind_Some in Hp as (d & Hd & Hp).
  apply bind_Some in Hp as (t & Ht & Hp). destruct (valid _) eqn:Hv; [|done]. injection Hp as <-.
  unfold valid in Hv. cbn [upload download expire] in Hv. apply andb_true_iff in Hv as [Hsum Hexp].
  apply bool_decide_eq_true in Hsum. unfold checked_add in Hsum. destruct (u + d <=? U64_MAX) eqn:E; [|by destruct Hsum].
  reflect_bools. split_and!; [by eapply Hok..|done|].
  cbn [expire]. intros time Htime. rewrite Htime in Hexp. reflect_bools. apply Hok in Htime as [[? ?] _]. lia.
Qed.

(** ** The header and back *)

Lemma trim_ascii_text l : ascii l → trim l = trim_list (is_whitespace ∘ b2z) l.
Proof.
  intros Hl. unfold trim, chars. rewrite decode_utf8_ascii by done.
  assert (Hc : omap (λ p : result Z * bytes, match p.1 with Ok c => Some (c, p.2) | Err _ => None end)
                 ((λ b, (Ok (b2z b), [b])) <$> l) = (λ b, (b2z b, [b])) <$> l).
  { clear. induction l as [|b l IH]; csimpl; [done|]. by rewrite IH. }
  rewrite Hc. clear Hl Hc.
  assert (Hd : ∀ k, drop_while (is_whitespace ∘ fst) ((λ b, (b2z b, [b])) <$> k)
               = (λ b, (b2z b, [b])) <$> drop_while (is_whitespace ∘ b2z) k).
  { induction k as [|b k IH]; csimpl; [done|]. unfold compose in *. simpl. by case_match. }
  unfold trim_list. rewrite Hd, <-fmap_reverse, Hd, <-fmap_reverse. generalize (reverse (drop_while (is_whitespace ∘ b2z) (reverse (drop_while (is_whitespace ∘ b2z) l)))).
  clear. intros l. unfold unchars. rewrite <-list_fmap_compose. induction l as [|b l IH]; csimpl; [done|]. by rewrite IH.
Qed.

(** Text without white space at its ends stays; a blank in front goes. *)
Lemma trim_list_tight {A} (p : A → bool) a l b :
  p a = false → p b = false → trim_list p (a :: l ++ [b]) = a :: l ++ [b].
Proof.
  intros Ha Hb. unfold trim_list. simpl. rewrite Ha, app_comm_cons, reverse_app. simpl. rewrite Hb.
  by rewrite reverse_cons, reverse_involutive.
Qed.

Lemma drop_while_elem {A} (p : A → bool) l x : x ∈ l → p x = false → x ∈ drop_while p l.
Proof.
  induction l as [|y l IH]; [done|]. intros Hx Hp. simpl. destruct (p y) eqn:Hy; [|done].
  apply elem_of_cons in Hx as [->|Hx]; [congruence|by apply IH].
Qed.

Lemma trim_list_elem {A} (p : A → bool) l x : x ∈ l → p x = false → x ∈ trim_list p l.
Proof.
  intros Hx Hp. unfold trim_list. apply elem_of_reverse, drop_while_elem, Hp.
  by apply elem_of_reverse, drop_while_elem.
Qed.

Lemma trim_list_none {A} (p : A → bool) l : Forall (λ x, p x = false) l → trim_list p l = l.
Proof.
  assert (Hd : ∀ k, Forall (λ x, p x = false) k → drop_while p k = k).
  { intros [|x k]; [done|]. intros [Hx _]%Forall_cons. simpl. by rewrite Hx. }
  intros Hl. unfold trim_list. rewrite (Hd l Hl), Hd, reverse_involutive; [done|by apply Forall_reverse].
Qed.

(** Printable ASCII, as the header is. *)
Definition printable (b : byte) : bool := (32 <=? b2z b) && (b2z b <? 127).

Lemma printable_ascii l : forallb printable l = true → ascii l.
Proof.
  intros Hl. apply Forall_forall. intros b Hb%list_elem_of_In. rewrite forallb_forall in Hl.
  specialize (Hl b Hb). unfold printable in Hl. reflect_bools. lia.
Qed.

Lemma printable_no_control l : forallb printable l = true → existsb (λ c, is_control (fst c)) (chars l) = false.
Proof.
  intros Hl. apply not_true_is_false. intros (c & Hc & Hctl)%existsb_exists. apply list_elem_of_In in Hc.
  unfold chars in Hc. rewrite decode_utf8_ascii in Hc by by apply printable_ascii.
  apply list_elem_of_omap in Hc as (q & (b & -> & Hb)%list_elem_of_fmap & [= <-]).
  rewrite forallb_forall in Hl. apply list_elem_of_In in Hb. specialize (Hl b Hb). unfold printable, is_control in *.
  simpl in Hctl. reflect_bools. apply orb_true_iff in Hctl as [Hctl|Hctl]; reflect_bools; lia.
Qed.

Lemma is_digit_printable b : is_digit b = true → printable b = true ∧ (is_whitespace (b2z b) = false ∧ b ≠ x3b).
Proof. by destruct b. Qed.

Lemma dec_printable n : u64 n → forallb printable (dec n) = true.
Proof.
  intros Hn%dec_digits. apply forallb_forall. intros b Hb%list_elem_of_In.
  rewrite Forall_forall in Hn. by apply is_digit_printable, Hn.
Qed.

Lemma trim_dec n : u64 n → trim (dec n) = dec n.
Proof.
  intros Hn. rewrite trim_ascii_text by by apply printable_ascii, dec_printable.
  apply trim_list_none. eapply Forall_impl; [by apply dec_digits|]. intros b Hb. by apply is_digit_printable.
Qed.

(** A field as the header has it, after a blank or at its start. *)
Definition field (pre name : bytes) (n : Z) : bytes := pre ++ name ++ lit "=" ++ dec n.

(** What is asked of a field's name, by evaluation on the four of them. *)
Definition name_ok (pre name : bytes) : bool :=
  forallb printable (pre ++ name) && negb (existsb (byteb x3b) (pre ++ name)) && negb (existsb (byteb "=") (pre ++ name))
  && bytes_eqb (trim (pre ++ name)) name && bool_decide (name ∈ field_names)
  && bool_decide (length (pre ++ name) <= 10)%nat.

Section Field.
Context (pre name : bytes) (n : Z) (Hname : name_ok pre name = true) (Hn : u64 n).

Lemma field_parts : field pre name n = (pre ++ name) ++ "="%byte :: dec n.
Proof. unfold field. by rewrite app_assoc. Qed.

Lemma field_printable : forallb printable (field pre name n) = true.
Proof.
  unfold name_ok in Hname. reflect_bools. rewrite field_parts, forallb_app. cbn [forallb].
  rewrite dec_printable by done. by apply andb_true_iff.
Qed.

Lemma field_length : (length (field pre name n) <= 31)%nat.
Proof.
  unfold name_ok in Hname. reflect_bools. rewrite field_parts, length_app. simpl.
  pose proof (length_dec n). lia.
Qed.

Lemma field_no_semicolon : x3b ∉ field pre name n.
Proof.
  unfold name_ok in Hname. reflect_bools. rewrite field_parts, elem_of_app, elem_of_cons.
  intros [Hs|[Hs|Hs]]; [|done|].
  - match goal with H : existsb (byteb x3b) _ = false |- _ => rewrite <-not_true_iff_false in H; apply H end.
    apply existsb_exists. exists x3b. split; [by apply list_elem_of_In|by apply byteb_eq].
  - pose proof (dec_digits n Hn) as Hd. rewrite Forall_forall in Hd. by destruct (is_digit_printable _ (Hd _ Hs)) as (_ & _ & ?).
Qed.

Lemma field_kept : trim (field pre name n) ≠ [].
Proof.
  rewrite trim_ascii_text by by apply printable_ascii, field_printable. intros Hnil.
  assert ("="%byte ∈ trim_list (is_whitespace ∘ b2z) (field pre name n)) as Hin.
  { apply trim_list_elem; [|done]. rewrite field_parts, elem_of_app, elem_of_cons. auto. }
  rewrite Hnil in Hin. by apply not_elem_of_nil in Hin.
Qed.

Lemma parse_field f : f !! name = None → parse_part f (field pre name n) = Some (<[name := n]> f).
Proof.
  intros Hnone. pose proof Hname as Hok. unfold name_ok in Hok. apply andb_true_iff in Hok as [Hok _].
  apply andb_true_iff in Hok as [Hok Hin]. apply bool_decide_eq_true in Hin.
  apply andb_true_iff in Hok as [Hok Htrim]. apply bool_decide_eq_true in Htrim.
  apply andb_true_iff in Hok as [Hok Heq]. apply negb_true_iff in Heq.
  unfold parse_part. rewrite (proj2 (split_once_spec "=" _ (pre ++ name) (dec n))).
  2: { split; [by rewrite field_parts|]. intros Hs. rewrite <-not_true_iff_false in Heq. apply Heq.
       apply existsb_exists. exists "="%byte. split; [by apply list_elem_of_In|by apply byteb_eq]. }
  cbn [mbind option_bind]. rewrite Htrim, (trim_dec n Hn).
  rewrite bool_decide_eq_true_2, bool_decide_eq_false_2 by (done || by apply dec_nonempty). cbn [negb orb].
  replace (forallb is_digit (dec n)) with true.
  2: { symmetry. apply forallb_forall. intros b Hb%list_elem_of_In. pose proof (dec_digits n Hn) as Hd.
       rewrite Forall_forall in Hd. by apply Hd. }
  cbn [negb]. rewrite parse_uint_dec by (done || apply Hn). cbn [mbind option_bind].
  by rewrite bool_decide_eq_false_2 by (rewrite Hnone; by intros []).
Qed.
End Field.

Lemma filter_keep {A} (P : A → Prop) `{∀ x, Decision (P x)} l : Forall P l → filter P l = l.
Proof. induction 1 as [|x l Hx _ IH]; [done|]. by rewrite filter_cons_True, IH. Qed.

(** The header as parts between semicolons. *)
Definition parts_of (info : UserInfo) : list bytes :=
  [field [] (lit "upload") (upload info); field (lit " ") (lit "download") (download info);
   field (lit " ") (lit "total") (total info)]
  ++ match expire info with Some time => [field (lit " ") (lit "expire") time] | None => [] end.

Lemma header_parts fetched now info :
  fetched <= now <= fetched + MAX_USERINFO_AGE → valid info = true →
  header (Some fetched) now info = Some (join [x3b] (parts_of info)).
Proof.
  intros Hage Hv. unfold header, checked_sub. cbn [mbind option_bind].
  assert (fetched <=? now = true) as -> by (apply Z.leb_le; lia). cbn [mbind option_bind].
  assert (MAX_USERINFO_AGE <? now - fetched = false) as -> by (apply Z.ltb_ge; lia).
  rewrite Hv. cbn [negb orb]. f_equal. unfold parts_of, field.
  destruct (expire info); cbn [app join]; rewrite ?app_nil_r, <-?app_assoc; reflexivity.
Qed.

Lemma header_printable fetched now info v :
  user_info_ok info → header fetched now info = Some v → forallb printable v = true.
Proof.
  intros (Hu & Hd & Ht & _ & He). unfold header. destruct fetched as [f|]; [|done]. cbn [mbind option_bind].
  destruct (checked_sub now f) as [age|]; [|done]. cbn [mbind option_bind].
  destruct (_ || _); [done|]. intros <-%(inj Some).
  destruct (expire info) as [t|]; rewrite !forallb_app, !dec_printable; try done.
  specialize (He t eq_refl). unfold u64, U64_MAX, MAX_EXPIRE in *. lia.
Qed.

Lemma parts_fields info :
  user_info_ok info →
  Forall (λ p, forallb printable p = true ∧ x3b ∉ p ∧ trim p ≠ [] ∧ (length p <= 31)%nat) (parts_of info).
Proof.
  intros (Hu & Hd & Ht & _ & He).
  assert (∀ time, expire info = Some time → u64 time) as Hexp.
  { intros time Htime. specialize (He time Htime). unfold u64, U64_MAX, MAX_EXPIRE in *. lia. }
  assert (Hf : ∀ pre name n, name_ok pre name = true → u64 n → forallb printable (field pre name n) = true
    ∧ x3b ∉ field pre name n ∧ trim (field pre name n) ≠ [] ∧ (length (field pre name n) <= 31)%nat).
  { intros. split_and!; [by apply field_printable|by apply field_no_semicolon|by apply field_kept|by apply field_length]. }
  unfold parts_of. apply Forall_app. split.
  - do 3 (apply Forall_cons; split; [by apply Hf|]). constructor.
  - destruct (expire info) as [time|]; [|constructor]. constructor; [|constructor].
    apply Hf; [by vm_compute|by apply Hexp].
Qed.

Definition info_fields (info : UserInfo) : fields :=
  let f := <[lit "total" := total info]> (<[lit "download" := download info]> (<[lit "upload" := upload info]> ∅)) in
  match expire info with Some time => <[lit "expire" := time]> f | None => f end.

Lemma parse_fields info : user_info_ok info → parse_parts ∅ (parts_of info) = Some (info_fields info).
Proof.
  intros (Hu & Hd & Ht & _ & He).
  assert (∀ time, expire info = Some time → u64 time) as Hexp.
  { intros time Htime. specialize (He time Htime). unfold u64, U64_MAX, MAX_EXPIRE in *. lia. }
  unfold parts_of, info_fields. cbn [app parse_parts].
  do 3 (rewrite parse_field by done; cbn [mbind option_bind]).
  destruct (expire info) as [time|]; cbn [parse_parts]; [|done].
  rewrite parse_field; [done|done|by apply Hexp|done].
Qed.

(** The quota header published to clients is one the parser reads back as
    the very same quota: for every valid quota not older than a day the header
    is rendered, it is printable text without control characters (so it cannot
    add a header), and parsing it gives the quota. *)
Theorem header_roundtrip info fetched now :
  user_info_ok info → fetched <= now <= fetched + MAX_USERINFO_AGE →
  ∃ h, header (Some fetched) now info = Some h ∧ forallb printable h = true ∧ parse h = Some info.
Proof.
  intros Hok Hage. assert (Hv : valid info = true).
  { destruct Hok as (_ & _ & _ & Hsum & He). unfold valid, checked_add. apply Z.leb_le in Hsum as ->. simpl.
    destruct (expire info) as [time|]; [|done]. apply Z.leb_le. by apply He. }
  exists (join [x3b] (parts_of info)). split; [by apply header_parts|].
  pose proof (parts_fields info Hok) as Hparts.
  assert (Hprint : forallb printable (join [x3b] (parts_of info)) = true).
  { apply forallb_Forall_true, join_forall; [by repeat constructor|]. eapply Forall_impl; [exact Hparts|].
    by intros p (?%forallb_Forall_true & _). }
  split; [exact Hprint|]. unfold parse. rewrite printable_no_control by done.
  assert (Hlen : (length (join [x3b] (parts_of info)) <= 128)%nat).
  { clear -Hparts. revert Hparts. unfold parts_of.
    destruct (expire info); cbn [app join]; intros Hp;
      repeat (apply Forall_cons in Hp as [(_ & _ & _ & ?) Hp]);
      repeat (rewrite ?length_app; cbn [length]); lia. }
  assert ((2048 <? length (join [x3b] (parts_of info)))%nat = false) as -> by (apply Nat.ltb_ge; lia). cbn [orb].
  rewrite split_on_join; [|done|eapply Forall_impl; [exact Hparts|]; by intros p (_ & ? & _)].
  rewrite filter_keep; [|eapply Forall_impl; [exact Hparts|]; by intros p (_ & _ & ? & _)].
  rewrite parse_fields by done. cbn [mbind option_bind]. clear Hlen Hprint Hparts.
  assert (Hl : info_fields info !! lit "upload" = Some (upload info) ∧ info_fields info !! lit "download" = Some (download info)
    ∧ info_fields info !! lit "total" = Some (total info) ∧ info_fields info !! lit "expire" = expire info).
  { destruct info as [u d t [e|]]; split_and!; reflexivity. }
  destruct Hl as (-> & -> & -> & ->). cbn [mbind option_bind].
  assert (MkUserInfo (upload info) (download info) (total info) (expire info) = info) as -> by by destruct info.
  by rewrite Hv.
Qed.

Definition demo_info : UserInfo := MkUserInfo 1 2 300 (Some 1700000000).

Lemma header_roundtrip_witness :
  user_info_ok demo_info ∧
  ∃ h, header (Some 10) 20 demo_info = Some h ∧ parse h = Some demo_info ∧ length h = 50%nat.
Proof.
  assert (Hok : user_info_ok demo_info).
  { unfold user_info_ok, u64, U64_MAX, MAX_EXPIRE; simpl. split_and!; try lia. intros t [= <-]. lia. }
  destruct (header_roundtrip demo_info 10 20 Hok) as (h & Hh & _ & Hp); [by vm_compute|].
  split; [exact Hok|]. exists h. split_and!; [exact Hh|exact Hp|].
  vm_compute in Hh. by injection Hh as <-.
Defined.

Lemma parse_bounds_witness :
  parse (lit "upload=1;download=2;total=300") = Some (MkUserInfo 1 2 300 None) ∧
  user_info_ok (MkUserInfo 1 2 300 None).
Proof.
  assert (Hp : parse (lit "upload=1;download=2;total=300") = Some (MkUserInfo 1 2 300 None)) by by vm_compute.
  split; [exact Hp|]. exact (parse_bounds _ _ Hp).
Defined.
