(* ===== verification/Accept.v ===== *)
(** * Accept: taking connections off a listener ([src/accept.rs])

    The classification of accept errors, by the codes of Linux (and of Windows,
    [classify_os_windows]), and the loop around [accept]. The outcomes of the calls
    are the input; the pauses before a new call are recorded. *)
From S2P Require Import Prelude.
Local Open Scope Z_scope.

Definition RESOURCE_BACKOFF : Z := 1000.

(** The kinds of [io::Error] told apart, and its OS code. *)
Inductive ErrorKind : Type := ConnectionAborted | ConnectionReset | ConnectionRefused | Interrupted | OtherKind.
Record io_error : Type := MkIoError { kind : ErrorKind; raw_os_error : option Z }.

Inductive AcceptError : Type := Connection | Resource | Fatal.

#[export] Instance kind_eq_dec : EqDecision ErrorKind.
Proof. solve_decision. Defined.
#[export] Instance accept_error_eq_dec : EqDecision AcceptError.
Proof. solve_decision. Defined.

(** ENETDOWN, ENETUNREACH, EHOSTDOWN, EHOSTUNREACH, EPROTO, ENOPROTOOPT *)
Definition connection_codes : list Z := [100; 101; 112; 113; 71; 92].
(** EMFILE, ENFILE, ENOBUFS, ENOMEM *)
Definition resource_codes : list Z := [24; 23; 105; 12].

Definition classify_os (code : option Z) : AcceptError :=
  match code with
  | Some c =>
      if existsb (Z.eqb c) connection_codes then Connection
      else if existsb (Z.eqb c) resource_codes then Resource else Fatal
  | None => Fatal
  end.

(** The same for Windows: WSAENETDOWN, WSAENETUNREACH, WSAEHOSTUNREACH,
    WSAECONNABORTED, WSAECONNRESET; WSAEMFILE, WSAENOBUFS *)
Definition classify_os_windows (code : option Z) : AcceptError :=
  match code with
  | Some c =>
      if existsb (Z.eqb c) [10050; 10051; 10065; 10053; 10054] then Connection
      else if existsb (Z.eqb c) [10024; 10055] then Resource else Fatal
  | None => Fatal
  end.

Definition classify (e : io_error) : AcceptError :=
  match kind e with
  | ConnectionAborted | ConnectionReset | ConnectionRefused | Interrupted => Connection
  | OtherKind => classify_os (raw_os_error e)
  end.

Section Retry.
Context {T : Type}.

(** [retry] on the outcomes of its calls: the value it returns, the outcomes
    it leaves and the milliseconds it slept; [None] while it still waits for
    the next outcome. *)
Fixpoint retry (outcomes : list (io_error + T)) : option ((io_error + T) * list (io_error + T)) * Z :=
  match outcomes with
  | [] => (None, 0)
  | inr accepted :: rest => (Some (inr accepted, rest), 0)
  | inl e :: rest =>
      match classify e with
      | Connection => retry rest
      | Resource => let '(r, slept) := retry rest in (r, RESOURCE_BACKOFF + slept)
      | Fatal => (Some (inl e, rest), 0)
      end
  end.

(** An outcome the listener survives. *)
Definition transient (o : io_error + T) : Prop :=
  match o with inl e => classify e ≠ Fatal | inr _ => False end.

Definition exhausted (o : io_error + T) : bool :=
  match o with inl e => bool_decide (classify e = Resource) | inr _ => false end.

(** The accept loop survives every failure of a single connection and
    every exhausted resource, and nothing else: it returns at the first
    accepted connection or fatal error, whichever comes first, leaving the
    later connections to the next call, and before it calls again after an
    exhausted resource it pauses, once for each. *)
Theorem retry_survives outcomes r :
  (retry outcomes).1 = r →
  ∃ skipped, Forall transient skipped ∧
    (retry outcomes).2 = RESOURCE_BACKOFF * Z.of_nat (length (List.filter exhausted skipped)) ∧
    match r with
    | None => outcomes = skipped
    | Some (o, rest) => outcomes = skipped ++ o :: rest ∧ ¬ transient o
    end.
Proof.
  intros <-. induction outcomes as [|[e|t] outcomes IH]; cbn [retry].
  - exists []. split_and!; [constructor|done|done].
  - destruct (classify e) eqn:E.
    + destruct IH as (skipped & Htr & Hsl & Hr). exists (inl e :: skipped). split_and!.
      * constructor; [simpl; congruence|done].
      * simpl. rewrite bool_decide_eq_false_2 by congruence. done.
      * destruct (retry outcomes).1 as [[o rest]|]; [|by rewrite Hr]. destruct Hr as [-> ?]. by split.
    + destruct IH as (skipped & Htr & Hsl & Hr). exists (inl e :: skipped).
      destruct (retry outcomes) as [r slept]. simpl in *. split_and!.
      * constructor; [simpl; congruence|done].
      * rewrite bool_decide_eq_true_2 by done. simpl. unfold RESOURCE_BACKOFF in *. lia.
      * destruct r as [[o rest]|]; [|by rewrite Hr]. destruct Hr as [-> ?]. by split.
    + exists []. split_and!; [constructor|done|]. split; [done|]. simpl. naive_solver.
  - exists []. split_and!; [constructor|done|]. split; [done|]. by intros [].
Qed.
End Retry.

Definition os_error (code : Z) : io_error := MkIoError OtherKind (Some code).

(** The tests of the source: EPROTO, EHOSTUNREACH, EMFILE, ENFILE, ENOBUFS, EBADF, EINVAL. *)
Example classifies_accept_errors :
  map (classify ∘ os_error) [71; 113; 24; 23; 105; 9; 22]
  = [Connection; Connection; Resource; Resource; Resource; Fatal; Fatal].
Proof. done. Qed.

(** WSAECONNRESET, WSAEMFILE, WSAEINVAL *)
Example classifies_windows_errors :
  map (classify_os_windows ∘ Some) [10054; 10024; 10022] = [Connection; Resource; Fatal].
Proof. done. Qed.

Lemma retry_survives_witness :
  ∃ skipped, Forall transient skipped ∧ [inl (os_error 24); inl (os_error 71); inr 7%nat; inr 8%nat] = skipped ++ [inr 7%nat; inr 8%nat].
Proof.
  destruct (retry_survives [inl (os_error 24); inl (os_error 71); inr 7%nat; inr 8%nat]
              (Some (inr 7%nat, [inr 8%nat])) eq_refl) as (skipped & Htr & _ & Heq & _).
  exists skipped. split; [exact Htr|exact Heq].
Defined.
