(* ===== verification/Gateway.v ===== *)
(** * Gateway: routes, runtimes and reloads ([src/gateway.rs])

    A router maps selectors to routes and owns the runtimes of its nodes; a new
    router shares the runtimes of unchanged nodes with the one before. The
    manager replaces routers and closes the clients no router uses any more.
    Building a dialer and a client is [make_runtime]: whether it succeeds. *)
From S2P Require Import Prelude Bytes Text Ip Nodes Provider RawProvider.
Local Open Scope Z_scope.

Definition ROUTING_SECRET_CONTEXT : bytes := lit "oixc-proxy/provider-routing/v1".

(** [Arc<NodeRuntime>]: an identity and the node it was built for. The client is
    the runtime's, so its identity names the client too. *)
Record NodeRuntime : Type := MkRuntime { r_id : nat; r_proxy : Proxy }.

Record Route : Type := MkRoute { route_client : nat; route_udp : bool }.

Definition runtime_route (r : NodeRuntime) : Route := MkRoute (r_id r) (udp (r_proxy r)).

Record ProviderDocs : Type := MkDocs {
  surge_http : bytes;
  surge_socks : bytes;
  clash_http : bytes;
  clash_socks : bytes
}.

Definition surge (d : ProviderDocs) (socks : bool) : bytes := if socks then surge_socks d else surge_http d.
Definition clash (d : ProviderDocs) (socks : bool) : bytes := if socks then clash_socks d else clash_http d.

Record Router : Type := MkRouter {
  routes : gmap bytes Route;
  runtimes : gmap bytes NodeRuntime;
  filtered : ProviderDocs;
  all : ProviderDocs;
  routing_secret : bytes;
  published_count : nat;
  raw_filtered : RawNodes;
  raw_all : RawNodes;
  allow_remote_raw_provider : bool
}.

(** [dial_limit]: the permits of the semaphore; the transport context is the
    environment of [make_runtime]. *)
Record GatewayContext : Type := MkContext {
  outbound_ip : IpAddr;
  udp_relay_advertised : bool;
  context_secret : bytes;
  dial_limit : Z
}.

Section Gateway.
Context `{Base64Url}.
Context (make_runtime : Proxy → result unit) {EchConfig : Type} (parse_ech_config : bytes → result EchConfig).
Context (hmac_sha256 : bytes → bytes → bytes).

Definition derive_routing_secret (key_material : bytes) : result bytes :=
  if bool_decide (trim key_material = []) then Err (Bail "gateway routing key material is required")
  else Ok (b64_encode (hmac_sha256 key_material ROUTING_SECRET_CONTEXT)).

Definition render_provider_docs (ps : list Proxy) (listen_address : bytes) (port : Z) (secret : bytes)
    (advertised : bool) : result ProviderDocs :=
  a ← render_surge ps listen_address port secret Http false;
  b ← render_surge ps listen_address port secret Provider.Socks5 advertised;
  c ← render_clash ps listen_address port secret Http false;
  d ← render_clash ps listen_address port secret Provider.Socks5 advertised;
  Ok (MkDocs a b c d).

(** *** Building a router *)

(** What was built so far: the next identity and the two maps. *)
Record Build : Type := MkBuild {
  next_id : nat;
  b_routes : gmap bytes Route;
  b_runtimes : gmap bytes NodeRuntime
}.

(** The runtime of a node: the previous router's when the node is unchanged. *)
Definition reusable (previous : option Router) (p : Proxy) : option NodeRuntime :=
  previous ← previous;
  existing ← runtimes previous !! name p;
  if bool_decide (r_proxy existing = p) then Some existing else None.

Definition set_next_id (n : nat) (b : Build) : Build := MkBuild n (b_routes b) (b_runtimes b).

Definition node_runtime (previous : option Router) (p : Proxy) : M Build NodeRuntime :=
  match reusable previous p with
  | Some existing => mret existing
  | None =>
      b ← get;
      lift (make_runtime p);;
      modify (set_next_id (S (next_id b)));;
      mret (MkRuntime (next_id b) p)
  end.

Definition add_node (selector : bytes) (p : Proxy) (r : NodeRuntime) (b : Build) : Build :=
  MkBuild (next_id b) (<[selector := runtime_route r]> (b_routes b)) (<[name p := r]> (b_runtimes b)).

Fixpoint build_nodes (previous : option Router) (ps : list Proxy) : M Build unit :=
  match ps with
  | [] => mret tt
  | p :: ps' =>
      runtime ← node_runtime previous p;
      selector ← lift (node_selector (name p));
      b ← get;
      match b_routes b !! selector with
      | Some _ => bail "gateway selector collision"
      | None => modify (add_node selector p runtime);; build_nodes previous ps'
      end
  end.

Definition build (ps published : list Proxy) (serve_port : Z) (allow_remote : bool) (context : GatewayContext)
    (previous : option Router) : M nat Router := λ next,
  let listen_address := ip_to_string (outbound_ip context) in
  match render_provider_docs published listen_address serve_port (context_secret context)
          (udp_relay_advertised context) with
  | Err e => (Err e, next)
  | Ok filtered_docs =>
      match (if bool_decide (ps = published) then Ok filtered_docs
             else render_provider_docs ps listen_address serve_port (context_secret context)
                    (udp_relay_advertised context)) with
      | Err e => (Err e, next)
      | Ok all_docs =>
          match build_nodes previous ps (MkBuild next ∅ ∅) with
          | (Err e, b) => (Err e, next_id b)
          | (Ok _, b) =>
              (Ok (MkRouter (b_routes b) (b_runtimes b) filtered_docs all_docs (context_secret context)
                     (length published) (raw_nodes parse_ech_config published) (raw_nodes parse_ech_config ps)
                     allow_remote), next_id b)
          end
      end
  end.

Definition docs (r : Router) (include_all : bool) : ProviderDocs := if include_all then all r else filtered r.
Definition provider (r : Router) (include_all socks : bool) : bytes := surge (docs r include_all) socks.
Definition clash_provider (r : Router) (include_all socks : bool) : bytes := clash (docs r include_all) socks.

Definition authenticate (r : Router) (selector secret : bytes) : result Route :=
  if negb (bytes_eqb secret (routing_secret r)) then Err (Bail "gateway authentication failed")
  else ok_or (Bail "gateway authentication failed") (routes r !! selector).

(** [Arc::ptr_eq] with the replacement's runtime of the same name *)
Definition shared (replacement : option Router) (n : bytes) (runtime : NodeRuntime) : bool :=
  match replacement ≫= λ other, runtimes other !! n with
  | Some other => (r_id other =? r_id runtime)%nat
  | None => false
  end.

(** The clients [retire_exclusive_runtimes] closes. *)
Definition exclusive (r : Router) (replacement : option Router) : list nat :=
  (map_to_list (runtimes r)) ≫= λ '(n, runtime),
    if shared replacement n runtime then [] else [r_id runtime].

(** *** The manager *)

Record GatewayManager : Type := MkManager {
  router : option Router;
  fresh_id : nat;
  closed : list nat
}.

Definition manager_authenticate (m : GatewayManager) (selector secret : bytes) : result Route :=
  r ← ok_or (Bail "gateway is closed") (router m); authenticate r selector secret.

Definition manager_provider (m : GatewayManager) (include_all socks : bool) : result bytes :=
  r ← ok_or (Bail "gateway unavailable") (router m); Ok (provider r include_all socks).

Definition raw_peer_allowed (peer : IpAddr) (allow_remote : bool) : bool :=
  allow_remote
  || match peer with
     | V4 _ _ _ _ => is_loopback peer
     | V6 o => is_loopback peer
               || match to_ipv4_mapped o with Some ip => is_loopback ip | None => false end
     end.

(** [Option::replace] installs the new router also when there was none, and the
    error comes after it. *)
Definition replace (replacement : Router) (m : GatewayManager) : result unit * GatewayManager :=
  match router m with
  | Some previous =>
      (Ok tt, MkManager (Some replacement) (fresh_id m) (closed m ++ exclusive previous (Some replacement)))
  | None => (Err (Bail "gateway is closed"), MkManager (Some replacement) (fresh_id m) (closed m))
  end.

Definition close (m : GatewayManager) : GatewayManager :=
  MkManager None (fresh_id m)
    (closed m ++ match router m with Some previous => exclusive previous None | None => [] end).
End Gateway.

(** ** Building a router *)

Section BuildProofs.
Context `{Base64Url} (make_runtime : Proxy → result unit).
Context {EchConfig : Type} (parse_ech_config : bytes → result EchConfig).
Abbreviation nodes_built := (build_nodes make_runtime).
Abbreviation runtime_of := (node_runtime make_runtime).

(** An identity in use before is below the first new one. *)
Definition bounded (previous : option Router) (first : nat) : Prop :=
  ∀ r n rt, previous = Some r → runtimes r !! n = Some rt → (r_id rt < first)%nat.

(** What the loop has established for the nodes it has added. *)
Record built (previous : option Router) (first : nat) (added : list Proxy) (b : Build) : Prop := {
  built_next : (first <= next_id b)%nat;
  built_routes sel route : b_routes b !! sel = Some route ↔
    ∃ p rt, p ∈ added ∧ node_selector (name p) = Ok sel ∧ b_runtimes b !! name p = Some rt
            ∧ route = runtime_route rt;
  built_runtime n rt : b_runtimes b !! n = Some rt →
    r_proxy rt ∈ added ∧ name (r_proxy rt) = n ∧
    (reusable previous (r_proxy rt) = Some rt ∨
     (reusable previous (r_proxy rt) = None ∧ (first <= r_id rt < next_id b)%nat));
  built_added p : p ∈ added →
    ∃ rt sel, b_runtimes b !! name p = Some rt ∧ r_proxy rt = p ∧ node_selector (name p) = Ok sel;
  built_fresh n1 rt1 n2 rt2 : bounded previous first → b_runtimes b !! n1 = Some rt1 → b_runtimes b !! n2 = Some rt2 →
    r_id rt1 = r_id rt2 → (first <= r_id rt1)%nat → (first <= r_id rt2)%nat → n1 = n2
}.

Lemma built_empty previous first : built previous first [] (MkBuild first ∅ ∅).
Proof.
  split; simpl.
  - done.
  - intros sel route. rewrite lookup_empty. split; [done|].
    intros (p & rt & Hp & _). by apply not_elem_of_nil in Hp.
  - intros n rt. by rewrite lookup_empty.
  - intros p Hp. by apply not_elem_of_nil in Hp.
  - intros n1 rt1 n2 rt2 _. by rewrite lookup_empty.
Qed.

Lemma reusable_inv previous p rt :
  reusable previous p = Some rt →
  r_proxy rt = p ∧ ∃ r, previous = Some r ∧ runtimes r !! name p = Some rt.
Proof.
  unfold reusable. destruct previous as [r|]; [|done]. simpl.
  destruct (runtimes r !! name p) as [x|] eqn:E; [|done]. simpl.
  case_bool_decide; [|done]. intros [= ->]. eauto.
Qed.

Lemma node_runtime_inv previous p b rt b' :
  runtime_of previous p b = (Ok rt, b') →
  r_proxy rt = p ∧ b_routes b' = b_routes b ∧ b_runtimes b' = b_runtimes b ∧
  ((reusable previous p = Some rt ∧ next_id b' = next_id b) ∨
   (reusable previous p = None ∧ r_id rt = next_id b ∧ next_id b' = S (next_id b))).
Proof.
  unfold node_runtime. destruct (reusable previous p) as [x|] eqn:E.
  - intros [-> ->]%M_ret_inv. apply reusable_inv in E as Hp. destruct Hp as [Hp _]. split_and!; auto.
  - intros Hr. M_inv. simpl. split_and!; auto.
Qed.

Lemma built_add previous first added p b rt b1 sel :
  built previous first added b → runtime_of previous p b = (Ok rt, b1) →
  node_selector (name p) = Ok sel → b_routes b1 !! sel = None →
  built previous first (added ++ [p]) (add_node sel p rt b1).
Proof.
  intros [Hnext Hroutes Hrt Hadded Hfresh] Hrun Hsel Hnone.
  destruct (node_runtime_inv _ _ _ _ _ Hrun) as (Hp & Er & Em & Hid).
  assert (Hnew : ∀ q, q ∈ added → name q ≠ name p).
  { intros q Hq Heq. destruct (Hadded q Hq) as (x & s & Hx & _ & Hs).
    rewrite Heq, Hsel in Hs. injection Hs as <-. rewrite Er in Hnone.
    assert (b_routes b !! sel = Some (runtime_route x)) as Hs; [|congruence].
    apply Hroutes. exists q, x. rewrite Heq in *. auto. }
  assert (Hle : (next_id b <= next_id b1)%nat) by (destruct Hid as [[_ ->]|(_ & _ & ->)]; lia).
  assert (Hkeep : ∀ q, q ∈ added → b_runtimes (add_node sel p rt b1) !! name q = b_runtimes b !! name q).
  { intros q Hq. simpl. rewrite lookup_insert_ne, Em; [done|]. intros Heq. by apply (Hnew q Hq). }
  split; simpl; rewrite ?Er, ?Em in *.
  - lia.
  - intros s route. rewrite lookup_insert_Some. split.
    + intros [[<- <-]|[Hne Hlook]].
      * exists p, rt. rewrite lookup_insert_eq. split_and!; [set_solver|done|done|done].
      * apply Hroutes in Hlook as (q & x & Hq & Hs & Hx & ->). exists q, x.
        rewrite lookup_insert_ne by (intros Heq; by apply (Hnew q Hq)). split_and!; [set_solver|done..].
    + intros (q & x & Hq & Hs & Hx & ->). apply elem_of_app in Hq as [Hq|Hq%list_elem_of_singleton].
      * rewrite lookup_insert_ne in Hx by (intros Heq; by apply (Hnew q Hq)).
        assert (b_routes b !! s = Some (runtime_route x)) as Hl by (apply Hroutes; eauto 10).
        right. split; [|done]. intros <-. congruence.
      * subst q. rewrite lookup_insert_eq in Hx. injection Hx as <-. left. split; [congruence|done].
  - intros n x. rewrite lookup_insert_Some. intros [[<- <-]|[Hne Hx]].
    + rewrite Hp. split_and!; [set_solver|done|]. destruct Hid as [[Hre _]|(? & -> & ->)]; [by left|right; split; [done|lia]].
    + destruct (Hrt n x Hx) as (Hin & Hn & Hor). split_and!; [set_solver|done|].
      destruct Hor as [?|[? ?]]; [by left|right; split; [done|lia]].
  - intros q Hq. apply elem_of_app in Hq as [Hq|Hq%list_elem_of_singleton].
    + destruct (Hadded q Hq) as (x & s & Hx & Hpq & Hs). exists x, s.
      rewrite lookup_insert_ne by (intros Heq; by apply (Hnew q Hq)). done.
    + subst q. exists rt, sel. by rewrite lookup_insert_eq.
  - intros n1 rt1 n2 rt2 Hbound.
    assert (Hfar : ∀ n x, b_runtimes b !! n = Some x → r_id x = r_id rt → (first <= r_id rt)%nat → False).
    { intros n x Hx Heq Hge. destruct Hid as [[Hre _]|(_ & Hi & _)].
      - apply reusable_inv in Hre as (_ & r & Hprev & Hr). specialize (Hbound r _ _ Hprev Hr). lia.
      - destruct (Hrt n x Hx) as (_ & _ & [Hre|[_ ?]]); [|lia].
        apply reusable_inv in Hre as (_ & r & Hprev & Hr). specialize (Hbound r _ _ Hprev Hr). lia. }
    rewrite !lookup_insert_Some.
    intros [[<- <-]|[_ H1]] [[<- <-]|[_ H2]] Heq G1 G2; [done| | |by eapply Hfresh].
    + exfalso. by eapply Hfar.
    + exfalso. by eapply Hfar.
Qed.

Lemma build_nodes_built previous first added ps b b' :
  built previous first added b → nodes_built previous ps b = (Ok tt, b') → built previous first (added ++ ps) b'.
Proof.
  revert added b; induction ps as [|p ps IH]; intros added b Hb Hrun; cbn [build_nodes] in Hrun.
  - M_inv. by rewrite app_nil_r.
  - apply M_bind_iff in Hrun as (rt & b1 & Hrt & Hrun).
    apply M_bind_iff in Hrun as (sel & b2 & [Hsel ->]%lift_inv & Hrun).
    rewrite (M_bind_ok get _ b1 b1 b1) in Hrun by done.
    destruct (b_routes b1 !! sel) eqn:Hnone; [done|].
    rewrite (M_bind_ok (modify (add_node sel p rt)) _ b1 tt (add_node sel p rt b1)) in Hrun by done.
    apply (IH (added ++ [p])) in Hrun; [by rewrite <-app_assoc in Hrun|by eapply built_add].
Qed.

Lemma build_inv ps published port allow ctx previous next r next' :
  build make_runtime parse_ech_config ps published port allow ctx previous next = (Ok r, next') →
  ∃ b, built previous next ps b ∧ routes r = b_routes b ∧ runtimes r = b_runtimes b
       ∧ routing_secret r = context_secret ctx ∧ next' = next_id b.
Proof.
  unfold build. intros Hr.
  destruct (render_provider_docs published _ _ _ _) as [fd|e]; [|done].
  destruct (if bool_decide (ps = published) then _ else _) as [ad|e]; [|done].
  destruct (nodes_built previous ps (MkBuild next ∅ ∅)) as [[[]|e] b] eqn:Hb; [|done].
  injection Hr as <- <-. exists b. split_and!; try done.
  by apply (build_nodes_built _ next [] _ _ _ (built_empty _ _)) in Hb.
Qed.

(** What of a router comes from its arguments alone. *)
Lemma build_fields ps published port allow ctx previous next r next' :
  build make_runtime parse_ech_config ps published port allow ctx previous next = (Ok r, next') →
  let docs_of l := render_provider_docs l (ip_to_string (outbound_ip ctx)) port (context_secret ctx)
                     (udp_relay_advertised ctx) in
  docs_of published = Ok (filtered r) ∧ docs_of ps = Ok (all r) ∧ published_count r = length published ∧
  raw_filtered r = raw_nodes parse_ech_config published ∧ raw_all r = raw_nodes parse_ech_config ps ∧
  allow_remote_raw_provider r = allow ∧ routing_secret r = context_secret ctx.
Proof.
  unfold build. cbv zeta. destruct (render_provider_docs published _ _ _ _) as [fd|e] eqn:Ef; [|done].
  destruct (if bool_decide (ps = published) then _ else _) as [ad|e] eqn:Ea; [|done].
  destruct (nodes_built previous ps (MkBuild next ∅ ∅)) as [[[]|e] b]; [|done].
  intros [= <- <-]. simpl. split_and!; try done.
  case_bool_decide as Hps; [|done]. subst. congruence.
Qed.

(** C26: A router authenticates exactly its nodes. Once [build] succeeds, a
    selector and a secret are accepted if and only if the secret is the
    context's and the selector is that of one of the nodes, and then the route
    is the one of this node's runtime. No two nodes share a selector or a
    runtime name, and an unchanged node keeps the runtime it had. *)
Theorem router_authenticates_nodes ps published port allow ctx previous next r next' :
  bounded previous next →
  build make_runtime parse_ech_config ps published port allow ctx previous next = (Ok r, next') →
  (∀ sel secret route, authenticate r sel secret = Ok route ↔
     secret = context_secret ctx ∧
     ∃ p rt, p ∈ ps ∧ node_selector (name p) = Ok sel ∧ runtimes r !! name p = Some rt
             ∧ r_proxy rt = p ∧ route = runtime_route rt) ∧
  (∀ p, p ∈ ps → ∃ rt, runtimes r !! name p = Some rt ∧ r_proxy rt = p
     ∧ ∀ old, reusable previous p = Some old → rt = old).
Proof.
  intros _ Hbuild. destruct (build_inv _ _ _ _ _ _ _ _ _ Hbuild)
    as (b & [Hn Hroutes Hrt Hadded Hf] & Er & Em & Es & _).
  split.
  - intros sel secret route. unfold authenticate, bytes_eqb. rewrite Es.
    destruct (decide (secret = context_secret ctx)) as [->|Hne].
    + rewrite bool_decide_eq_true_2 by done. cbn [negb]. rewrite Er. split.
      * intros Ha%ok_or_inv. apply Hroutes in Ha as (p & rt & Hp & Hs & Hx & ->). split; [done|].
        exists p, rt. rewrite Em. split_and!; try done.
        destruct (Hadded p Hp) as (rt' & _ & Hx' & Hpp & _). congruence.
      * intros (_ & p & rt & Hp & Hs & Hx & _ & ->). rewrite Em in Hx.
        assert (b_routes b !! sel = Some (runtime_route rt)) as -> by (apply Hroutes; eauto 10). done.
    + rewrite bool_decide_eq_false_2 by done. cbn [negb]. split; [done|]. intros [? _]. done.
  - intros p Hp. destruct (Hadded p Hp) as (rt & _ & Hx & Hpp & _). exists rt. rewrite Em.
    split_and!; [done|done|]. intros old Hold.
    destruct (Hrt _ _ Hx) as (_ & _ & [Hre|[Hre _]]); rewrite Hpp in Hre; congruence.
Qed.
End BuildProofs.

(** ** The life of the clients *)

Section Lifecycle.
Context `{Base64Url} (make_runtime : Proxy → result unit).
Context {EchConfig : Type} (parse_ech_config : bytes → result EchConfig).

(** A reload of the service: with [share] the new router may keep runtimes of the
    current one. *)
Inductive gateway_op : Type :=
  | Reload (share : bool) (ps published : list Proxy) (port : Z) (allow : bool) (ctx : GatewayContext)
  | Close.

Definition with_fresh (n : nat) (m : GatewayManager) : GatewayManager := MkManager (router m) n (closed m).

Definition gateway_step (op : gateway_op) (m : GatewayManager) : GatewayManager :=
  match op with
  | Reload share ps published port allow ctx =>
      match router m with
      | None => m
      | Some previous =>
          match build make_runtime parse_ech_config ps published port allow ctx (if share then Some previous else None) (fresh_id m) with
          | (Ok r, next) => (replace r (with_fresh next m)).2
          | (Err _, next) => with_fresh next m
          end
      end
  | Close => close m
  end.

(** The clients of the router in place. *)
Definition in_use (m : GatewayManager) (id : nat) : Prop :=
  ∃ r n rt, router m = Some r ∧ runtimes r !! n = Some rt ∧ r_id rt = id.

(** A manager started on a first router, and the managers of a run of
    operations, the last first. *)
Inductive gateway_run : list GatewayManager → GatewayManager → Prop :=
  | run_new ps published port allow ctx r next :
      build make_runtime parse_ech_config ps published port allow ctx None 0%nat = (Ok r, next) →
      gateway_run [] (MkManager (Some r) next [])
  | run_op ms m op : gateway_run ms m → gateway_run (m :: ms) (gateway_step op m).

Record manager_ok (ms : list GatewayManager) (m : GatewayManager) : Prop := {
  ok_open id : in_use m id → (id < fresh_id m)%nat ∧ id ∉ closed m;
  ok_names r n1 n2 rt1 rt2 : router m = Some r → runtimes r !! n1 = Some rt1 →
    runtimes r !! n2 = Some rt2 → r_id rt1 = r_id rt2 → n1 = n2;
  ok_routes r sel route : router m = Some r → routes r !! sel = Some route → in_use m (route_client route);
  ok_past m' id : m' ∈ ms → in_use m' id → in_use m id ∨ id ∈ closed m;
  ok_closed id : id ∈ closed m → (id < fresh_id m)%nat ∧ ∃ m', m' ∈ ms ∧ in_use m' id;
  ok_once : NoDup (closed m)
}.

Lemma exclusive_elem r repl id :
  id ∈ exclusive r repl ↔ ∃ n rt, runtimes r !! n = Some rt ∧ r_id rt = id ∧ shared repl n rt = false.
Proof.
  unfold exclusive. rewrite list_elem_of_bind. split.
  - intros ([n rt] & Hid & Hin%elem_of_map_to_list). destruct (shared repl n rt) eqn:E; [set_solver|].
    apply list_elem_of_singleton in Hid as ->. eauto.
  - intros (n & rt & Hl & <- & Hs). exists (n, rt). rewrite Hs. split; [by left|by apply elem_of_map_to_list].
Qed.

Lemma exclusive_NoDup r repl :
  (∀ n1 n2 rt1 rt2, runtimes r !! n1 = Some rt1 → runtimes r !! n2 = Some rt2 → r_id rt1 = r_id rt2 → n1 = n2) →
  NoDup (exclusive r repl).
Proof.
  intros Hinj. unfold exclusive.
  assert (Hin : ∀ x, x ∈ map_to_list (runtimes r) → runtimes r !! x.1 = Some x.2)
    by (intros [n rt]; apply elem_of_map_to_list).
  pose proof (NoDup_fst_map_to_list (runtimes r)) as Hd.
  induction (map_to_list (runtimes r)) as [|[n rt] l IH]; [constructor|]. csimpl in *.
  apply NoDup_cons in Hd as [Hn Hd].
  assert (Hl : NoDup (l ≫= λ '(n, runtime), if shared repl n runtime then [] else [r_id runtime])).
  { apply IH; [|done]. intros x Hx. apply Hin. by right. }
  destruct (shared repl n rt); [done|]. simpl. constructor; [|done].
  intros ([n' rt'] & Hid & Hx)%list_elem_of_bind. destruct (shared repl n' rt'); [by apply not_elem_of_nil in Hid|].
  apply list_elem_of_singleton in Hid. apply Hn. apply list_elem_of_fmap. exists (n', rt'). split; [|done].
  apply (Hinj n n' rt rt'); [apply (Hin (n, rt)); by left|apply (Hin (n', rt')); by right|done].
Qed.

(** What a successful build gives the manager. *)
Lemma build_ok ps published port allow ctx previous next r next' :
  bounded previous next →
  (∀ p n1 n2 rt1 rt2, previous = Some p → runtimes p !! n1 = Some rt1 → runtimes p !! n2 = Some rt2 →
     r_id rt1 = r_id rt2 → n1 = n2) →
  build make_runtime parse_ech_config ps published port allow ctx previous next = (Ok r, next') →
  (next <= next')%nat
  ∧ (∀ n rt, runtimes r !! n = Some rt →
       (∃ p, previous = Some p ∧ runtimes p !! n = Some rt) ∨ (next <= r_id rt < next')%nat)
  ∧ (∀ n1 n2 rt1 rt2, runtimes r !! n1 = Some rt1 → runtimes r !! n2 = Some rt2 → r_id rt1 = r_id rt2 → n1 = n2)
  ∧ (∀ sel route, routes r !! sel = Some route → ∃ n rt, runtimes r !! n = Some rt ∧ r_id rt = route_client route).
Proof.
  intros Hbound Hinj Hbuild.
  destruct (build_inv _ _ _ _ _ _ _ _ _ _ _ Hbuild)
    as (b & [Hn Hroutes Hrt Hadded Hf] & Er & Em & _ & ->).
  assert (Hor : ∀ n rt, runtimes r !! n = Some rt →
            (∃ p, previous = Some p ∧ runtimes p !! n = Some rt) ∨ (next <= r_id rt < next_id b)%nat).
  { intros n rt. rewrite Em. intros Hx. destruct (Hrt n rt Hx) as (_ & Hname & [Hre|[_ ?]]); [|by right].
    apply reusable_inv in Hre as (_ & p & Hp & Hl). rewrite Hname in Hl. eauto. }
  split_and!; [done|done| |].
  - intros n1 n2 rt1 rt2 H1 H2 Heq.
    destruct (Hor _ _ H1) as [(p & Hp & Hl1)|?], (Hor _ _ H2) as [(p' & Hp' & Hl2)|?].
    + assert (p' = p) as -> by congruence. by eapply Hinj.
    + specialize (Hbound p n1 rt1 Hp Hl1). lia.
    + specialize (Hbound p' n2 rt2 Hp' Hl2). lia.
    + rewrite Em in H1, H2. eapply Hf; [done|done|done|done|lia|lia].
  - intros sel route. rewrite Er. intros (p & rt & _ & _ & Hx & ->)%Hroutes. exists (name p), rt. by rewrite Em.
Qed.

(** Identities are only handed out upwards. *)
Lemma build_nodes_next previous ps b :
  (next_id b <= next_id (build_nodes make_runtime previous ps b).2)%nat.
Proof.
  revert b; induction ps as [|p ps IH]; intros b; cbn [build_nodes]; [done|].
  unfold mbind at 1, M_bind at 1.
  assert (Hrt : (next_id b <= next_id (node_runtime make_runtime previous p b).2)%nat).
  { unfold node_runtime. destruct (reusable previous p); [done|]. unfold mbind, M_bind, get, lift, modify. simpl.
    destruct (make_runtime p); simpl; lia. }
  destruct (node_runtime make_runtime previous p b) as [[rt|e] b1]; simpl in *; [|done].
  destruct (node_selector (name p)) as [sel|e]; simpl; [|done].
  unfold mbind, M_bind, lift, get. simpl. destruct (b_routes b1 !! sel); simpl; [done|].
  specialize (IH (add_node sel p rt b1)). simpl in IH. lia.
Qed.

Lemma build_next ps published port allow ctx previous next :
  (next <= (build make_runtime parse_ech_config ps published port allow ctx previous next).2)%nat.
Proof.
  unfold build. destruct (render_provider_docs published _ _ _ _); [|done].
  destruct (if bool_decide (ps = published) then _ else _); [|done].
  pose proof (build_nodes_next previous ps (MkBuild next ∅ ∅)) as Hn. simpl in Hn.
  by destruct (build_nodes make_runtime previous ps (MkBuild next ∅ ∅)) as [[[]|e] b].
Qed.

(** The manager moves from a router to a new one, or to none. *)
Lemma manager_move ms m previous new next :
  manager_ok ms m → router m = Some previous → (fresh_id m <= next)%nat →
  (∀ r n rt, new = Some r → runtimes r !! n = Some rt →
     runtimes previous !! n = Some rt ∨ (fresh_id m <= r_id rt < next)%nat) →
  (∀ r n1 n2 rt1 rt2, new = Some r → runtimes r !! n1 = Some rt1 → runtimes r !! n2 = Some rt2 →
     r_id rt1 = r_id rt2 → n1 = n2) →
  (∀ r sel route, new = Some r → routes r !! sel = Some route →
     ∃ n rt, runtimes r !! n = Some rt ∧ r_id rt = route_client route) →
  manager_ok (m :: ms) (MkManager new next (closed m ++ exclusive previous new)).
Proof.
  intros [Hopen Hnames Hroutes Hpast Hclosed Honce] Hm Hle Hnew Hinj Hnroutes.
  assert (Huse : ∀ n rt, runtimes previous !! n = Some rt → in_use m (r_id rt)) by (intros; by exists previous, n, rt).
  assert (Hex : ∀ id, id ∈ exclusive previous new → in_use m id).
  { intros id (n & rt & Hl & <- & _)%exclusive_elem. eauto. }
  split; simpl.
  - intros id (r & n & rt & Hr & Hl & <-). simpl in Hr. subst new.
    destruct (Hnew r n rt eq_refl Hl) as [Hp|Hf].
    + destruct (Hopen _ (Huse _ _ Hp)) as [Hlt Hc]. split; [lia|]. rewrite elem_of_app. intros [?|Hin]; [done|].
      apply exclusive_elem in Hin as (n' & rt' & Hl' & Heq & Hs).
      assert (n' = n) as -> by (by eapply (Hnames previous)). unfold shared in Hs. simpl in Hs.
      rewrite Hl in Hs. apply Nat.eqb_neq in Hs. congruence.
    + split; [lia|]. rewrite elem_of_app. intros [Hin|Hin].
      * apply Hclosed in Hin as [Hlt _]. lia.
      * apply Hex, Hopen in Hin as [Hlt _]. lia.
  - intros r n1 n2 rt1 rt2 Hr. by apply Hinj.
  - intros r sel route Hr Hlook. destruct (Hnroutes r sel route Hr Hlook) as (n & rt & Hl & Hid). by exists r, n, rt.
  - assert (Hcur : ∀ id, in_use m id → in_use (MkManager new next (closed m ++ exclusive previous new)) id
                      ∨ id ∈ closed m ++ exclusive previous new).
    { intros id (r & n & rt & Hr & Hl & <-). assert (r = previous) as -> by congruence.
      destruct (shared new n rt) eqn:Hs.
      - left. unfold shared in Hs. destruct new as [r|]; [|done]. simpl in Hs.
        destruct (runtimes r !! n) as [x|] eqn:Hx; [|done]. apply Nat.eqb_eq in Hs. by exists r, n, x.
      - right. rewrite elem_of_app. right. apply exclusive_elem. eauto. }
    intros m' id [->|Hm']%elem_of_cons Hin; [by apply Hcur|].
    destruct (Hpast m' id Hm' Hin) as [?|?]; [by apply Hcur|right; set_solver].
  - intros id [Hin|Hin]%elem_of_app.
    + destruct (Hclosed id Hin) as (Hlt & m' & Hm' & Hu). split; [lia|]. exists m'. split; [by right|done].
    + apply Hex in Hin as Hu. destruct (Hopen id Hu) as [Hlt _]. split; [lia|]. exists m. split; [by left|done].
  - apply NoDup_app. split_and!; [done| |apply exclusive_NoDup; intros n1 n2 rt1 rt2; by apply Hnames].
    intros id Hin Hin'. apply Hex, Hopen in Hin' as [_ Hn]. done.
Qed.

Lemma manager_step_ok ms m op : manager_ok ms m → manager_ok (m :: ms) (gateway_step op m).
Proof.
  intros Hok. pose proof Hok as [Hopen Hnames Hroutes Hpast Hclosed Honce].
  assert (Hstay : ∀ next, (fresh_id m <= next)%nat → manager_ok (m :: ms) (with_fresh next m)).
  { intros next Hle. split; simpl.
    - intros id Hu. destruct (Hopen id Hu) as [? ?]. split; [lia|done].
    - done.
    - done.
    - intros m' id [->|Hm']%elem_of_cons Hu; [by left|by eapply Hpast].
    - intros id Hin. destruct (Hclosed id Hin) as (? & m' & ? & ?). split; [lia|]. exists m'.
      split; [by right|done].
    - done. }
  destruct op as [share ps published port allow ctx|]; simpl.
  - destruct (router m) as [previous|] eqn:Hm.
    2:{ replace m with (with_fresh (fresh_id m) m) at 2 by (by destruct m). by apply Hstay. }
    set (prev := if share then Some previous else None).
    pose proof (build_next ps published port allow ctx prev (fresh_id m)) as Hnext.
    destruct (build make_runtime parse_ech_config ps published port allow ctx prev (fresh_id m)) as [[r|e] next] eqn:Hb;
      simpl in Hnext; [|by apply Hstay].
    assert (Hprev : ∀ p, prev = Some p → p = previous) by (unfold prev; destruct share; congruence).
    destruct (build_ok ps published port allow ctx prev (fresh_id m) r next) as (Hle & Hor & Hinj & Hrts); [| |done|].
    + intros p n rt Hp Hl. rewrite (Hprev p Hp) in Hl. apply Hopen. by exists previous, n, rt.
    + intros p n1 n2 rt1 rt2 Hp. rewrite (Hprev p Hp). by apply Hnames.
    + unfold replace. simpl. rewrite Hm. simpl. apply manager_move; try done.
      * intros r' n rt [= <-] Hl. destruct (Hor n rt Hl) as [(p & Hp & Hlp)|?]; [|by right].
        left. by rewrite (Hprev p Hp) in Hlp.
      * intros r' n1 n2 rt1 rt2 [= <-]. apply Hinj.
      * intros r' sel route [= <-]. apply Hrts.
  - unfold close. destruct (router m) as [previous|] eqn:Hm.
    + by apply manager_move.
    + rewrite app_nil_r. replace (MkManager None (fresh_id m) (closed m)) with (with_fresh (fresh_id m) m)
        by (destruct m; simpl in *; by subst). by apply Hstay.
Qed.

Lemma gateway_run_ok ms m : gateway_run ms m → manager_ok ms m.
Proof.
  induction 1 as [ps published port allow ctx r next Hb|ms m op Hrun IH]; [|by apply manager_step_ok].
  destruct (build_ok ps published port allow ctx None 0 r next) as (_ & Hor & Hinj & Hrts); [done|done|done|].
  split; simpl.
  - intros id (r' & n & rt & [= <-] & Hl & <-). destruct (Hor n rt Hl) as [(p & ? & _)|?]; [done|].
    split; [lia|]. by apply not_elem_of_nil.
  - intros r' n1 n2 rt1 rt2 [= <-]. apply Hinj.
  - intros r' sel route [= <-] Hlook. destruct (Hrts sel route Hlook) as (n & rt & Hl & Hid). by exists r, n, rt.
  - intros m' id Hm'. by apply not_elem_of_nil in Hm'.
  - intros id Hin. by apply not_elem_of_nil in Hin.
  - constructor.
Qed.

(** C13: The life of the node clients, over any run of catalog and configuration
    reloads (successful or not) and closes: a client that authentication hands
    out is open; a client that was ever in use is either still in use or has
    been closed; and a client is closed at most once, and only after it was in
    use. *)
Theorem gateway_client_lifecycle ms m :
  gateway_run ms m →
  (∀ sel secret route, manager_authenticate m sel secret = Ok route → route_client route ∉ closed m) ∧
  (∀ m' id, m' ∈ ms → in_use m' id → in_use m id ∨ id ∈ closed m) ∧
  (∀ id, in_use m id → id ∉ closed m) ∧
  NoDup (closed m) ∧ (∀ id, id ∈ closed m → ∃ m', m' ∈ ms ∧ in_use m' id).
Proof.
  intros [Hopen Hnames Hroutes Hpast Hclosed Honce]%gateway_run_ok. split_and!.
  - intros sel secret route. unfold manager_authenticate, authenticate.
    intros (r & Hr%ok_or_inv & Ha)%result_bind_inv. destruct (negb _); [done|].
    apply ok_or_inv in Ha. by destruct (Hopen _ (Hroutes _ _ _ Hr Ha)).
  - done.
  - intros id Hu. by destruct (Hopen id Hu).
  - done.
  - intros id Hin. by destruct (Hclosed id Hin) as [_ ?].
Qed.
End Lifecycle.

(** ** Witnesses: two nodes, then a reload that changes one *)

Definition demo_ech (_ : bytes) : result unit := Ok tt.
Definition demo_context : GatewayContext := MkContext (V4 x7f x00 x00 x01) true (lit "secret") 64.
Definition demo_one : Proxy := demo_proxy (lit "Fusion 01").
Definition demo_two : Proxy := demo_proxy (lit "CIA 02").
Definition demo_build : result Router * nat :=
  build (λ _, Ok tt) demo_ech [demo_one; demo_two] [demo_one; demo_two] 6172 false demo_context None 0%nat.

Lemma demo_build_ok : ∃ r, demo_build = (Ok r, 2%nat).
Proof. eexists. vm_compute. reflexivity. Qed.

Lemma router_authenticates_nodes_witness :
  ∃ r, demo_build = (Ok r, 2%nat)
    ∧ (∃ rt, runtimes r !! name demo_two = Some rt ∧ r_proxy rt = demo_two)
    ∧ ∀ sel route, authenticate r sel (lit "wrong") ≠ Ok route.
Proof.
  destruct demo_build_ok as [r Hb]. exists r. split; [exact Hb|].
  destruct (router_authenticates_nodes (λ _, Ok tt) demo_ech [demo_one; demo_two] [demo_one; demo_two] 6172 false
              demo_context None 0 r 2) as [Hauth Hnodes].
  - intros r' n rt Hr'. discriminate Hr'.
  - exact Hb.
  - split.
    + destruct (Hnodes demo_two) as (rt & Hrt & Hp & _); [right; left|]. exists rt. split; [exact Hrt|exact Hp].
    + intros sel route Hs. apply Hauth in Hs as [Hs _]. discriminate Hs.
Defined.

Definition demo_manager (r : Router) : GatewayManager := MkManager (Some r) 2 [].
Definition demo_reload : gateway_op :=
  Reload true [demo_one] [demo_one] 6172 false demo_context.

Lemma gateway_client_lifecycle_witness :
  ∃ r, demo_build = (Ok r, 2%nat)
    ∧ gateway_run (λ _, Ok tt) demo_ech [demo_manager r] (gateway_step (λ _, Ok tt) demo_ech demo_reload (demo_manager r))
    ∧ NoDup (closed (gateway_step (λ _, Ok tt) demo_ech demo_reload (demo_manager r))).
Proof.
  destruct demo_build_ok as [r Hb]. exists r. split; [exact Hb|].
  assert (Hrun : gateway_run (λ _, Ok tt) demo_ech [demo_manager r]
                   (gateway_step (λ _, Ok tt) demo_ech demo_reload (demo_manager r))).
  { apply run_op. exact (run_new _ _ _ _ _ _ _ _ _ Hb). }
  split; [exact Hrun|]. destruct (gateway_client_lifecycle (λ _, Ok tt) demo_ech _ _ Hrun) as (_ & _ & _ & Hd & _).
  exact Hd.
Defined.

(** The reload keeps the first client and closes the second. *)
Lemma demo_reload_closes :
  match demo_build with
  | (Ok r, _) => closed (gateway_step (λ _, Ok tt) demo_ech demo_reload (demo_manager r)) = [1%nat]
  | _ => False
  end.
Proof. by vm_compute. Qed.

(** [replace] on a closed manager reports an error but installs the router. *)
Lemma replace_after_close r m :
  (replace r (close m)).1 = Err (Bail "gateway is closed") ∧ router (replace r (close m)).2 = Some r.
Proof. done. Qed.
