(* ===== verification/Tunnel.v ===== *)
(** * Tunnel: a session from the client to the node ([src/socks5.rs])

    The idle watch over a session ([until_idle], [Activity::idle]), the TCP relay
    with the fate of its connection ([relay]), the UDP association around its two
    loops ([serve_udp_associate]), and what the components give together: a
    SOCKS5 client of the gateway reaches the node it names, over a connection
    the Snell client opens. *)
From stdpp Require Import gmap.
From S2P Require Import Prelude Bytes Text Ip AsyncIo SnellWire SnellRecord SnellReader SnellPool Traffic.
From S2P Require Import SnellClient Socks5.
From S2P Require Nodes Provider Gateway.
Local Open Scope Z_scope.

(** ** The idle watch

    Instants are nanoseconds since [Activity::started]. *)

(** What happens on a session: data moves, or its future completes. *)
Inductive session_event : Type := Moved | Completed.

Section Idle.
Context (idle_timeout : Z).
(** [select!] polls its branches in random order: whether a timer is seen before
    what happens at the same instant. *)
Context (timer_first : bool).

Definition due (deadline now : Z) : bool := if timer_first then deadline <=? now else deadline <? now.

(** The loop of [Activity::idle], asleep until [wake], up to the instant [now]:
    it has returned, or sleeps until the deadline given. *)
Fixpoint idle (fuel : nat) (wake now : Z) (a : Activity) : option Z :=
  match fuel with
  | O => Some wake
  | S fuel =>
      if negb (due wake now) then Some wake
      else match idle_round idle_timeout wake a with
           | None => None
           | Some deadline => idle fuel deadline now a
           end
  end.

(** [touch] at an instant *)
Definition touch_at (now : Z) (a : Activity) : Activity := touch (now / 10 ^ 6) a.

(** The session and its watch; [None] when the watch returns first. *)
Fixpoint watch {T} (fuel : nat) (completed : T) (events : list (Z * session_event)) (wake : Z) (a : Activity) :
    option T :=
  match events with
  | [] => None
  | (now, event) :: events =>
      match idle fuel wake now a with
      | None => None
      | Some wake =>
          match event with
          | Completed => Some completed
          | Moved => watch fuel completed events wake (touch_at now a)
          end
      end
  end.

(** The watch is polled when the session starts. *)
Definition until_idle {T} (fuel : nat) (completed : T) (events : list (Z * session_event)) : option T :=
  match idle_round idle_timeout 0 (MkActivity 0) with
  | None => None
  | Some wake => watch fuel completed events wake (MkActivity 0)
  end.

(** What the watch is for: every event comes before the deadline of the movement
    before it, counted in whole milliseconds. *)
Fixpoint lively (last : Z) (events : list (Z * session_event)) : bool :=
  match events with
  | [] => false
  | (now, event) :: events =>
      negb (due (last / 10 ^ 6 * 10 ^ 6 + idle_timeout) now)
      && match event with Completed => true | Moved => lively now events end
  end.

(** The events in order, at instants a counter of milliseconds can hold. *)
Fixpoint ordered (last : Z) (events : list (Z * session_event)) : Prop :=
  match events with
  | [] => True
  | (now, _) :: events => last <= now ∧ now / 10 ^ 6 <= U64_MAX ∧ ordered now events
  end.

Lemma due_mono d d' now : d <= d' → due d' now = true → due d now = true.
Proof. unfold due. destruct timer_first; intros; reflect_bools; lia. Qed.

(** Two turns are enough: the first finds the timer behind the last movement,
    the second sleeps until that movement's own deadline. *)
Lemma idle_watch fuel wake now a :
  (2 <= fuel)%nat → wake <= last_millis a * 10 ^ 6 + idle_timeout →
  let deadline := last_millis a * 10 ^ 6 + idle_timeout in
  if due deadline now then idle fuel wake now a = None
  else ∃ wake', idle fuel wake now a = Some wake' ∧ wake' <= deadline.
Proof.
  intros Hf Hw deadline. destruct fuel as [|[|fuel]]; [lia..|].
  assert (Hend : ∀ n, due deadline now = true → idle (S n) deadline now a = None).
  { intros n Hd. cbn [idle]. rewrite Hd. cbn [negb]. unfold idle_round. fold deadline.
    by rewrite Z.leb_refl. }
  destruct (due deadline now) eqn:Ed.
  - change (idle (S (S fuel)) wake now a) with
      (if negb (due wake now) then Some wake
       else match idle_round idle_timeout wake a with
            | None => None | Some d => idle (S fuel) d now a end).
    rewrite (due_mono _ _ _ Hw Ed). cbn [negb]. unfold idle_round. fold deadline.
    destruct (deadline <=? wake); [done|]. by apply Hend.
  - destruct (due wake now) eqn:Ew; [|exists wake; cbn [idle]; by rewrite Ew].
    exists deadline. cbn [idle]. rewrite Ew. cbn [negb]. unfold idle_round at 1. fold deadline.
    destruct (deadline <=? wake) eqn:Ele; [|by rewrite Ed].
    apply Z.leb_le in Ele. assert (Hsame : wake = deadline) by lia. congruence.
Qed.

Lemma touch_at_millis now a : now / 10 ^ 6 <= U64_MAX → last_millis (touch_at now a) = now / 10 ^ 6.
Proof. intros H. unfold touch_at, touch. cbn [last_millis]. lia. Qed.

Lemma watch_lively {T} fuel (completed : T) events : (2 <= fuel)%nat → ∀ last wake a,
  last_millis a = last / 10 ^ 6 → wake <= last_millis a * 10 ^ 6 + idle_timeout → ordered last events →
  watch fuel completed events wake a = if lively last events then Some completed else None.
Proof.
  intros Hf. induction events as [|[now event] events IH]; intros last wake a Ha Hw Ho; [done|].
  destruct Ho as (Hle & Hmax & Ho). cbn [watch lively].
  pose proof (idle_watch fuel wake now a Hf Hw) as Hi. rewrite <-Ha. cbv zeta in Hi.
  destruct (due _ now) eqn:Ed; cbn [negb andb]; [by rewrite Hi|].
  destruct Hi as (wake' & -> & Hw'). destruct event; [|done].
  assert (Hm : last_millis (touch_at now a) = now / 10 ^ 6) by by apply touch_at_millis.
  apply IH; [done| |done]. rewrite Hm. rewrite Ha in Hw'.
  assert (last / 10 ^ 6 <= now / 10 ^ 6) by (apply Z.div_le_mono; lia). lia.
Qed.
End Idle.

(** C22: The idle watch ends a session exactly when it should. It re-arms its timer
    only when it fires, yet the session's result is returned if and only if
    every movement of data, and the end itself, came within the idle timeout of
    the movement before (rounded down to its millisecond), whatever the order
    in which simultaneous events are seen; two turns of the loop are always
    enough between two events. *)
Theorem until_idle_exact {T} idle_timeout timer_first fuel (completed : T) events :
  0 < idle_timeout → (2 <= fuel)%nat → ordered 0 events →
  until_idle idle_timeout timer_first fuel completed events =
    if lively idle_timeout timer_first 0 events then Some completed else None.
Proof.
  intros Hi Hf Ho. unfold until_idle, idle_round. cbn [last_millis].
  destruct (_ <=? 0) eqn:E; [reflect_bools; lia|].
  apply watch_lively; [done..|cbn [last_millis]; lia|done].
Qed.

Definition demo_session : list (Z * session_event) :=
  [(3 * 10 ^ 9, Moved); (7 * 10 ^ 9, Moved); (11 * 10 ^ 9, Completed)].

Lemma until_idle_exact_witness :
  until_idle (5 * 10 ^ 9) true 2 tt demo_session = Some tt ∧
  until_idle (4 * 10 ^ 9) true 2 tt demo_session = None ∧
  until_idle (4 * 10 ^ 9) false 2 tt demo_session = Some tt.
Proof.
  assert (Ho : ordered 0 demo_session) by (repeat split; vm_compute; congruence).
  assert (H4 : 0 < 4 * 10 ^ 9) by (vm_compute; reflexivity).
  assert (H5 : 0 < 5 * 10 ^ 9) by (vm_compute; reflexivity).
  rewrite (until_idle_exact (5 * 10 ^ 9) true 2 tt demo_session H5 (le_n 2) Ho).
  rewrite (until_idle_exact (4 * 10 ^ 9) true 2 tt demo_session H4 (le_n 2) Ho).
  rewrite (until_idle_exact (4 * 10 ^ 9) false 2 tt demo_session H4 (le_n 2) Ho).
  split; [vm_compute; reflexivity|split; vm_compute; reflexivity].
Defined.

(** ** The TCP relay and its connection *)

(** The two halves of the client's connection ([TcpStream::into_split]): its
    input comes as the upload's events. *)
Definition into_split (c : TcpStream) : bytes * Gated := (tcp_in c, MkGated [] (tcp_out c) (tcp_broken c)).

(** What the world decides about one relay: what the upload waits for, which
    direction ends first, whether a stopped upload ends in time, when data
    moves, and whether the close handshake times out. *)
Record RelayEnv : Type := MkRelayEnv {
  reads : list upload_event;
  upload_first : bool;
  stops_in_time : bool;
  timeline : list (Z * session_event);
  simultaneous : bool;
  close_expired : bool
}.

Definition RELAY_ERROR : error := Bail "SOCKS5 relay ended with an error".

(** The watch's loop turns at most twice between two events. *)
Definition WATCH_FUEL : nat := 2.

Lemma until_idle_clean {T} idle_timeout timer_first (x : T) events :
  0 < idle_timeout → ordered 0 events → lively idle_timeout timer_first 0 events = true →
  until_idle idle_timeout timer_first WATCH_FUEL x events = Some x.
Proof.
  intros Hi Ho Hl. unfold WATCH_FUEL, until_idle, idle_round. cbn [last_millis].
  destruct (_ <=? 0) eqn:E; [reflect_bools; lia|].
  rewrite (watch_lively idle_timeout timer_first 2 x events (le_n 2) 0); [by rewrite Hl|done|cbn [last_millis]; lia|done].
Qed.

Section Relay.
Context `{RecordCrypto} {R W K : Type} `{AsyncRead R} `{AsyncWrite W} `{AsyncWrite K}.
Context (fill : nat → option bytes) (fuel : nat).

Abbreviation Session := (SnellSession (R := R) (W := W)).

(** [(upload, download)]: they work on separate halves of the session, so the
    upload's effects may be taken first ([directions_commute]). *)
Definition directions (count : nat) (events : list upload_event) (s : Session * K) :
    result UploadEnd * result unit * (Session * K) :=
  let '(uploaded, session) := upload fill events s.1 in
  let '(downloaded, s) := download fuel count (session, s.2) in
  (uploaded, downloaded, s).

(** The result of [relay], where its connection goes, and the client's half. A
    direction that is cut short, by the other or by the watch, leaves a
    connection that is retired whatever was done on it. *)
Definition relay (count : nat) (idle_timeout : Z) (env : RelayEnv) (session : Session) (client : K) :
    result unit * finished (R := R) (W := W) * K :=
  let '(uploaded, downloaded, (session, client)) := directions count (reads env) (session, client) in
  let race := if upload_first env then UploadFirst uploaded downloaded
              else DownloadFirst downloaded (if stops_in_time env then Some uploaded else None) in
  let '(clean, close_write_sent) :=
    default (false, false)
      (until_idle idle_timeout (simultaneous env) WATCH_FUEL (drive_relay race) (timeline env)) in
  (if clean then Ok tt else Err RELAY_ERROR,
   finish fill fuel session clean close_write_sent (close_expired env), client).

(** [serve_connect] once the session is dialled: the reply, then the relay. *)
Definition connect_and_relay (count : nat) (idle_timeout : Z) (env : RelayEnv) (dialled : result Session)
    (split : TcpStream → K) (client : TcpStream) :
    result unit * option (finished (R := R) (W := W)) * (TcpStream + K) :=
  match serve_connect dialled (λ s, local_addr (session_physical s)) client with
  | (Err e, client) => (Err e, None, inl client)
  | (Ok session, client) =>
      let '(outcome, fate, client) := relay count idle_timeout env session (split client) in
      (outcome, Some fate, inr client)
  end.
End Relay.

(** ** The UDP association *)

Section Udp.
Context `{RecordCrypto} {R W : Type} `{AsyncRead R} `{AsyncWrite W}.
Context (fill : nat → option bytes) (fuel : nat).

Abbreviation PacketSession := (SnellPacketSession (R := R) (W := W)).

(** [bound] is the outcome of [UdpRelay::bind], [dialled] of [dial_udp],
    [control_ip] the peer of the control connection; [events] is what the two
    loops do until one of them fails, the control connection ends or the watch
    returns. Any of these ends the association, its upstream is closed, and the
    outcome is not an error. *)
Definition serve_udp_associate (bound : result SocketAddr) (dialled : result PacketSession)
    (control_ip : option IpAddr) (events : list udp_event) : M TcpStream (Association (R := R) (W := W)) :=
  match bound with
  | Err error => write_reply x01 None;; throw error
  | Ok advertised =>
      match dialled with
      | Err _ => write_reply x01 None;; bail "open upstream UDP association"
      | Ok upstream =>
          write_reply x00 (Some advertised);;
          let association := MkAssociation upstream None [] (MkActivity 0) in
          let association := (udp_run fill fuel control_ip events association).2 in
          mret ((on_upstream packet_close association).2)
      end
  end.
End Udp.

(** ** The directions do not interfere *)

(** What one direction does to the shared counters. *)
Inductive counts (d : Direction) : (option Counters → option Counters) → Prop :=
  | counts_none : counts d (λ c, c)
  | counts_record n f : counts d f → counts d (λ c, f (record d n c)).

Lemma record_commute d d' n m c : d ≠ d' → record d n (record d' m c) = record d' m (record d n c).
Proof.
  intros Hd. destruct c as [[b v]|]; [|done]. unfold record. cbn [enabled values].
  destruct (negb (m =? 0) && b) eqn:Em, (negb (n =? 0) && b) eqn:En; cbn [enabled values];
    rewrite ?Em, ?En; try done;
    apply andb_true_iff in Em as [Hm ->] || apply andb_true_iff in En as [Hn ->];
    rewrite ?andb_true_r in *; rewrite ?Hm, ?Hn, ?Em, ?En; try done.
  destruct d, d'; done.
Qed.

Lemma counts_after d d' n f c : d ≠ d' → counts d f → f (record d' n c) = record d' n (f c).
Proof.
  intros Hd Hf. revert c. induction Hf as [|m f Hf IH]; intros c; [done|].
  by rewrite record_commute, IH.
Qed.

Lemma counts_commute d d' f g c : d ≠ d' → counts d f → counts d' g → f (g c) = g (f c).
Proof.
  intros Hd Hf Hg. revert c. induction Hg as [|n g Hg IH]; intros c; [done|].
  by rewrite IH, (counts_after d d' n f c).
Qed.

Section Interference.
Context `{RecordCrypto} {R W K : Type} `{AsyncRead R} `{AsyncWrite W} `{AsyncWrite K}.
Context (fill : nat → option bytes) (fuel : nat).

Abbreviation Session := (SnellSession (R := R) (W := W)).

(** A session with other contents of its halves and counters. *)
Definition with_reader (r : SnellReader (RecordReader R)) (s : Session) : Session :=
  MkSession (set_conn_reader r (session_physical s)) (session_uses s) (reusable s) (session_counters s).
Definition with_writer (w : RecordWriter W) (s : Session) : Session :=
  MkSession (set_conn_writer w (session_physical s)) (session_uses s) (reusable s) (session_counters s).
Definition with_counters (c : option Counters) (s : Session) : Session :=
  MkSession (session_physical s) (session_uses s) (reusable s) c.

(** The upload neither looks at the reader nor changes it. *)
Lemma upload_local events (s : Session) : ∃ x w f, counts TcpUpload f ∧
  ∀ r c, upload fill events (with_counters c (with_reader r s)) =
           (x, with_counters (f c) (with_writer w (with_reader r s))).
Proof.
  revert s. induction events as [|[content|e|] events IH]; intros s;
    try (eexists _, (writer (session_physical s)), (λ c, c); split; [apply counts_none|];
         intros r c; by destruct s as [[]]).
  cbn [upload]. case_bool_decide.
  - unfold close_write, on_physical, on_conn_writer, zoom, get, mbind, M_bind. destruct s as [[rd w addr gen] u re cs]. destruct re.
    + destruct (write_frame fill [] 0 w) as [[[]|e] w'] eqn:E;
        (eexists _, w', (λ c, c); split; [apply counts_none|]; intros r c; cbn; by rewrite E).
    + destruct (writer_shutdown w) as [[[]|e] w'] eqn:E;
        (eexists _, w', (λ c, c); split; [apply counts_none|]; intros r c; cbn; by rewrite E).
  - unfold session_write, session_record, on_physical, on_conn_writer, zoom, modify, mbind, M_bind.
    destruct (write_payload fill content (writer (session_physical s))) as [[n|e] w] eqn:E.
    + destruct (IH (with_writer w s)) as (x & w' & f & Hf & Hup).
      exists x, w', (λ c, f (record TcpUpload (Z.of_nat (length content)) c)).
      split; [by apply counts_record|]. intros r c. destruct s as [[rd w0 addr gen] u re cs]. cbn in E |- *.
      rewrite E. exact (Hup r _).
    + eexists _, w, (λ c, c). split; [apply counts_none|]. intros r c.
      destruct s as [[rd w0 addr gen] u re cs]. cbn in E |- *. by rewrite E.
Qed.

(** Nor does the download the writer. *)
Lemma download_local count (s : Session) (k : K) : ∃ x r k' f, counts TcpDownload f ∧
  ∀ w c, download fuel count (with_counters c (with_writer w s), k) =
           (x, (with_counters (f c) (with_writer w (with_reader r s)), k')).
Proof.
  revert s k. induction count as [|count IH]; intros s k.
  { eexists _, (reader (session_physical s)), k, (λ c, c). split; [apply counts_none|].
    intros w c. by destruct s as [[]]. }
  cbn [download].
  unfold session_read_chunk, session_record, on_physical, on_conn_reader, zoom, modify, mbind, M_bind, mret, M_ret.
  set (counted := λ n c, record TcpDownload (Z.of_nat n) c).
  assert (Hcounted : ∀ n, counts TcpDownload (counted n)) by (intros n; apply (counts_record _ _ (λ c, c)), counts_none).
  destruct (read_application_chunk fuel (reader (session_physical s))) as [[chunk|e] r] eqn:E.
  - destruct (decide (chunk = [])) as [Hc|Hc].
    + destruct (shutdown k) as [y k'] eqn:Ek. exists y, r, k', (counted (length chunk)). split; [done|].
      intros w c. destruct s as [[rd w0 addr gen] u re cs]. cbn in E |- *. rewrite E. cbn.
      rewrite bool_decide_eq_true_2 by done. cbn. by rewrite Ek.
    + destruct (write_all chunk k) as [[[]|e] k1] eqn:Ek.
      * destruct (IH (with_reader r s) k1) as (x & r' & k' & f & Hf & Hdown).
        exists x, r', k', (λ c, f (counted (length chunk) c)). split; [by apply counts_record|].
        intros w c. pose proof (Hdown w (counted (length chunk) c)) as Hd.
        destruct s as [[rd w0 addr gen] u re cs]. cbn in E |- *. rewrite E. cbn.
        rewrite bool_decide_eq_false_2 by done. cbn. rewrite Ek. exact Hd.
      * exists (Err e), r, k1, (counted (length chunk)). split; [done|].
        intros w c. destruct s as [[rd w0 addr gen] u re cs]. cbn in E |- *. rewrite E. cbn.
        rewrite bool_decide_eq_false_2 by done. cbn. by rewrite Ek.
  - exists (Err e), r, k, (λ c, c). split; [apply counts_none|].
    intros w c. destruct s as [[rd w0 addr gen] u re cs]. cbn in E |- *. by rewrite E.
Qed.

(** The two directions of a relay do not interfere: run in either order, on
    any session and any client, they come to the same results, leave the same
    session, the same count of bytes in each direction, and the same client. *)
Theorem directions_commute count events (s : Session) (k : K) :
  directions fill fuel count events (s, k) =
    let '(downloaded, (session, client)) := download fuel count (s, k) in
    let '(uploaded, session) := upload fill events session in
    (uploaded, downloaded, (session, client)).
Proof.
  destruct (upload_local events s) as (x & w & f & Hf & Hup).
  destruct (download_local count s k) as (y & r & k' & g & Hg & Hdown).
  pose proof (Hup (reader (session_physical s)) (session_counters s)) as Hup1.
  pose proof (Hup r (g (session_counters s))) as Hup2.
  pose proof (Hdown (writer (session_physical s)) (session_counters s)) as Hdown1.
  pose proof (Hdown w (f (session_counters s))) as Hdown2.
  assert (Hs1 : with_counters (session_counters s) (with_reader (reader (session_physical s)) s) = s)
    by by destruct s as [[]].
  assert (Hs2 : with_counters (session_counters s) (with_writer (writer (session_physical s)) s) = s)
    by by destruct s as [[]].
  rewrite Hs1 in Hup1. rewrite Hs2 in Hdown1.
  unfold directions. cbn [fst snd]. rewrite Hup1, Hdown1.
  change (with_writer w (with_reader (reader (session_physical s)) s)) with
    (with_reader (reader (session_physical s)) (with_writer w s)).
  assert (Hr : with_reader (reader (session_physical s)) (with_writer w s) = with_writer w s)
    by by destruct s as [[]].
  rewrite Hr, Hdown2.
  assert (Hw : with_writer (writer (session_physical s)) (with_reader r s) = with_reader r s)
    by by destruct s as [[]].
  rewrite Hw, Hup2. f_equal. f_equal. f_equal.
  by rewrite (counts_commute TcpUpload TcpDownload f g).
Qed.
End Interference.

(** ** From the client to the node *)

Section Transfer.
Context `{C : RecordCrypto} {R : Type} `{AsyncRead R} (fill : nat → option bytes) (fuel : nat).

Abbreviation session_writer s := (writer (session_physical s)).
Abbreviation session_reader s := (reader (session_physical s)).

(** Closing a session whose end has been read takes nothing from the wire. *)
Lemma close_ended {S} `{RecordSource S} (r : SnellReader S) :
  server_eof r = true → reply_pending r = false → reply_error r = None → (1 <= fuel)%nat →
  complete_reuse_close fuel r = (Ok tt, set_offset 0 (set_buffered [] r)).
Proof.
  intros He Hp Hr Hf. unfold complete_reuse_close, modify, mbind, M_bind, ensure_reply, get.
  cbn [reply_error reply_pending set_offset set_buffered]. unfold mbind, M_bind. cbn. rewrite Hr, Hp. cbn.
  destruct fuel; [lia|]. cbn. unfold get, mbind, M_bind. cbn. by rewrite He.
Qed.

Lemma finish_ended (s : SnellSession (R := R) (W := Gated)) :
  reusable s = true → server_eof (session_reader s) = true → reply_pending (session_reader s) = false →
  reply_error (session_reader s) = None → (1 <= fuel)%nat →
  ∃ p, finish fill fuel s true true false = Released p (session_uses s) ∧ writer p = session_writer s.
Proof.
  intros Hr He Hp Herr Hf. unfold finish, with_timeout, finish_close, on_conn_reader, zoom, mbind, M_bind, mret, M_ret.
  rewrite Hr. cbn [negb orb]. rewrite close_ended by done. cbn. by eexists.
Qed.

(** A whole relay of a session whose reply is still to come: the client sends
    [bs] and half-closes, the node answers [d]. *)
Lemma relay_transfers count idle_timeout env bs d (s : SnellSession (R := R) (W := Gated)) (k : Gated) s' :
  seals → gate_closed (w_writer (session_writer s)) = false → reusable s = true →
  awaiting (session_reader s) (x00 :: d) s' → gate_closed k = false →
  (length d + 2 < count)%nat → (length d + 1 < fuel)%nat → (2 <= fuel)%nat →
  reads env = (ClientRead <$> bs) ++ [ClientRead []] → Forall (.≠ []) bs →
  stops_in_time env = true → close_expired env = false →
  0 < idle_timeout → ordered 0 (timeline env) → lively idle_timeout (simultaneous env) 0 (timeline env) = true →
  ∃ p payloads,
    relay fill fuel count idle_timeout env s k =
      (Ok tt, Released p (session_uses s), MkGated [] (committed k ++ pending k ++ d) true) ∧
    sent fill (session_writer s) (writer p) (payloads ++ [[]]) ∧
    Forall (.≠ []) payloads ∧ concat payloads = concat bs.
Proof.
  intros Hs Ho Hr Ha Hk Hcount Hfuel Hf2 Hreads Hbs Hstop Hclose Hidle Hord Hlive.
  destruct (upload_all fill bs s Hs Ho Hr Hbs) as (su & payloads & Hup & Hsent & Hne & Hcat).
  destruct (upload_local fill (reads env) s) as (x & w & f & _ & Hloc).
  pose proof (Hloc (session_reader s) (session_counters s)) as Hsu. rewrite Hreads in Hsu.
  assert (Hs0 : with_counters (session_counters s) (with_reader (session_reader s) s) = s) by by destruct s as [[]].
  rewrite Hs0, Hup in Hsu. injection Hsu as <- Hsu.
  destruct (download_reply fuel count d su k s') as (t & Hdown & Heof & _ & Hpend & Herr);
    [by rewrite Hsu|done|lia..|].
  destruct (download_local fuel count su k) as (y & r & k' & g & _ & Hdloc).
  pose proof (Hdloc (session_writer su) (session_counters su)) as Ht.
  assert (Hsu0 : with_counters (session_counters su) (with_writer (session_writer su) su) = su) by by destruct su as [[]].
  rewrite Hsu0, Hdown in Ht. injection Ht as _ Ht _.
  unfold relay, directions. cbn [fst snd]. rewrite Hreads, Hup. cbn [fst snd]. rewrite Hdown, Hstop, Hclose.
  assert (Hd : drive_relay (if upload_first env then UploadFirst (Ok ClientEof) (Ok tt)
                            else DownloadFirst (Ok tt) (Some (Ok ClientEof))) = (true, true))
    by by destruct (upload_first env).
  rewrite Hd, until_idle_clean by done. cbn [default].
  destruct (finish_ended t) as (p & Hfin & Hp); [by rewrite Ht, Hsu|done..|lia|].
  exists p, payloads. unfold id. rewrite Hfin. split; [by rewrite Ht, Hsu|]. split; [by rewrite Hp, Ht|done].
Qed.
End Transfer.

Lemma safe_credential_wf v : Nodes.is_safe_credential v = true → credential_wf v ∧ from_utf8_lossy v = v.
Proof.
  unfold Nodes.is_safe_credential. intros [[Hne Hl]%andb_true_iff Hall]%andb_true_iff.
  apply negb_true_iff, bool_decide_eq_false_1 in Hne. apply Nat.leb_le in Hl.
  split; [split; [done|lia]|]. apply from_utf8_lossy_ascii. 
  apply Forall_forall. intros b Hb. rewrite forallb_forall in Hall. apply list_elem_of_In, Hall in Hb.
  destruct b; vm_compute in Hb |- *; done.
Qed.

Section EndToEnd.
Context `{C : RecordCrypto} `{!RecordCryptoLaws C} `{Nodes.Base64Url}.
Context (make_runtime : Nodes.Proxy → result unit) {EchConfig : Type} (parse_ech_config : bytes → result EchConfig).
Context (hmac_sha256 : bytes → bytes → bytes) (sha256 : bytes → bytes).
Context (fill : nat → option bytes) (fuel : nat).

(** The credentials a gateway publishes for a node are accepted for it. *)
Lemma node_credentials ps published port allow ctx previous next r next' p selector :
  Gateway.bounded previous next →
  Gateway.build make_runtime parse_ech_config ps published port allow ctx previous next = (Ok r, next') →
  p ∈ ps → Nodes.node_selector (Nodes.name p) = Ok selector →
  Nodes.is_safe_credential (Gateway.context_secret ctx) = true ∧
  ∃ rt, Gateway.runtimes r !! Nodes.name p = Some rt ∧ Gateway.r_proxy rt = p ∧
    Gateway.authenticate r selector (Gateway.context_secret ctx) = Ok (Gateway.runtime_route rt).
Proof.
  intros _ Hbuild Hp Hsel. split.
  { destruct (Gateway.build_fields _ _ _ _ _ _ _ _ _ _ _ Hbuild) as (Hdocs & _). cbv zeta in Hdocs.
    unfold Gateway.render_provider_docs, Provider.render_surge in Hdocs.
    destruct (Provider.check_provider "Surge" published _ _ _) as [[]|] eqn:E; [|done].
    by apply Provider.check_provider_secret in E as (? & _). }
  destruct (Gateway.build_inv _ _ _ _ _ _ _ _ _ _ _ Hbuild) as (b & Hbuilt & Hr & Hrt & Hs & _).
  destruct (Gateway.built_added _ _ _ _ Hbuilt p Hp) as (rt & sel & Hl & Hrp & Hsel').
  exists rt. rewrite Hrt. split; [done|]. split; [done|].
  unfold Gateway.authenticate, bytes_eqb. rewrite Hs, bool_decide_eq_true_2 by done. cbn [negb]. rewrite Hr.
  assert (b.(Gateway.b_routes) !! selector = Some (Gateway.runtime_route rt)) as ->; [|done].
  apply (Gateway.built_routes _ _ _ _ Hbuilt). by exists p, rt.
Qed.

(** What a node that knows the key reads: after the preamble, the request, then
    the records of a session and its end, and nothing more. *)
Definition node_reads (psk request : bytes) (payloads : list bytes) (wire : bytes) : Prop :=
  ∃ r r1 r2, reader_with_salt (drop 56 wire) psk (take 16 wire) = Ok r ∧
    SnellRecord.read_frame r = (Ok request, r1) ∧ delivers r1 (payloads ++ [[]]) r2 ∧ r_reader r2 = [].

(** The handshake of a client with a node's credentials. *)
Lemma client_served (manager : bytes → bytes → result Gateway.Route) methods selector secret address port rest route :
  credential_wf methods → METHOD_USERNAME_PASSWORD ∈ methods →
  Nodes.is_safe_credential selector = true → Nodes.is_safe_credential secret = true →
  socks_address_wf address → u16 port → port ≠ 0 → manager selector secret = Ok route →
  let script := MkScript methods (Some (selector, secret)) COMMAND_CONNECT address port in
  serve_socks5 Gateway.route_udp (Dynamic manager) VERSION false
    (MkTcp (script_bytes script ++ rest) [] false) =
    (Ok (ServeConnect route (script_request script)),
     MkTcp rest (handshake_out (Dynamic manager)) false).
Proof.
  intros Hm Hin Hsel Hsec Ha Hp Hp0 Hauth script.
  apply safe_credential_wf in Hsel as [Hselw Hsell], Hsec as [Hsecw Hsecl].
  assert (Hneg : negotiate_and_read_request (Dynamic manager) VERSION (MkTcp (script_bytes script ++ rest) [] false)
                 = (Ok (route, script_request script), MkTcp rest ([] ++ handshake_out (Dynamic manager)) false)).
  { apply negotiate_complete; [|split; [done|eauto]|done| |done].
    - split_and!; try done. by left.
    - unfold script, script_user. cbn. by rewrite Hsell, Hsecl. }
  unfold serve_socks5. cbn [with_timeout]. by rewrite (M_bind_ok _ _ _ _ _ Hneg).
Qed.

(** A session dialled on a new connection: whatever is then sent on it and ended,
    the wire starts with an identity the node accepts, and the node reads the
    request and exactly what was sent. *)
Lemma fresh_session o c (rd : bytes) exporter generation addr nonce random host target_port request
    now expired counters :
  snell_client_new hmac_sha256 sha256 o = Ok c → reuse o = true →
  (∀ key m, length (hmac_sha256 key m) = 32%nat) → seals → (∀ n, is_Some (fill n)) → fills fill →
  length nonce = 16%nat → is_ok (derive_record_key (psk o) nonce) = true →
  build_connect_request host target_port true = Ok request →
  let env := MkDialEnv (Ok tt) (Ok (rd, MkGated [] [] false, exporter, generation)) (Ok addr) (Some nonce)
               (Some random) false in
  ∃ conn sofar,
    dial_tcp hmac_sha256 (λ _, false) fill fuel c env host target_port now generation expired counters =
      (Ok (MkSession conn 1 true counters), c) ∧
    reader conn = snell_reader_new (reader_new rd (psk o)) ∧ local_addr conn = addr ∧
    w_writer (writer conn) = MkGated [] sofar false ∧
    ∀ w payloads, sent fill (writer conn) w (payloads ++ [[]]) →
      ∃ wire, w_writer w = MkGated [] wire false ∧
        identity_accepts hmac_sha256 (client_identity c) exporter (take 56 wire) = true ∧
        node_reads (psk o) request payloads wire.
Proof.
  intros Hc Hreuse Hmac Hseals Hfill Hfills Hn Hkey Hreq env.
  destruct (open_tcp_flight hmac_sha256 sha256 fill fuel o c rd (MkGated [] [] false) exporter generation addr
              nonce random host target_port true request Hmac Hseals Hfill Hfills Hn eq_refl Hc Hkey Hreq)
    as (conn & preamble & wire & Hopen & Hreader & [Hlocal _] & Hwriter & Hpl & Hpt & Hid & Hnode).
  cbn [AsyncIo.pending committed app] in Hwriter.
  destruct (snell_client_new_inv _ _ _ _ Hc) as (Hopt & _ & _ & Hpool & _).
  exists conn, (preamble ++ wire). split.
  { unfold dial_tcp. rewrite Hpool, Hopt, Hreuse. cbn [closed SnellPool.idle length].
    destruct c as [o' i q]; cbn [options client_pool client_identity] in *. subst o' q. cbn.
    unfold set_pool. cbn [options client_identity]. unfold env in Hopen |- *. by rewrite Hreuse, Hopen. }
  split; [exact Hreader|]. split; [exact Hlocal|]. split; [exact Hwriter|].
  intros w payloads (wire2 & w1 & Henc & ->). rewrite Hwriter. cbn [AsyncIo.pending committed app w_writer set_writer].
  exists ((preamble ++ wire) ++ wire2). split; [done|]. rewrite <-!app_assoc.
  split; [by rewrite take_app_length'|].
  destruct (Hnode wire2) as (rr & r1 & Hnew & Hrd & Hrest & Hsync).
  destruct (delivers_frames fill _ _ _ _ r1 [] Hfills Hsync Henc) as (r2 & Hdel & Hend & _);
    [by rewrite Hrest, app_nil_r|].
  exists rr, r1, r2. rewrite drop_app_length' by done. split_and!; [|done| |done].
  - rewrite take_app_le, Hpt by lia. done.
  - rewrite <-list_fmap_compose in Hdel. cbn in Hdel. by rewrite list_fmap_id in Hdel.
Qed.

(** C1: A client that uses a node's credentials reaches that node, end to end. If
    the gateway was built from a catalog and the client's greeting carries the
    selector and the secret the gateway publishes for one of its nodes, the
    handshake leads to this node's runtime; the connection the Snell client
    opens for the request starts with an identity preamble the node accepts;
    and over it the node reads exactly the CONNECT request for the client's
    target, then exactly what the client sends, then the end of the session,
    while the client is sent the handshake's answers, the reply, and exactly
    what the node answers. Whichever side ends first, the relay succeeds and
    the connection is given back for reuse. *)
Theorem socks_connect_end_to_end ps published port allow ctx previous next r next' p selector
    methods address target_port bs o c (rd : bytes) s' exporter generation addr nonce random d request counters
    now expired count idle_timeout env :
  (** the gateway and the client's greeting *)
  Gateway.bounded previous next →
  Gateway.build make_runtime parse_ech_config ps published port allow ctx previous next = (Ok r, next') →
  p ∈ ps → Nodes.node_selector (Nodes.name p) = Ok selector →
  credential_wf methods → METHOD_USERNAME_PASSWORD ∈ methods →
  socks_address_wf address → u16 target_port → target_port ≠ 0 →
  (** the node's Snell client, the cryptography and the randomness *)
  snell_client_new hmac_sha256 sha256 o = Ok c → psk o = Nodes.psk p → reuse o = true →
  (∀ key m, length (hmac_sha256 key m) = 32%nat) → seals → (∀ n, is_Some (fill n)) → fills fill →
  length nonce = 16%nat → is_ok (derive_record_key (psk o) nonce) = true →
  build_connect_request (socks_host address) target_port true = Ok request →
  (** what the node answers and what the client sends *)
  awaiting (snell_reader_new (reader_new rd (psk o))) (x00 :: d) s' →
  reads env = (ClientRead <$> bs) ++ [ClientRead []] → Forall (.≠ []) bs →
  stops_in_time env = true → close_expired env = false →
  0 < idle_timeout → ordered 0 (timeline env) → lively idle_timeout (simultaneous env) 0 (timeline env) = true →
  (length d + 2 < count)%nat → (length d + 1 < fuel)%nat → (2 <= fuel)%nat →
  let mode := Dynamic (Gateway.authenticate r) in
  let script := MkScript methods (Some (selector, Gateway.context_secret ctx)) COMMAND_CONNECT address target_port in
  let dial := MkDialEnv (Ok tt) (Ok (rd, MkGated [] [] false, exporter, generation)) (Ok addr) (Some nonce)
                (Some random) false in
  let client := MkTcp (concat bs) (handshake_out mode) false in
  ∃ rt session p1 wire payloads,
    Gateway.runtimes r !! Nodes.name p = Some rt ∧ Gateway.r_proxy rt = p ∧
    serve_socks5 Gateway.route_udp mode VERSION false (MkTcp (script_bytes script ++ concat bs) [] false) =
      (Ok (ServeConnect (Gateway.runtime_route rt) (script_request script)), client) ∧
    dial_tcp hmac_sha256 (λ _, false) fill fuel c dial (host (script_request script))
      (Socks5.port (script_request script)) now generation expired counters = (Ok session, c) ∧
    connect_and_relay fill fuel count idle_timeout env (Ok session) (λ t, (into_split t).2) client =
      (Ok tt, Some (Released p1 1),
       inr (MkGated [] (handshake_out mode ++ ([VERSION; x00; x00] ++ address_bytes (sa_ip addr) ++ be16 (sa_port addr)) ++ d)
              true)) ∧
    w_writer (writer p1) = MkGated [] wire false ∧
    identity_accepts hmac_sha256 (client_identity c) exporter (take 56 wire) = true ∧
    node_reads (Nodes.psk p) request payloads wire ∧ concat payloads = concat bs.
Proof.
  intros Hb Hbuild Hp Hsel Hm Hin Ha Htp Htp0 Hc Hpsk Hreuse Hmac Hseals Hfill Hfills Hn Hkey Hreq Haw
    Hreads Hbs Hstop Hclose Hidle Hord Hlive Hcount Hfuel Hf2 mode script dial client.
  destruct (node_credentials _ _ _ _ _ _ _ _ _ _ _ Hb Hbuild Hp Hsel) as (Hsafe & rt & Hrt & Hrp & Hauth).
  pose proof (Nodes.node_selector_inv _ _ Hsel) as (_ & _ & Hselsafe).
  pose proof (client_served (Gateway.authenticate r) methods selector _ address target_port (concat bs) _
                Hm Hin Hselsafe Hsafe Ha Htp Htp0 Hauth) as Hserved.
  destruct (fresh_session o c rd exporter generation addr nonce random (socks_host address) target_port request
              now expired counters Hc Hreuse Hmac Hseals Hfill Hfills Hn Hkey Hreq)
    as (conn & sofar & Hdial & Hreader & Hlocal & Hwriter & Hnode).
  destruct (relay_transfers fill fuel count idle_timeout env bs d (MkSession conn 1 true counters)
              (MkGated [] (handshake_out mode ++ ([VERSION; x00; x00] ++ address_bytes (sa_ip addr) ++ be16 (sa_port addr))) false) s')
    as (p1 & payloads & Hrelay & Hsent & _ & Hcat); try done.
  { cbn. by rewrite Hwriter. }
  { cbn. by rewrite Hreader. }
  destruct (Hnode _ _ Hsent) as (wire & Hwire & Hid & Hreads').
  exists rt, (MkSession conn 1 true counters), p1, wire, payloads.
  split; [exact Hrt|]. split; [exact Hrp|]. split; [exact Hserved|]. split; [exact Hdial|].
  split.
  { unfold client, connect_and_relay, serve_connect, write_reply, tcp_write, mbind, M_bind. cbn [tcp_broken].
    cbn [session_physical]. rewrite Hlocal. cbn [into_split snd tcp_in tcp_out tcp_broken mret M_ret]. fold mode.
    unfold mret, M_ret. cbn [into_split snd tcp_in tcp_out tcp_broken]. rewrite Hrelay. cbn [AsyncIo.pending committed session_uses].
    by rewrite <-!app_assoc. }
  split; [exact Hwire|]. split; [exact Hid|]. split; [by rewrite <-Hpsk|exact Hcat].
Qed.
End EndToEnd.

(** ** Datagrams from the client to the node and back *)

Section Datagrams.
Context `{C : RecordCrypto} `{!RecordCryptoLaws C} {R : Type} `{AsyncRead R} (fill : nat → option bytes) (fuel : nat).

(** The address of a source as the client reads it. *)
Definition source_address (source : SocketAddr) : socks_address :=
  match sa_ip source with V4 a b c d => SocksV4 a b c d | V6 o => SocksV6 o end.

Lemma encode_datagram_address source payload :
  encode_datagram source payload =
    [x00; x00; x00] ++ socks_address_bytes (source_address source) ++ be16 (sa_port source) ++ payload.
Proof. unfold encode_datagram, address_bytes, source_address. by destruct source as [[a b c d|o] p]. Qed.

(** C39: A datagram of a client reaches its target and an answer comes back. In an
    association whose upstream is open, a well-formed datagram of the client
    leaves the address it came from as the client's, is counted, and is sent as
    one record that a node in step with the connection reads as exactly this
    target, port and payload; nothing else of the association changes. A
    datagram the node sends is passed to the client, and only to it, as a
    datagram that reads as the node's source and payload. *)
Theorem udp_datagrams_cross control_ip now (s : Association (R := R) (W := Gated)) source :
  (∀ ip, control_ip = Some ip → sa_ip source = ip) →
  (client_address s = None ∨ client_address s = Some source) →
  (∀ address target_port payload frame (node : RecordReader bytes),
     seals → fills fill → gate_closed (w_writer (packet_writer (upstream s))) = false →
     in_sync (packet_writer (upstream s)) node →
     socks_address_wf address → u16 target_port → target_port ≠ 0 →
     encode_udp_request (socks_host address) target_port payload = Ok frame →
     ∃ s' wire,
       udp_client_step fill control_ip now source
         ([x00; x00; x00] ++ socks_address_bytes address ++ be16 target_port ++ payload) s = (Ok tt, s') ∧
       client_address s' = Some source ∧ local_sent s' = local_sent s ∧ activity s' = touch now (activity s) ∧
       packet_reader (upstream s') = packet_reader (upstream s) ∧
       packet_counters (upstream s') = record UdpUpload (Z.of_nat (length payload)) (packet_counters (upstream s)) ∧
       w_writer (packet_writer (upstream s')) =
         MkGated [] (committed (w_writer (packet_writer (upstream s))) ++
                     pending (w_writer (packet_writer (upstream s))) ++ wire) false ∧
       parse_udp_request frame = Some (target_of (socks_host address), target_port, payload) ∧
       ∀ rest, ∃ node',
         SnellRecord.read_frame (set_reader (wire ++ rest) node) = (Ok frame, node') ∧ r_reader node' = rest ∧
         in_sync (packet_writer (upstream s')) node') ∧
  (∀ from payload t,
     client_address s = Some source → reply_pending (packet_reader (upstream s)) = false →
     reply_error (packet_reader (upstream s)) = None → wf_sa from → sa_port from ≠ 0 →
     delivers (records (packet_reader (upstream s))) [udp_response from payload] t →
     ∃ s',
       udp_upstream_step fuel now true s = (Ok tt, s') ∧
       local_sent s' = local_sent s ++ [(source, encode_datagram from payload)] ∧
       decode_datagram (encode_datagram from payload) =
         Ok (ip_to_string (sa_ip from), sa_port from, payload) ∧
       client_address s' = Some source ∧ records (packet_reader (upstream s')) = t ∧
       packet_writer (upstream s') = packet_writer (upstream s) ∧
       packet_counters (upstream s') = record UdpDownload (Z.of_nat (length payload)) (packet_counters (upstream s))).
Proof.
  intros Hip Hclient. split.
  - intros address target_port payload frame node Hs Hfills Ho Hsync Ha Hp Hp0 Hframe.
    destruct (udp_request_roundtrip _ _ _ _ Hp Hframe) as (Hparse & Hlen & _).
    destruct (write_frame_open fill frame (packet_writer (upstream s)) Hs Hlen Ho) as (wire & w1 & Henc & Hw).
    eexists _, wire. split.
    { unfold udp_client_step.
      assert (Hpass : match control_ip with Some ip => negb (bool_decide (sa_ip source = ip)) | None => false end = false).
      { destruct control_ip as [ip|]; [|done]. by rewrite bool_decide_eq_true_2 by auto. }
      rewrite Hpass. unfold get, modify, try_, mbind, M_bind.
      assert (Hfirst : match client_address s with Some a => a | None => source end = source)
        by by destruct Hclient as [->| ->].
      rewrite Hfirst, bool_decide_eq_true_2 by done. cbn [negb]. rewrite decode_datagram_encoded by done.
      unfold on_upstream, zoom, write_to_host, on_packet_writer, packet_record, lift, modify, zoom, mbind, M_bind.
      cbn [upstream set_client]. rewrite Hframe. cbn [map_err]. rewrite Hw. reflexivity. }
    split_and!; try done.
    intros rest. destruct (frame_step fill frame 0 _ _ _ (set_reader (wire ++ rest) node) rest Hfills Hsync Henc eq_refl)
      as (node' & Hr & Hrr & Hsy).
    exists node'. split; [|done]. unfold SnellRecord.read_frame. rewrite Hr. unfold kind_of.
    rewrite bool_decide_eq_false_2; [done|]. intros ->. by destruct (socks_host address).
  - intros from payload t Hc Hpend Herr Hwf Hport (t1 & Hread & <-).
    assert (Hk : kind_of (udp_response from payload) = Payload) by by apply kind_of_payload.
    assert (Hdec : decode_udp_response (udp_response from payload) = Ok (from, payload))
      by by apply decode_udp_response_encode.
    assert (Hdrop : drop (length (udp_response from payload) - length payload) (udp_response from payload) = payload).
    { unfold udp_response. rewrite app_comm_cons, app_assoc. rewrite length_app.
      replace (_ + length payload - length payload)%nat with
        (length ((((if is_ipv4 (sa_ip from) then x04 else x06) :: octets (sa_ip from)) ++ be16 (sa_port from)))) by lia.
      by rewrite drop_app_length. }
    assert (Hback : decode_datagram (encode_datagram from payload) = Ok (ip_to_string (sa_ip from), sa_port from, payload)).
    { rewrite encode_datagram_address, decode_datagram_encoded; [by destruct from as [[a b c d|o] p]| |by destruct Hwf|done].
      destruct from as [[a b c d|o] p]; [done|]. by destruct Hwf. }
    remember (udp_response from payload) as f eqn:Ef. clear Ef. eexists. split.
    { unfold udp_upstream_step, try_, on_upstream, read_from, on_packet_reader, packet_record, lift, get, modify, zoom,
        mbind, M_bind.
      unfold ensure_reply, get, mbind, M_bind. rewrite Herr, Hpend. cbn [negb]. unfold mret, M_ret. cbn [packet_reader].
      unfold read_packet_frame. rewrite Hread, Hk, Hdec. cbn. rewrite Hc, Hdrop. reflexivity. }
    by split_and!.
Qed.
End Datagrams.

(** ** Witness: two nodes, a client of the second *)

#[local] Existing Instance Nodes.toy_base64.

Definition demo_target : socks_address := SocksName (lit "host").
Definition demo_relay_env : RelayEnv :=
  MkRelayEnv [ClientRead (lit "ping"); ClientRead []] false true demo_session true false.
Definition demo_tunnel_options : SnellClientOptions :=
  MkOptions (lit "node") (lit "key") true 4 8 (60 * 10 ^ 9) (10 * 10 ^ 9) (2 * 10 ^ 9).
Definition demo_selector : bytes := Nodes.NODE_SELECTOR_PREFIX ++ Nodes.b64_encode (lit "CIA 02").
(** What the node answers: its acceptance, four bytes, the end. *)
Definition demo_answer : list (bytes * nat) := [([x00], 0%nat); (lit "pong", 0%nat); ([], 0%nat)].
Definition demo_node_writer : RecordWriter Gated :=
  MkWriter (MkGated [] [] false) demo_salt demo_salt false
    (replicate 12 x00) [].

(** A node that accepts and sends one record. *)
Lemma node_answers payload wire w' : payload ≠ [] →
  encode_frames demo_fill [([x00], 0%nat); (payload, 0%nat); ([], 0%nat)] demo_node_writer = (Ok wire, w') →
  ∃ s', awaiting (snell_reader_new (reader_new wire (lit "key"))) (x00 :: payload) s'.
Proof.
  intros Hne E.
  assert (Hf : fills demo_fill) by (intros n b [= <-]; apply length_replicate).
  assert (Hsync : in_sync demo_node_writer (reader_new wire (lit "key")))
    by (split; [reflexivity|split; [reflexivity|split; [vm_compute; reflexivity|reflexivity]]]).
  destruct (delivers_frames demo_fill _ _ _ wire (reader_new wire (lit "key")) []
              Hf Hsync E) as (s2 & Hd & _); [symmetry; apply app_nil_r|].
  exists s2. split; [reflexivity|]. split; [reflexivity|]. split; [reflexivity|]. split; [simpl; lia|].
  exists [[x00]; payload]. split; [exact Hd|]. split; [by repeat constructor|]. simpl. by rewrite app_nil_r.
Qed.

Lemma demo_node_answers : ∃ wire s',
  awaiting (snell_reader_new (reader_new wire (lit "key"))) (x00 :: lit "pong") s'.
Proof.
  destruct (encode_frames demo_fill demo_answer demo_node_writer) as [[wire|e] w'] eqn:E; [|vm_compute in E; discriminate].
  exists wire. by apply (node_answers _ wire w').
Qed.

(** What the hypotheses of an end-to-end theorem ask of this world. *)
Ltac demo_world :=
  first
    [ match goal with H : ?P |- ?Q => constr_eq P Q; exact H end
    | match goal with H : awaiting _ _ _ |- awaiting _ _ _ => exact H end
    | match goal with H : build_connect_request _ _ _ = _ |- build_connect_request _ _ _ = _ => exact H end
    | lazymatch goal with |- ordered _ _ => repeat split; vm_compute; congruence end
    | match goal with H : Gateway.demo_build = _ |- Gateway.build _ _ _ _ _ _ _ _ _ = _ => exact H end
    | lazymatch goal with |- _ = _ => vm_compute; reflexivity | |- ∀ _, _ => reflexivity end
    | lazymatch goal with |- _ ∈ _ => right; left | |- Forall _ _ => repeat constructor; discriminate end
    | by intros ? ? ? [=]
    | by intros ? [=]
    | intros ? ?; unfold demo_hmac; rewrite length_take, !length_app, length_replicate; lia
    | by intros; eexists
    | intros ? ? [= <-]; apply length_replicate
    | split; vm_compute; congruence
    | repeat split; vm_compute; congruence
    | apply Nat.ltb_lt; vm_compute; reflexivity
    | apply Nat.leb_le; vm_compute; reflexivity ].

Lemma socks_connect_end_to_end_witness :
  ∃ r c rt session p1 client payloads rd,
    Gateway.demo_build = (Ok r, 2%nat) ∧
    Gateway.runtimes r !! lit "CIA 02" = Some rt ∧ Gateway.r_proxy rt = Gateway.demo_two ∧
    dial_tcp demo_hmac (λ _, false) demo_fill 20 c
      (MkDialEnv (Ok tt) (Ok (rd, MkGated [] [] false, lit "exporter", 3)) (Ok demo_addr) (Some demo_salt)
         (Some (x01, x02)) false) (lit "host") 443 0 3 (λ _, false) None = (Ok session, c) ∧
    connect_and_relay demo_fill 20 20 (5 * 10 ^ 9) demo_relay_env (Ok session) (λ t, (into_split t).2)
      (MkTcp (lit "ping") [VERSION; METHOD_USERNAME_PASSWORD; x01; x00] false) =
      (Ok tt, Some (Released p1 1), inr client) ∧
    drop (length (committed client) - 4) (committed client) = lit "pong" ∧ concat payloads = lit "ping".
Proof.
  destruct Gateway.demo_build_ok as [r Hb]. destruct demo_node_answers as (rd & s' & Haw).
  destruct (snell_client_new (R := bytes) (W := Gated) demo_hmac (λ m, m) demo_tunnel_options) as [c|e] eqn:Hc;
    [|vm_compute in Hc; discriminate].
  destruct (socks_connect_end_to_end (λ _, Ok tt) Gateway.demo_ech demo_hmac (λ m, m) demo_fill 20
    [Gateway.demo_one; Gateway.demo_two] [Gateway.demo_one; Gateway.demo_two] 6172 false Gateway.demo_context None 0 r 2
    Gateway.demo_two demo_selector [x00; x02] demo_target 443 [lit "ping"] demo_tunnel_options c rd s'
    (lit "exporter") 3 demo_addr demo_salt (x01, x02) (lit "pong")
    ([x01; x05; x00; x04] ++ lit "host" ++ be16 443) None 0 (λ _, false) 20 (5 * 10 ^ 9) demo_relay_env)
    as (rt & session & p1 & wire & payloads & Hrt & Hrp & _ & Hdial & Hrelay & _ & _ & _ & Hcat); [demo_world..|].
  exists r, c, rt, session, p1. eexists. exists payloads, rd.
    split; [exact Hb|]. split; [exact Hrt|]. split; [exact Hrp|]. split; [exact Hdial|].
    split; [exact Hrelay|]. split; [vm_compute; reflexivity|exact Hcat].
Defined.

(** A datagram of an association's first client, to port 53 of a host. *)
Definition demo_association : Association (R := bytes) (W := Gated) :=
  MkAssociation (MkPacketSession (snell_reader_new (reader_new [] (lit "key"))) demo_node_writer None) None []
    (MkActivity 0).
Definition demo_source : SocketAddr := MkSocketAddr (V4 x7f x00 x00 x01) 5353.

Lemma udp_datagrams_cross_witness :
  ∃ s' wire node',
    udp_client_step demo_fill (Some (V4 x7f x00 x00 x01)) 7 demo_source
      ([x00; x00; x00] ++ socks_address_bytes demo_target ++ be16 53 ++ lit "query") demo_association = (Ok tt, s') ∧
    client_address s' = Some demo_source ∧
    SnellRecord.read_frame (reader_new wire (lit "key")) =
      (Ok ([x01; x04] ++ lit "host" ++ be16 53 ++ lit "query"), node').
Proof.
  destruct (udp_datagrams_cross (R := bytes) demo_fill 9 (Some (V4 x7f x00 x00 x01)) 7 demo_association demo_source)
    as [Hup _].
  - intros ip [= <-]. reflexivity.
  - left. reflexivity.
  - destruct (Hup demo_target 53 (lit "query") ([x01; x04] ++ lit "host" ++ be16 53 ++ lit "query")
                (reader_new [] (lit "key"))) as (s' & wire & Hstep & Hclient & _ & _ & _ & _ & _ & _ & Hread).
    + intros k n p. eexists. reflexivity.
    + intros n b [= <-]. apply length_replicate.
    + reflexivity.
    + split; [reflexivity|split; [reflexivity|split; [vm_compute; reflexivity|reflexivity]]].
    + split; [discriminate|vm_compute; discriminate].
    + split; vm_compute; congruence.
    + discriminate.
    + vm_compute. reflexivity.
    + destruct (Hread []) as (node' & Hframe & _). rewrite app_nil_r in Hframe.
      exists s', wire, node'. split; [exact Hstep|]. split; [exact Hclient|exact Hframe].
Defined.
