(* ===== verification/HttpSession.v ===== *)
(** * HttpSession: an HTTP client's session with the node ([src/http_proxy.rs])

    What [serve] goes on with once the upstream session is dialled: the opaque
    tunnel of a [CONNECT] request or of a protocol switch, or the relay of one
    request and its response ([relay_one_request]), over the halves of a Snell
    session. The theorems on the request body and the response head, stated over
    a recording sink and a replayed source in [HttpRelay], are carried over to
    the session by simulation; the end is what a client's request becomes at the
    node, and the node's answer at the client. *)
From stdpp Require Import gmap.
From S2P Require Import Prelude Simulation Bytes Text Ip AsyncIo SnellWire SnellRecord SnellReader SnellPool Traffic.
From S2P Require Import SnellClient Socks5 HttpRequest HttpRelay Tunnel.
From S2P Require Nodes Provider Gateway.
Local Open Scope Z_scope.

(** ** Simulation *)

(** *** The request body over related sinks *)

Section BodySimulation.
Context {S T : Type} `{BodySink S} `{BodySink T} (rel : S → T → Prop).
(** Nothing empty is ever sent. *)
Context (Hsend : ∀ b, b ≠ [] → simulates rel (send b) (send b)).

Definition same_upload (u : Upload S) (v : Upload T) : Prop :=
  buffered u = buffered v ∧ client_reads u = client_reads v ∧ output u = output v ∧ rel (sink u) (sink v).

Abbreviation sim := (simulates same_upload).

Lemma sim_send_output u v :
  same_upload u v → output u ≠ [] → related same_upload (send_output u) (send_output v).
Proof.
  intros (Hb & Hr & Ho & Hs) Hne. unfold send_output, get, mbind, M_bind, zoom. rewrite <-Ho.
  destruct (Hsend _ Hne _ _ Hs) as [Hres Hrel].
  destruct (send (output u) (sink u)) as [r s'], (send (output u) (sink v)) as [r' t'].
  by split; [|split_and!].
Qed.

Lemma sim_clear : sim (modify clear_output) (modify clear_output).
Proof. apply simulates_modify. by intros u v (Hb & Hr & Ho & Hs). Qed.

(** The flush before a read and the flush of a full batch. *)
Lemma sim_flush (c : bool) u v :
  same_upload u v → (c = true → output u ≠ []) →
  related same_upload ((if c then send_output;; modify clear_output else mret tt) u)
    ((if c then send_output;; modify clear_output else mret tt) v).
Proof.
  intros Huv Hne. destruct c; [|done].
  apply related_bind; [by apply sim_send_output; auto|intros _; apply sim_clear].
Qed.

Lemma sim_fill_buf : sim fill_buf fill_buf.
Proof.
  intros u v (Hb & Hr & Ho & Hs). unfold fill_buf. rewrite <-Hb, <-Hr.
  case_bool_decide; [destruct (client_reads u) as [|[b|e] rs] eqn:E|]; (split; [done|]); repeat split; simpl; first [congruence|done].
Qed.

Lemma sim_push l : sim (modify (push_output l)) (modify (push_output l)).
Proof. apply simulates_modify. intros u v (Hb & Hr & Ho & Hs). split_and!; simpl; congruence. Qed.

Lemma sim_consume n : sim (consume n) (consume n).
Proof. apply simulates_modify. intros u v (Hb & Hr & Ho & Hs). split_and!; simpl; congruence. Qed.

Lemma sim_fill_body : sim fill_body fill_body.
Proof.
  intros u v Huv. unfold fill_body. pose proof Huv as (Hb & _ & Ho & _).
  rewrite !(M_bind_ok get _ _ _ _ eq_refl), <-Hb, <-Ho.
  apply related_bind; [apply sim_flush; [done|]|intros _; simulate; apply sim_fill_buf].
  intros [_ Hne]%andb_true_iff. by reflect_bools.
Qed.

Hint Resolve sim_fill_body sim_push sim_consume : sim.

Lemma sim_copy_body_bytes fuel n : sim (copy_body_bytes fuel n) (copy_body_bytes fuel n).
Proof.
  revert n; induction fuel as [|fuel IH]; intros n; cbn [copy_body_bytes]; simulate.
  intros u v Huv. rewrite !(M_bind_ok get _ _ _ _ eq_refl). pose proof Huv as (_ & _ & Ho & _).
  rewrite <-Ho. apply related_bind; [apply sim_flush; [done|]|intros _; apply IH].
  intros Hl Hn. rewrite Hn in Hl. reflect_bools. unfold BODY_BATCH_SIZE in Hl. simpl length in Hl. lia.
Qed.
Hint Resolve sim_copy_body_bytes : sim.

Lemma sim_read_body_line fuel limit line :
  sim (read_body_line fuel limit line) (read_body_line fuel limit line).
Proof.
  revert line; induction fuel as [|fuel IH]; intros line; cbn [read_body_line]; simulate.
  destruct (position _ _) as [i|]; simulate.
Qed.
Hint Resolve sim_read_body_line : sim.

Lemma sim_copy_trailers fuel lf n : sim (copy_trailers fuel lf n) (copy_trailers fuel lf n).
Proof. revert n; induction fuel as [|fuel IH]; intros n; cbn [copy_trailers]; simulate. Qed.
Hint Resolve sim_copy_trailers : sim.

Lemma sim_copy_chunks fuel lf : sim (copy_chunks fuel lf) (copy_chunks fuel lf).
Proof. induction fuel as [|fuel IH]; cbn [copy_chunks]; simulate. Qed.
Hint Resolve sim_copy_chunks : sim.

(** Forwarding a body does the same whatever the sink is, as long as the sinks
    answer alike. *)
Lemma sim_forward_body fuel framing : sim (forward_body fuel framing) (forward_body fuel framing).
Proof.
  unfold forward_body. simulate; [destruct framing; simulate|].
  intros u v Huv. rewrite !(M_bind_ok get _ _ _ _ eq_refl). pose proof Huv as (_ & _ & Ho & _).
  rewrite <-Ho. case_bool_decide; [by apply simulates_ret|by apply sim_send_output].
Qed.
End BodySimulation.

(** *** The response head from another source

    A head is found only in chunks that are not empty; a source that has given
    its end is not asked again. *)

Section ResponseSimulation.
Context {S T W : Type} `{ChunkSource S} `{ChunkSource T} `{AsyncWrite W} (rel : S → T → Prop).
Context (Hread : ∀ s t c t', rel s t → read_chunk t = (Ok c, t') → c ≠ [] →
  ∃ s', read_chunk s = (Ok c, s') ∧ rel s' t').

Lemma forward_response_head_follows turns s t (k k' : W) t' :
  rel s t → forward_response_head turns (t, k) = (Ok tt, (t', k')) →
  ∃ s', forward_response_head turns (s, k) = (Ok tt, (s', k')) ∧ rel s' t'.
Proof.
  unfold forward_response_head. generalize (@nil byte). generalize 0%nat. revert s t k.
  induction turns as [|turns IH]; intros s t k searched buffer Hst Hrun; [done|]. cbn [response_loop] in *.
  destruct (find_head_end buffer searched) as [e|].
  - apply M_bind_iff in Hrun as (interim & x & [Hi ->]%lift_inv & Hrun). rewrite Hi.
    unfold lift at 1. rewrite (M_bind_ok _ _ _ _ _ eq_refl).
    destruct interim; apply M_bind_iff in Hrun as ([] & [x y] & Hw & Hrun);
      apply zoom_inv in Hw as (k1 & Hw & [= -> ->]); cbn [fst snd] in *;
      (rewrite (M_bind_ok _ _ _ tt (s, k1)); [|unfold on_client, zoom; cbn [fst snd]; by rewrite Hw]);
      [by eapply IH|].
    apply zoom_inv in Hrun as (k2 & Hrun & [= -> ->]). cbn [fst snd] in *. exists s. split; [|done].
    unfold on_client, zoom. cbn [fst snd]. by rewrite Hrun.
  - destruct (_ <? _)%nat; [done|]. apply M_bind_iff in Hrun as (c & [x y] & Hr & Hrun).
    apply zoom_inv in Hr as (t1 & Hr & [= -> ->]). cbn [fst snd] in *.
    case_bool_decide as Hc; [done|]. destruct (Hread _ _ _ _ Hst Hr Hc) as (s1 & Hs & Hst1).
    rewrite (M_bind_ok _ _ _ c (s1, k)); [|unfold on_source, zoom; cbn [fst snd]; by rewrite Hs].
    rewrite bool_decide_eq_false_2 by done. by eapply IH.
Qed.
End ResponseSimulation.

(** ** The relay of one request over a session *)

(** The request as a [BufReader] delivers it: [Cursor::new(leftover).chain(reads)]; what
    is left over from a head is smaller than the buffer. *)
Definition chained (leftover : bytes) (reads : list (result bytes)) : list (result bytes) :=
  (if bool_decide (leftover = []) then [] else [Ok leftover]) ++ reads.

(** What is left to read after [discard_until_eof] has had the time for [turns] reads *)
Fixpoint discard_until_eof (turns : nat) (reads : list (result bytes)) : list (result bytes) :=
  match turns, reads with
  | S turns, Ok (_ :: _) :: reads => discard_until_eof turns reads
  | S _, reads => tail reads
  | O, reads => reads
  end.

(** What the world decides about a session: whether the client's direction ends
    first; for an opaque tunnel, after how many reads it is told to stop, and
    whether it does in time; when data moves, whether the close handshake times
    out, and the reads that [LINGER_TIMEOUT] leaves time for. *)
Record HttpEnv : Type := MkHttpEnv {
  request_first : bool;
  stop : option nat;
  stopped_in_time : bool;
  movements : list (Z * session_event);
  tied : bool;
  closing_expired : bool;
  lingering : nat
}.

Definition REQUEST_ERROR : error := Bail "HTTP proxy relay ended with an error".

Section OneRequest.
Context `{RecordCrypto} {R W K : Type} `{AsyncRead R} `{AsyncWrite W} `{AsyncWrite K}.
Context (fill : nat → option bytes) (fuel : nat).

Abbreviation Session := (SnellSession (R := R) (W := W)).

(** [impl BodySink for ActiveSink]; its [touch] is a movement of the timeline. *)
#[local] Instance active_sink : BodySink Session := { send content := session_write fill content;; mret tt }.
(** [impl ChunkSource for SnellSessionReader] *)
#[local] Instance session_reader_source : ChunkSource Session := { read_chunk := session_read_chunk fuel }.

(** The two directions; they work on separate halves of the session, so the
    request may be taken first ([request_directions_commute]). The result of each, what
    is left of the client's stream, the session and the client's other half. *)
Definition send_request (forwarded : ForwardedRequest) (reads : list (result bytes)) (session : Session) :
    result unit * (bytes * list (result bytes)) * Session :=
  let '(uploaded, u) := forward_body fuel (framing forwarded) (MkUpload [] reads session (head forwarded)) in
  (uploaded, (buffered u, client_reads u), sink u).

Definition receive_response (turns : nat) : M (Session * K) unit :=
  forward_response_head turns;; download fuel turns.

(** The result, the connection's fate, the client's halves. A direction that is
    cut short leaves a connection that is retired whatever was done on it; the
    client has then been sent a part of what its half holds. *)
Definition relay_one_request (turns : nat) (idle_timeout : Z) (env : HttpEnv) (forwarded : ForwardedRequest)
    (leftover : bytes) (session : Session) (client : list (result bytes) * K) :
    result unit * finished (R := R) (W := W) * (list (result bytes) * K) :=
  let '(uploaded, (_, unread), session) := send_request forwarded (chained leftover client.1) session in
  let '(downloaded, (session, client_write)) := receive_response turns (session, client.2) in
  let race := if request_first env then UploadEnds uploaded downloaded else DownloadEnds downloaded in
  let clean := default false
                 (until_idle idle_timeout (tied env) WATCH_FUEL (drive_one_request race) (movements env)) in
  let fate := finish fill fuel session clean false (closing_expired env) in
  if clean then (Ok tt, fate, (discard_until_eof (lingering env) unread, client_write))
  else (Err REQUEST_ERROR, fate, (unread, client_write)).

(** An origin that answers before it has the whole request: its response reaches
    the client's half, but the relay fails, what the client still sends is not
    discarded, and the connection is retired. *)
Lemma early_response_not_lingered turns idle_timeout env forwarded leftover session reads (client : K) :
  request_first env = false →
  let '(_, (_, unread), session1) := send_request forwarded (chained leftover reads) session in
  let '(_, (session2, client1)) := receive_response turns (session1, client) in
  relay_one_request turns idle_timeout env forwarded leftover session (reads, client) =
    (Err REQUEST_ERROR, Retired (retire (session_physical session2)).2, (unread, client1)).
Proof.
  intros Hfirst. unfold relay_one_request. cbn [fst snd].
  destruct (send_request _ _ _) as [[uploaded [buf unread]] session1]. cbn [fst snd].
  destruct (receive_response turns (session1, client)) as [downloaded [session2 client1]].
  rewrite Hfirst. cbn [drive_one_request].
  assert (Hc : default false (until_idle idle_timeout (tied env) WATCH_FUEL false (movements env)) = false).
  { unfold until_idle. destruct (idle_round _ _ _) as [wake|]; [|done].
    generalize (MkActivity 0). generalize wake. induction (movements env) as [|[now [|]] l IH]; intros w a; [done|..].
    - cbn [watch]. destruct (Tunnel.idle _ _ _ _ _ _); [apply IH|done].
    - cbn [watch]. by destruct (Tunnel.idle _ _ _ _ _ _). }
  rewrite Hc. unfold finish. rewrite orb_true_r. done.
Qed.
End OneRequest.

(** ** The directions do not interfere *)

Section Halves.
Context `{RecordCrypto} {R W K : Type} `{AsyncRead R} `{AsyncWrite W} `{AsyncWrite K}.
Context (fill : nat → option bytes) (fuel : nat).

Abbreviation Session := (SnellSession (R := R) (W := W)).
#[local] Instance upload_sink : BodySink Session := active_sink fill.
#[local] Instance download_source : ChunkSource Session := session_reader_source fuel.

Lemma counts_compose d f g : counts d f → counts d g → counts d (λ c, g (f c)).
Proof. induction 1; [done|]. intros Hg. apply (counts_record d n (λ c, g (f c))). auto. Qed.

(** *** The request uses the writing half *)

(** The writing half alone: the writer and the lengths recorded. *)
#[local] Instance writer_sink : BodySink (RecordWriter W * list nat) := {
  send content := λ '(w, ns),
    match write_payload fill content w with
    | (Ok _, w) => (Ok tt, (w, ns ++ [length content]))
    | (Err e, w) => (Err e, (w, ns))
    end
}.

Definition recorded (d : Direction) (ns : list nat) (c : option Counters) : option Counters :=
  fold_left (λ c n, record d (Z.of_nat n) c) ns c.

Lemma counts_recorded d ns : counts d (recorded d ns).
Proof. induction ns as [|n ns IH]; [apply counts_none|]. by apply (counts_record d (Z.of_nat n) (recorded d ns)). Qed.

Definition writing_half (s0 : Session) r c (s : Session) (t : RecordWriter W * list nat) : Prop :=
  s = with_counters (recorded TcpUpload t.2 c) (with_writer t.1 (with_reader r s0)).

Lemma writing_half_send s0 r c b : simulates (writing_half s0 r c) (send b) (send b).
Proof.
  intros s [w ns] ->. unfold send, upload_sink, active_sink, writer_sink, related.
  unfold session_write, session_record, on_physical, on_conn_writer, zoom, modify, mbind, M_bind, mret, M_ret.
  cbn. destruct (write_payload fill b w) as [[?|e] w']; cbn; (split; [done|]); [|done].
  unfold writing_half, recorded. cbn. by rewrite fold_left_app.
Qed.

Lemma send_request_local f reads (s : Session) : ∃ x left w g, counts TcpUpload g ∧
  ∀ r c, send_request fill fuel f reads (with_counters c (with_reader r s)) =
           (x, left, with_counters (g c) (with_writer w (with_reader r s))).
Proof.
  destruct (forward_body fuel (framing f) (MkUpload [] reads (writer (session_physical s), []) (head f)))
    as [x v] eqn:E.
  exists x, (buffered v, client_reads v), (sink v).1, (recorded TcpUpload (sink v).2).
  split; [apply counts_recorded|]. intros r c. unfold send_request.
  destruct (sim_forward_body (writing_half s r c) (λ b _, writing_half_send s r c b) fuel (framing f)
    (MkUpload [] reads (with_counters c (with_reader r s)) (head f))
    (MkUpload [] reads (writer (session_physical s), []) (head f))) as [Hx (Hb & Hr & _ & Hs)];
    [split_and!; try done; by destruct s as [[]]|].
  rewrite E in Hx, Hb, Hr, Hs. cbn [fst snd] in Hx, Hb, Hr, Hs.
  match type of Hx with fst ?t = _ => destruct t as [y u] eqn:Ey end. cbn [fst snd] in *. subst y.
  unfold upload_sink in Ey. rewrite Ey. by rewrite Hb, Hr, Hs.
Qed.

(** *** The response uses the reading half *)

Definition reads_only {A} (m : M (Session * K) A) : Prop := ∀ s k, ∃ x r k' f, counts TcpDownload f ∧
  ∀ w c, m (with_counters c (with_writer w s), k) =
           (x, (with_counters (f c) (with_writer w (with_reader r s)), k')).

Lemma reads_only_result {A} (x : result A) : reads_only (λ s, (x, s)).
Proof.
  intros s k. exists x, (reader (session_physical s)), k, (λ c, c). split; [apply counts_none|].
  intros w c. by destruct s as [[]].
Qed.

Lemma reads_only_bind {A B} (m : M (Session * K) A) (f : A → M (Session * K) B) :
  reads_only m → (∀ a, reads_only (f a)) → reads_only (m ≫= f).
Proof.
  intros Hm Hf s k. destruct (Hm s k) as ([a|e] & r & k1 & g & Hg & Hrun).
  - destruct (Hf a (with_reader r s) k1) as (x & r' & k' & g' & Hg' & Hrun').
    exists x, r', k', (λ c, g' (g c)). split; [by apply counts_compose|]. intros w c.
    rewrite (M_bind_ok _ _ _ _ _ (Hrun w c)).
    by rewrite Hrun'.
  - exists (Err e), r, k1, g. split; [done|]. intros w c. by rewrite (M_bind_err _ _ _ _ _ (Hrun w c)).
Qed.

Lemma reads_only_client {A} (m : M K A) : reads_only (on_client m).
Proof.
  intros s k. destruct (m k) as [x k'] eqn:Ek. exists x, (reader (session_physical s)), k', (λ c, c).
  split; [apply counts_none|]. intros w c. unfold on_client, zoom. cbn [fst snd]. rewrite Ek. by destruct s as [[]].
Qed.

Lemma reads_only_source : reads_only (on_source read_chunk).
Proof.
  intros s k. destruct (read_application_chunk fuel (reader (session_physical s))) as [[chunk|e] r] eqn:E.
  - exists (Ok chunk), r, k, (λ c, record TcpDownload (Z.of_nat (length chunk)) c).
    split; [apply (counts_record _ _ (λ c, c)), counts_none|]. intros w c.
    unfold on_source, read_chunk, download_source, session_reader_source, session_read_chunk, session_record,
      on_physical, on_conn_reader, zoom, modify, mbind, M_bind, mret, M_ret.
    destruct s as [[rd w0 a g] u re cs]. cbn in E |- *. by rewrite E.
  - exists (Err e), r, k, (λ c, c). split; [apply counts_none|]. intros w c.
    unfold on_source, read_chunk, download_source, session_reader_source, session_read_chunk, session_record,
      on_physical, on_conn_reader, zoom, modify, mbind, M_bind, mret, M_ret.
    destruct s as [[rd w0 a g] u re cs]. cbn in E |- *. by rewrite E.
Qed.

Lemma forward_response_head_local turns : reads_only (forward_response_head turns).
Proof.
  unfold forward_response_head. generalize (@nil byte). generalize 0%nat.
  induction turns as [|turns IH]; intros searched buffer; cbn [response_loop]; [apply reads_only_result|].
  destruct (find_head_end buffer searched) as [e|].
  - apply reads_only_bind; [apply reads_only_result|]. intros [].
    + apply reads_only_bind; [apply reads_only_client|auto].
    + apply reads_only_bind; [apply reads_only_client|intros; apply reads_only_client].
  - destruct (_ <? _)%nat; [apply reads_only_result|]. apply reads_only_bind; [apply reads_only_source|].
    intros c. case_bool_decide; [apply reads_only_result|apply IH].
Qed.

Lemma receive_response_local turns : reads_only (receive_response fuel turns).
Proof.
  apply reads_only_bind; [apply forward_response_head_local|]. intros _ s k. apply download_local.
Qed.

(** The request and the response do not interfere: taken in either order, for
    any request and any session, they come to the same results, leave the same
    session and count of bytes, and the same halves of the client. *)
Theorem request_directions_commute turns f reads (s : Session) (k : K) :
  (let '(uploaded, stream, session) := send_request fill fuel f reads s in
   let '(downloaded, (session, client)) := receive_response fuel turns (session, k) in
   (uploaded, stream, downloaded, session, client)) =
  (let '(downloaded, (session, client)) := receive_response fuel turns (s, k) in
   let '(uploaded, stream, session) := send_request fill fuel f reads session in
   (uploaded, stream, downloaded, session, client)).
Proof.
  destruct (send_request_local f reads s) as (x & rest & w & g & Hg & Hup).
  destruct (receive_response_local turns s k) as (y & r & k' & h & Hh & Hdown).
  assert (Hs1 : with_counters (session_counters s) (with_reader (reader (session_physical s)) s) = s) by by destruct s as [[]].
  assert (Hs2 : with_counters (session_counters s) (with_writer (writer (session_physical s)) s) = s) by by destruct s as [[]].
  pose proof (Hup (reader (session_physical s)) (session_counters s)) as Hup1. rewrite Hs1 in Hup1.
  pose proof (Hdown (writer (session_physical s)) (session_counters s)) as Hdown1. rewrite Hs2 in Hdown1.
  rewrite Hup1, Hdown1.
  assert (Hs3 : ∀ c, with_counters c (with_writer w (with_reader (reader (session_physical s)) s)) = with_counters c (with_writer w s))
    by (intros; by destruct s as [[]]).
  assert (Hs4 : ∀ c, with_counters c (with_writer (writer (session_physical s)) (with_reader r s)) = with_counters c (with_reader r s))
    by (intros; by destruct s as [[]]).
  rewrite Hs3, Hs4, Hdown, Hup. f_equal. f_equal. by rewrite (counts_commute TcpUpload TcpDownload g h).
Qed.
End Halves.

(** ** Both directions of a clean relay *)

Section Crossing.
Context `{C : RecordCrypto} {R : Type} `{AsyncRead R} (fill : nat → option bytes) (fuel : nat).

Abbreviation Session := (SnellSession (R := R) (W := Gated)).
Abbreviation session_writer s := (writer (session_physical s)).
Abbreviation session_reader s := (reader (session_physical s)).
#[local] Instance request_sink : BodySink Session := active_sink fill.
#[local] Instance response_source : ChunkSource Session := session_reader_source fuel.

(** *** The request *)

(** The session [s] after what [log] holds has been sent on [s0]. *)
Definition sent_from (s0 s : Session) (log : list bytes) : Prop :=
  session_reader s = session_reader s0 ∧ session_uses s = session_uses s0 ∧ reusable s = reusable s0 ∧
  ∃ payloads, sent fill (session_writer s0) (session_writer s) payloads ∧ Forall (.≠ []) payloads ∧
    concat payloads = concat log.

Lemma sent_from_start (s : Session) sofar :
  w_writer (session_writer s) = MkGated [] sofar false → sent_from s s [].
Proof.
  intros Hw. split_and!; try done. exists []. split_and!; try done. exists [], (session_writer s).
  split; [done|]. rewrite Hw. cbn [committed pending]. rewrite !app_nil_r, <-Hw. by destruct (session_writer s).
Qed.

Lemma sent_open (w w' : RecordWriter Gated) ps : sent fill w w' ps → gate_closed (w_writer w') = false.
Proof. by intros (wire & w1 & _ & ->). Qed.

Lemma sent_from_send s0 b : seals → simulates (sent_from s0) (send b) (send b).
Proof.
  intros Hs s log (Hr & Hu & Hre & ps & Hsent & Hne & Hcat).
  destruct (session_write_open fill b s Hs (sent_open _ _ _ Hsent))
    as (s' & qs & Hw & Hsent' & Hneq & Hcatq & Hr' & Hre').
  assert (Hu' : session_uses s' = session_uses s).
  { unfold session_write, session_record, on_physical, zoom, modify, mbind, M_bind in Hw.
    destruct (on_conn_writer _ _) as [[?|?] ?]; [|done]. by injection Hw as <-. }
  unfold send at 1, request_sink, active_sink. unfold related. rewrite (M_bind_ok _ _ _ _ _ Hw). split; [done|].
  cbn [mret M_ret snd]. split_and!; [congruence..|]. exists (ps ++ qs). split_and!.
  - by eapply sent_app.
  - by apply Forall_app.
  - unfold send; simpl. rewrite !concat_app, Hcat, Hcatq. simpl. by rewrite app_nil_r.
Qed.

Lemma chained_incoming leftover rs : incoming (chained leftover rs) = leftover ++ incoming rs.
Proof. unfold chained. case_bool_decide as Hl; [by subst|]. done. Qed.

Lemma chained_reads leftover rs : Forall body_read rs → Forall body_read (chained leftover rs).
Proof. intros Hr. unfold chained. case_bool_decide; [done|]. by constructor. Qed.

(** The whole request is sent, and nothing more. *)
Lemma request_sent (f : ForwardedRequest) leftover rs body rest (s : Session) sofar :
  seals → w_writer (session_writer s) = MkGated [] sofar false → Forall body_read rs →
  is_body (framing f) body → leftover ++ incoming rs = body ++ rest →
  (length (leftover ++ incoming rs) < fuel)%nat →
  ∃ left s', send_request fill fuel f (chained leftover rs) s = (Ok tt, left, s') ∧
    left.1 ++ incoming left.2 = rest ∧ sent_from s s' [head f ++ body].
Proof.
  intros Hs Hw Hrs Hb Hin Hf.
  set (v := MkUpload [] (chained leftover rs) ([] : list bytes) (head f)).
  assert (Hv : unread v = body ++ rest) by (unfold unread; simpl; by rewrite chained_incoming).
  destruct (forward_body_complete (framing f) fuel v body rest) as (v' & Hrun & Hrest & Hsink);
    [by apply chained_reads|rewrite Hv, <-Hin; done|done|done|].
  destruct (sim_forward_body (sent_from s) (λ b _, sent_from_send s b Hs) fuel (framing f)
    (MkUpload [] (chained leftover rs) s (head f)) v) as [Hres Hrel];
    [split_and!; try done; by eapply sent_from_start|].
  rewrite Hrun in Hres, Hrel. cbn [fst snd] in Hres, Hrel. unfold send_request.
  destruct (forward_body fuel (framing f) (MkUpload [] _ s _)) as [r u]. cbn [fst snd] in Hres, Hrel. subst r.
  destruct Hrel as (Hbuf & Hcr & _ & Hr & Hu & Hre & ps & Hsent & Hne & Hcat).
  eexists _, _. split; [done|]. cbn [fst snd]. split; [rewrite Hbuf, Hcr; exact Hrest|].
  split_and!; try done. exists ps. split_and!; try done. rewrite Hcat, Hsink. simpl. by rewrite app_nil_r.
Qed.

(** *** The response *)

(** What the reads of a session return, one by one, up to its end; [s'] is the
    source then. *)
Fixpoint yields (r : SnellReader (RecordReader R)) (rs : list (result bytes)) (s' : RecordReader R) : Prop :=
  match rs with
  | [] => ∃ r1, read_application_chunk fuel r = (Ok [], r1) ∧ server_eof r1 = true ∧ records r1 = s' ∧ reply_pending r1 = false ∧ reply_error r1 = None
  | Ok c :: rs => ∃ r1, read_application_chunk fuel r = (Ok c, r1) ∧ yields r1 rs s'
  | Err _ :: _ => False
  end.

Lemma stream_yields r d s' : stream r d s' → (2 <= fuel)%nat →
  ∃ rs, yields r rs s' ∧ Forall body_read rs ∧ incoming rs = d ∧ (length rs <= length d)%nat.
Proof.
  intros Hst Hf. remember (length d) as n eqn:Hn. revert r d Hst Hn.
  induction n as [n IH] using lt_wf_ind; intros r d Hst ->.
  destruct (read_application_chunk_stream fuel r d s' Hst Hf) as (c & r1 & Hc & Hd). destruct d as [|b d].
  - destruct Hd as (-> & Hend). exists []. split_and!; try done. by exists r1.
  - destruct Hd as (Hne & d' & Heq & Hst1). assert (length c ≠ 0%nat) by by destruct c.
    rewrite Heq, length_app.
    destruct (IH (length d')) with (r := r1) (d := d') as (rs & Hy & Hbr & Hin & Hl);
      [rewrite Heq, length_app; lia|done|done|].
    exists (Ok c :: rs). split_and!; [by exists r1|by constructor|by rewrite <-Hin|simpl; lia].
Qed.

Lemma awaiting_yields r d s' : awaiting r (x00 :: d) s' → (length d + 1 < fuel)%nat → (2 <= fuel)%nat →
  ∃ rs, yields r rs s' ∧ Forall body_read rs ∧ incoming rs = d ∧ (length rs <= length d)%nat.
Proof.
  intros Ha Hf Hf2. destruct (read_application_chunk_awaiting _ _ _ _ Ha Hf) as (r' & Hst & Hr).
  destruct (stream_yields r' d s' Hst Hf2) as (rs & Hy & Hrest). exists rs. split; [|done].
  destruct rs as [|[c|e] rs]; cbn [yields] in *; [by rewrite Hr..|done].
Qed.

(** A session from which [rs] is still to be read; the rest of it is that of [s0]. *)
Definition reads_from (s0 : Session) s' (s : Session) (rs : list (result bytes)) : Prop :=
  session_writer s = session_writer s0 ∧ session_uses s = session_uses s0 ∧ reusable s = reusable s0 ∧
  yields (session_reader s) rs s'.

Lemma session_read_chunk_run (s : Session) c r :
  read_application_chunk fuel (session_reader s) = (Ok c, r) →
  ∃ s1, session_read_chunk fuel s = (Ok c, s1) ∧ session_reader s1 = r ∧
    session_writer s1 = session_writer s ∧ session_uses s1 = session_uses s ∧ reusable s1 = reusable s.
Proof.
  intros Hr. eexists. split.
  { unfold session_read_chunk, session_record, on_physical, on_conn_reader, zoom, modify, mbind, M_bind.
    rewrite Hr. reflexivity. }
  done.
Qed.

Lemma reads_from_read s0 s' s rs c rs' :
  reads_from s0 s' s rs → read_chunk rs = (Ok c, rs') → c ≠ [] →
  ∃ s1, read_chunk s = (Ok c, s1) ∧ reads_from s0 s' s1 rs'.
Proof.
  intros (Hw & Hu & Hre & Hy) Hr Hc. unfold read_chunk at 1, replay_source in Hr.
  destruct rs as [|[x|e] rs]; simplify_eq/=.
  destruct Hy as (r1 & Hr1 & Hy). destruct (session_read_chunk_run _ _ _ Hr1) as (s1 & Hs1 & <- & Hw1 & Hu1 & Hre1).
  exists s1. split; [exact Hs1|]. split_and!; [congruence..|done].
Qed.

(** What is read is written to the client, whose half is then shut down. *)
Lemma download_yields s0 s' count rs (s : Session) (k : Gated) :
  reads_from s0 s' s rs → Forall body_read rs → gate_closed k = false → (length rs < count)%nat →
  ∃ t, download fuel count (s, k) = (Ok tt, (t, MkGated [] (committed k ++ AsyncIo.pending k ++ incoming rs) true)) ∧
    session_writer t = session_writer s0 ∧ session_uses t = session_uses s0 ∧ reusable t = reusable s0 ∧
    server_eof (session_reader t) = true ∧ reply_pending (session_reader t) = false ∧
    reply_error (session_reader t) = None.
Proof.
  revert count s k; induction rs as [|[c|e] rs IH]; intros [|count] s k (Hw & Hu & Hre & Hy) Hbr Hk Hc;
    simpl in Hc; try lia; [| |done]; cbn [download].
  - destruct Hy as (r1 & Hr & Hend). destruct (session_read_chunk_run _ _ _ Hr) as (s1 & Hs1 & <- & Hw1 & Hu1 & Hre1).
    exists s1. unfold zoom, mbind, M_bind. cbn [fst snd]. rewrite Hs1. cbn [fst snd].
    rewrite bool_decide_eq_true_2 by done. unfold incoming; simpl. rewrite app_nil_r.
    unfold shutdown; simpl. destruct Hend as (? & _ & ? & ?). split; [done|]. split_and!; congruence.
  - destruct Hy as (r1 & Hr & Hy). destruct (session_read_chunk_run _ _ _ Hr) as (s1 & Hs1 & <- & Hw1 & Hu1 & Hre1).
    apply Forall_cons in Hbr as [Hne Hbr].
    destruct (IH count s1 (MkGated (AsyncIo.pending k ++ c) (committed k) false)) as (t & Ht & Hend);
      [split_and!; congruence|done|done|lia|].
    exists t. split; [|done].
    assert (Hr2 : zoom fst (λ t (s : Session * Gated), (t, s.2)) (session_read_chunk fuel) (s, k) = (Ok c, (s1, k)))
      by (unfold zoom; simpl; by rewrite Hs1).
    rewrite (M_bind_ok _ _ _ _ _ Hr2), bool_decide_eq_false_2 by done.
    assert (Hw2 : zoom snd (λ k (s : Session * Gated), (s.1, k)) (write_all c) (s1, k) =
      (Ok tt, (s1, MkGated (AsyncIo.pending k ++ c) (committed k) false)))
      by (unfold zoom, write_all; simpl; by rewrite Hk).
    rewrite (M_bind_ok _ _ _ _ _ Hw2), Ht. unfold incoming; simpl. by rewrite <-app_assoc.
Qed.

(** The client is sent the whole response, its final head rewritten. *)
Lemma response_received turns interims final body (s : Session) (k : Gated) s' :
  awaiting (session_reader s) (x00 :: concat interims ++ final ++ body) s' →
  AsyncIo.pending k = [] → gate_closed k = false → Forall (is_head true) interims → is_head false final →
  (length (concat interims ++ final ++ body) + length interims < turns)%nat →
  (length (concat interims ++ final ++ body) + 1 < fuel)%nat → (2 <= fuel)%nat →
  ∃ t, receive_response fuel turns (s, k) =
         (Ok tt, (t, MkGated [] (committed k ++ concat interims ++ close_response_head final ++ body) true)) ∧
    session_writer t = session_writer s ∧ session_uses t = session_uses s ∧ reusable t = reusable s ∧
    server_eof (session_reader t) = true ∧ reply_pending (session_reader t) = false ∧
    reply_error (session_reader t) = None.
Proof.
  intros Ha Hp Hk Hint Hfin Hturns Hf Hf2.
  destruct (awaiting_yields _ _ _ Ha Hf Hf2) as (rs & Hy & Hbr & Hin & Hlen).
  destruct k as [kp kc kg]. cbn in Hp, Hk. subst kp kg.
  destruct (response_loop_run turns interims final body [] 0 rs [] kc eq_refl Hbr Hint Hfin Hin)
    as (over & rest & Hrun & Hover & Hsuf); [lia|].
  destruct (forward_response_head_follows (reads_from s s') (reads_from_read s s') turns s rs (MkGated [] kc false)
              (MkGated ([] ++ concat interims ++ close_response_head final ++ over) kc false) rest) as (s1 & Hhead & Hfrom); [done|exact Hrun|].
  destruct (download_yields s s' turns rest s1
              (MkGated ([] ++ concat interims ++ close_response_head final ++ over) kc false) Hfrom)
    as (t & Hdown & Hend).
  - destruct Hsuf as [before ->]. by apply Forall_app in Hbr as [_ ?].
  - done.
  - apply suffix_length in Hsuf. lia.
  - exists t. split; [|done]. unfold receive_response. rewrite (M_bind_ok _ _ _ _ _ Hhead), Hdown.
    cbn [AsyncIo.pending committed app]. by rewrite <-!app_assoc, Hover.
Qed.

(** *** The whole request *)

(** Finishing a session whose end has been read sends the end the relay has not. *)
Lemma finish_sends_end (s : Session) :
  seals → gate_closed (w_writer (session_writer s)) = false → reusable s = true →
  server_eof (session_reader s) = true → reply_pending (session_reader s) = false →
  reply_error (session_reader s) = None → (1 <= fuel)%nat →
  ∃ p, finish fill fuel s true false false = Released p (session_uses s) ∧ sent fill (session_writer s) (writer p) [[]].
Proof.
  intros Hs Ho Hr He Hp Herr Hf.
  destruct (close_write_open fill s Hs Ho Hr) as (s1 & Hclose & Hsent).
  unfold close_write, get, mbind, M_bind in Hclose. rewrite Hr in Hclose.
  unfold on_physical, zoom in Hclose.
  destruct (on_conn_writer (write_frame fill [] 0) (session_physical s)) as [r p1] eqn:Ew. injection Hclose as -> <-.
  assert (Hrd : reader p1 = session_reader s).
  { unfold on_conn_writer, zoom in Ew. destruct (write_frame _ _ _ _) as [x w]. by injection Ew as _ <-. }
  unfold finish, with_timeout, finish_close. rewrite Hr. cbn [negb orb].
  rewrite (M_bind_ok _ _ _ _ _ Ew). unfold on_conn_reader, zoom. rewrite Hrd, close_ended by done.
  cbn [is_ok]. eexists. split; [reflexivity|]. exact Hsent.
Qed.

Lemma request_relayed turns idle_timeout env f leftover rs body rest (s : Session) sofar (k : Gated)
    interims final answer s' :
  seals → w_writer (session_writer s) = MkGated [] sofar false → reusable s = true → Forall body_read rs →
  is_body (framing f) body → leftover ++ incoming rs = body ++ rest → (length (leftover ++ incoming rs) < fuel)%nat →
  awaiting (session_reader s) (x00 :: concat interims ++ final ++ answer) s' →
  AsyncIo.pending k = [] → gate_closed k = false → Forall (is_head true) interims → is_head false final →
  (length (concat interims ++ final ++ answer) + length interims < turns)%nat →
  (length (concat interims ++ final ++ answer) + 1 < fuel)%nat → (2 <= fuel)%nat →
  request_first env = true → closing_expired env = false →
  0 < idle_timeout → ordered 0 (movements env) → lively idle_timeout (tied env) 0 (movements env) = true →
  ∃ p payloads unread,
    relay_one_request fill fuel turns idle_timeout env f leftover s (rs, k) =
      (Ok tt, Released p (session_uses s),
       (unread, MkGated [] (committed k ++ concat interims ++ close_response_head final ++ answer) true)) ∧
    sent fill (session_writer s) (writer p) (payloads ++ [[]]) ∧ Forall (.≠ []) payloads ∧
    concat payloads = head f ++ body.
Proof.
  intros Hs Hw Hre Hrs Hb Hin Hfuel Ha Hkp Hk Hint Hfin Hturns Hf Hf2 Hfirst Hclose Hidle Hord Hlive.
  destruct (request_sent f leftover rs body rest s sofar Hs Hw Hrs Hb Hin Hfuel)
    as ([buf left] & su & Hsend & _ & Hrd & Hu & Hre1 & payloads & Hsent & Hne & Hcat).
  destruct (response_received turns interims final answer su k s')
    as (t & Hrecv & Hwt & Hut & Hret & He & Hp & Herr); [by rewrite Hrd|done..|].
  destruct (finish_sends_end t) as (p & Hfinish & Hend);
    [done|rewrite Hwt; by eapply sent_open|congruence|done..|lia|].
  unfold relay_one_request. cbn [snd fst]. rewrite Hsend. cbn [snd fst]. rewrite Hrecv, Hfirst, Hclose. cbn [drive_one_request is_ok andb].
  rewrite until_idle_clean by done. cbn [default]. unfold id. rewrite Hfinish, Hut, Hu.
  exists p, payloads. eexists. split; [reflexivity|]. split.
  - rewrite Hwt in Hend. by eapply sent_app.
  - split; [done|]. rewrite Hcat. simpl. by rewrite app_nil_r.
Qed.

(** When the response ends before the request has been sent, the client still
    has the whole of it. *)
Lemma response_relayed_early turns idle_timeout env f leftover rs body rest (s : Session) sofar (k : Gated)
    interims final answer s' :
  seals → w_writer (session_writer s) = MkGated [] sofar false → Forall body_read rs →
  is_body (framing f) body → leftover ++ incoming rs = body ++ rest → (length (leftover ++ incoming rs) < fuel)%nat →
  awaiting (session_reader s) (x00 :: concat interims ++ final ++ answer) s' →
  AsyncIo.pending k = [] → gate_closed k = false → Forall (is_head true) interims → is_head false final →
  (length (concat interims ++ final ++ answer) + length interims < turns)%nat →
  (length (concat interims ++ final ++ answer) + 1 < fuel)%nat → (2 <= fuel)%nat →
  request_first env = false →
  ∃ conn unread, relay_one_request fill fuel turns idle_timeout env f leftover s (rs, k) =
    (Err REQUEST_ERROR, Retired conn,
     (unread, MkGated [] (committed k ++ concat interims ++ close_response_head final ++ answer) true)).
Proof.
  intros Hs Hw Hrs Hb Hin Hfuel Ha Hkp Hk Hint Hfin Hturns Hf Hf2 Hfirst.
  destruct (request_sent f leftover rs body rest s sofar Hs Hw Hrs Hb Hin Hfuel)
    as ([buf left] & su & Hsend & _ & Hrd & _).
  destruct (response_received turns interims final answer su k s') as (t & Hrecv & _); [by rewrite Hrd|done..|].
  pose proof (early_response_not_lingered fill fuel turns idle_timeout env f leftover s rs k Hfirst) as He.
  rewrite Hsend, Hrecv in He. eexists _, _. exact He.
Qed.
End Crossing.

(** ** [serve], to the end of the session *)

(** What the upload of an opaque tunnel waits for. *)
Definition upload_events (stop : option nat) (reads : list (result bytes)) : list upload_event :=
  let events := (λ r, match r with Ok b => ClientRead b | Err e => ClientError e end) <$> reads in
  match stop with
  | None => events ++ [ClientRead []]
  | Some n => take n events ++ [StopRequested]
  end.

Definition tunnel_env (env : HttpEnv) (reads : list (result bytes)) : RelayEnv :=
  MkRelayEnv (upload_events (stop env) reads) (request_first env) (stopped_in_time env) (movements env) (tied env)
    (closing_expired env).

Section ServeSession.
Context `{RecordCrypto} {R : Type} `{AsyncRead R} (fill : nat → option bytes) (fuel : nat).
Context {Route Up : Type} (dial : Route → bytes → Z → M Up (SnellSession (R := R) (W := Gated))).
Context (url_parse : bytes → option Url) (base64_decode : bytes → option bytes).

Definition into_halves (c : Client) : list (result bytes) * Gated :=
  (HttpRequest.reads c, MkGated [] (written c) (broken c)).

(** The result, the fate of the connection once there is one, what the client was
    sent, and the upstream. *)
Definition serve_session (mode : Mode (Route := Route)) (handshake_expired : bool) (first_byte : byte)
    (turns : nat) (idle_timeout : Z) (env : HttpEnv) (s : Client * Up) :
    result unit * option (finished (R := R) (W := Gated)) * (Client + Gated) * Up :=
  match serve dial (λ content, session_write fill content;; mret tt) url_parse base64_decode mode
          handshake_expired first_byte s with
  | (Err e, (client, up)) => (Err e, None, inl client, up)
  | (Ok (HttpRelay.Tunnel session), (client, up)) =>
      let '(reads, client) := into_halves client in
      let '(outcome, fate, client) :=
        relay fill fuel turns idle_timeout (tunnel_env env reads) session client in
      (outcome, Some fate, inr client, up)
  | (Ok (OneRequest session forwarded leftover), (client, up)) =>
      let '(outcome, fate, (_, client)) :=
        relay_one_request fill fuel turns idle_timeout env forwarded leftover session (into_halves client) in
      (outcome, Some fate, inr client, up)
  end.

(** [serve] up to the dial, when the request is read, the client accepted and the
    session dialled. *)
Lemma serve_dialled mode first c0 c u parsed route session u' :
  read_proxy_request url_parse base64_decode first c0 = (Ok parsed, c) →
  requires_auth mode = true → (∃ name pass, credentials parsed = Some (name, pass) ∧ authenticate mode name pass = Ok route) →
  dial route (parsed_host parsed) (parsed_port parsed) u = (Ok session, u') →
  serve dial (λ content, session_write fill content;; mret tt) url_parse base64_decode mode false first (c0, u) =
    match forwarded parsed with
    | None =>
        with_client (write_raw (lit "HTTP/1.1 200 Connection Established" ++ crlfcrlf));;
        session ← lift (write_leftover (λ content, session_write fill content;; mret tt) session (leftover parsed));
        mret (HttpRelay.Tunnel session)
    | Some f =>
        if upgrade f then
          session ← lift (write_to (λ content, session_write fill content;; mret tt) session (head f));
          session ← lift (write_leftover (λ content, session_write fill content;; mret tt) session (leftover parsed));
          mret (HttpRelay.Tunnel session)
        else mret (OneRequest session f (leftover parsed))
    end (c, u').
Proof.
  intros Hread Hreq (name & pass & Hcred & Hauth) Hdial. unfold serve.
  assert (H1 : with_client (Up := Up) (try_ (read_proxy_request url_parse base64_decode first)) (c0, u) = (Ok (Ok parsed), (c, u)))
    by (unfold with_client, try_, zoom; simpl; by rewrite Hread).
  rewrite (M_bind_ok _ _ _ _ _ H1).
  assert (H2 : with_client (Up := Up) (serve_route mode (credentials parsed)) (c, u) = (Ok route, (c, u)))
    by (unfold with_client, zoom, serve_route; simpl; by rewrite Hreq, Hcred, Hauth).
  rewrite (M_bind_ok _ _ _ _ _ H2).
  assert (H3 : with_upstream (try_ (dial route (parsed_host parsed) (parsed_port parsed))) (c, u) = (Ok (Ok session), (c, u')))
    by (unfold with_upstream, try_, zoom; simpl; by rewrite Hdial).
  rewrite (M_bind_ok _ _ _ _ _ H3). done.
Qed.
End ServeSession.

(** ** An opaque tunnel *)

Section OpaqueTunnel.
Context `{C : RecordCrypto} {R : Type} `{AsyncRead R} (fill : nat → option bytes) (fuel : nat).

Abbreviation Session := (SnellSession (R := R) (W := Gated)).
Abbreviation session_writer s := (writer (session_physical s)).
Abbreviation session_reader s := (reader (session_physical s)).
Abbreviation sent_from := (sent_from (R := R) fill).
Abbreviation session_send := (λ content, session_write (R := R) (W := Gated) fill content;; mret tt).

Lemma write_to_sent (s0 s : Session) log b : seals → sent_from s0 s log →
  ∃ s1, write_to session_send s b = Ok s1 ∧ sent_from s0 s1 (log ++ [b]).
Proof.
  intros Hs Hlog. destruct (sent_from_send fill s0 b Hs s log Hlog) as [Hr Hrel].
  change (send (BodySink := request_sink fill) b s) with ((session_write fill b;; mret tt) s) in Hr, Hrel.
  unfold write_to. destruct ((session_write fill b;; mret tt) s) as [r s1]. cbn [fst snd] in Hr, Hrel.
  change (send b log).1 with (Ok tt : result unit) in Hr. subst r. exists s1. split; [done|exact Hrel].
Qed.

Lemma write_leftover_sent (s0 s : Session) log b : seals → sent_from s0 s log →
  ∃ s1 log1, write_leftover session_send s b = Ok s1 ∧ sent_from s0 s1 log1 ∧ concat log1 = concat log ++ b.
Proof.
  intros Hs Hlog. unfold write_leftover. case_bool_decide as Hb.
  - exists s, log. subst b. by rewrite app_nil_r.
  - destruct (write_to_sent s0 s log b Hs Hlog) as (s1 & Hw & Hlog1). exists s1, (log ++ [b]).
    rewrite concat_app. simpl. by rewrite app_nil_r.
Qed.

Lemma body_reads rs : Forall body_read rs → ∃ bs, rs = Ok <$> bs ∧ Forall (.≠ []) bs ∧ concat bs = incoming rs.
Proof.
  induction 1 as [|[b|e] rs Hr _ (bs & -> & Hbs & Hc)]; [exists []; by split_and!| |done].
  exists (b :: bs). split; [done|]. split; [by constructor|]. unfold incoming in *. simpl. by rewrite Hc.
Qed.

(** The relay of what is left of the client's stream, after [log] has been sent. *)
Lemma tunnel_relayed turns idle_timeout env rs d (s0 s : Session) log (k : Gated) s' :
  seals → sent_from s0 s log → reusable s0 = true → awaiting (session_reader s0) (x00 :: d) s' →
  Forall body_read rs → gate_closed k = false →
  (length d + 2 < turns)%nat → (length d + 1 < fuel)%nat → (2 <= fuel)%nat →
  stop env = None → stopped_in_time env = true → closing_expired env = false →
  0 < idle_timeout → ordered 0 (movements env) → lively idle_timeout (tied env) 0 (movements env) = true →
  ∃ p payloads,
    relay fill fuel turns idle_timeout (tunnel_env env rs) s k =
      (Ok tt, Released p (session_uses s0), MkGated [] (committed k ++ AsyncIo.pending k ++ d) true) ∧
    sent fill (session_writer s0) (writer p) (payloads ++ [[]]) ∧ concat payloads = concat log ++ incoming rs.
Proof.
  intros Hs (Hr & Hu & Hre & ps & Hsent & _ & Hcat) Hre0 Ha Hrs Hk Ht Hf Hf2 Hstop Hin Hclose Hi Ho Hl.
  destruct (body_reads rs Hrs) as (bs & -> & Hbs & Hinc).
  destruct (relay_transfers fill fuel turns idle_timeout (tunnel_env env (Ok <$> bs)) bs d s k s')
    as (p & qs & Hrelay & Hsent2 & _ & Hcatq); try done.
  - by eapply sent_open.
  - congruence.
  - by rewrite Hr.
  - unfold tunnel_env, upload_events. cbn [Tunnel.reads]. rewrite Hstop. f_equal.
    rewrite <-list_fmap_compose. by apply list_fmap_ext.
  - exists p, (ps ++ qs). rewrite Hrelay, Hu. split; [done|]. rewrite <-app_assoc.
    split; [by eapply sent_app|]. by rewrite concat_app, Hcat, Hcatq, Hinc.
Qed.
End OpaqueTunnel.

(** ** From an HTTP client to the node *)

Section EndToEnd.
Context `{C : RecordCrypto} `{!RecordCryptoLaws C} `{Nodes.Base64Url}.
Context (make_runtime : Nodes.Proxy → result unit) {EchConfig : Type} (parse_ech_config : bytes → result EchConfig).
Context (hmac_sha256 : bytes → bytes → bytes) (sha256 : bytes → bytes).
Context (fill : nat → option bytes) (fuel : nat).
Context (url_parse : bytes → option Url) (base64_decode : bytes → option bytes).

(** The gateway. *)
Context (ps published : list Nodes.Proxy) (port : Z) (allow : bool) (ctx : Gateway.GatewayContext).
Context (previous : option Gateway.Router) (next : nat) (r : Gateway.Router) (next' : nat) (p : Nodes.Proxy) (selector : bytes).
Context (Hbounded : Gateway.bounded previous next).
Context (Hbuild : Gateway.build make_runtime parse_ech_config ps published port allow ctx previous next = (Ok r, next')).
Context (Hp : p ∈ ps) (Hselector : Nodes.node_selector (Nodes.name p) = Ok selector).

(** The client's request, with the credentials the gateway publishes for [p]. *)
Context (first : byte) (start client : Client) (parsed : ParsedRequest).
Context (Hparsed : read_proxy_request url_parse base64_decode first start = (Ok parsed, client)).
Context (Hcredentials : credentials parsed = Some (selector, Gateway.context_secret ctx)).
Context (Hconnected : broken client = false) (Hreads : Forall body_read (HttpRequest.reads client)).

(** The Snell client of [p], the cryptography and the randomness. *)
Context (o : SnellClientOptions) (c : SnellClient (PhysicalConnection bytes Gated)) (rd exporter : bytes).
Context (generation : Z) (addr : SocketAddr) (nonce : bytes) (random : byte * byte) (request : bytes).
Context (counters : option Counters) (now : Z) (expired : nat → bool).
Context (Hclient : snell_client_new hmac_sha256 sha256 o = Ok c) (Hpsk : psk o = Nodes.psk p) (Hreuse : reuse o = true).
Context (Hhmac : ∀ key m, length (hmac_sha256 key m) = 32%nat) (Hseals : seals).
Context (Hfill : ∀ n, is_Some (fill n)) (Hfills : fills fill).
Context (Hnonce : length nonce = 16%nat) (Hkey : is_ok (derive_record_key (psk o) nonce) = true).
Context (Hrequest : build_connect_request (parsed_host parsed) (parsed_port parsed) true = Ok request).
Context (dial : Gateway.Route → bytes → Z →
                M (SnellClient (PhysicalConnection bytes Gated)) (SnellSession (R := bytes) (W := Gated))).
Context (Hdial : ∀ rt h q u, Gateway.runtimes r !! Nodes.name p = Some rt →
  dial (Gateway.runtime_route rt) h q u =
    dial_tcp hmac_sha256 (λ _, false) fill fuel u
      (MkDialEnv (Ok tt) (Ok (rd, MkGated [] [] false, exporter, generation)) (Ok addr) (Some nonce) (Some random) false)
      h q now generation expired counters).

(** What happens while the session lasts. *)
Context (turns : nat) (idle_timeout : Z) (env : HttpEnv).
Context (Hclose : closing_expired env = false) (Hidle : 0 < idle_timeout).
Context (Hordered : ordered 0 (movements env)) (Hlively : lively idle_timeout (tied env) 0 (movements env) = true).
Context (Hfuel : (2 <= fuel)%nat).

Abbreviation mode := (Dynamic (Gateway.authenticate r)).
Abbreviation served := (serve_session fill fuel dial url_parse base64_decode mode false first turns idle_timeout env (start, c)).

(** The request leads to a new session of [p]'s client. *)
Lemma http_dialled : ∃ rt conn sofar,
  Gateway.runtimes r !! Nodes.name p = Some rt ∧ Gateway.r_proxy rt = p ∧
  dial (Gateway.runtime_route rt) (parsed_host parsed) (parsed_port parsed) c = (Ok (MkSession conn 1 true counters), c) ∧
  (∃ name pass, credentials parsed = Some (name, pass) ∧ authenticate mode name pass = Ok (Gateway.runtime_route rt)) ∧
  reader conn = snell_reader_new (reader_new rd (psk o)) ∧
  w_writer (writer conn) = MkGated [] sofar false ∧
  ∀ w payloads, sent fill (writer conn) w (payloads ++ [[]]) →
    ∃ wire, w_writer w = MkGated [] wire false ∧
      identity_accepts hmac_sha256 (client_identity c) exporter (take 56 wire) = true ∧
      node_reads (Nodes.psk p) request payloads wire.
Proof.
  destruct (node_credentials _ _ _ _ _ _ _ _ _ _ _ _ _ Hbounded Hbuild Hp Hselector) as (_ & rt & Hrt & Hrp & Hauth).
  destruct (fresh_session hmac_sha256 sha256 fill fuel o c rd exporter generation addr nonce random (parsed_host parsed)
              (parsed_port parsed) request now expired counters Hclient Hreuse Hhmac Hseals Hfill Hfills Hnonce Hkey Hrequest)
    as (conn & sofar & Hd & Hr & _ & Hw & Hnode).
  exists rt, conn, sofar. rewrite <-Hpsk. split_and!; try done; [by rewrite Hdial|by eexists _, _].
Qed.

(** C2: A request forwarded by the HTTP proxy reaches the node it was meant for,
    end to end. Suppose the gateway was built from a catalog, the client's request
    carries the selector and the secret published for one of its nodes, the session
    is a new one and stays active within the idle timeout, and the node's answer
    is an HTTP response. Then, however the client's stream is cut into reads and
    the answer into records, the client is sent exactly the interim heads the
    answer starts with, its final head rewritten to close the connection, and the
    rest of the answer, to its end. When the request has been sent before the
    answer ends, the relay succeeds, the connection is given back for reuse, and
    the connection opened starts with an identity that node accepts, after which
    the node reads exactly the request for the target's host and port, then
    exactly the rewritten head and the body the head announces, nothing of what
    follows the body, and the end of the session. When the answer ends first, the
    relay reports a failure and the connection is retired, whatever part of the
    body it carried. *)
Theorem http_request_end_to_end f body rest interims final answer s' :
  forwarded parsed = Some f → upgrade f = false →
  is_body (framing f) body → leftover parsed ++ incoming (HttpRequest.reads client) = body ++ rest →
  awaiting (snell_reader_new (reader_new rd (psk o))) (x00 :: concat interims ++ final ++ answer) s' →
  Forall (is_head true) interims → is_head false final →
  (length (leftover parsed ++ incoming (HttpRequest.reads client)) < fuel)%nat →
  (length (concat interims ++ final ++ answer) + length interims < turns)%nat →
  (length (concat interims ++ final ++ answer) + 1 < fuel)%nat →
  ∃ rt, Gateway.runtimes r !! Nodes.name p = Some rt ∧ Gateway.r_proxy rt = p ∧
    let answered := MkGated [] (written client ++ concat interims ++ close_response_head final ++ answer) true in
    (request_first env = false → ∃ p1, served = (Err REQUEST_ERROR, Some (Retired p1), inr answered, c)) ∧
    (request_first env = true → ∃ p1 wire payloads,
       served = (Ok tt, Some (Released p1 1), inr answered, c) ∧
       w_writer (writer p1) = MkGated [] wire false ∧
       identity_accepts hmac_sha256 (client_identity c) exporter (take 56 wire) = true ∧
       node_reads (Nodes.psk p) request payloads wire ∧ concat payloads = head f ++ body).
Proof.
  intros Hf Hup Hbody Hstream Ha Hint Hfin Hf1 Hturns Hf2.
  destruct http_dialled as (rt & conn & sofar & Hrt & Hrp & Hd & Hauth & Hr & Hw & Hnode).
  pose proof (serve_dialled fill dial url_parse base64_decode mode first start client c parsed _ _ _ Hparsed eq_refl
                Hauth Hd) as Hserve.
  rewrite Hf, Hup in Hserve. exists rt. split; [done|]. split; [done|]. cbv zeta.
  split; intros Hfirst; unfold serve_session; rewrite Hserve; unfold mret, M_ret, into_halves; rewrite Hconnected.
  { destruct (response_relayed_early fill fuel turns idle_timeout env f (leftover parsed) (HttpRequest.reads client) body
                rest (MkSession conn 1 true counters) sofar (MkGated [] (written client) false) interims final answer s')
      as (p1 & unread & Hrelay); try done; [by rewrite <-Hr in Ha|]. exists p1. by rewrite Hrelay. }
  destruct (request_relayed fill fuel turns idle_timeout env f (leftover parsed) (HttpRequest.reads client) body rest
              (MkSession conn 1 true counters) sofar (MkGated [] (written client) false) interims final answer s')
    as (p1 & payloads & unread & Hrelay & Hsent & _ & Hcat); try done; [by rewrite <-Hr in Ha|].
  destruct (Hnode _ _ Hsent) as (wire & Hwire & Hid & Hreads').
  exists p1, wire, payloads. split_and!; try done. by rewrite Hrelay.
Qed.

(** C3: An opaque tunnel through the HTTP proxy is transparent. For a [CONNECT]
    request or a request for a protocol switch with a node's credentials, the
    node reads exactly the request for the target, then the head of the switch
    (nothing for [CONNECT]) and exactly what the client sends after its request,
    the bytes that came along with it included, then the end; and the client is
    sent, for [CONNECT], the acceptance, and then exactly what the node
    answers. The connection is given back for reuse. *)
Theorem http_tunnel_end_to_end d s' :
  (∀ f, forwarded parsed = Some f → upgrade f = true) →
  awaiting (snell_reader_new (reader_new rd (psk o))) (x00 :: d) s' →
  stop env = None → stopped_in_time env = true →
  (length d + 2 < turns)%nat → (length d + 1 < fuel)%nat →
  let greeting := if forwarded parsed then [] else lit "HTTP/1.1 200 Connection Established" ++ crlfcrlf in
  let opening := match forwarded parsed with Some f => head f | None => [] end in
  ∃ rt p1 wire payloads,
    Gateway.runtimes r !! Nodes.name p = Some rt ∧ Gateway.r_proxy rt = p ∧
    served = (Ok tt, Some (Released p1 1), inr (MkGated [] (written client ++ greeting ++ d) true), c) ∧
    w_writer (writer p1) = MkGated [] wire false ∧
    identity_accepts hmac_sha256 (client_identity c) exporter (take 56 wire) = true ∧
    node_reads (Nodes.psk p) request payloads wire ∧
    concat payloads = opening ++ leftover parsed ++ incoming (HttpRequest.reads client).
Proof.
  intros Hup Ha Hstop Hintime Hturns Hf greeting opening.
  destruct http_dialled as (rt & conn & sofar & Hrt & Hrp & Hd & Hauth & Hr & Hw & Hnode).
  pose proof (serve_dialled fill dial url_parse base64_decode mode first start client c parsed _ _ _ Hparsed eq_refl
                Hauth Hd) as Hserve.
  set (s0 := MkSession conn 1 true counters) in *.
  assert (∃ s1 log, sent_from fill s0 s1 log ∧ concat log = opening ++ leftover parsed ∧
    serve dial (λ content, session_write fill content;; mret tt) url_parse base64_decode mode false first (start, c) =
      (Ok (HttpRelay.Tunnel s1), (MkHttpClient (HttpRequest.reads client) (written client ++ greeting) false, c)))
    as (s1 & log & Hlog & Hcatl & Hserved).
  { rewrite Hserve. unfold opening, greeting. pose proof (sent_from_start fill s0 sofar Hw) as H0.
    destruct (forwarded parsed) as [f|].
    - rewrite (Hup f eq_refl). destruct (write_to_sent fill s0 s0 [] (head f) Hseals H0) as (s1 & Hw1 & H1).
      destruct (write_leftover_sent fill s0 s1 _ (leftover parsed) Hseals H1) as (s2 & log & Hw2 & H2 & Hc).
      exists s2, log. split; [done|]. split; [by rewrite Hc; simpl; rewrite app_nil_r|].
      rewrite Hw1, (M_bind_ok (lift (Ok s1)) _ _ s1 _ eq_refl), Hw2, (M_bind_ok (lift (Ok s2)) _ _ s2 _ eq_refl).
      rewrite app_nil_r, <-Hconnected. by destruct client.
    - destruct (write_leftover_sent fill s0 s0 _ (leftover parsed) Hseals H0) as (s2 & log & Hw2 & H2 & Hc).
      exists s2, log. split; [done|]. split; [by rewrite Hc|].
      rewrite (M_bind_ok _ _ _ tt (MkHttpClient (HttpRequest.reads client)
        (written client ++ lit "HTTP/1.1 200 Connection Established" ++ crlfcrlf) false, c)), Hw2; [done|].
      unfold with_client, write_raw, zoom. cbn [fst snd]. by rewrite Hconnected. }
  destruct (tunnel_relayed fill fuel turns idle_timeout env (HttpRequest.reads client) d s0 s1 log
              (MkGated [] (written client ++ greeting) false) s')
    as (p1 & payloads & Hrelay & Hsent & Hcat); try done; [by rewrite <-Hr in Ha|].
  destruct (Hnode _ _ Hsent) as (wire & Hwire & Hid & Hreads').
  exists rt, p1, wire, payloads. split_and!; try done.
  - unfold serve_session. rewrite Hserved. unfold into_halves. cbn [HttpRequest.reads written broken].
    rewrite Hrelay. cbn [committed AsyncIo.pending app]. by rewrite <-app_assoc.
  - by rewrite Hcat, Hcatl, <-app_assoc.
Qed.
End EndToEnd.

(** ** Witnesses: clients of the second of two nodes *)

#[local] Existing Instance Nodes.toy_base64.

Definition demo_base64 (token : bytes) : option bytes :=
  if bytes_eqb token (lit "dG9rZW4=") then Some (demo_selector ++ lit ":" ++ lit "secret") else None.
Definition demo_authorization : bytes := lit "Proxy-Authorization: Basic dG9rZW4=" ++ crlf.
Definition demo_post : bytes :=
  lit "OST http://a.test/p?q HTTP/1.1" ++ crlf ++ lit "Host: a.test" ++ crlf ++ demo_authorization
  ++ lit "Content-Length: 4" ++ crlfcrlf ++ lit "pi".
Definition demo_connect : bytes :=
  lit "ONNECT a.test:443 HTTP/1.1" ++ crlf ++ demo_authorization ++ crlf ++ lit "pi".

(** A client whose body comes in two reads, with the start of another request. *)
Definition demo_client (sent : bytes) : Client := MkHttpClient [Ok sent; Ok (lit "ng"); Ok (lit "next")] [] false.
Definition demo_http_env : HttpEnv := MkHttpEnv true None true demo_session true false 8.
Definition demo_dial (_ : Gateway.Route) (h : bytes) (q : Z) (rd : bytes) :
    M (SnellClient (PhysicalConnection bytes Gated)) (SnellSession (R := bytes) (W := Gated)) := λ u,
  dial_tcp demo_hmac (λ _, false) demo_fill 512 u
    (MkDialEnv (Ok tt) (Ok (rd, MkGated [] [] false, lit "exporter", 3)) (Ok demo_addr) (Some demo_salt)
       (Some (x01, x02)) false) h q 0 3 (λ _, false) None.
Definition demo_origin : bytes := demo_interim ++ demo_final ++ lit "hello".

Lemma demo_origin_answers : ∃ wire s',
  awaiting (snell_reader_new (reader_new wire (lit "key"))) (x00 :: demo_origin) s'.
Proof.
  destruct (encode_frames demo_fill [([x00], 0%nat); (demo_origin, 0%nat); ([], 0%nat)] demo_node_writer)
    as [[wire|e] w'] eqn:E; [|vm_compute in E; discriminate].
  exists wire. by apply (node_answers _ wire w').
Qed.

Lemma demo_post_read : ∃ f,
  read_proxy_request demo_url_parse demo_base64 "P" (demo_client demo_post) =
    (Ok (MkParsed (lit "a.test") 80 (Some (demo_selector, lit "secret")) (Some f) (lit "pi")),
     MkHttpClient [Ok (lit "ng"); Ok (lit "next")] [] false) ∧ upgrade f = false ∧ framing f = Length 4.
Proof. eexists. split; [vm_compute; reflexivity|]. by split. Qed.

Lemma demo_connect_read :
  read_proxy_request demo_url_parse demo_base64 "C" (demo_client demo_connect) =
    (Ok (MkParsed (lit "a.test") 443 (Some (demo_selector, lit "secret")) None (lit "pi")),
     MkHttpClient [Ok (lit "ng"); Ok (lit "next")] [] false).
Proof. vm_compute. reflexivity. Qed.

Lemma http_request_end_to_end_witness :
  ∃ r c rt p1 wire payloads f rd,
    Gateway.runtimes r !! lit "CIA 02" = Some rt ∧ Gateway.r_proxy rt = Gateway.demo_two ∧
    serve_session demo_fill 512 (λ rt h q, demo_dial rt h q rd) demo_url_parse demo_base64
      (Dynamic (Gateway.authenticate r)) false "P" 512 (5 * 10 ^ 9) demo_http_env (demo_client demo_post, c) =
      (Ok tt, Some (Released p1 1),
       inr (MkGated [] (demo_interim ++ close_response_head demo_final ++ lit "hello") true), c) ∧
    w_writer (writer p1) = MkGated [] wire false ∧ concat payloads = head f ++ lit "ping".
Proof.
  destruct Gateway.demo_build_ok as [r Hb]. destruct demo_origin_answers as (rd & s' & Haw).
  destruct demo_post_read as (f & Hread & Hup & Hframing).
  destruct (snell_client_new (R := bytes) (W := Gated) demo_hmac (λ m, m) demo_tunnel_options) as [c|e] eqn:Hc;
    [|vm_compute in Hc; discriminate].
  destruct (build_connect_request (lit "a.test") 80 true) as [request|e] eqn:Hrequest; [|vm_compute in Hrequest; discriminate].
  destruct (http_request_end_to_end (λ _, Ok tt) Gateway.demo_ech demo_hmac (λ m, m) demo_fill 512
    demo_url_parse demo_base64 [Gateway.demo_one; Gateway.demo_two] [Gateway.demo_one; Gateway.demo_two] 6172 false
    Gateway.demo_context None 0 r 2 Gateway.demo_two demo_selector) with (first := "P"%byte) (start := demo_client demo_post)
    (client := MkHttpClient [Ok (lit "ng"); Ok (lit "next")] [] false)
    (parsed := MkParsed (lit "a.test") 80 (Some (demo_selector, lit "secret")) (Some f) (lit "pi"))
    (o := demo_tunnel_options) (c := c) (rd := rd) (exporter := lit "exporter") (generation := 3) (addr := demo_addr)
    (nonce := demo_salt) (random := (x01, x02)) (request := request) (counters := None : option Counters) (now := 0)
    (expired := λ _ : nat, false) (dial := λ rt h q, demo_dial rt h q rd) (turns := 512%nat) (idle_timeout := 5 * 10 ^ 9)
    (env := demo_http_env) (f := f) (body := lit "ping") (rest := lit "next") (interims := [demo_interim])
    (final := demo_final) (answer := lit "hello") (s' := s')
    as (rt & Hrt & Hrp & _ & Hsent);
    [lazymatch goal with
     | |- is_body _ _ => by rewrite Hframing
     | |- Forall (is_head true) _ => apply Forall_singleton; exact (proj1 demo_heads)
     | |- is_head false _ => exact (proj2 demo_heads)
     | |- _ => demo_world end..|].
  destruct (Hsent eq_refl) as (p1 & wire & payloads & Hserved & Hwire & _ & _ & Hcat).
  exists r, c, rt, p1, wire, payloads, f, rd. split; [exact Hrt|]. split; [exact Hrp|]. split; [exact Hserved|].
  split; [exact Hwire|exact Hcat].
Defined.

Lemma http_tunnel_end_to_end_witness :
  ∃ r c rt p1 payloads rd,
    Gateway.runtimes r !! lit "CIA 02" = Some rt ∧ Gateway.r_proxy rt = Gateway.demo_two ∧
    serve_session demo_fill 512 (λ rt h q, demo_dial rt h q rd) demo_url_parse demo_base64
      (Dynamic (Gateway.authenticate r)) false "C" 512 (5 * 10 ^ 9) demo_http_env (demo_client demo_connect, c) =
      (Ok tt, Some (Released p1 1),
       inr (MkGated [] ((lit "HTTP/1.1 200 Connection Established" ++ crlfcrlf) ++ demo_origin) true), c) ∧
    concat payloads = lit "pi" ++ lit "ngnext".
Proof.
  destruct Gateway.demo_build_ok as [r Hb]. destruct demo_origin_answers as (rd & s' & Haw).
  destruct (snell_client_new (R := bytes) (W := Gated) demo_hmac (λ m, m) demo_tunnel_options) as [c|e] eqn:Hc;
    [|vm_compute in Hc; discriminate].
  destruct (build_connect_request (lit "a.test") 443 true) as [request|e] eqn:Hrequest; [|vm_compute in Hrequest; discriminate].
  destruct (http_tunnel_end_to_end (λ _, Ok tt) Gateway.demo_ech demo_hmac (λ m, m) demo_fill 512
    demo_url_parse demo_base64 [Gateway.demo_one; Gateway.demo_two] [Gateway.demo_one; Gateway.demo_two] 6172 false
    Gateway.demo_context None 0 r 2 Gateway.demo_two demo_selector) with (first := "C"%byte) (start := demo_client demo_connect)
    (client := MkHttpClient [Ok (lit "ng"); Ok (lit "next")] [] false)
    (parsed := MkParsed (lit "a.test") 443 (Some (demo_selector, lit "secret")) None (lit "pi"))
    (o := demo_tunnel_options) (c := c) (rd := rd) (exporter := lit "exporter") (generation := 3) (addr := demo_addr)
    (nonce := demo_salt) (random := (x01, x02)) (request := request) (counters := None : option Counters) (now := 0)
    (expired := λ _ : nat, false) (dial := λ rt h q, demo_dial rt h q rd) (turns := 512%nat) (idle_timeout := 5 * 10 ^ 9)
    (env := demo_http_env) (d := demo_origin) (s' := s')
    as (rt & p1 & wire & payloads & Hrt & Hrp & Hserved & _ & _ & _ & Hcat);
    [lazymatch goal with
     | |- read_proxy_request _ _ _ _ = _ => exact demo_connect_read
     | |- ∀ _ : ForwardedRequest, _ => intros f Hf; discriminate Hf
     | |- _ => demo_world end..|].
  exists r, c, rt, p1, payloads, rd. split; [exact Hrt|]. split; [exact Hrp|]. split; [exact Hserved|exact Hcat].
Defined.
