(* ===== verification/NodeClient.v ===== *)
(** * NodeClient: the dialer and the client of one node ([Router::build] of
    [src/gateway.rs], [SnellDialer] of [src/snell/client.rs])

    What the router makes for a node: a dialer ([Dialer]) and a Snell client over
    it ([SnellClient]), with the settings of the configuration ([Config]); and
    how a connection of the one becomes the transport of the other. The theorems
    put the checks of the parts side by side: what the catalog and the
    configuration accept, the dialer and the client accept too. *)
From stdpp Require Import gmap.
From S2P Require Import Prelude Bytes Text Ip AsyncIo SnellWire SnellRecord SnellReader SnellPool SnellClient.
From S2P Require Trust Network PrivateDns DialTcp Dialer Diagnostics Config Nodes Provider Gateway.
Local Open Scope Z_scope.

Section Node.
Context {Root EchConfig ClientConfig Stream Tls : Type} `{EqDecision Root}.
Context (base64_decode : bytes → option bytes) (ech_new : bytes → option EchConfig).
Context (hmac_sha256 : bytes → bytes → bytes) (sha256 : bytes → bytes).
Context `{Config.UrlCrate}.
Context {R W : Type}.

Abbreviation parse_ech := (Dialer.parse_ech_config base64_decode ech_new).

(** The options of a node's client; the semaphores and the dialer are left out. *)
Definition client_options (p : Nodes.Proxy) (runtime : Config.RuntimeConfig) : SnellClientOptions :=
  MkOptions (Nodes.name p) (Nodes.psk p) (Nodes.reuse p)
    (Z.to_nat (Config.reuse_max_idle runtime)) (Z.to_nat (Config.reuse_max_uses runtime))
    (Config.reuse_idle_timeout runtime) (Config.request_timeout runtime) (2 * 10 ^ 9).

(** The dialer and the client of a new runtime. *)
Definition new_runtime (runtime : Config.RuntimeConfig) (cache : PrivateDns.Cache)
    (refresh : Dialer.CatalogRefresh) (p : Nodes.Proxy) :
    result (Dialer.Dialer (Root := Root) (EchConfig := EchConfig) (ClientConfig := ClientConfig)
            * SnellClient (PhysicalConnection R W)) :=
  dialer ← Dialer.new_with_context base64_decode ech_new p (Config.request_timeout runtime) cache refresh;
  client ← snell_client_new hmac_sha256 sha256 (client_options p runtime);
  Ok (dialer, client).

(** Whether it can be made, as [Gateway] asks. *)
Definition make_runtime (runtime : Config.RuntimeConfig) (cache : PrivateDns.Cache)
    (refresh : Dialer.CatalogRefresh) (p : Nodes.Proxy) : result unit :=
  (λ _, tt) <$> new_runtime runtime cache refresh p.

(** *** What one accepts, the next accepts *)

Lemma from_secs_nanos n : Config.from_secs n = n * 10 ^ 9.
Proof. done. Qed.

(** A node of the catalog has a profile the dialer supports. *)
Lemma valid_profile `{Nodes.Base64Url} p :
  Nodes.validate_proxy parse_ech p = Ok tt →
  Dialer.validate_profile p = Ok tt ∧ is_ok (parse_ech (Nodes.ech_config (Nodes.obfs p))) = true ∧
  Nodes.psk p ≠ [] ∧ is_ok (Nodes.node_selector (Nodes.name p)) = true.
Proof.
  unfold Nodes.validate_proxy, Dialer.validate_profile.
  destruct (bool_decide (trim (Nodes.name p) = [])); [done|].
  destruct (negb (bytes_eqb (Nodes.proxy_type p) _) || _) eqn:E1; [done|].
  destruct (bool_decide (trim (Nodes.server p) = []) || _ || _) eqn:E2; [done|].
  destruct (negb (Nodes.identity p)) eqn:E3; [done|].
  destruct (negb (bytes_eqb (Nodes.mode _) _) || _ || _ || _ || _) eqn:E4; [done|].
  destruct (bool_decide (Nodes.sni _ = []) || _ || _) eqn:E5; [done|].
  intros (ech & Hech & Hr)%result_bind_inv. apply result_bind_inv in Hr as (sel & Hsel & _).
  apply orb_false_iff in E1 as [Et Ev], E2 as [[Es Ep]%orb_false_iff Ek].
  apply orb_false_iff in E4 as [[[[Em Ea]%orb_false_iff Ei]%orb_false_iff El]%orb_false_iff Ec].
  apply orb_false_iff in E5 as [[En Eh]%orb_false_iff _].
  rewrite ?Et, ?Ev, ?E3, ?Ep, ?Em, ?En, ?Eh, ?Ea, ?Ei, ?El, ?Ec, ?Hech, ?Hsel.
  rewrite (bool_decide_eq_false_2 (Nodes.server p = [])).
  2:{ intros Hs. rewrite Hs in Es. by rewrite bool_decide_eq_true_2 in Es. }
  split_and!; try done. by apply bool_decide_eq_false_1 in Ek.
Qed.

(** The bounds of the configuration are within those of the dialer and the
    client. *)
Lemma runtime_made `{Nodes.Base64Url} p runtime cache refresh :
  Nodes.validate_proxy parse_ech p = Ok tt → Config.runtime_ok runtime →
  ∃ dialer client, new_runtime runtime cache refresh p = Ok (dialer, client) ∧
    options client = client_options p runtime ∧ psk (options client) = Nodes.psk p ∧
    Dialer.p_server (Dialer.profile dialer) = Nodes.server p ∧
    Dialer.p_sni (Dialer.profile dialer) = Nodes.sni (Nodes.obfs p) ∧
    Dialer.p_alpn (Dialer.profile dialer) = Nodes.alpn (Nodes.obfs p).
Proof.
  intros Hp [_ _ _ _ _ Hreq _ _ Hidle _ _ _ Hmi Hmu _ _ _ _].
  destruct (valid_profile p Hp) as (Hprofile & Hech & Hpsk & _). rewrite !from_secs_nanos in *.
  unfold new_runtime, Dialer.new_with_context. rewrite Hprofile.
  destruct (parse_ech (Nodes.ech_config (Nodes.obfs p))) as [ech|]; [|done].
  destruct ((Config.request_timeout runtime =? 0) || _) eqn:Er; [reflect_bools; lia|]. cbn [mbind result_bind].
  unfold snell_client_new, client_options, duration_invalid, count_invalid.
  cbn [psk handshake_timeout close_timeout reuse opt_max_idle opt_max_uses opt_idle_timeout].
  rewrite bool_decide_eq_false_2 by done. rewrite Er.
  change ((2 * 10 ^ 9 =? 0) || (30 * 10 ^ 9 <? 2 * 10 ^ 9)) with false. cbn [orb].
  assert (E1 : (Z.to_nat (Config.reuse_max_idle runtime) =? 0)%nat
               || (128 <? Z.to_nat (Config.reuse_max_idle runtime))%nat = false).
  { apply orb_false_iff; split; [apply Nat.eqb_neq|apply Nat.ltb_ge]; lia. }
  assert (E2 : (Z.to_nat (Config.reuse_max_uses runtime) =? 0)%nat
               || (1024 <? Z.to_nat (Config.reuse_max_uses runtime))%nat = false).
  { apply orb_false_iff; split; [apply Nat.eqb_neq|apply Nat.ltb_ge]; lia. }
  assert (E3 : (Config.reuse_idle_timeout runtime =? 0) || (600 * 10 ^ 9 <? Config.reuse_idle_timeout runtime) = false).
  { apply orb_false_iff; split; [apply Z.eqb_neq|apply Z.ltb_ge]; lia. }
  rewrite E1, E2, E3, !andb_false_r. unfold identity_new. rewrite bool_decide_eq_false_2 by done.
  cbn [mbind result_bind]. eexists _, _. split; [reflexivity|]. done.
Qed.
End Node.

(** ** Building a router from an accepted catalog *)

Section Building.
Context {EchConfig : Type} (parse_ech_config : bytes → result EchConfig).
Context `{B : Nodes.Base64Url} `{!Nodes.Base64UrlLaws B}.
Context (make : Nodes.Proxy → result unit).

Definition has_selector (p : Nodes.Proxy) : Prop := is_ok (Nodes.node_selector (Nodes.name p)) = true.

Lemma policies_total format selectors ps :
  NoDup (Nodes.name <$> ps) → Forall has_selector ps →
  (∀ p s, p ∈ ps → Nodes.node_selector (Nodes.name p) = Ok s → s ∉ selectors) →
  ∃ rendered, Provider.collect_policies format selectors ps = Ok rendered.
Proof.
  revert selectors. induction ps as [|p ps IH]; intros selectors Hd Hs Hn; cbn [Provider.collect_policies]; [by eexists|].
  csimpl in Hd. apply NoDup_cons in Hd as [Hp Hd]. apply Forall_cons in Hs as [Hsp Hs]. unfold has_selector in Hsp.
  destruct (Nodes.node_selector (Nodes.name p)) as [s|] eqn:Es; [|done]. cbn [mbind result_bind].
  rewrite bool_decide_eq_false_2 by (eapply Hn; [by left|done]).
  destruct (IH (s :: selectors)) as [rendered ->]; [done|done| |by eexists].
  intros q t Hq Ht [->|Hin]%elem_of_cons; [|by eapply Hn; [right|..]].
  apply Hp. rewrite (Nodes.node_selector_inj _ _ _ Es Ht). by apply list_elem_of_fmap_2.
Qed.

(** What the documents ask of the address, the port and the secret. *)
Definition publishable (listen_address : bytes) (port : Z) (secret : bytes) : Prop :=
  (∃ ip, parse_ip listen_address = Some ip ∧ is_unspecified ip = false ∧ is_multicast ip = false) ∧
  port ≠ 0 ∧ Nodes.is_safe_credential secret = true.

Lemma check_total format ps listen_address port secret :
  ps ≠ [] → publishable listen_address port secret →
  Provider.check_provider format ps listen_address port secret = Ok tt.
Proof.
  intros Hps ((ip & Hip & Hu & Hm) & Hport & Hsafe). unfold Provider.check_provider.
  rewrite Hip, Hu, Hm, Hsafe. apply Z.eqb_neq in Hport as ->. by rewrite bool_decide_eq_false_2.
Qed.

Lemma docs_total ps listen_address port secret advertised :
  ps ≠ [] → NoDup (Nodes.name <$> ps) → Forall has_selector ps → publishable listen_address port secret →
  ∃ docs, Gateway.render_provider_docs ps listen_address port secret advertised = Ok docs.
Proof.
  intros Hps Hd Hs Hpub. unfold Gateway.render_provider_docs, Provider.render_surge, Provider.render_clash.
  rewrite !check_total by done. cbn [mbind result_bind].
  destruct (policies_total "Surge" [] ps Hd Hs) as [rs ->]; [by intros; apply not_elem_of_nil|].
  destruct (policies_total "Clash" [] ps Hd Hs) as [rc ->]; [by intros; apply not_elem_of_nil|].
  by eexists.
Qed.

Lemma nodes_total previous ps b :
  NoDup (Nodes.name <$> ps) → Forall has_selector ps → Forall (λ p, make p = Ok tt) ps →
  (∀ p s, p ∈ ps → Nodes.node_selector (Nodes.name p) = Ok s → Gateway.b_routes b !! s = None) →
  ∃ b', Gateway.build_nodes make previous ps b = (Ok tt, b').
Proof.
  revert b. induction ps as [|p ps IH]; intros b Hd Hs Hm Hfree; [by eexists|].
  csimpl in Hd. apply NoDup_cons in Hd as [Hp Hd].
  apply Forall_cons in Hs as [Hsp Hs]. apply Forall_cons in Hm as [Hmp Hm]. unfold has_selector in Hsp.
  destruct (Nodes.node_selector (Nodes.name p)) as [sel|] eqn:Es; [|done].
  assert (Hrt : ∃ rt b1, Gateway.node_runtime make previous p b = (Ok rt, b1) ∧ Gateway.b_routes b1 = Gateway.b_routes b).
  { unfold Gateway.node_runtime. destruct (Gateway.reusable previous p) as [rt|]; [by eexists _, _|].
    unfold get, modify, lift, mbind, M_bind. rewrite Hmp. by eexists _, _. }
  destruct Hrt as (rt & b1 & Hrt & Hb1). cbn [Gateway.build_nodes]. rewrite (M_bind_ok _ _ _ _ _ Hrt).
  rewrite Es. unfold lift at 1, get, mbind, M_bind. rewrite Hb1, (Hfree p sel) by (done || by left).
  unfold modify. apply IH; [done..|]. intros q s Hq Hqs. simpl. rewrite Hb1.
  rewrite lookup_insert_ne; [by eapply Hfree; [right|..]|]. intros ->.
  apply Hp. rewrite (Nodes.node_selector_inj _ _ _ Es Hqs). by apply list_elem_of_fmap_2.
Qed.
End Building.

(** C38: A gateway can always be built from what the service has accepted. If every
    node of the catalog passed the validation of the catalog, names are distinct,
    the settings passed the checks of the configuration, and the gateway has a
    specific address, a port and a usable secret, then making the dialers and the
    clients of new nodes never fails, no two selectors collide, every document
    can be rendered, and the router is built, with or without a router before
    it and whatever nodes are chosen for publication; each node's client has the
    node's key and the dialer its server name and protocol. *)
Theorem accepted_catalog_builds {Root EchConfig ClientConfig Stream Tls R W : Type} `{EqDecision Root}
    base64_decode (ech_new : bytes → option EchConfig) hmac_sha256 sha256 `{U : Config.UrlCrate}
    `{B : Nodes.Base64Url} `{!Nodes.Base64UrlLaws B} runtime cache refresh ps published allow ctx previous next :
  let make := make_runtime (Root := Root) (ClientConfig := ClientConfig) (R := R) (W := W)
                base64_decode ech_new hmac_sha256 sha256 runtime cache refresh in
  let parse := Dialer.parse_ech_config base64_decode ech_new in
  Config.runtime_ok runtime →
  (∀ p, p ∈ ps → Nodes.validate_proxy parse p = Ok tt) → NoDup (Nodes.name <$> ps) →
  published `sublist_of` ps → published ≠ [] →
  publishable (ip_to_string (Gateway.outbound_ip ctx)) (Config.serve_port runtime) (Gateway.context_secret ctx) →
  (∃ router next', Gateway.build make parse ps published (Config.serve_port runtime) allow ctx previous next
                     = (Ok router, next')) ∧
  ∀ p, p ∈ ps → ∃ dialer client,
    new_runtime (Root := Root) (ClientConfig := ClientConfig) (R := R) (W := W)
      base64_decode ech_new hmac_sha256 sha256 runtime cache refresh p = Ok (dialer, client) ∧
    psk (options client) = Nodes.psk p ∧ Dialer.p_sni (Dialer.profile dialer) = Nodes.sni (Nodes.obfs p) ∧
    Dialer.p_alpn (Dialer.profile dialer) = Nodes.alpn (Nodes.obfs p).
Proof.
  intros make parse Hok Hvalid Hd Hsub Hpne Hpub.
  assert (Hnew : ∀ p, p ∈ ps → ∃ dialer client,
    new_runtime (Root := Root) (ClientConfig := ClientConfig) (R := R) (W := W)
      base64_decode ech_new hmac_sha256 sha256 runtime cache refresh p = Ok (dialer, client) ∧
    psk (options client) = Nodes.psk p ∧ Dialer.p_sni (Dialer.profile dialer) = Nodes.sni (Nodes.obfs p) ∧
    Dialer.p_alpn (Dialer.profile dialer) = Nodes.alpn (Nodes.obfs p)).
  { intros p Hp. destruct (runtime_made (Root := Root) (ClientConfig := ClientConfig) (R := R) (W := W)
      base64_decode ech_new hmac_sha256 sha256 p runtime cache refresh (Hvalid p Hp) Hok)
      as (dialer & client & Hn & _ & ? & _ & ? & ?). by exists dialer, client. }
  split; [|done].
  assert (Hsel : ∀ l, l `sublist_of` ps → Forall has_selector l ∧ NoDup (Nodes.name <$> l)).
  { intros l Hl. split.
    - apply Forall_forall. intros p Hp. apply (valid_profile base64_decode ech_new).
      by eapply Hvalid, elem_of_sublist.
    - eapply sublist_NoDup; [exact Hd|]. by apply fmap_sublist. }
  destruct (Hsel ps) as [Hs _]; [done|]. destruct (Hsel published Hsub) as [Hsp Hdp].
  assert (Hne : ps ≠ []) by (intros ->; by apply sublist_nil_r in Hsub).
  destruct (docs_total published _ _ _ (Gateway.udp_relay_advertised ctx) Hpne Hdp Hsp Hpub) as [filtered Hf].
  destruct (docs_total ps _ _ _ (Gateway.udp_relay_advertised ctx) Hne Hd Hs Hpub) as [all Ha].
  destruct (nodes_total make previous ps (Gateway.MkBuild next ∅ ∅) Hd Hs) as [b Hb].
  { apply Forall_forall. intros p Hp. destruct (Hnew p Hp) as (dialer & client & Hn & _).
    unfold make, make_runtime. by rewrite Hn. }
  { intros. apply lookup_empty. }
  unfold Gateway.build. rewrite Hf. case_bool_decide; [|rewrite Ha]; rewrite Hb; by eexists _, _.
Qed.

(** ** The transport of a client *)

Section Transport.
Context {Root EchConfig ClientConfig Stream Tls : Type} `{EqDecision Root}.
Context (ech_new : bytes → option EchConfig) (build : bytes → EchConfig → list Root → option ClientConfig).
Context (server_name_valid : bytes → bool) (ed25519_sign base32_lower to_lowercase : bytes → bytes).
Context (hmac_sha256 : bytes → bytes → bytes) (sha256 : bytes → bytes).
Context {R W : Type}.
(** [tokio::io::split] of the TLS stream, with the buffered reader around its
    read half; its local address; and the error of a dial as a message. *)
Context (split : Tls → R * W) (local_addr_of : Tls → result SocketAddr) (error_of : Dialer.dial_error → error).

Abbreviation EchConnection := (Dialer.EchConnection (Tls := Tls) (Exporter := bytes)).

(** [SnellDialer::dial] for an ECH dialer, and what [open_command] makes of the
    [DialedTransport]. *)
Definition dial_env (permits : result unit) (dialled : Dialer.dial_error + EchConnection)
    (nonce : option bytes) (padding : option (byte * byte)) (expired : bool) : DialEnv (R := R) (W := W) :=
  match dialled with
  | inl e => MkDialEnv permits (Err (error_of e)) (Err (error_of e)) nonce padding expired
  | inr c =>
      let '(read_half, write_half) := split (Dialer.c_stream c) in
      MkDialEnv permits (Ok (read_half, write_half, Dialer.c_exporter c, Dialer.network_generation c))
        (local_addr_of (Dialer.c_stream c)) nonce padding expired
  end.
End Transport.

(** C21: A new session runs over the very connection that was verified. When a
    node's dialer returns a connection and the node's client opens a session
    over it, the handshake of the dialer's last attempt negotiated TLS 1.3 and
    the node's protocol with the configuration last offered, the first bytes on
    that stream are a preamble that authenticates the exporter of that same
    handshake with the node's key, followed by the request, and the connection
    belongs to the network generation it was dialled under. When the dial
    fails, the session fails with its error. *)
Theorem session_over_verified_tls `{C : RecordCrypto} `{!RecordCryptoLaws C}
    {Root EchConfig ClientConfig Stream Tls : Type} `{EqDecision Root} {R} `{AsyncRead R}
    (ech_new : bytes → option EchConfig) (build : bytes → EchConfig → list Root → option ClientConfig)
    server_name_valid ed25519_sign base32_lower to_lowercase hmac_sha256 sha256
    (split : Tls → R * Gated) local_addr_of error_of fill fuel o (c : SnellClient (PhysicalConnection R Gated))
    (attempt : nat → Dialer.Attempted (Stream := Stream)) now started ended unix_now trust refreshed d node all
    nonce random host port b req :
  (∀ key m, length (hmac_sha256 key m) = 32%nat) → seals → (∀ n, is_Some (fill n)) → fills fill →
  length nonce = 16%nat → snell_client_new hmac_sha256 sha256 o = Ok c →
  is_ok (derive_record_key (psk o) nonce) = true → build_connect_request host port b = Ok req →
  (∀ t, gate_closed (split t).2 = false ∧ is_ok (local_addr_of t) = true) →
  let '(dialled, d', _, _) :=
    Dialer.dial ech_new build server_name_valid ed25519_sign base32_lower to_lowercase attempt now started ended
      unix_now trust refreshed d node all in
  let env := dial_env split local_addr_of error_of (Ok tt) dialled (Some nonce) (Some random) false in
  match dialled with
  | inl e => open_tcp hmac_sha256 fill fuel c env host port b = Err (error_of e)
  | inr conn =>
      ∃ p preamble wire rest,
        open_tcp hmac_sha256 fill fuel c env host port b = Ok p ∧
        Dialer.verified server_name_valid ed25519_sign base32_lower to_lowercase attempt
          (Dialer.p_alpn (Dialer.profile d)) conn d' ∧
        network_generation p = Dialer.network_generation conn ∧
        rest = (split (Dialer.c_stream conn)).2 ∧
        w_writer (writer p) = MkGated [] (committed rest ++ pending rest ++ preamble ++ wire) false ∧
        length preamble = 56%nat ∧
        identity_accepts hmac_sha256 (client_identity c) (Dialer.c_exporter conn) preamble = true ∧
        ∃ r r', reader_with_salt wire (psk o) nonce = Ok r ∧ SnellRecord.read_frame r = (Ok req, r') ∧ r_reader r' = []
  end.
Proof.
  intros Hmac Hseals Hfill Hfills Hn Hc Hkey Hreq Hsplit.
  destruct (Dialer.dial _ _ _ _ _ _ _ _ _ _ _ _ _ _ _ _) as [[[dialled d'] node'] all'] eqn:Ed.
  destruct dialled as [e|conn].
  { intros env. unfold env, dial_env, open_tcp. rewrite Hreq. by unfold open_command. }
  apply Dialer.dial_verified in Ed. intros env.
  unfold env, dial_env. destruct (Hsplit (Dialer.c_stream conn)) as [Hgate Haddr].
  destruct (split (Dialer.c_stream conn)) as [rd t] eqn:Es. cbn [snd] in *.
  destruct (local_addr_of (Dialer.c_stream conn)) as [addr|]; [|done].
  destruct (open_tcp_flight hmac_sha256 sha256 fill fuel o c rd t (Dialer.c_exporter conn)
              (Dialer.network_generation conn) addr nonce random host port b req
              Hmac Hseals Hfill Hfills Hn Hgate Hc Hkey Hreq)
    as (p & preamble & wire & Hp & _ & [_ Hgen] & Hw & Hl & _ & Hid & Hrd).
  exists p, preamble, wire, t. destruct (Hrd []) as (r & r' & Hnew & Hread & Hrest & _). rewrite app_nil_r in Hnew.
  split_and!; eauto 10.
Qed.

(** ** Witnesses *)

#[local] Existing Instance Nodes.toy_base64.
#[local] Existing Instance Nodes.toy_base64_laws.
#[local] Existing Instance Config.toy_url.

Definition demo_config_list (_ : bytes) : option bytes := Some [x00; x02; x07; x07].
Definition demo_refresh : Dialer.CatalogRefresh := Dialer.MkRefresh None false.
Definition demo_catalog : list Nodes.Proxy := [Gateway.demo_one; Gateway.demo_two].

(** The settings of a file that only names a token. *)
Lemma demo_settings : ∃ r,
  Config.load_token_file (H0 := Config.token_files) lower (lit "token.txt") = Ok r ∧ Config.runtime_ok r.
Proof.
  destruct (Config.load_token_file (H0 := Config.token_files) lower (lit "token.txt")) as [r|e] eqn:E;
    [|vm_compute in E; discriminate].
  exists r. split; [reflexivity|]. apply Config.load_token_file_ok in E as [_ E].
  eapply Config.runtime_from_raw_ok; [| |exact E]; split; vm_compute; congruence.
Qed.

Lemma accepted_catalog_builds_witness :
  ∃ r router next',
    Gateway.build (make_runtime (Root := Z) (ClientConfig := nat) (R := bytes) (W := Gated) demo_config_list
                     Dialer.demo_ech_new demo_hmac (λ m, m) r ∅ demo_refresh)
      (Dialer.parse_ech_config demo_config_list Dialer.demo_ech_new) demo_catalog [Gateway.demo_two]
      (Config.serve_port r) false Gateway.demo_context None 0%nat = (Ok router, next') ∧
    ∃ dialer client,
      new_runtime (Root := Z) (ClientConfig := nat) (R := bytes) (W := Gated) demo_config_list
        Dialer.demo_ech_new demo_hmac (λ m, m) r ∅ demo_refresh Gateway.demo_two = Ok (dialer, client) ∧
      psk (options client) = lit "key".
Proof.
  destruct demo_settings as (r & _ & Hr).
  destruct (accepted_catalog_builds (Root := Z) (ClientConfig := nat) (Stream := nat) (Tls := nat) (R := bytes)
              (W := Gated) demo_config_list Dialer.demo_ech_new demo_hmac (λ m, m) r ∅ demo_refresh demo_catalog
              [Gateway.demo_two] false Gateway.demo_context None 0 Hr) as [(router & next' & Hb) Hnodes].
  - intros p Hp. apply elem_of_cons in Hp as [->|[->|[]%elem_of_nil]%elem_of_cons]; vm_compute; reflexivity.
  - vm_compute. apply NoDup_cons. split; [|apply NoDup_singleton]. intros Hin%list_elem_of_singleton. discriminate.
  - apply sublist_cons, sublist_skip, sublist_nil_l.
  - discriminate.
  - split; [|split; [|reflexivity]].
    + exists (V4 x7f x00 x00 x01). split; [vm_compute; reflexivity|split; reflexivity].
    + destruct Hr as [_ _ _ _ [[Hport _] _] _ _ _ _ _ _ _ _ _ _ _ _ _]. intros Hz. rewrite Hz in Hport. vm_compute in Hport. congruence.
  - exists r, router, next'. split; [exact Hb|].
    destruct (Hnodes Gateway.demo_two) as (dialer & client & Hnew & Hpsk & _); [right; left|].
    exists dialer, client. split; [exact Hnew|exact Hpsk].
Defined.

(** The third attempt of a dial succeeds. *)
Definition demo_tls (n : nat) : Dialer.Attempted (ClientConfig := nat * list Z) (Stream := nat) (Tls := nat) (Exporter := bytes) :=
  Dialer.MkAttempted Dialer.demo_tcp (λ raw _,
    match n with
    | O => inl Dialer.UnknownIssuer
    | 1%nat => inl (Dialer.EchRejected (Some [x00; x02; x07; x07]))
    | _ => inr (Dialer.MkHandshake raw true (Some (lit "snell-ech/1")) (Some (lit "exported")))
    end) 2 9.

Lemma session_over_verified_tls_witness :
  ∃ c conn (d' : Dialer.Dialer (Root := Z) (EchConfig := nat) (ClientConfig := nat * list Z)) p preamble wire,
    Dialer.verified (λ _, true) (λ m, m) (λ m, m) (λ m, m) demo_tls (lit "snell-ech/1") conn d' ∧
    open_tcp demo_hmac demo_fill 9 c
      (dial_env (λ _ : nat, (lit "in", MkGated [] [] false)) (λ _, Ok demo_addr) (λ _, Bail "dial") (Ok tt)
         (inr conn) (Some demo_salt) (Some (x01, x02)) false) (lit "host") 443 true = Ok p ∧
    w_writer (writer p) = MkGated [] (preamble ++ wire) false ∧
    identity_accepts demo_hmac (client_identity c) (lit "exported") preamble = true.
Proof.
  destruct (snell_client_new (R := bytes) (W := Gated) demo_hmac (λ m, m) demo_client_options) as [c|e] eqn:Hc;
    [|vm_compute in Hc; discriminate].
  pose proof (session_over_verified_tls Dialer.demo_ech_new Dialer.demo_build (λ _, true) (λ m, m) (λ m, m) (λ m, m)
    demo_hmac (λ m, m) (λ _ : nat, (lit "in", MkGated [] [] false)) (λ _, Ok demo_addr) (λ _, Bail "dial") demo_fill 9
    demo_client_options c demo_tls 5 0 1 2 (Trust.MkTrust [1] 1) (Some (Trust.MkTrust [2] 2)) Dialer.demo_dialer
    Diagnostics.new_node Diagnostics.no_dials demo_salt (x01, x02) (lit "host") 443 true
    ([x01; x05; x00; x04] ++ lit "host" ++ be16 443)) as H.
  match type of H with _ → _ → _ → _ → _ → _ → _ → _ → _ → ?G => assert (Hgoal : G) end.
  { apply H; clear H.
    - intros k m. unfold demo_hmac. rewrite length_take, !length_app, length_replicate. lia.
    - intros k n p. eexists. reflexivity.
    - intros n. eexists. reflexivity.
    - intros n b [= <-]. apply length_replicate.
    - reflexivity.
    - exact Hc.
    - vm_compute. reflexivity.
    - vm_compute. reflexivity.
    - intros t. split; reflexivity. }
  clear H. destruct (Dialer.dial _ _ _ _ _ _ _ _ _ _ _ _ _ _ _ _) as [[[dialled d'] node'] all'] eqn:Ed.
  assert (Hdialled : dialled = inr (Dialer.MkConnection 7%nat (lit "exported") 3)).
  { apply (f_equal (λ r, r.1.1.1)) in Ed. cbn [fst] in Ed. rewrite <-Ed. vm_compute. reflexivity. }
  subst dialled. destruct Hgoal as (p & preamble & wire & rest & Hopen & Hver & _ & -> & Hw & _ & Hid & _).
  exists c, (Dialer.MkConnection 7%nat (lit "exported") 3), d', p, preamble, wire.
  split; [exact Hver|]. split; [exact Hopen|]. split; [exact Hw|exact Hid].
Defined.
