(* ===== verification/Status.v ===== *)
(** * Status: what the service shows of itself

    The status document of a gateway ([GatewayManager::status] in
    [src/gateway.rs], [TransportContext::status] in [src/transport/ech.rs],
    [TrustStore::status], the snapshots of [src/diagnostics.rs]) and the part of
    it a diagnostic bundle exports. *)
From stdpp Require Import sorting.
From S2P Require Import Prelude Bytes Order Text Ip Diagnostics.
From S2P Require Network Trust Gateway.
From S2P Require RawProvider Subscription.
Local Open Scope Z_scope.

(** ** JSON values

    [serde_json::Value]. The fields of an object are a list, the first of equal
    names counting; their order is not observed. *)
Inductive json : Type :=
  | JNull | JBool (b : bool) | JNum (z : Z) | JStr (s : bytes) | JArr (l : list json) | JObj (m : list (bytes * json)).

(** [value.get(key)] *)
Definition json_get (v : json) (key : bytes) : option json :=
  match v with
  | JObj m => snd <$> List.find (λ p : bytes * json, bytes_eqb (fst p) key) m
  | _ => None
  end.
(** [value[key]] *)
Definition json_index (v : json) (key : string) : json := default JNull (json_get v (lit key)).
(** [value.as_array().into_iter().flatten()] *)
Definition json_items (v : json) : list json := match v with JArr l => l | _ => [] end.
(** [value[key] = field], on an object that has no such key *)
Definition json_set (v : json) (key : string) (field : json) : json :=
  match v with JObj m => JObj (m ++ [(lit key, field)]) | _ => v end.

Definition json_option {A} (f : A → json) (o : option A) : json := match o with Some a => f a | None => JNull end.
Definition json_text (s : string) : json := JStr (lit s).
Definition field (key : string) (v : json) : bytes * json := (lit key, v).

(** ** Serialised structures *)

Definition kind_name (k : ErrorKind) : string :=
  match k with
  | Timeout => "timeout" | Network => "network" | Authentication => "authentication" | Forbidden => "forbidden"
  | ProxyAuthentication => "proxy_authentication" | RateLimited => "rate_limited" | Server => "server"
  | InvalidResponse => "invalid_response" | Signature => "signature" | TlsUnknownIssuer => "tls_unknown_issuer"
  | TlsCertificate => "tls_certificate" | EchRejected => "ech_rejected" | Other => "other"
  end.
Definition stage_name (s : DialStage) : string := match s with Dns => "dns" | Tcp => "tcp" | TlsStage => "tls" end.
Definition health_name (h : Health) : string :=
  match h with Degraded => "degraded" | Healthy => "healthy" | Unobserved => "unobserved" end.

Definition json_kind (k : ErrorKind) : json := json_text (kind_name k).
Definition json_stage (s : DialStage) : json := json_text (stage_name s).

Definition dials_json (d : DialSnapshot) : json :=
  JObj [field "succeeded" (JNum (succeeded d)); field "failed" (JNum (failed d));
        field "failures_by_kind"
          (JObj ((λ e : ErrorKind * Z, (lit (kind_name e.1), JNum e.2)) <$> map_to_list (failures_by_kind d)));
        field "last_error" (json_option json_kind (last_error d));
        field "last_success_at" (json_option JNum (last_success_at d));
        field "last_failure_at" (json_option JNum (last_failure_at d))].

Definition timings_json (t : DialTimings) : json :=
  JObj [field "dns_ms" (json_option JNum (dns_ms t)); field "tcp_ms" (json_option JNum (tcp_ms t));
        field "tls_ms" (json_option JNum (tls_ms t)); field "total_ms" (JNum (total_ms t))].

Definition event_json (e : DialEvent) : json :=
  JObj [field "at" (JNum (at_ e)); field "error" (json_option json_kind (error e));
        field "stage" (json_option json_stage (stage e))].

Definition node_snapshot (s : NodeState) : json :=
  JObj [field "health" (json_text (health_name (health s))); field "ech_dials" (dials_json (dials s));
        field "consecutive_failures" (JNum (consecutive_failures s));
        field "last_timings" (json_option timings_json (last_timings s));
        field "last_failure_stage" (json_option json_stage (last_failure_stage s));
        field "successful_latency_ms"
          (JObj [field "samples" (JNum (Z.of_nat (length (samples s))));
                 field "p50" (json_option JNum (percentile 50 s)); field "p95" (json_option JNum (percentile 95 s))]);
        field "recent_events" (JArr (event_json <$> events s))].

Definition service_event_json (e : ServiceEvent) : json :=
  JObj [field "at" (JNum (e_at e));
        field "kind" (json_text (match e_kind e with
                                 | CatalogRefresh => "catalog_refresh" | ConfigReload => "config_reload" end));
        field "error" (json_option json_kind (e_error e))].

Definition log_snapshot (now : Z) (l : EventLog) : json :=
  JObj [field "started_at" (JNum (started_at l)); field "uptime_seconds" (JNum (uptime_seconds now l));
        field "recent_events" (JArr (service_event_json <$> log_events l))].

Definition catalog_json (c : CatalogStatus) : json :=
  JObj [field "started_from_cache" (JBool (started_from_cache c));
        field "last_attempt_at" (json_option JNum (c_last_attempt_at c));
        field "last_success_at" (json_option JNum (c_last_success_at c));
        field "last_error" (json_option json_kind (c_last_error c));
        field "refresh_failures" (JNum (refresh_failures c));
        field "cache_age_seconds" (json_option JNum (cache_age_seconds c))].

(** ** The status of a gateway *)

Section Status.
Context {Root : Type} (VERSION : bytes).

Definition roots_status (t : Trust.TrustStore Root) : json :=
  let s := Trust.state t in
  JObj [field "count" (JNum (Z.of_nat (length (Trust.roots (Trust.snapshot_of s)))));
        field "generation" (JNum (Trust.generation (Trust.snapshot_of s)));
        field "last_load_complete" (JBool (Trust.complete s));
        field "auto_reload_pending" (JBool (negb (Trust.settled s)))].

(** The transport context, with the snapshot its network monitor gives. *)
Record Transport : Type := MkTransport {
  t_network : Network.NetworkSnapshot; t_roots : Trust.TrustStore Root; t_dials : DialSnapshot;
}.

Definition transport_status (t : Transport) : json :=
  JObj [field "network" (JObj ((λ f : bytes * bytes, (f.1, JStr f.2)) <$> Network.snapshot_fields (t_network t)));
        field "tls_roots" (roots_status (t_roots t)); field "ech_dials" (dials_json (t_dials t))].

Definition name_le (x y : bytes * Gateway.NodeRuntime) : Prop := bytes_leb x.1 y.1 = true.
#[export] Instance name_le_dec : RelDecision name_le.
Proof. intros x y. unfold name_le. apply _. Defined.

(** The runtimes by name. *)
Definition sorted_runtimes (r : Gateway.Router) : list (bytes * Gateway.NodeRuntime) :=
  merge_sort name_le (map_to_list (Gateway.runtimes r)).

(** [GatewayManager] with all its fields; those of [Gateway.GatewayManager] are
    [manager], and [node_diagnostics] are the diagnostics of the runtimes. *)
Record Service : Type := MkService {
  manager : Gateway.GatewayManager; catalog_status : CatalogStatus; transport : option Transport;
  node_diagnostics : nat → NodeState; subscription : option (Subscription.UserInfo * option Z);
  last_good : RawProvider.LastGood;
}.

Definition set_manager (m : Gateway.GatewayManager) (s : Service) : Service :=
  MkService m (catalog_status s) (transport s) (node_diagnostics s) (subscription s) (last_good s).
Definition set_catalog (c : CatalogStatus) (s : Service) : Service :=
  MkService (manager s) c (transport s) (node_diagnostics s) (subscription s) (last_good s).
Definition set_subscription (i : option (Subscription.UserInfo * option Z)) (s : Service) : Service :=
  MkService (manager s) (catalog_status s) (transport s) (node_diagnostics s) i (last_good s).
Definition set_last_good (g : RawProvider.LastGood) (s : Service) : Service :=
  MkService (manager s) (catalog_status s) (transport s) (node_diagnostics s) (subscription s) g.

Definition update_subscription (info : option Subscription.UserInfo) (fetched_at : option Z) (s : Service) : Service :=
  set_subscription ((λ info, (info, fetched_at)) <$> info) s.
Definition subscription_header (now : Z) (s : Service) : option bytes :=
  subscription s ≫= λ i, Subscription.header i.2 now i.1.
(** [close] *)
Definition service_close (s : Service) : Service :=
  set_manager (Gateway.close (manager s)) (set_subscription None s).
Definition current (s : Service) : result Gateway.Router :=
  ok_or (Bail "gateway is closed") (Gateway.router (manager s)).

Definition node_statuses (s : Service) (r : Gateway.Router) : list json :=
  (λ e : bytes * Gateway.NodeRuntime,
     JObj [field "name" (JStr e.1);
           field "transport" (node_snapshot (node_diagnostics s (Gateway.r_id e.2)))]) <$> sorted_runtimes r.

Definition initialize_status (from_cache : bool) (last_success : option Z) (c : CatalogStatus) : CatalogStatus :=
  MkCatalog from_cache (c_last_attempt_at c) last_success (c_last_error c) (refresh_failures c) (cache_age_seconds c).

Definition refresh_started (now : Z) (c : CatalogStatus) : CatalogStatus :=
  MkCatalog (started_from_cache c) (Some now) (c_last_success_at c) (c_last_error c) (refresh_failures c)
    (cache_age_seconds c).

Definition refresh_finished (error : option (list cause)) (now : Z) (c : CatalogStatus) : CatalogStatus :=
  let last_error := classify <$> error in
  match error with
  | Some _ => MkCatalog (started_from_cache c) (c_last_attempt_at c) (c_last_success_at c) last_error
                (refresh_failures c + 1) (cache_age_seconds c)
  | None => MkCatalog (started_from_cache c) (c_last_attempt_at c) (Some now) last_error
              (refresh_failures c) (cache_age_seconds c)
  end.

(** The catalog's status with the age of its content. *)
Definition aged (now : Z) (c : CatalogStatus) : CatalogStatus :=
  MkCatalog (started_from_cache c) (c_last_attempt_at c) (c_last_success_at c) (c_last_error c) (refresh_failures c)
    ((λ time, Z.max 0 (now - time)) <$> c_last_success_at c).

Definition status (now : Z) (s : Service) : json :=
  let '(ready, total, published, nodes, raw_skipped) :=
    match Gateway.router (manager s) with
    | Some r =>
        (true, size (Gateway.runtimes r), Gateway.published_count r, node_statuses s r,
         JObj [field "filtered" (JNum (Z.of_nat (RawProvider.skipped (Gateway.raw_filtered r))));
               field "all" (JNum (Z.of_nat (RawProvider.skipped (Gateway.raw_all r))))])
    | None => (false, 0%nat, 0%nat, [], JNull)
    end in
  JObj [field "version" (JStr VERSION); field "ready" (JBool ready); field "total_nodes" (JNum (Z.of_nat total));
        field "published_nodes" (JNum (Z.of_nat published)); field "catalog" (catalog_json (aged now (catalog_status s)));
        field "transport" (json_option transport_status (transport s)); field "nodes" (JArr nodes);
        field "raw_skipped_nodes" raw_skipped].
End Status.

(** ** The bundle *)

Definition select_fields (value : json) (keys : list bytes) : json :=
  JObj (omap (λ key, (λ v, (key, v)) <$> json_get value key) keys).

Definition keys (l : list string) : list bytes := lit <$> l.

Definition dial_keys : list bytes :=
  keys ["succeeded"; "failed"; "failures_by_kind"; "last_error"; "last_success_at"; "last_failure_at"]%string.

Definition bundle_event (event : json) : json := select_fields event (keys ["at"; "error"; "stage"]%string).

(** The entry of one node; its number takes the place of its name. *)
Definition bundle_node (index : nat) (node : json) : json :=
  let transport := json_index node "transport" in
  let data := select_fields transport (keys ["health"; "consecutive_failures"; "last_failure_stage"]%string) in
  let data := json_set data "ech_dials" (select_fields (json_index transport "ech_dials") dial_keys) in
  let data := json_set data "last_timings"
    (match json_index transport "last_timings" with
     | JNull => JNull
     | timings => select_fields timings (keys ["dns_ms"; "tcp_ms"; "tls_ms"; "total_ms"]%string)
     end) in
  let data := json_set data "successful_latency_ms"
    (select_fields (json_index transport "successful_latency_ms") (keys ["samples"; "p50"; "p95"]%string)) in
  let data := json_set data "recent_events"
    (JArr (bundle_event <$> json_items (json_index transport "recent_events"))) in
  JObj [(lit "id", JStr (lit "node-" ++ dec (Z.of_nat (index + 1)))); (lit "transport", data)].

Definition bundle_status (status : json) : json :=
  let safe := select_fields status (keys ["ready"; "total_nodes"; "published_nodes"]%string) in
  let safe := json_set safe "raw_skipped_nodes"
    (select_fields (json_index status "raw_skipped_nodes") (keys ["filtered"; "all"]%string)) in
  let safe := json_set safe "catalog"
    (select_fields (json_index status "catalog")
       (keys ["started_from_cache"; "last_attempt_at"; "last_success_at"; "last_error"; "refresh_failures";
              "cache_age_seconds"]%string)) in
  let transport := json_index status "transport" in
  let safe := json_set safe "transport" (JObj [
    (lit "network", select_fields (json_index transport "network") (keys ["generation"; "mode"]%string));
    (lit "tls_roots", select_fields (json_index transport "tls_roots")
       (keys ["count"; "generation"; "last_load_complete"; "auto_reload_pending"]%string));
    (lit "ech_dials", select_fields (json_index transport "ech_dials") dial_keys)]) in
  json_set safe "nodes" (JArr (imap bundle_node (json_items (json_index status "nodes")))).

(** ** What a bundle can depend on *)

(** The nodes are their diagnostics alone, in the order of their names; of the
    network only the generation and whether it is pinned; of the roots only their
    number and flags. *)
Record View : Type := MkView {
  v_router : option (nat * nat * nat * nat * list NodeState);
  v_catalog : CatalogStatus;
  v_transport : option (Z * bool * nat * Z * bool * bool * DialSnapshot);
}.

Section Bundle.
Context {Root : Type}.

Definition view (now : Z) (s : Service (Root := Root)) : View :=
  MkView
    ((λ r, (size (Gateway.runtimes r), Gateway.published_count r, RawProvider.skipped (Gateway.raw_filtered r),
            RawProvider.skipped (Gateway.raw_all r),
            (λ e : bytes * Gateway.NodeRuntime, node_diagnostics s (Gateway.r_id e.2)) <$> sorted_runtimes r))
       <$> Gateway.router (manager s))
    (aged now (catalog_status s))
    ((λ t, let n := t_network t in let r := Trust.state (t_roots t) in
           (Network.s_generation n, bool_decide (is_Some (Network.s_pinned_ip n)),
            length (Trust.roots (Trust.snapshot_of r)), Trust.generation (Trust.snapshot_of r), Trust.complete r,
            Trust.settled r, t_dials t))
       <$> transport s).

(** The bundle, from the view. *)
Definition node_entry (index : nat) (n : NodeState) : json :=
  bundle_node index (JObj [field "transport" (node_snapshot n)]).

Definition bundle_of (v : View) : json :=
  let '(ready, total, published, skipped, nodes) :=
    match v_router v with
    | Some (total, published, f, a, nodes) =>
        (true, total, published, [field "filtered" (JNum (Z.of_nat f)); field "all" (JNum (Z.of_nat a))], nodes)
    | None => (false, 0%nat, 0%nat, [], [])
    end in
  let '(network, roots, dials) :=
    match v_transport v with
    | Some (generation, pinned, count, roots_generation, complete, settled, d) =>
        ([field "generation" (JStr (dec generation));
          field "mode" (JStr (if pinned then lit "pinned" else lit "automatic"))],
         [field "count" (JNum (Z.of_nat count)); field "generation" (JNum roots_generation);
          field "last_load_complete" (JBool complete); field "auto_reload_pending" (JBool (negb settled))],
         dials_json d)
    | None => ([], [], JObj [])
    end in
  JObj [field "ready" (JBool ready); field "total_nodes" (JNum (Z.of_nat total));
        field "published_nodes" (JNum (Z.of_nat published)); field "raw_skipped_nodes" (JObj skipped);
        field "catalog" (catalog_json (v_catalog v));
        field "transport" (JObj [field "network" (JObj network); field "tls_roots" (JObj roots);
                                 field "ech_dials" dials]);
        field "nodes" (JArr (imap node_entry nodes))].

(** The name of a node is not looked at. *)
Lemma bundle_nodes (diag : nat → NodeState) (l : list (bytes * Gateway.NodeRuntime)) :
  imap bundle_node
    ((λ e, JObj [field "name" (JStr e.1); field "transport" (node_snapshot (diag (Gateway.r_id e.2)))]) <$> l)
  = imap node_entry ((λ e, diag (Gateway.r_id e.2)) <$> l).
Proof. rewrite !imap_fmap. apply imap_ext. intros i e _. reflexivity. Qed.

(** A diagnostic bundle carries no names and no addresses: of a gateway's
    status, with its node names, version, interface, source addresses and
    certificates, it is a function of the counts and flags of the view and of
    the nodes' own counters, numbered in the order of their names. *)
Theorem bundle_redacts VERSION now (s : Service (Root := Root)) :
  bundle_status (status VERSION now s) = bundle_of (view now s).
Proof.
  unfold bundle_of, view, status, node_statuses. destruct s as [m c t diag sub good]. simpl.
  destruct (Gateway.router m) as [r|], t as [[n roots d]|]; simpl; rewrite <-?bundle_nodes; reflexivity.
Qed.
End Bundle.
