(* ===== verification/HttpServer.v ===== *)
(** * HttpServer: the node list server ([src/http_server.rs])

    Reading a request, its target and flags, the answer of every path, and the
    response written. What a request meets is its environment: the time, what a
    refresh of the catalog comes to, and the answers of the raw resolver. *)
From S2P Require Import Prelude Bytes Text Ip AsyncIo HttpRequest Diagnostics Status.
From S2P Require Gateway RawProvider Subscription.
Local Open Scope Z_scope.

Definition PROVIDER_PATH : bytes := lit "/surge-proxies.conf".
Definition CLASH_PROVIDER_PATH : bytes := lit "/clash-proxies.yaml".
Definition HEALTH_PATH : bytes := lit "/healthz".
Definition STATUS_PATH : bytes := lit "/status".

(** ** Requests *)

Definition split_target (target : bytes) : bytes * bytes := default (target, []) (split_once "?" target).

Definition flag_value (name pair : bytes) : option bytes :=
  kv ← split_once "=" pair; if bytes_eqb (fst kv) name then Some (snd kv) else None.
Definition query_flag (query : bytes) (name : string) : bool :=
  bool_decide (last (omap (flag_value (lit name)) (split_on "&" query)) = Some (lit "1")).

Definition HEADERS_LIMIT : nat := Z.to_nat 8192.

(** What each [read] returns; the end of the list is the end of the stream, and a
    read that does not come within the five seconds is an error. *)
Fixpoint read_headers (reads : list (result bytes)) (request : bytes) : result bytes * list (result bytes) :=
  match reads with
  | [] => (Err (Bail "unexpected EOF in HTTP request"), [])
  | Err e :: reads => (Err e, reads)
  | Ok read :: reads =>
      if bool_decide (read = []) then (Err (Bail "unexpected EOF in HTTP request"), reads)
      else
        let request := request ++ read in
        if contains_sub crlfcrlf request then (Ok request, reads)
        else if (HEADERS_LIMIT <? length request)%nat then (Err (Bail "HTTP request headers are too large"), reads)
        else read_headers reads request
  end.

(** ** Responses *)

Record Response : Type := MkResponse {
  status_code : Z; reason : bytes; headers : list (bytes * bytes); body : bytes; head_only : bool;
}.

Definition header_line (h : bytes * bytes) : bytes := h.1 ++ lit ": " ++ h.2 ++ crlf.
Definition response_head (r : Response) : bytes :=
  lit "HTTP/1.1 " ++ dec (status_code r) ++ lit " " ++ reason r ++ crlf
  ++ lit "Content-Length: " ++ dec (Z.of_nat (length (body r))) ++ crlf ++ lit "Connection: close" ++ crlf
  ++ (headers r ≫= header_line) ++ crlf.

Definition write_response {W} `{AsyncWrite W} (r : Response) : M W unit :=
  write_all (response_head r);;
  (if negb (head_only r) then write_all (body r) else mret tt);;
  shutdown.

(** ** What a request meets *)

(** The end of [refresh_provider]'s wait: the gate is taken, there is no sender,
    the channel is full, no answer in time, the reply dropped, or an answer; the
    service as it is then. *)
Inductive RefreshOutcome (S : Type) : Type :=
  | Busy | NoSender | ChannelFull | Late (s : S) | Dropped (s : S) | Answered (ok : bool) (s : S).
Arguments Busy {S}.
Arguments NoSender {S}.
Arguments ChannelFull {S}.
Arguments Late {S} s.
Arguments Dropped {S} s.
Arguments Answered {S} ok s.

Section Server.
Context {Root : Type} (VERSION : bytes) (to_vec : json → result bytes).
Abbreviation GatewayManager := (Service (Root := Root)).

Record Environment : Type := MkEnv {
  now : Z; peer : IpAddr; refresh : RefreshOutcome GatewayManager; lookups : list RawProvider.Completion;
}.

Definition refresh_provider (o : RefreshOutcome GatewayManager) : M GatewayManager unit := λ s,
  match o with
  | Busy => (Err (Bail "provider refresh is busy"), s)
  | NoSender | ChannelFull => (Err (Bail "provider refresh unavailable"), s)
  | Late s' => (Err (Bail "provider refresh timed out"), s')
  | Dropped s' => (Err (Bail "provider refresh unavailable"), s')
  | Answered ok s' => (if ok then Ok tt else Err (Bail "provider refresh failed"), s')
  end.

Definition raw_provider_allowed (peer : IpAddr) (s : GatewayManager) : result bool :=
  r ← current s; Ok (Gateway.raw_peer_allowed peer (Gateway.allow_remote_raw_provider r)).

Definition raw_provider (include_all : bool) (env : Environment) : M GatewayManager (option bytes) := λ s,
  match current s with
  | Err e => (Err e, s)
  | Ok r =>
      if negb (Gateway.raw_peer_allowed (peer env) (Gateway.allow_remote_raw_provider r)) then (Ok None, s)
      else
        let nodes := if include_all then Gateway.raw_all r else Gateway.raw_filtered r in
        let '(document, g) := RawProvider.render nodes (lookups env) (last_good s) in
        (Ok (Some document), set_last_good g s)
  end.

Definition provider (include_all socks : bool) (s : GatewayManager) : result bytes :=
  r ← ok_or (Bail "gateway unavailable") (Gateway.router (manager s)); Ok (Gateway.provider r include_all socks).
Definition clash_provider (include_all socks : bool) (s : GatewayManager) : result bytes :=
  r ← ok_or (Bail "gateway unavailable") (Gateway.router (manager s)); Ok (Gateway.clash_provider r include_all socks).

(** ** The answers *)

Definition line (s : string) : bytes := lit s ++ [x0a].
Definition is_get (method : bytes) : bool := bytes_eqb method (lit "GET") || bytes_eqb method (lit "HEAD").
Definition is_head (method : bytes) : bool := bytes_eqb method (lit "HEAD").
Definition header (name value : string) : bytes * bytes := (lit name, lit value).
Definition no_store : bytes * bytes := header "Cache-Control" "no-store".
Definition nosniff : bytes * bytes := header "X-Content-Type-Options" "nosniff".

Definition bad_request (method : bytes) : Response :=
  MkResponse 400 (lit "Bad Request") [] (line "bad request") (is_head method).
Definition method_not_allowed (method : bytes) : Response :=
  MkResponse 405 (lit "Method Not Allowed") [header "Allow" "GET, HEAD"] (line "method not allowed") (is_head method).
Definition raw_forbidden (method : bytes) : Response :=
  MkResponse 403 (lit "Forbidden") [no_store] (line "raw provider requires a loopback peer") (is_head method).
Definition refresh_failed (method : bytes) : Response :=
  MkResponse 503 (lit "Service Unavailable") [no_store]
    (line "remote refresh failed or unavailable; previous catalog retained") (is_head method).
Definition unavailable (raw : bool) (method : bytes) : Response :=
  MkResponse 503 (lit "Service Unavailable") (if raw then [no_store] else []) (line "gateway unavailable")
    (is_head method).
Definition not_found (method : bytes) : Response :=
  MkResponse 404 (lit "Not Found") [header "Content-Type" "text/plain; charset=utf-8"] (line "404 page not found")
    (is_head method).

Definition serve_status (method : bytes) (env : Environment) : M GatewayManager Response := λ s,
  if negb (is_get method) then (Ok (method_not_allowed method), s)
  else
    match to_vec (status VERSION (now env) s) with
    | Err e => (Err e, s)
    | Ok document =>
        (Ok (MkResponse 200 (lit "OK") [header "Content-Type" "application/json"; no_store; nosniff] document
               (is_head method)), s)
    end.

Definition serve_health (method : bytes) : Response :=
  if negb (is_get method) then method_not_allowed method
  else MkResponse 204 (lit "No Content") [] [] true.

(** The refresh a query asks for: the response that ends the request, if any. *)
Definition serve_refresh (method : bytes) (raw : bool) (env : Environment) : M GatewayManager (option Response) := λ s,
  if raw && match raw_provider_allowed (peer env) s with Ok false => true | _ => false end
  then (Ok (Some (raw_forbidden method)), s)
  else
    match refresh_provider (refresh env) s with
    | (Err _, s) => (Ok (Some (refresh_failed method)), s)
    | (Ok _, s) => (Ok None, s)
    end.

(** The document: [None] for a forbidden peer. *)
Definition document (clash raw include_all socks : bool) (env : Environment) : M GatewayManager (option bytes) :=
  if clash then λ s, (Some <$> clash_provider include_all socks s, s)
  else if raw then raw_provider include_all env
  else λ s, (Some <$> provider include_all socks s, s).

Definition serve_provider (method path query : bytes) (env : Environment) : M GatewayManager Response := λ s,
  if negb (is_get method) then (Ok (method_not_allowed method), s)
  else
    let clash := bytes_eqb path CLASH_PROVIDER_PATH in
    let include_all := query_flag query "all" in
    let socks := negb (query_flag query "http") in
    let raw := bytes_eqb path PROVIDER_PATH && query_flag query "raw" in
    let '(refused, s) :=
      if query_flag query "refresh" then serve_refresh method raw env s else (Ok None, s) in
    match refused with
    | Err e => (Err e, s)
    | Ok (Some response) => (Ok response, s)
    | Ok None =>
        match document clash raw include_all socks env s with
        | (Ok None, s) => (Ok (raw_forbidden method), s)
        | (Ok (Some provider), s) =>
            let content_type := if clash then "text/yaml; charset=utf-8"%string
                                else "text/plain; charset=utf-8"%string in
            let subscription := if clash then subscription_header (now env) s else None in
            (Ok (MkResponse 200 (lit "OK")
                   ([header "Content-Type" content_type; no_store; nosniff]
                    ++ option_list ((λ value, (lit "Subscription-Userinfo", value)) <$> subscription))
                   provider (is_head method)), s)
        | (Err _, s) => (Ok (unavailable raw method), s)
        end
    end.

(** The answer to a request. *)
Definition answer (request : bytes) (env : Environment) : M GatewayManager Response :=
  let first_line := from_utf8_lossy (hd [] (split_on x0a request)) in
  let fields := split_whitespace (trim_end_matches (byteb x0d) first_line) in
  let method := nth 0 fields [] in
  let '(path, query) := split_target (nth 1 fields []) in
  match nth_error fields 2 with
  | None => mret (bad_request method)
  | Some _ =>
      if bytes_eqb path STATUS_PATH then serve_status method env
      else if bytes_eqb path HEALTH_PATH then mret (serve_health method)
      else if bytes_eqb path PROVIDER_PATH || bytes_eqb path CLASH_PROVIDER_PATH
      then serve_provider method path query env
      else mret (not_found method)
  end.

Context {W : Type} `{AsyncWrite W}.

Definition serve_http (reads : list (result bytes)) (env : Environment) : M (W * GatewayManager) unit :=
  request ← lift (read_headers reads []).1;
  response ← zoom snd (λ s c, (c.1, s)) (answer request env);
  zoom fst (λ w c, (w, c.2)) (write_response response).
End Server.

(** ** Framing *)

(** What a line of a head may hold. *)
Definition no_cr (l : bytes) : Prop := x0d ∉ l.

Lemma split_crlf_line p r : no_cr p → split_crlf (p ++ crlf ++ r) = p :: split_crlf r.
Proof.
  unfold no_cr. induction p as [|b p IH]; intros Hp; [done|]. apply not_elem_of_cons in Hp as [Hb Hp].
  specialize (IH Hp). cbn [app split_crlf]. rewrite IH.
  destruct (p ++ crlf ++ r) as [|c l] eqn:E; [by destruct p|].
  destruct (byteb b x0d) eqn:Eb; [|done]. by apply byteb_eq in Eb.
Qed.

Lemma find_sub_skip p r : no_cr p → find_sub crlfcrlf (p ++ r) = (Nat.add (length p)) <$> find_sub crlfcrlf r.
Proof.
  unfold no_cr. induction p as [|b p IH]; intros Hp.
  - simpl. by destruct (find_sub crlfcrlf r).
  - apply not_elem_of_cons in Hp as [Hb Hp]. cbn [app find_sub]. unfold crlfcrlf at 1. cbn [starts_with].
    destruct (byteb x0d b) eqn:E; [apply byteb_eq in E; congruence|]. cbn [andb].
    rewrite IH by done. destruct (find_sub crlfcrlf r); done.
Qed.

Lemma find_sub_step pat b l : starts_with pat (b :: l) = false → find_sub pat (b :: l) = S <$> find_sub pat l.
Proof. cbn [find_sub]. by intros ->. Qed.

Lemma find_sub_crlf p r :
  no_cr p → p ≠ [] → find_sub crlfcrlf (crlf ++ p ++ r) = (Nat.add (2 + length p)) <$> find_sub crlfcrlf r.
Proof.
  intros Hp Hne. destruct p as [|b p]; [done|]. pose proof Hp as [Hb _]%not_elem_of_cons.
  unfold crlf. cbn [app]. change (b :: p ++ r) with ((b :: p) ++ r).
  assert (byteb x0d b = false) as E by (apply not_true_iff_false; rewrite byteb_eq; congruence).
  rewrite find_sub_step by (unfold crlfcrlf; cbn [app starts_with]; by rewrite E, !andb_false_r).
  rewrite find_sub_step by done. rewrite find_sub_skip by done. by destruct (find_sub crlfcrlf r).
Qed.

Definition lines_head (ls : list bytes) : bytes := (ls ≫= λ l, l ++ crlf) ++ crlf.
Definition lines_ok (ls : list bytes) : Prop := Forall (λ l, no_cr l ∧ l ≠ []) ls.

Lemma split_lines_head ls : lines_ok ls → split_crlf (lines_head ls) = ls ++ [[]; []].
Proof.
  unfold lines_head. induction 1 as [|l ls [Hl _] _ IH]; [done|]. cbn [mbind list_bind app].
  by rewrite <-!app_assoc, split_crlf_line, IH.
Qed.

Lemma find_lines_end ls rest :
  lines_ok ls → ls ≠ [] → find_sub crlfcrlf (lines_head ls ++ rest) = Some (length (lines_head ls) - 4)%nat.
Proof.
  intros Hls Hne. destruct Hls as [|l ls [Hl _] Hls]; [done|]. clear Hne.
  assert (find_sub crlfcrlf (crlf ++ lines_head ls ++ rest) = Some (length (lines_head ls) - 2)%nat ∧
          (2 <= length (lines_head ls))%nat) as [Hf Hlen].
  { unfold lines_head. induction Hls as [|m ls [Hm Hnm] Hls IH]; [done|]. cbn [mbind list_bind].
    destruct IH as [IH1 IH2]. rewrite <-!app_assoc in *. rewrite find_sub_crlf by done. rewrite IH1.
    rewrite !length_app in *. change (length crlf) with 2%nat in *. simpl. split; [f_equal; lia|lia]. }
  unfold lines_head in *. cbn [mbind list_bind]. rewrite <-!app_assoc in *. rewrite find_sub_skip, Hf by done.
  rewrite !length_app in *. change (length crlf) with 2%nat in *. simpl. f_equal. lia.
Qed.

(** The lines of a response's head. *)
Definition response_lines (r : Response) : list bytes :=
  [lit "HTTP/1.1 " ++ dec (status_code r) ++ lit " " ++ reason r;
   lit "Content-Length: " ++ dec (Z.of_nat (length (body r))); lit "Connection: close"]
  ++ ((λ h : bytes * bytes, h.1 ++ lit ": " ++ h.2) <$> headers r).

Lemma response_head_lines r : response_head r = lines_head (response_lines r).
Proof.
  unfold response_head, response_lines, lines_head. cbn [app mbind list_bind]. rewrite <-!app_assoc.
  assert (headers r ≫= header_line
          = ((λ h : bytes * bytes, h.1 ++ lit ": " ++ h.2) <$> headers r) ≫= λ l, l ++ crlf) as ->; [|done].
  induction (headers r) as [|h hs IH]; [done|]. cbn [mbind list_bind fmap list_fmap]. rewrite IH.
  unfold header_line. by rewrite <-!app_assoc.
Qed.

(** A response that can be read back: no line end inside its head. *)
Definition framed (r : Response) : Prop :=
  u64 (status_code r) ∧ no_cr (reason r) ∧ Forall (λ h : bytes * bytes, no_cr h.1 ∧ no_cr h.2) (headers r)
  ∧ u64 (Z.of_nat (length (body r))).

Lemma no_cr_dec n : u64 n → no_cr (dec n).
Proof. intros Hn Hin. pose proof (dec_digits n Hn) as Hd. rewrite Forall_forall in Hd. by specialize (Hd _ Hin). Qed.
Lemma no_cr_app l k : no_cr l → no_cr k → no_cr (l ++ k).
Proof. unfold no_cr. set_solver. Qed.
Lemma no_cr_lit l : existsb (byteb x0d) l = false → no_cr l.
Proof.
  intros H Hin. rewrite <-not_true_iff_false in H. apply H, existsb_exists. exists x0d.
  split; [by apply list_elem_of_In|by apply byteb_eq].
Qed.

Lemma response_lines_ok r : framed r → lines_ok (response_lines r).
Proof.
  intros (Hs & Hr & Hh & Hb). repeat apply Forall_cons_2; [| | |].
  - split; [|done]. repeat apply no_cr_app; try done; by apply no_cr_dec || by apply no_cr_lit.
  - split; [|done]. apply no_cr_app; [by apply no_cr_lit|by apply no_cr_dec].
  - split; [by apply no_cr_lit|done].
  - apply Forall_fmap. eapply Forall_impl; [exact Hh|]. intros h [H1 H2]. split.
    + repeat apply no_cr_app; try done. by apply no_cr_lit.
    + by destruct (h.1).
Qed.

Section Answers.
Context {Root : Type} (VERSION : bytes) (to_vec : json → result bytes).
Abbreviation GatewayManager := (Service (Root := Root)).
Abbreviation answers := (answer (Root := Root) VERSION to_vec).

(** The traffic figures come from [Subscription.parse]. *)
Definition subscription_ok (s : GatewayManager) : Prop :=
  ∀ i, subscription s = Some i → Subscription.user_info_ok i.1.
(** The service a refresh leaves. *)
Definition outcome_state (o : RefreshOutcome GatewayManager) (s : GatewayManager) : GatewayManager :=
  match o with Late s' | Dropped s' | Answered _ s' => s' | _ => s end.
Definition environment_ok (env : Environment (Root := Root)) (s : GatewayManager) : Prop :=
  subscription_ok s ∧ subscription_ok (outcome_state (refresh env) s).

Lemma subscription_no_cr now s v : subscription_ok s → subscription_header now s = Some v → no_cr v.
Proof.
  unfold subscription_header. destruct (subscription s) as [i|] eqn:E; [|done]. intros Hs Hv. specialize (Hs i E).
  apply Subscription.header_printable in Hv; [|done]. intros Hin. rewrite forallb_forall in Hv.
  by specialize (Hv x0d ltac:(by apply list_elem_of_In)).
Qed.

(** The codes, and who gets no body. *)
Definition answer_ok (r : Response) : Prop :=
  (u64 (Z.of_nat (length (body r))) → framed r) ∧ status_code r ∈ [200; 204; 400; 403; 404; 405; 503].

Ltac constant_answer :=
  split; [intros ?; split_and!; [done|by apply no_cr_lit| |done];
          repeat (apply Forall_cons; split; [split; by apply no_cr_lit|]); apply Forall_nil_2
         |cbn [status_code]; set_solver].

Lemma bad_request_ok method : answer_ok (bad_request method).
Proof. constant_answer. Qed.
Lemma method_not_allowed_ok method : answer_ok (method_not_allowed method).
Proof. constant_answer. Qed.
Lemma raw_forbidden_ok method : answer_ok (raw_forbidden method).
Proof. constant_answer. Qed.
Lemma refresh_failed_ok method : answer_ok (refresh_failed method).
Proof. constant_answer. Qed.
Lemma unavailable_ok raw method : answer_ok (unavailable raw method).
Proof. destruct raw; constant_answer. Qed.
Lemma not_found_ok method : answer_ok (not_found method).
Proof. constant_answer. Qed.
Lemma serve_health_ok method : answer_ok (serve_health method).
Proof. unfold serve_health. destruct (negb _); [apply method_not_allowed_ok|constant_answer]. Qed.

Lemma document_ok r (H : u64 (Z.of_nat (length (body r))) → framed r) : status_code r = 200 → answer_ok r.
Proof. intros Hs. split; [done|]. rewrite Hs. set_solver. Qed.

Lemma serve_status_ok method env (s : GatewayManager) r s' :
  serve_status VERSION to_vec method env s = (Ok r, s') → answer_ok r.
Proof.
  unfold serve_status. destruct (negb _); [intros [= <- <-]; apply method_not_allowed_ok|].
  destruct (to_vec _) as [doc|e]; [|done]. intros [= <- <-]. apply document_ok; [|done]. intros Hb.
  split_and!; [done|by apply no_cr_lit| |done]. repeat (constructor; [split; by apply no_cr_lit|]). constructor.
Qed.

(** A refresh leaves the service as its outcome says. *)
Lemma refresh_provider_state o (s : GatewayManager) : (refresh_provider o s).2 = outcome_state o s.
Proof. by destruct o. Qed.

Lemma serve_refresh_inv method raw env (s : GatewayManager) refused s' :
  serve_refresh method raw env s = (refused, s') →
  (refused = Ok (Some (raw_forbidden method)) ∧ s' = s) ∨
  (refused = Ok (Some (refresh_failed method)) ∧ s' = outcome_state (refresh env) s) ∨
  (refused = Ok None ∧ ∃ s1, refresh env = Answered true s1 ∧ s' = s1).
Proof.
  unfold serve_refresh. destruct (raw && _); [intros [= <- <-]; by left|].
  pose proof (refresh_provider_state (refresh env) s) as Hst.
  destruct (refresh_provider (refresh env) s) as [[u|e] s1] eqn:E; intros [= <- <-]; simpl in Hst.
  - right; right. split; [done|]. unfold refresh_provider in E. destruct (refresh env) as [| | | | |[] s2]; try done.
    injection E as _ <-. eauto.
  - right; left. by rewrite Hst.
Qed.

(** The document comes from the service as it is; only the cache of addresses
    may change. *)
Lemma document_state clash raw include_all socks env (s : GatewayManager) d s' :
  document clash raw include_all socks env s = (d, s') →
  ∃ g, s' = set_last_good g s ∧ subscription s' = subscription s ∧ manager s' = manager s.
Proof.
  assert (s = set_last_good (last_good s) s) as Hid by by destruct s.
  unfold document, raw_provider. destruct clash; [intros [= _ <-]; by exists (last_good s)|].
  destruct raw; [|intros [= _ <-]; by exists (last_good s)].
  destruct (current s) as [r|e]; [|intros [= _ <-]; by exists (last_good s)].
  destruct (negb _); [intros [= _ <-]; by exists (last_good s)|].
  destruct (RawProvider.render _ _ _) as [d' g]. intros [= _ <-]. by exists g.
Qed.

Lemma serve_provider_ok method path query env (s : GatewayManager) r s' :
  environment_ok env s → serve_provider method path query env s = (Ok r, s') → answer_ok r.
Proof.
  intros [Hs Ho]. unfold serve_provider. destruct (negb _); [intros [= <- <-]; apply method_not_allowed_ok|].
  set (raw := bytes_eqb path PROVIDER_PATH && _). clearbody raw.
  destruct (if query_flag query "refresh" then _ else _) as [refused s1] eqn:E.
  assert (subscription_ok s1 ∧ (refused = Ok None ∨ ∃ x, refused = Ok (Some x) ∧ answer_ok x)) as [Hs1 Hor].
  { destruct (query_flag query "refresh"); [|injection E as <- <-; auto].
    apply serve_refresh_inv in E as [[-> ->]|[[-> ->]|(-> & s2 & He & ->)]].
    - split; [done|]. right. eexists; split; [done|]. apply raw_forbidden_ok.
    - split; [done|]. right. eexists; split; [done|]. apply refresh_failed_ok.
    - rewrite He in Ho. auto. }
  destruct Hor as [->|(x & -> & Hx)]; [|by intros [= <- <-]].
  destruct (document _ _ _ _ _ s1) as [d s2] eqn:Ed.
  pose proof (document_state _ _ _ _ _ _ _ _ Ed) as (g & Hg & Hsub & _).
  destruct d as [[d|]|e]; [|intros [= <- <-]; apply raw_forbidden_ok|intros [= <- <-]; apply unavailable_ok].
  intros [= <- <-]. apply document_ok; [|done]. intros Hb. split_and!; [done|by apply no_cr_lit| |done].
  cbn [headers]. do 3 (constructor; [split; [by apply no_cr_lit|by repeat case_match; apply no_cr_lit]|]).
  destruct (bytes_eqb path CLASH_PROVIDER_PATH); [|constructor].
  destruct (subscription_header (now env) s2) as [v|] eqn:Ev; [|constructor].
  constructor; [|constructor]. split; [by apply no_cr_lit|]. eapply subscription_no_cr; [|exact Ev].
  unfold subscription_ok. by rewrite Hsub.
Qed.

Lemma answer_is_ok request env (s : GatewayManager) r s' :
  environment_ok env s → answers request env s = (Ok r, s') → answer_ok r.
Proof.
  intros He. unfold answer. destruct (split_target _) as [path query].
  destruct (nth_error _ 2); [|intros [= <- <-]; apply bad_request_ok].
  repeat case_match; [apply serve_status_ok|intros [= <- <-]; apply serve_health_ok
    |by apply serve_provider_ok|intros [= <- <-]; apply not_found_ok].
Qed.

Lemma answer_total request env (s : GatewayManager) :
  (∀ j, is_ok (to_vec j) = true) → ∃ r s', answers request env s = (Ok r, s').
Proof.
  intros Hvec. unfold answer. destruct (split_target _) as [path query].
  destruct (nth_error _ 2); [|by eexists _, _].
  repeat case_match; [|by eexists _, _| |by eexists _, _].
  - unfold serve_status. destruct (negb _); [by eexists _, _|]. specialize (Hvec (status VERSION (now env) s)).
    destruct (to_vec _) as [doc|e]; [by eexists _, _|done].
  - unfold serve_provider. destruct (negb _); [by eexists _, _|].
    destruct (if query_flag query "refresh" then _ else _) as [refused s1] eqn:E.
    assert (∃ o, refused = Ok o) as [[x|] ->]; [|by eexists _, _|].
    { destruct (query_flag query "refresh"); [|injection E as <- _; eauto].
      apply serve_refresh_inv in E as [[-> _]|[[-> _]|(-> & _)]]; eauto. }
    destruct (document _ _ _ _ _ s1) as [[[d|]|e] s2]; by eexists _, _.
Qed.

(** C29: Every request whose head is complete is answered, whatever it asks and
    whatever the refresh and the resolver come to: exactly one response is
    written and the connection is closed. Its code is one of seven, its head
    splits at the line ends into the status line, the length of the body and the
    headers, and it ends where the head was meant to end, so no header (not even
    the traffic figures a remote server sent) can add a line or start the body. *)
Theorem requests_answered reads request env (s : GatewayManager) sent :
  (∀ j, is_ok (to_vec j) = true) → environment_ok env s →
  (read_headers reads []).1 = Ok request →
  ∃ r s', answers request env s = (Ok r, s') ∧
    serve_http VERSION to_vec reads env (MkGated [] sent false, s)
    = (Ok tt, (MkGated [] (sent ++ response_head r ++ (if head_only r then [] else body r)) true, s')) ∧
    status_code r ∈ [200; 204; 400; 403; 404; 405; 503] ∧
    (u64 (Z.of_nat (length (body r))) →
       split_crlf (response_head r) = response_lines r ++ [[]; []] ∧
       ∀ rest, find_sub crlfcrlf (response_head r ++ rest) = Some (length (response_head r) - 4)%nat).
Proof.
  intros Hvec He Hread. destruct (answer_total request env s Hvec) as (r & s' & Hr). exists r, s'.
  destruct (answer_is_ok _ _ _ _ _ He Hr) as [Hframed Hcode]. split_and!; [done| |done|].
  - unfold serve_http. rewrite Hread. unfold mbind, M_bind, lift, zoom at 1. cbn [snd fst].
    rewrite Hr. unfold zoom, write_response, mbind, M_bind. cbn [fst snd].
    unfold write_all, shutdown. simpl.
    destruct (head_only r); simpl; rewrite ?app_nil_r; by rewrite <-?app_assoc.
  - intros Hb. specialize (Hframed Hb). apply response_lines_ok in Hframed. rewrite response_head_lines.
    split; [by apply split_lines_head|]. intros rest. by apply find_lines_end.
Qed.

(** The document of a router. *)
Definition router_document (clash raw include_all socks : bool) (env : Environment (Root := Root))
    (g : RawProvider.LastGood) (r : Gateway.Router) : bytes :=
  if clash then Gateway.clash_provider r include_all socks
  else if raw then
    (RawProvider.render (if include_all then Gateway.raw_all r else Gateway.raw_filtered r) (lookups env) g).1
  else Gateway.provider r include_all socks.

Lemma document_served clash raw include_all socks env (s : GatewayManager) d s' :
  document clash raw include_all socks env s = (Ok (Some d), s') →
  ∃ router, Gateway.router (manager s) = Some router ∧
    d = router_document clash raw include_all socks env (last_good s) router ∧
    (clash = false → raw = true →
       Gateway.raw_peer_allowed (peer env) (Gateway.allow_remote_raw_provider router) = true).
Proof.
  unfold document, raw_provider, clash_provider, provider, current, router_document.
  destruct clash; [|destruct raw]; cbv beta; destruct (Gateway.router (manager s)) as [router|]; try done; simpl.
  - intros [= <- _]. by exists router.
  - destruct (Gateway.raw_peer_allowed _ _) eqn:Ha; [|done]. cbn [negb].
    destruct (RawProvider.render _ _ _) as [doc g] eqn:E. intros [= <- _]. exists router. by rewrite E.
  - intros [= <- _]. by exists router.
Qed.

Lemma document_refused include_all socks env (s : GatewayManager) router :
  Gateway.router (manager s) = Some router →
  Gateway.raw_peer_allowed (peer env) (Gateway.allow_remote_raw_provider router) = false →
  document false true include_all socks env s = (Ok None, s) ∧ raw_provider_allowed (peer env) s = Ok false.
Proof.
  intros Hr Ha. unfold document, raw_provider, raw_provider_allowed, current. rewrite Hr.
  simpl. by rewrite Ha.
Qed.

(** C19: A provider document is only served from the catalog in place, and after
    a requested refresh only from the one a successful refresh left: a failed,
    late or refused refresh never yields a document. A raw document, which holds
    the nodes' credentials, goes only to a peer the router in place when it is
    rendered allows; a peer the router refuses at the start gets 403 before
    anything is refreshed, whatever the refresh would have come to. *)
Theorem provider_documents_exact method path query env (s : GatewayManager) r s' :
  let flag := query_flag query in
  let raw := bytes_eqb path PROVIDER_PATH && flag "raw"%string in
  let allowed router := Gateway.raw_peer_allowed (peer env) (Gateway.allow_remote_raw_provider router) in
  is_get method = true → serve_provider method path query env s = (Ok r, s') →
  (∀ router, raw = true → Gateway.router (manager s) = Some router → allowed router = false →
     r = raw_forbidden method ∧ s' = s) ∧
  (status_code r = 200 →
     ∃ s1 router,
       (if flag "refresh"%string then refresh env = Answered true s1 else s1 = s) ∧
       Gateway.router (manager s1) = Some router ∧
       (bytes_eqb path CLASH_PROVIDER_PATH = false → raw = true → allowed router = true) ∧
       body r = router_document (bytes_eqb path CLASH_PROVIDER_PATH) raw (flag "all"%string)
                  (negb (flag "http"%string)) env (last_good s1) router).
Proof.
  cbv zeta. intros Hget. unfold serve_provider. rewrite Hget. cbn [negb].
  set (clash := bytes_eqb path CLASH_PROVIDER_PATH). set (raw := bytes_eqb path PROVIDER_PATH && _).
  assert (raw = true → clash = false) as Hexcl.
  { unfold raw, clash. intros [->%bool_decide_eq_true _]%andb_true_iff. reflexivity. }
  clearbody raw clash.
  destruct (if query_flag query "refresh" then _ else _) as [refused s1] eqn:E. intros Hrun. split.
  - intros router -> Hr Ha. rewrite (Hexcl eq_refl) in Hrun.
    destruct (document_refused (query_flag query "all") (negb (query_flag query "http")) env s router Hr Ha)
      as [Hd Hn].
    destruct (query_flag query "refresh").
    + unfold serve_refresh in E. rewrite Hn in E. injection E as <- <-. by injection Hrun as <- <-.
    + injection E as <- <-. rewrite Hd in Hrun. by injection Hrun as <- <-.
  - intros Hcode.
    assert (refused = Ok None ∧ if query_flag query "refresh" then refresh env = Answered true s1 else s1 = s)
      as [-> Hs1].
    { destruct (query_flag query "refresh"); [|by injection E as <- <-].
      apply serve_refresh_inv in E as [[-> ->]|[[-> ->]|(-> & s2 & He & ->)]]; [| |by split];
        injection Hrun as <- <-; discriminate Hcode. }
    destruct (document _ _ _ _ _ s1) as [[[d|]|e] s2] eqn:Ed;
      [|injection Hrun as <- <-; discriminate Hcode..].
    apply document_served in Ed as (router & Hr & -> & Ha). injection Hrun as <- _.
    exists s1, router. split_and!; try done.
Qed.
End Answers.

(** ** Concrete requests *)

Definition demo_router : Gateway.Router :=
  Gateway.MkRouter ∅ ∅ (Gateway.MkDocs (lit "a") (lit "b") (lit "c") (lit "d")) (Gateway.MkDocs [] [] [] []) [] 0%nat
    (RawProvider.MkRawNodes [] 0%nat) (RawProvider.MkRawNodes [] 0%nat) false.
Definition demo_service : Service (Root := unit) :=
  MkService (Gateway.MkManager (Some demo_router) 0%nat []) no_catalog None (λ _, new_node)
    (Some (Subscription.MkUserInfo 1 2 300 None, Some 1000)) ∅.
Definition demo_env (peer : IpAddr) : Environment (Root := unit) := MkEnv 1001 peer (Answered true demo_service) [].
Definition demo_request : bytes := lit "GET /clash-proxies.yaml?http=1 HTTP/1.1" ++ crlfcrlf.
Definition demo_to_vec (_ : json) : result bytes := Ok [].

Lemma demo_environment_ok peer : environment_ok (demo_env peer) demo_service.
Proof.
  assert (subscription_ok demo_service) as H; [|by split].
  intros i [= <-]. unfold Subscription.user_info_ok, u64, U64_MAX. simpl. repeat split; try lia; done.
Qed.

Example query_flags :
  query_flag (lit "all=1&http=0") "all" = true ∧ query_flag (lit "all=1&all=0") "all" = false ∧
  query_flag (lit "all") "all" = false ∧ query_flag (lit "all=true") "all" = false.
Proof. by vm_compute. Qed.

Example raw_remote :
  (answer [] demo_to_vec (lit "GET /surge-proxies.conf?raw=1&refresh=1 HTTP/1.1" ++ crlfcrlf)
     (demo_env (V4 "192" "0" "2" "1")) demo_service).1 = Ok (raw_forbidden (lit "GET")).
Proof. by vm_compute. Qed.

Lemma requests_answered_witness :
  (read_headers [Ok demo_request] []).1 = Ok demo_request ∧
  ∃ r s', answer [] demo_to_vec demo_request (demo_env (V4 x7f x00 x00 x01)) demo_service = (Ok r, s').
Proof.
  split; [by vm_compute|].
  destruct (requests_answered [] demo_to_vec [Ok demo_request] demo_request (demo_env (V4 x7f x00 x00 x01)) demo_service [])
    as (r & s' & Hr & _); [done|apply demo_environment_ok|by vm_compute|]. by exists r, s'.
Defined.

Lemma provider_documents_exact_witness :
  ∃ r s', serve_provider (lit "GET") PROVIDER_PATH (lit "raw=1&refresh=1") (demo_env (V4 xc0 x00 x02 x01)) demo_service
            = (Ok r, s') ∧ r = raw_forbidden (lit "GET").
Proof.
  eexists _, _. split; [by vm_compute|].
  refine (proj1 (proj1 (provider_documents_exact (lit "GET") PROVIDER_PATH (lit "raw=1&refresh=1")
    (demo_env (V4 xc0 x00 x02 x01)) demo_service _ _ _ _) demo_router _ _ _)); by vm_compute.
Defined.
