(* ===== verification/Api.v ===== *)
(** * Api: the managed API client ([src/api.rs])

    Making a client, asking the primary URL and its fallbacks within one
    deadline, and what is accepted of an answer. Errors are the chain of their
    causes, as [Diagnostics.classify] looks at them. Durations are nanoseconds.
    The URL, HTTP, JSON, base64, hex, HMAC and age crates are parameters. *)
From S2P Require Import Prelude Bytes Order Text Ip Diagnostics.
From S2P Require Network Config Subscription.
Import Config.
Local Open Scope Z_scope.

Definition MANAGED_NODES_PATH : bytes := lit "/api/v1/managed/anywhere/direct".
Definition INFORMATION_PATH : bytes := lit "/api/v1/information".
Definition TOKEN_REBIND_PATH : bytes := lit "/api/v1/token/rebind".
Definition MAX_RESPONSE_BYTES : Z := 8 * 2 ^ 20.

(** ** Errors *)

Inductive outcome (A : Type) : Type := Done (a : A) | Failed (chain : list cause).
Arguments Done {A} a.
Arguments Failed {A} chain.

#[export] Instance outcome_ret : MRet outcome := λ A a, Done a.
#[export] Instance outcome_bind : MBind outcome := λ A B f o,
  match o with Done a => f a | Failed chain => Failed chain end.

#[export] Instance outcome_fmap : FMap outcome := λ A B f o,
  match o with Done a => Done (f a) | Failed chain => Failed chain end.

Lemma outcome_bind_inv {A B} (o : outcome A) (f : A → outcome B) b :
  o ≫= f = Done b → ∃ a, o = Done a ∧ f a = Done b.
Proof. destruct o; simpl; intros; [eauto|done]. Qed.

(** [bail!] and [anyhow!] *)
Definition plain {A} : outcome A := Failed [Unknown].
(** [.context(..)] *)
Definition in_context {A} (o : outcome A) : outcome A :=
  match o with Done a => Done a | Failed chain => Failed (Unknown :: chain) end.
Definition api_failure {A} (kind : ErrorKind) (status : option Z) : outcome A :=
  Failed [Diagnostics.Api (MkApiFailure kind status None)].

(** [u16::try_from] *)
Definition to_u16 (z : Z) : option Z := if (0 <=? z) && (z <=? U16_MAX) then Some z else None.
(** What an answer's [ret] other than 200 is reported as. *)
Definition ret_failure {A} (ret : Z) : outcome A :=
  api_failure (http_error_kind (default 0 (to_u16 ret))) (to_u16 ret).

Definition retryable (chain : list cause) : bool :=
  match classify chain with Timeout | Diagnostics.Network | Server => true | _ => false end.

(** *** Failures that another URL may repair *)

(** A cause that decides what kind of failure it is: an answer of the API, or a
    certificate or key that TLS refused. *)
Definition decisive (c : cause) : Prop :=
  match c with
  | Diagnostics.Api _ => True
  | Tls e | Io _ (Some e) => e ≠ OtherTls
  | _ => False
  end.
(** A timeout or a failure of the connection. *)
Definition of_transport (c : cause) : Prop :=
  match c with
  | Reqwest is_timeout is_connect is_body => is_timeout = true ∨ is_connect = true ∨ is_body = true
  | Io kind _ => kind ≠ OtherIo
  | _ => False
  end.
(** The failure of a transport, or an API failure of one of three kinds, and no
    cause outside of it that decides otherwise. *)
Definition transient (chain : list cause) : Prop :=
  (∃ pre f post, chain = pre ++ Diagnostics.Api f :: post ∧ Forall (λ c, ¬ decisive c) pre ∧
     (a_kind f = Timeout ∨ a_kind f = Diagnostics.Network ∨ a_kind f = Server)) ∨
  (Forall (λ c, ¬ decisive c) chain ∧ Exists of_transport chain).

Lemma decisive_kind c : specific_kind c = None ↔ ¬ decisive c.
Proof.
  destruct c as [f|[]| |k [[]|]|]; simpl; split; intros Hc; try done; try (by exfalso; apply Hc); by intros Hn; apply Hn.
Qed.

Lemma transport_kind_iff c : of_transport c ↔ ∃ k, transport_kind c = Some k ∧ (k = Timeout ∨ k = Diagnostics.Network).
Proof.
  destruct c as [f|e|t o b|k e|]; simpl; [naive_solver..| | |naive_solver].
  - destruct t, o, b; simpl; naive_solver.
  - destruct k; simpl; naive_solver.
Qed.

Lemma no_decisive chain : omap specific_kind chain = [] ↔ Forall (λ c, ¬ decisive c) chain.
Proof.
  induction chain as [|c chain IH]; [done|]. rewrite Forall_cons, <-IH, <-decisive_kind. cbn [omap list_omap].
  destruct (specific_kind c); naive_solver.
Qed.

Lemma some_transport chain : Exists of_transport chain ↔
  ∃ k, head (omap transport_kind chain) = Some k ∧ (k = Timeout ∨ k = Diagnostics.Network).
Proof.
  induction chain as [|c chain IH]; [split; [by intros ?%Exists_nil|by intros (? & ? & _)]|].
  rewrite Exists_cons, IH, transport_kind_iff. cbn [omap list_omap].
  destruct (transport_kind c) as [k|] eqn:E; [|naive_solver]. simpl. split; [|naive_solver].
  intros [H|_]; [exact H|]. exists k. split; [done|].
  destruct c as [f|e|t o b|q e|]; try done; simpl in E.
  - destruct t, o, b; simpl in E; naive_solver.
  - destruct q; naive_solver.
Qed.

Lemma first_decisive chain : Forall (λ c, ¬ decisive c) chain ∨
  ∃ pre c post k, chain = pre ++ c :: post ∧ Forall (λ c, ¬ decisive c) pre ∧ specific_kind c = Some k ∧ classify chain = k.
Proof.
  induction chain as [|c chain [IH|(pre & d & post & k & -> & Hpre & Hd & Hk)]]; [by left|..];
    (destruct (specific_kind c) as [k'|] eqn:E;
      [right; exists [], c; eexists _, k'; split_and!; try done; by apply (classify_specific [])|]).
  - left. constructor; [by apply decisive_kind|done].
  - right. exists (c :: pre), d, post, k. split_and!; [done| |done|].
    + constructor; [by apply decisive_kind|done].
    + apply (classify_specific (c :: pre)); [|done]. constructor; [done|].
      eapply Forall_impl; [exact Hpre|]. intros x. apply decisive_kind.
Qed.

(** The loop goes on exactly after these. *)
Lemma retryable_transient chain : retryable chain = true ↔ transient chain.
Proof.
  assert (∀ k, match k with Timeout | Diagnostics.Network | Server => true | _ => false end = true ↔
    (k = Timeout ∨ k = Diagnostics.Network ∨ k = Server)) as Hkind by (intros []; naive_solver).
  unfold retryable, transient. destruct (first_decisive chain) as [Hnone|(pre & c & post & k & -> & Hpre & Hc & Hk)].
  - rewrite Hkind. unfold classify. rewrite (proj2 (no_decisive chain) Hnone). cbn [head]. rewrite some_transport.
    destruct (head (omap transport_kind chain)) as [k|] eqn:E; simpl; split.
    + intros [->|[->| ->]]; [right; naive_solver..|exfalso].
      apply head_Some in E as [l Hl].
      assert (Server ∈ omap transport_kind chain) as Hin by (rewrite Hl; by left).
      apply list_elem_of_omap in Hin as (x & _ & Hx). destruct x as [| |[] [] []|[] ?|]; done.
    + intros [(pre & f & post & -> & _ & _)|[_ (k' & [= ->] & Hk)]]; [|naive_solver].
      apply Forall_app in Hnone as [_ Hn]. apply Forall_cons in Hn as [Hn _]. by exfalso; apply Hn.
    + intros [?|[?|?]]; done.
    + intros [(pre & f & post & -> & _ & _)|[_ (k' & ? & _)]]; [|done].
      apply Forall_app in Hnone as [_ Hn]. apply Forall_cons in Hn as [Hn _]. by exfalso; apply Hn.
  - rewrite Hk, Hkind. split.
    + intros Hkk. left. exists pre. destruct c as [f|[]| |? [[]|]|]; try discriminate Hc; injection Hc as <-;
        try (by destruct Hkk as [?|[?|?]]). by exists f, post.
    + intros [(pre' & f & post' & Heq & Hpre' & Hf)|[Hall _]].
      * pose proof (classify_specific pre' (Diagnostics.Api f) post' (a_kind f)) as Hcl. rewrite <-Heq, Hk in Hcl.
        rewrite Hcl; [done| |done]. eapply Forall_impl; [exact Hpre'|]. intros x. apply decisive_kind.
      * apply Forall_app in Hall as [_ Hn]. apply Forall_cons in Hn as [Hn _]. apply decisive_kind in Hn. congruence.
Qed.

(** What an attempt meets: the clock when the loop reaches it, and what the
    operation comes to, [None] when it does not end within its budget. *)
Record Attempt (T : Type) : Type := MkAttempt { a_now : Z; a_reply : option (outcome T) }.
Arguments MkAttempt {T} a_now a_reply.
Arguments a_now {T} a.
Arguments a_reply {T} a.

Definition reply {T} (a : Attempt T) : outcome T :=
  match a_reply a with Some o => o | None => api_failure Timeout None end.

(** ** Clients *)

Section Client.
Context `{UrlCrate}.
(** [set_path], [set_query(None)] and [set_fragment(None)] *)
Context (set_path : bytes → Url → Url).

Record Client : Type := MkClient {
  base_url : Url; fallback_urls : list Url; access_token : bytes; app_secret : bytes;
  local_address : option IpAddr; timeout : Z;
}.

(** [ClientBuilder::build] succeeds. *)
Definition client_new (base : Url) (token secret : bytes) (timeout : Z) (network : option Network.NetworkSnapshot) :
    result Client :=
  Config.validate_api_url base;;
  let token := trim token in
  let secret := trim secret in
  if bool_decide (token = []) then Err (Bail "access token is required")
  else if bool_decide (secret = []) then Err (Bail "app secret is required")
  else if (timeout =? 0) || (120 * 10 ^ 9 <? timeout) then Err (Bail "timeout must be between 1ns and 2m")
  else
    source ← match network with
             | Some n => map_err (Context "select API outbound address") (Network.preferred_source n)
             | None => Ok None
             end;
    Ok (MkClient base [] token secret source timeout).

(** The loop of [with_fallback_urls] over the URLs after those seen. *)
Fixpoint check_fallbacks (base : Url) (seen urls : list Url) : result unit :=
  match urls with
  | [] => Ok tt
  | url :: urls =>
      Config.validate_api_url url;;
      if bool_decide (url = base) || bool_decide (url ∈ seen) then Err (Bail "API URLs must be distinct")
      else check_fallbacks base (seen ++ [url]) urls
  end.

Definition with_fallback_urls (urls : list Url) (c : Client) : result Client :=
  if (3 <? length urls)%nat then Err (Bail "configure at most three API fallback URLs")
  else
    check_fallbacks (base_url c) [] urls;;
    Ok (MkClient (base_url c) urls (access_token c) (app_secret c) (local_address c) (timeout c)).

(** ** Fallback *)

(** The loop over the URLs from [index] on: the result ([None] only when there is
    no URL) and the attempts made, each an endpoint and a budget. *)
Fixpoint fallback_loop {T} (deadline : Z) (path : bytes) (urls : list Url) (index : nat) (env : nat → Attempt T) :
    option (outcome T) * list (Url * Z) :=
  match urls with
  | [] => (None, [])
  | base :: urls =>
      let remaining := Z.max 0 (deadline - a_now (env index)) in
      if remaining =? 0 then (Some (api_failure Timeout None), [])
      else
        let budget := remaining / Z.of_nat (length (base :: urls)) in
        let asked := (set_path path base, budget) in
        match reply (env index) with
        | Done value => (Some (Done value), [asked])
        | Failed chain =>
            if negb (bool_decide (urls = [])) && retryable chain then
              let '(r, rest) := fallback_loop deadline path urls (S index) env in (r, asked :: rest)
            else (Some (Failed chain), [asked])
        end
  end.

(** [with_fallback], called at [start]. *)
Definition with_fallback {T} (c : Client) (path : bytes) (start : Z) (env : nat → Attempt T) :
    option (outcome T) * list (Url * Z) :=
  fallback_loop (start + timeout c) path (base_url c :: fallback_urls c) 0 env.

(** ** Answers *)

(** [reqwest::Response]: its body in the chunks it comes in. *)
Record HttpResponse : Type := MkHttp {
  status : Z; retry_after : option bytes; response_signature : option bytes; chunks : list (outcome bytes);
}.

Definition is_success (status : Z) : bool := (200 <=? status) && (status <? 300).
(** [HeaderValue::to_str]: visible ASCII and tabs *)
Definition to_str (v : bytes) : option bytes :=
  if forallb (λ b, ((32 <=? b2z b) && (b2z b <? 127)) || byteb b x09) v then Some v else None.

Definition retry_after_seconds (r : HttpResponse) : option Z :=
  v ← retry_after r; v ← to_str v; parse_uint U64_MAX v.

Definition ensure_success (status : Z) (retry_after : option Z) : outcome unit :=
  if negb (is_success status)
  then Failed [Diagnostics.Api (MkApiFailure (http_error_kind status) (Some status) retry_after)]
  else Done tt.

Fixpoint read_limited_response (body : bytes) (chunks : list (outcome bytes)) : outcome bytes :=
  match chunks with
  | [] => Done body
  | chunk :: chunks =>
      chunk ← in_context chunk;
      if MAX_RESPONSE_BYTES <? Z.of_nat (length body + length chunk) then plain
      else read_limited_response (body ++ chunk) chunks
  end.

(** What serde reads: [None] for JSON that is not the structure. *)
Record ManagedEnvelope : Type := MkEnvelope { ret : Z; config : bytes; userinfo : option bytes }.

Section Answers.
Context (hmac_sha256 : bytes → bytes → bytes) (hex_encode : bytes → bytes) (hex_decode : bytes → option bytes).
Context (base64_decode : bytes → option bytes).
Context (decode_envelope : bytes → option ManagedEnvelope).
(** [Decryptor::new] and [decrypt] with the identity: the chunks of plaintext *)
Context {Identity : Type} (age_open : bytes → Identity → option (result bytes)).

Definition hmac_hex (key message : bytes) : bytes := hex_encode (hmac_sha256 key message).
Definition request_signature (secret timestamp recipient : bytes) : bytes :=
  hmac_hex secret (timestamp ++ lit "." ++ recipient).

Definition verify_response_signature (secret timestamp body provided_hex : bytes) : bool :=
  match hex_decode provided_hex with
  | None => false
  | Some provided => bytes_eqb (hmac_sha256 secret (timestamp ++ lit "." ++ body)) provided
  end.

(** At most one byte more than the limit is read. *)
Definition decrypt_age (ciphertext : bytes) (identity : Identity) : outcome bytes :=
  match age_open ciphertext identity with
  | None => plain
  | Some (Err _) => in_context plain
  | Some (Ok plaintext) => if MAX_RESPONSE_BYTES <? Z.of_nat (length plaintext) then plain else Done plaintext
  end.

Record ManagedResponse : Type := MkManagedResponse {
  m_config : bytes; m_userinfo : option Subscription.UserInfo;
}.

(** [get_managed_config], from what [send] gives. *)
Definition get_managed_config (c : Client) (timestamp : bytes) (identity : Identity) (sent : outcome HttpResponse) :
    outcome ManagedResponse :=
  response ← in_context sent;
  ensure_success (status response) (retry_after_seconds response);;
  let signature := trim (default [] (response_signature response ≫= to_str)) in
  body ← read_limited_response [] (chunks response);
  match decode_envelope body with
  | None => api_failure InvalidResponse None
  | Some envelope =>
      if negb (ret envelope =? 200) then ret_failure (ret envelope)
      else if bool_decide (config envelope = []) then plain
      else if bool_decide (signature = []) then api_failure Signature None
      else if negb (verify_response_signature (app_secret c) timestamp (config envelope) signature)
      then api_failure Signature None
      else
        match base64_decode (config envelope) with
        | None => plain
        | Some armored =>
            if MAX_RESPONSE_BYTES <? Z.of_nat (length armored) then plain
            else
              config ← decrypt_age armored identity;
              Done (MkManagedResponse config (userinfo envelope ≫= Subscription.parse))
        end
  end.

(** The attempts of [fetch_managed]: the clock and what [send] gives in time. *)
Definition fetch_managed (c : Client) (timestamp : bytes) (identity : Identity) (start : Z)
    (env : nat → Attempt HttpResponse) : option (outcome ManagedResponse) * list (Url * Z) :=
  with_fallback c MANAGED_NODES_PATH start
    (λ i, MkAttempt (a_now (env i)) (get_managed_config c timestamp identity <$> a_reply (env i))).

(** *** Rebinding a token *)

(** [Response] with its [data.token] *)
Context (decode_rebound : bytes → option (Z * option bytes)).

Definition is_ascii_graphic (b : byte) : bool := (33 <=? b2z b) && (b2z b <=? 126).

Definition parse_rebound_token (body : bytes) : outcome bytes :=
  match decode_rebound body with
  | None => api_failure InvalidResponse None
  | Some (ret, data) =>
      if negb (ret =? 200) then ret_failure ret
      else
        let token := trim (default [] data) in
        if bool_decide (token = []) || existsb (λ b, is_ascii_ws b || negb (is_ascii_graphic b)) token
        then api_failure InvalidResponse None
        else Done token
  end.

(** One attempt at the primary URL: [sent] is [None] when the time is over. *)
Definition rebind_token (sent : option (outcome HttpResponse)) : outcome bytes :=
  match sent with
  | None => api_failure Timeout None
  | Some sent =>
      response ← in_context sent;
      ensure_success (status response) (retry_after_seconds response);;
      body ← read_limited_response [] (chunks response);
      parse_rebound_token body
  end.

Context (decode_json : bytes → option unit).

Definition information_at (sent : outcome HttpResponse) : outcome bytes :=
  response ← in_context sent;
  ensure_success (status response) (retry_after_seconds response);;
  body ← read_limited_response [] (chunks response);
  match decode_json body with Some _ => Done body | None => api_failure InvalidResponse None end.

Definition information (c : Client) (start : Z) (env : nat → Attempt HttpResponse) :
    option (outcome bytes) * list (Url * Z) :=
  with_fallback c INFORMATION_PATH start
    (λ i, MkAttempt (a_now (env i)) (information_at <$> a_reply (env i))).
End Answers.
End Client.

(** ** What the error for an empty answer says of it

    A parsed value; a number and a string keep their text. *)
Inductive json_value : Type :=
  | JsonNull
  | JsonBool (b : bool)
  | JsonNumber (text : bytes)
  | JsonString (text : bytes)
  | JsonArray (elements : list json_value)
  | JsonObject (fields : list (bytes * json_value)).

Definition value_kind (value : json_value) : bytes :=
  match value with
  | JsonNull => lit "null"
  | JsonBool _ => lit "boolean"
  | JsonNumber _ => lit "number"
  | JsonString _ => lit "string"
  | JsonArray _ => lit "array"
  | JsonObject _ => lit "object"
  end.

Definition describe_json_fields (from_slice : bytes → option (list (bytes * json_value))) (body : bytes) : bytes :=
  match from_slice body with
  | None => lit "unavailable"
  | Some fields => join (lit ", ") (sort_bytes ((λ '(key, value), key ++ lit "=" ++ value_kind value) <$> fields))
  end.

(** The error shows the names of the fields and the kinds of their values, never
    a value, and not the order in which the server sent them: two answers whose
    fields have the same names and kinds, in any order, are described alike. *)
Theorem described_fields_confidential from_slice body body' fields fields' :
  from_slice body = Some fields → from_slice body' = Some fields' →
  prod_map id value_kind <$> fields ≡ₚ prod_map id value_kind <$> fields' →
  describe_json_fields from_slice body = describe_json_fields from_slice body'.
Proof.
  intros Hb Hb' Hp. unfold describe_json_fields. rewrite Hb, Hb'. f_equal. apply sort_bytes_unique.
  assert (Hshow : ∀ l : list (bytes * json_value), (λ '(key, value), key ++ lit "=" ++ value_kind value) <$> l =
    (λ e : bytes * bytes, e.1 ++ lit "=" ++ e.2) <$> (prod_map id value_kind <$> l)).
  { intros l. rewrite <-list_fmap_compose. by apply list_fmap_ext; intros ? []. }
  by rewrite !Hshow, Hp.
Qed.

Lemma described_fields_confidential_witness :
  let from_slice b :=
    if bytes_eqb b (lit "a") then Some [(lit "msg", JsonString (lit "x")); (lit "ret", JsonNumber (lit "200"))]
    else Some [(lit "ret", JsonNumber (lit "500")); (lit "msg", JsonString (lit "secret"))] in
  describe_json_fields from_slice (lit "b") = lit "msg=string, ret=number" ∧
  describe_json_fields from_slice (lit "a") = describe_json_fields from_slice (lit "b").
Proof.
  intros from_slice. split; [by vm_compute|].
  apply (described_fields_confidential from_slice (lit "a") (lit "b")
    [(lit "msg", JsonString (lit "x")); (lit "ret", JsonNumber (lit "200"))]
    [(lit "ret", JsonNumber (lit "500")); (lit "msg", JsonString (lit "secret"))] eq_refl eq_refl).
  apply Permutation_swap.
Defined.

(** ** The attempts made *)

Section Fallback.
Context `{UrlCrate} (set_path : bytes → Url → Url) {T : Type} (path : bytes) (env : nat → Attempt T) (deadline : Z).

Definition remaining (i : nat) : Z := Z.max 0 (deadline - a_now (env i)).
(** The share of attempt [i] of [n]. *)
Definition budget (n i : nat) : Z := remaining i / Z.of_nat (n - i).
(** The first [k] attempts. *)
Definition asked (urls : list Url) (k : nat) : list (Url * Z) :=
  imap (λ i u, (set_path path u, budget (length urls) i)) (take k urls).
(** Attempt [i] failed in a way that another URL may repair. *)
Definition passed_over (i : nat) : Prop := ∃ chain, reply (env i) = Failed chain ∧ transient chain.

(** The attempt that decides: the first that cannot be reached in time, or that
    is not passed over, or the last. *)
Inductive decides (n k : nat) : bool → outcome T → Prop :=
  | decides_late : remaining k = 0 → decides n k false (api_failure Timeout None)
  | decides_reply : remaining k ≠ 0 → (passed_over k → S k = n) → decides n k true (reply (env k)).

Lemma fallback_loop_decides urls first n :
  urls ≠ [] → (first + length urls = n)%nat →
  ∃ k last r, (first <= k < n)%nat ∧ (∀ j, (first <= j < k)%nat → passed_over j ∧ remaining j ≠ 0) ∧
    decides n k last r ∧
    fallback_loop set_path deadline path urls first env =
      (Some r, imap (λ i u, (set_path path u, budget n (first + i)))
                 (take (k - first + if last then 1 else 0) urls)).
Proof.
  revert first; induction urls as [|u urls IH]; intros first Hne Hn; [done|]. clear Hne. cbn [fallback_loop].
  fold (remaining first). simpl in Hn.
  destruct (remaining first =? 0) eqn:E0; reflect_bools.
  { exists first, false, (api_failure Timeout None). rewrite Nat.sub_diag. split_and!; [lia|lia|lia|by constructor|done]. }
  replace (remaining first / Z.of_nat (length (u :: urls))) with (budget n first)
    by (unfold budget; f_equal; simpl; lia).
  assert (∀ r, reply (env first) = r → (passed_over first → S first = n) →
    ∃ k last r', (first <= k < n)%nat ∧ (∀ j, (first <= j < k)%nat → passed_over j ∧ remaining j ≠ 0) ∧
      decides n k last r' ∧ (Some r, [(set_path path u, budget n first)]) =
      (Some r', imap (λ i u, (set_path path u, budget n (first + i))) (take (k - first + if last then 1 else 0) (u :: urls))))
    as Hstop.
  { intros r Hr Hp. exists first, true, (reply (env first)). rewrite Nat.sub_diag. split_and!; [lia|lia|lia| |].
    - by constructor.
    - rewrite Hr. cbn. by rewrite Nat.add_0_r. }
  destruct (reply (env first)) as [v|chain] eqn:Er.
  { apply Hstop; [done|]. intros (c & Hc & _). congruence. }
  destruct (negb (bool_decide (urls = [])) && retryable chain) eqn:Eg.
  - apply andb_true_iff in Eg as [Hu Hr%retryable_transient]. apply negb_true_iff, bool_decide_eq_false in Hu.
    destruct (IH (S first) Hu ltac:(lia)) as (k & last & r & Hk & Hj & Hd & ->).
    exists k, last, r. split_and!; [lia|lia| |done|].
    + intros j Hjr. destruct (decide (j = first)) as [->|]; [split; [by exists chain|done]|apply Hj; lia].
    + f_equal. replace (k - first + (if last then 1 else 0))%nat with (S (k - S first + if last then 1 else 0)) by lia.
      cbn [take imap]. f_equal; [by rewrite Nat.add_0_r|]. apply imap_ext. intros i x _. cbn. do 2 f_equal. lia.
  - apply Hstop; [done|]. intros (c & Hc & Hr). assert (c = chain) as -> by congruence.
    apply retryable_transient in Hr. rewrite Hr, andb_true_r in Eg. apply negb_false_iff, bool_decide_eq_true in Eg as ->. simpl in Hn. lia.
Qed.
End Fallback.

Section Guarantees.
Context `{UrlCrate} (set_path : bytes → Url → Url).

(** The clock of a run: it starts at [start], and an attempt is over by the end
    of its budget ([tokio::time::timeout]). *)
Definition punctual {T} (start deadline : Z) (n : nat) (env : nat → Attempt T) : Prop :=
  a_now (env 0%nat) = start ∧
  ∀ i, (S i < n)%nat → a_now (env i) <= a_now (env (S i)) <= a_now (env i) + budget env deadline n i.

(** When attempt [i] begins, its share and those of the later ones are left. *)
Lemma punctual_left {T} start timeout n (env : nat → Attempt T) i :
  0 <= timeout → punctual start (start + timeout) n env → (i < n)%nat →
  timeout * Z.of_nat (n - i) <= Z.of_nat n * (start + timeout - a_now (env i)).
Proof.
  intros Ht [H0 Hnext]. induction i as [|i IH]; intros Hi.
  - rewrite H0, Nat.sub_0_r. lia.
  - specialize (IH ltac:(lia)). destruct (Hnext i ltac:(lia)) as [_ Hb]. unfold budget, remaining in Hb.
    set (r := start + timeout - a_now (env i)) in *.
    assert (0 <= r) by nia. rewrite (Z.max_r 0 r) in Hb by done.
    assert (Z.of_nat (n - i) * (r / Z.of_nat (n - i)) <= r) as Hdiv by (apply Z.mul_div_le; lia).
    set (b := r / Z.of_nat (n - i)) in *.
    assert (Z.of_nat (n - i) = Z.of_nat (n - S i) + 1) as Hm by lia. rewrite Hm in *.
    assert (r - b <= start + timeout - a_now (env (S i))) by (unfold r; lia).
    assert (timeout * Z.of_nat (n - S i) <= Z.of_nat n * (r - b)) by nia. nia.
Qed.

Definition client_urls (c : Client) : list Url := base_url c :: fallback_urls c.

(** The attempts of a run in terms of the deciding one. *)
Lemma with_fallback_decides {T} (c : Client) path start (env : nat → Attempt T) :
  let urls := client_urls c in let n := length urls in let deadline := start + timeout c in
  ∃ k last r, (k < n)%nat ∧ (∀ j, (j < k)%nat → passed_over env j ∧ remaining env deadline j ≠ 0) ∧
    decides env deadline n k last r ∧
    with_fallback set_path c path start env =
      (Some r, asked set_path path env deadline urls (k + if last then 1 else 0)).
Proof.
  cbv zeta. destruct (fallback_loop_decides set_path path env (start + timeout c) (client_urls c) 0 _
    ltac:(done) eq_refl) as (k & last & r & Hk & Hj & Hd & Hrun).
  exists k, last, r. split_and!; [lia|intros j ?; apply Hj; lia|done|].
  unfold with_fallback. fold (client_urls c). by rewrite Hrun, Nat.sub_0_r.
Qed.

(** The failures of an attempt, and whether they are passed over. *)
Lemma transient_failures :
  transient [Diagnostics.Api (MkApiFailure Timeout None None)] ∧
  (∀ status after, ensure_success status after =
     if (200 <=? status) && (status <? 300) then Done tt
     else Failed [Diagnostics.Api (MkApiFailure (http_error_kind status) (Some status) after)]) ∧
  (∀ status after, transient [Diagnostics.Api (MkApiFailure (http_error_kind status) (Some status) after)] ↔
     500 <= status <= 599) ∧
  ¬ transient [Diagnostics.Api (MkApiFailure Signature None None)] ∧
  ¬ transient [Diagnostics.Api (MkApiFailure InvalidResponse None None)] ∧
  ∀ pre e post, Forall (λ c, ¬ decisive c) pre → e ≠ OtherTls → ¬ transient (pre ++ Tls e :: post).
Proof.
  setoid_rewrite <-retryable_transient. split_and!; [done| | |done|done|].
  - intros status after. unfold ensure_success, is_success. by destruct (_ && _).
  - intros status after. unfold retryable, classify. cbn. unfold http_error_kind.
    repeat match goal with |- context [?x =? ?y] => destruct (Z.eqb_spec x y); [split; [done|lia]|] end.
    destruct (500 <=? status) eqn:E1, (status <=? 599) eqn:E2; simpl; reflect_bools; split; try done; lia.
  - intros pre e post Hpre He. unfold retryable.
    assert (∃ k, specific_kind (Tls e) = Some k ∧ (k = TlsUnknownIssuer ∨ k = TlsCertificate ∨ k = EchRejected))
      as (k & Hk & Hor) by (destruct e; naive_solver).
    rewrite (classify_specific pre (Tls e) post k); [by destruct Hor as [->|[->| ->]]| |done].
    eapply Forall_impl; [exact Hpre|]. intros x. apply decisive_kind.
Qed.

(** C20: The fallback over the API URLs always ends, after at most one attempt
    per URL, in their order. It goes on to the next URL exactly after a timeout,
    a failure of the transport or an API failure of the kind [Server] (of the
    answers with another status than success, exactly those with a 5xx); the
    first attempt that succeeds or fails otherwise decides: a refused token, a
    bad signature, an invalid answer, a certificate TLS refused. Each attempt
    gets an equal share of the time that is left. With a clock that keeps to the
    budgets and at least a nanosecond per URL, every attempt made has at least its
    share of the whole timeout, none lasts beyond the deadline, and the result is
    always that of an attempt, never a deadline found passed. *)
Theorem fallback_exact {T} (c : Client) path start (env : nat → Attempt T) :
  let urls := client_urls c in let n := length urls in let deadline := start + timeout c in
  (∃ k last r, (k < n)%nat ∧ (∀ j, (j < k)%nat → passed_over env j ∧ remaining env deadline j ≠ 0) ∧
     decides env deadline n k last r ∧
     with_fallback set_path c path start env =
       (Some r, asked set_path path env deadline urls (k + if last then 1 else 0))) ∧
  (transient [Diagnostics.Api (MkApiFailure Timeout None None)] ∧
   (∀ status after, ensure_success status after =
      if (200 <=? status) && (status <? 300) then Done tt
      else Failed [Diagnostics.Api (MkApiFailure (http_error_kind status) (Some status) after)]) ∧
   (∀ status after, transient [Diagnostics.Api (MkApiFailure (http_error_kind status) (Some status) after)] ↔
      500 <= status <= 599) ∧
   ¬ transient [Diagnostics.Api (MkApiFailure Signature None None)] ∧
   ¬ transient [Diagnostics.Api (MkApiFailure InvalidResponse None None)] ∧
   ∀ pre e post, Forall (λ c, ¬ decisive c) pre → e ≠ OtherTls → ¬ transient (pre ++ Tls e :: post)) ∧
  (punctual start deadline n env → Z.of_nat n <= timeout c →
     (∀ i, (i < n)%nat → timeout c / Z.of_nat n <= budget env deadline n i ∧
                         a_now (env i) + budget env deadline n i <= deadline) ∧
     ∃ k, (k < n)%nat ∧
       with_fallback set_path c path start env = (Some (reply (env k)), asked set_path path env deadline urls (S k))).
Proof.
  cbv zeta. pose proof (with_fallback_decides c path start env) as Hd. cbv zeta in Hd. split; [exact Hd|].
  split; [exact transient_failures|]. set (n := length (client_urls c)) in *. intros Hclock Hn.
  assert (1 <= n)%nat by (simpl in n; lia).
  assert (∀ i, (i < n)%nat → 0 < start + timeout c - a_now (env i) ∧
            timeout c * Z.of_nat (n - i) <= Z.of_nat n * (start + timeout c - a_now (env i))) as Hleft.
  { intros i Hi. pose proof (punctual_left start (timeout c) n env i ltac:(lia) Hclock Hi). split; [nia|done]. }
  split.
  - intros i Hi. destruct (Hleft i Hi) as [Hpos Hl]. unfold budget, remaining. rewrite Z.max_r by lia.
    set (r := start + timeout c - a_now (env i)) in *. split.
    + apply Z.div_le_lower_bound; [lia|].
      pose proof (Z.mul_div_le (timeout c) (Z.of_nat n) ltac:(lia)).
      set (q := timeout c / Z.of_nat n) in *. nia.
    + assert (r / Z.of_nat (n - i) <= r); [|lia]. apply Z.div_le_upper_bound; nia.
  - destruct Hd as (k & last & r & Hk & _ & Hdec & Hrun). exists k. split; [done|].
    destruct Hdec as [Hlate|_ _].
    + destruct (Hleft k Hk) as [? _]. unfold remaining in Hlate. lia.
    + by rewrite Nat.add_1_r in Hrun.
Qed.
End Guarantees.

(** ** What is accepted *)

Section Accepted.
Context `{UrlCrate} (set_path : bytes → Url → Url).
Context (hmac_sha256 : bytes → bytes → bytes) (hex_decode base64_decode : bytes → option bytes).
Context (decode_envelope : bytes → option ManagedEnvelope).
Context {Identity : Type} (age_open : bytes → Identity → option (result bytes)).
Abbreviation get_config := (get_managed_config hmac_sha256 hex_decode base64_decode decode_envelope age_open).
Abbreviation fetch := (fetch_managed set_path hmac_sha256 hex_decode base64_decode decode_envelope age_open).

Lemma read_limited_iff body chunks r :
  Z.of_nat (length body) <= MAX_RESPONSE_BYTES →
  read_limited_response body chunks = Done r ↔
  ∃ pieces, chunks = Done <$> pieces ∧ r = body ++ concat pieces ∧ Z.of_nat (length r) <= MAX_RESPONSE_BYTES.
Proof.
  revert body; induction chunks as [|chunk chunks IH]; intros body Hb; cbn [read_limited_response].
  - split.
    + intros [= <-]. exists []. rewrite app_nil_r. done.
    + intros ([|p ps] & Heq & -> & _); [|done]. by rewrite app_nil_r.
  - destruct chunk as [chunk|ch]; cbn [in_context mbind outcome_bind].
    + destruct (MAX_RESPONSE_BYTES <? Z.of_nat (length body + length chunk)) eqn:E; reflect_bools.
      * split; [done|]. intros ([|p ps] & Heq & -> & Hl); [done|]. simpl in Heq. injection Heq as <- _.
        cbn [concat] in Hl. rewrite !length_app in Hl. lia.
      * rewrite IH by (rewrite length_app; lia). split.
        -- intros (ps & -> & -> & Hl). exists (chunk :: ps). rewrite <-app_assoc in *. done.
        -- intros ([|p ps] & Heq & -> & Hl); [done|]. simpl in Heq. injection Heq as <- ->.
           exists ps. cbn [concat] in *. rewrite <-app_assoc. done.
    + split; [done|]. intros ([|p ps] & Heq & _); done.
Qed.

(** An answer that is accepted, and what it is accepted as. *)
Definition accepted (c : Client) (timestamp : bytes) (identity : Identity) (response : HttpResponse)
    (m : ManagedResponse) : Prop :=
  ∃ pieces header envelope mac armored,
    is_success (status response) = true ∧
    chunks response = Done <$> pieces ∧ Z.of_nat (length (concat pieces)) <= MAX_RESPONSE_BYTES ∧
    decode_envelope (concat pieces) = Some envelope ∧ ret envelope = 200 ∧ config envelope ≠ [] ∧
    response_signature response = Some header ∧ to_str header = Some header ∧ trim header ≠ [] ∧
    hex_decode (trim header) = Some mac ∧
    hmac_sha256 (app_secret c) (timestamp ++ lit "." ++ config envelope) = mac ∧
    base64_decode (config envelope) = Some armored ∧ Z.of_nat (length armored) <= MAX_RESPONSE_BYTES ∧
    age_open armored identity = Some (Ok (m_config m)) ∧ Z.of_nat (length (m_config m)) <= MAX_RESPONSE_BYTES ∧
    m_userinfo m = userinfo envelope ≫= Subscription.parse.

Lemma to_str_Some v w : to_str v = Some w → w = v.
Proof. unfold to_str. destruct (forallb _ v); congruence. Qed.

Lemma get_managed_config_iff c timestamp identity sent m :
  get_config c timestamp identity sent = Done m ↔
  ∃ response, sent = Done response ∧ accepted c timestamp identity response m.
Proof.
  unfold get_managed_config, accepted. destruct sent as [response|ch]; cbn [in_context mbind outcome_bind].
  2: { split; [done|]. by intros (? & ? & _). }
  unfold ensure_success. destruct (is_success (status response)) eqn:Es; cbn [negb mbind outcome_bind].
  2: { split; [done|]. intros (r' & [= <-] & ps & h & env & mac & arm & Hs & _). congruence. }
  destruct (read_limited_response [] (chunks response)) as [body|ch] eqn:Er; cbn [mbind outcome_bind].
  2: { split; [done|]. intros (r' & [= <-] & ps & h & env & mac & arm & _ & Hc & Hl & _).
       assert (read_limited_response [] (chunks response) = Done (concat ps)) as Hd; [|congruence].
       apply read_limited_iff; [done|]. by exists ps. }
  apply read_limited_iff in Er as (pieces & Hpieces & Hbody & Hlen); [|done]. simpl in Hbody. subst body.
  assert (∀ ps, chunks response = Done <$> ps → ps = pieces) as Hps.
  { intros ps Hp. rewrite Hpieces in Hp. apply list_fmap_eq_inj in Hp; [done|]. intros x y. congruence. }
  split.
  - intros Hrun. exists response. split; [done|].
    destruct (decode_envelope (concat pieces)) as [envelope|] eqn:Ee; [|done].
    destruct (negb (ret envelope =? 200)) eqn:Eret; [done|].
    destruct (bool_decide (config envelope = [])) eqn:Ec; [done|].
    destruct (bool_decide (trim _ = [])) eqn:Esig; [done|]. destruct (negb (verify_response_signature _ _ _ _ _ _)) eqn:Ev; [done|].
    destruct (base64_decode (config envelope)) as [armored|] eqn:Eb; [|done].
    destruct (MAX_RESPONSE_BYTES <? _) eqn:El; [done|]. reflect_bools.
    apply outcome_bind_inv in Hrun as (plaintext & Hage & Hm). injection Hm as <-.
    destruct (response_signature response) as [header|] eqn:Eh; [|by destruct Esig].
    cbn [mbind option_bind] in *. destruct (to_str header) as [h|] eqn:Et; [|by destruct Esig].
    pose proof (to_str_Some _ _ Et) as ->. simpl in Esig, Ev. unfold verify_response_signature in Ev.
    destruct (hex_decode (trim header)) as [mac|] eqn:Ehex; [|done]. apply bool_decide_eq_true in Ev.
    unfold decrypt_age in Hage. destruct (age_open armored identity) as [[pt|e]|] eqn:Ea; [|done|done].
    destruct (MAX_RESPONSE_BYTES <? Z.of_nat (length pt)) eqn:Ep; [done|]. injection Hage as <-. reflect_bools.
    exists pieces, header, envelope, mac, armored. split_and!; done.
  - intros (r' & [= <-] & ps & header & envelope & mac & armored & _ & Hp & _ & He & Hret & Hc & Hh & Ht & Htrim &
            Hhex & Hmac & Hb & Hal & Hage & Hpl & Hu).
    rewrite (Hps ps Hp) in He. rewrite He, Hret, Hh. cbn [mbind option_bind]. rewrite Ht. simpl.
    rewrite (bool_decide_eq_false_2 _ Hc), (bool_decide_eq_false_2 _ Htrim).
    unfold verify_response_signature. rewrite Hhex, Hmac. unfold bytes_eqb. rewrite bool_decide_eq_true_2 by done.
    simpl. rewrite Hb. replace (MAX_RESPONSE_BYTES <? Z.of_nat (length armored)) with false
      by (symmetry; apply Z.ltb_ge; done).
    unfold decrypt_age. rewrite Hage. replace (MAX_RESPONSE_BYTES <? Z.of_nat (length (m_config m))) with false
      by (symmetry; apply Z.ltb_ge; done).
    simpl. rewrite <-Hu. by destruct m.
Qed.

(** An attempt that is passed over: over its budget, or with a transient failure. *)
Definition unanswered (c : Client) (timestamp : bytes) (identity : Identity) (a : Attempt HttpResponse) : Prop :=
  a_reply a = None ∨
  ∃ sent chain, a_reply a = Some sent ∧ get_config c timestamp identity sent = Failed chain ∧ transient chain.

Definition managed_attempts (c : Client) (timestamp : bytes) (identity : Identity) (env : nat → Attempt HttpResponse)
    (i : nat) : Attempt ManagedResponse :=
  MkAttempt (a_now (env i)) (get_config c timestamp identity <$> a_reply (env i)).

Lemma passed_over_unanswered c timestamp identity env i :
  passed_over (managed_attempts c timestamp identity env) i ↔ unanswered c timestamp identity (env i).
Proof.
  unfold passed_over, unanswered, managed_attempts, reply. cbn [a_reply].
  destruct (a_reply (env i)) as [sent|]; simpl.
  - split; [intros (chain & Hc & Ht); right; by exists sent, chain|intros [?|(? & chain & [= <-] & Hc & Ht)]; [done|by exists chain]].
  - split; [by left|]. intros _. eexists. split; [reflexivity|]. apply transient_failures.
Qed.

End Accepted.

(** ** A concrete client *)

Definition demo_client : Client (H := toy_url) := MkClient (lit "https://a") [lit "https://b"] (lit "t") (lit "s") None 1000.
Definition demo_path (path url : bytes) : bytes := url ++ path.
(** The first URL does not answer in its 500 ns, the second does. *)
Definition demo_env {T} (o : outcome T) (i : nat) : Attempt T :=
  match i with O => MkAttempt 0 None | _ => MkAttempt 500 (Some o) end.

Lemma fallback_exact_witness :
  punctual 0 1000 2 (demo_env (Done (lit "x"))) ∧
  with_fallback demo_path demo_client (lit "/p") 0 (demo_env (Done (lit "x")))
    = (Some (Done (lit "x")), [(lit "https://a/p", 500); (lit "https://b/p", 500)]) ∧
  ∃ k, (k < 2)%nat ∧
    (with_fallback demo_path demo_client (lit "/p") 0 (demo_env (Done (lit "x")))).1
    = Some (reply (demo_env (Done (lit "x")) k)).
Proof.
  assert (punctual 0 1000 2 (demo_env (Done (lit "x")))) as Hclock.
  { split; [done|]. intros [|i] Hi; [|lia]. vm_compute. split; intros; discriminate. }
  split_and!; [exact Hclock|by vm_compute|].
  destruct (proj2 (proj2 (fallback_exact (H := toy_url) demo_path demo_client (lit "/p") 0 (demo_env (Done (lit "x")))))
              Hclock ltac:(by vm_compute)) as [_ (k & Hk & Hrun)].
  exists k. split; [exact Hk|]. by rewrite Hrun.
Defined.

Definition demo_answer : HttpResponse := MkHttp 200 None (Some (lit "st.c")) [Done (lit "c")].

