(* ===== verification/CatalogCache.v ===== *)
(** * CatalogCache: the catalog kept beside the configuration ([src/catalog_cache.rs])

    The envelope of the cache file, what is accepted of one, and the atomic
    writing of a new one. YAML, HMAC and hex are crates, so parameters; the file
    system is the cache file and the temporary one, and what each system call
    comes to is an input. *)
From S2P Require Import Prelude Bytes Nodes Diagnostics Status.
From S2P Require Subscription.
Local Open Scope Z_scope.

Definition CACHE_FORMAT_VERSION : Z := 2.
Definition MAX_CACHE_BYTES : Z := 8 * 2 ^ 20 + 64 * 2 ^ 10.
Definition ACCOUNT_FINGERPRINT_CONTEXT : bytes := lit "oixc-proxy/catalog-cache-account/v1".

Record CacheEnvelope : Type := MkEnvelope {
  version : Z; account_fingerprint_of : bytes; managed : ManagedConfig; fetched_at : option Z; userinfo : json;
}.

Record CatalogSnapshot : Type := MkCatalogSnapshot {
  s_managed : ManagedConfig; s_fetched_at : option Z; s_userinfo : option Subscription.UserInfo;
}.

(** *** The traffic figures as a JSON value

    [#[derive(Serialize)]] and [#[derive(Deserialize)]] with unknown fields
    denied. *)
Definition userinfo_value (info : option Subscription.UserInfo) : json :=
  json_option (λ i,
    JObj [Status.field "upload" (JNum (Subscription.upload i)); Status.field "download" (JNum (Subscription.download i));
          Status.field "total" (JNum (Subscription.total i));
          Status.field "expire" (json_option JNum (Subscription.expire i))]) info.

Definition json_u64 (v : json) : option Z :=
  match v with JNum z => if (0 <=? z) && (z <=? U64_MAX) then Some z else None | _ => None end.
#[global] Arguments json_u64 v : simpl never.
Definition json_opt_u64 (v : json) : option (option Z) :=
  match v with JNull => Some None | _ => Some <$> json_u64 v end.

Definition userinfo_of (v : json) : option Subscription.UserInfo :=
  match v with
  | JObj m =>
      if existsb (λ f, negb (bool_decide (fst f ∈ Subscription.field_names))) m then None
      else
        u ← json_get v (lit "upload") ≫= json_u64;
        d ← json_get v (lit "download") ≫= json_u64;
        t ← json_get v (lit "total") ≫= json_u64;
        e ← match json_get v (lit "expire") with Some e => json_opt_u64 e | None => Some None end;
        Some (Subscription.MkUserInfo u d t e)
  | JArr [u; d; t; e] =>
      u ← json_u64 u; d ← json_u64 d; t ← json_u64 t; e ← json_opt_u64 e;
      Some (Subscription.MkUserInfo u d t e)
  | _ => None
  end.

(** ** Files *)

(** The file at a path: whether only its owner may open it, and its content. *)
Record File : Type := MkFile { private : bool; content : bytes }.
Record Files : Type := MkFiles { cache : option File; temporary : option File }.

(** What the calls of a write come to; a failed write may have written a part. *)
Record WriteIo : Type := MkWriteIo {
  io_open : result unit; io_write : option nat; io_sync : result unit; io_rename : result unit;
  io_remove : bool;
}.

Definition set_temporary (f : option File) (s : Files) : Files := MkFiles (cache s) f.

(** [open] with create and truncate: a file that is there keeps its mode. *)
Definition open_temporary (io : WriteIo) : M Files unit :=
  lift (io_open io);;
  modify (λ s, set_temporary (Some (MkFile (match temporary s with Some f => private f | None => true end) [])) s).

Definition write_temporary (io : WriteIo) (data : bytes) : M Files unit :=
  let write b s := set_temporary ((λ f, MkFile (private f) b) <$> temporary s) s in
  match io_write io with
  | None => modify (write data)
  | Some n => modify (write (take n data));; bail "write failed"
  end.

Definition rename_temporary (io : WriteIo) : M Files unit :=
  match io_rename io with
  | Err e => throw (Context "replace node catalog cache" e)
  | Ok _ => modify (λ s, match temporary s with Some f => MkFiles (Some f) None | None => s end)
  end.

Definition write_private_atomic (io : WriteIo) (data : bytes) : M Files unit := λ s,
  match (open_temporary io;; write_temporary io data;; lift (io_sync io);; rename_temporary io) s with
  | (Ok _, s) => (Ok tt, s)
  | (Err e, s) => (Err e, if io_remove io then set_temporary None s else s)
  end.

(** ** The cache *)

Section Cache.
Context `{Base64Url} {EchConfig : Type} (parse_ech_config : bytes → result EchConfig).
Context (hmac_sha256 : bytes → bytes → bytes) (hex_encode : bytes → bytes).
(** [serde_yaml]: an envelope as text; and of a text, [None] without a document,
    or the envelope of the first one and whether another follows. *)
Context (yaml_encode : CacheEnvelope → result bytes).
Context (yaml_decode : bytes → option (result CacheEnvelope * bool)).

Definition account_fingerprint (access_token : bytes) : bytes :=
  hex_encode (hmac_sha256 access_token ACCOUNT_FINGERPRINT_CONTEXT).

Definition parse_envelope (data expected_fingerprint : bytes) : result CatalogSnapshot :=
  first ← ok_or (Bail "cache is empty") (yaml_decode data);
  envelope ← map_err (Context "decode cache envelope") (fst first);
  if snd first : bool then Err (Bail "cache contains multiple YAML documents")
  else if negb ((version envelope =? 1) || (version envelope =? CACHE_FORMAT_VERSION))
  then Err (Bail "cache format version is unsupported")
  else if negb (bytes_eqb (account_fingerprint_of envelope) expected_fingerprint)
  then Err (Bail "cache belongs to a different account")
  else
    validate parse_ech_config (managed envelope);;
    Ok (MkCatalogSnapshot (managed envelope) (fetched_at envelope)
          (i ← userinfo_of (userinfo envelope); if Subscription.valid i then Some i else None)).

(** [load_snapshot]; [read] is whether the file can be read. *)
Definition load_snapshot (fingerprint : bytes) (read : bool) (s : Files) : option CatalogSnapshot :=
  file ← cache s;
  if negb (private file) || negb read || (MAX_CACHE_BYTES <? Z.of_nat (length (content file))) then None
  else match parse_envelope (content file) fingerprint with Ok snapshot => Some snapshot | Err _ => None end.

Definition envelope_of (fingerprint : bytes) (m : ManagedConfig) (info : option Subscription.UserInfo)
    (fetched : option Z) : CacheEnvelope :=
  MkEnvelope CACHE_FORMAT_VERSION fingerprint m fetched (userinfo_value info).

Definition store_snapshot (fingerprint : bytes) (io : WriteIo) (m : ManagedConfig)
    (info : option Subscription.UserInfo) (fetched : option Z) : M Files unit :=
  data ← lift (map_err (Context "encode node catalog cache") (yaml_encode (envelope_of fingerprint m info fetched)));
  write_private_atomic io data.

(** The error is only logged. *)
Definition store_snapshot_or_log (fingerprint : bytes) (io : WriteIo) (snapshot : CatalogSnapshot) : M Files unit := λ s,
  (Ok tt, (store_snapshot fingerprint io (s_managed snapshot) (s_userinfo snapshot) (s_fetched_at snapshot) s).2).
End Cache.

(** ** A write replaces the file as a whole *)

(** The steps of a write, for the states between them. *)
Definition write_steps (io : WriteIo) (data : bytes) : list (M Files unit) :=
  [open_temporary io; write_temporary io data; lift (io_sync io); rename_temporary io].

(** The files after the first [n] steps, stopping at the first that fails. *)
Fixpoint run_steps (n : nat) (steps : list (M Files unit)) (s : Files) : Files :=
  match n, steps with
  | S n, step :: steps => match step s with (Ok _, s) => run_steps n steps s | (Err _, s) => s end
  | _, _ => s
  end.

(** The mode of the file a write leaves: a temporary file that is already there
    keeps its own, a new one is the owner's. *)
Definition written_private (s : Files) : bool := match temporary s with Some f => private f | None => true end.

Lemma write_steps_cases io data s n :
  cache (run_steps n (write_steps io data) s) = cache s ∨
  cache (run_steps n (write_steps io data) s) = Some (MkFile (written_private s) data).
Proof.
  unfold written_private, write_steps, open_temporary, write_temporary, rename_temporary.
  destruct n as [|n]; [by left|]. cbn [run_steps]. unfold mbind, M_bind, lift, modify.
  destruct (io_open io); [|by left]. simpl.
  destruct n as [|n]; [by left|]. cbn [run_steps].
  destruct (io_write io) as [k|]; [by left|]. simpl.
  destruct n as [|n]; [by left|]. cbn [run_steps]. destruct (io_sync io); [|by left].
  destruct n as [|n]; [by left|]. cbn [run_steps]. destruct (io_rename io); simpl.
  - right. by destruct n.
  - by left.
Qed.

(** The run of a write is that of its steps. *)
Lemma write_private_atomic_run io data s :
  match write_private_atomic io data s with
  | (Ok _, s') => s' = MkFiles (Some (MkFile (written_private s) data)) None
  | (Err _, s') => cache s' = cache s
  end.
Proof.
  unfold write_private_atomic, open_temporary, write_temporary, rename_temporary, mbind, M_bind, lift, modify.
  destruct (io_open io); simpl; [|by destruct (io_remove io)].
  destruct (io_write io) as [k|]; simpl; [by destruct (io_remove io)|].
  destruct (io_sync io); simpl; [|by destruct (io_remove io)].
  destruct (io_rename io); simpl; [|by destruct (io_remove io)].
  done.
Qed.

(** The calls of a write all succeed. *)
Definition write_works (io : WriteIo) : Prop :=
  io_open io = Ok tt ∧ io_write io = None ∧ io_sync io = Ok tt ∧ io_rename io = Ok tt.

Lemma write_works_run io data s : write_works io ↔ ∃ s', write_private_atomic io data s = (Ok tt, s').
Proof.
  unfold write_works, write_private_atomic, open_temporary, write_temporary, rename_temporary, mbind, M_bind, lift, modify.
  destruct (io_open io) as [[]|], (io_write io) as [k|], (io_sync io) as [[]|], (io_rename io) as [[]|]; simpl;
    (split; [intros (? & ? & ? & ?); try done|intros [? ?]; try done]); eauto.
Qed.

Section Stored.
Context (yaml_encode : CacheEnvelope → result bytes).

(** The cache a store leaves: the new text when it could be made and written. *)
Lemma store_snapshot_cache account io m info fetched s :
  let env := envelope_of account m info fetched in
  let s' := (store_snapshot yaml_encode account io m info fetched s).2 in
  (∀ data, yaml_encode env = Ok data → write_works io →
     cache s' = Some (MkFile (written_private s) data)) ∧
  (¬ (write_works io ∧ ∃ data, yaml_encode env = Ok data) → cache s' = cache s).
Proof.
  cbv zeta. unfold store_snapshot, mbind, M_bind, lift. destruct (yaml_encode _) as [data|e]; simpl; [|done].
  pose proof (write_private_atomic_run io data s) as Hrun. pose proof (write_works_run io data s) as Hok.
  destruct (write_private_atomic io data s) as [[[]|e] s']; simpl.
  - split; [by intros ? [= <-] _; subst s'|]. intros Hno. exfalso. apply Hno. split; [apply Hok; by eexists|by eexists].
  - split; [|done]. intros ? _ Hw. by apply Hok in Hw as (? & ?).
Qed.
End Stored.

(** ** Reading back *)

Section RoundTrip.
Context `{Base64Url} {EchConfig : Type} (parse_ech_config : bytes → result EchConfig).
Context (hmac_sha256 : bytes → bytes → bytes) (hex_encode : bytes → bytes).
Context (yaml_encode : CacheEnvelope → result bytes).
Context (yaml_decode : bytes → option (result CacheEnvelope * bool)).

(** serde_yaml reads back what it writes of an envelope, as one document. *)
Definition reads_back (e : CacheEnvelope) : Prop :=
  ∀ data, yaml_encode e = Ok data → yaml_decode data = Some (Ok e, false).

Lemma userinfo_round_trip info :
  (∀ i, info = Some i → Subscription.user_info_ok i) → userinfo_of (userinfo_value info) = info.
Proof.
  intros Hok. destruct info as [i|]; [|done]. destruct (Hok i eq_refl) as (Hu & Hd & Ht & _ & He).
  assert (∀ z, u64 z → json_u64 (JNum z) = Some z) as Hz.
  { intros z [? ?]. unfold json_u64. rewrite (proj2 (Z.leb_le 0 z)), (proj2 (Z.leb_le z U64_MAX)) by done. done. }
  destruct i as [u d t e]. simpl in Hu, Hd, Ht, He. unfold userinfo_of, userinfo_value, json_option, json_get. simpl.
  rewrite (Hz u), (Hz d), (Hz t) by done. simpl. destruct e as [e|]; [|done]. cbn [json_opt_u64].
  rewrite Hz; [done|]. specialize (He e eq_refl). unfold u64, U64_MAX, Subscription.MAX_EXPIRE in *. lia.
Qed.

Abbreviation store := (store_snapshot yaml_encode).
Abbreviation load := (load_snapshot parse_ech_config yaml_decode).

Lemma parse_envelope_stored data fingerprint other m info fetched :
  yaml_encode (envelope_of fingerprint m info fetched) = Ok data →
  reads_back (envelope_of fingerprint m info fetched) →
  validate parse_ech_config m = Ok tt →
  (∀ i, info = Some i → Subscription.user_info_ok i ∧ Subscription.valid i = true) →
  parse_envelope parse_ech_config yaml_decode data other =
    if bytes_eqb fingerprint other then Ok (MkCatalogSnapshot m fetched info)
    else Err (Bail "cache belongs to a different account").
Proof.
  intros Henc Hyaml Hv Hinfo. unfold parse_envelope. rewrite (Hyaml _ Henc). simpl.
  destruct (bytes_eqb fingerprint other); simpl; [|done]. rewrite Hv. simpl.
  rewrite userinfo_round_trip by (intros i Hi; by apply Hinfo).
  destruct info as [i|]; [|done]. simpl. by rewrite (proj2 (Hinfo i eq_refl)).
Qed.

Definition loadable (files : Files) (data : bytes) : Prop :=
  (∀ f, temporary files = Some f → private f = true) ∧ Z.of_nat (length data) <= 8454144.

Lemma load_stored data fingerprint other m info fetched files t :
  yaml_encode (envelope_of fingerprint m info fetched) = Ok data →
  reads_back (envelope_of fingerprint m info fetched) → validate parse_ech_config m = Ok tt →
  (∀ i, info = Some i → Subscription.user_info_ok i ∧ Subscription.valid i = true) →
  let stored := MkFiles (Some (MkFile (written_private files) data)) t in
  (loadable files data → load fingerprint true stored = Some (MkCatalogSnapshot m fetched info)) ∧
  (¬ loadable files data → load fingerprint true stored = None) ∧
  (other ≠ fingerprint → load other true stored = None).
Proof.
  intros Henc Hyaml Hv Hinfo stored.
  assert (∀ account, load account true stored =
    if negb (written_private files) || (MAX_CACHE_BYTES <? Z.of_nat (length data)) then None
    else if bytes_eqb fingerprint account then Some (MkCatalogSnapshot m fetched info) else None) as Hload.
  { intros account. unfold load_snapshot, stored. simpl. rewrite orb_false_r.
    destruct (_ || _); [done|].
    rewrite (parse_envelope_stored data fingerprint account m info fetched) by done. by destruct (bytes_eqb fingerprint account). }
  rewrite !Hload. unfold bytes_eqb. rewrite (bool_decide_eq_true_2 (fingerprint = fingerprint)) by done.
  assert (Hok : (negb (written_private files) || (MAX_CACHE_BYTES <? Z.of_nat (length data)) = false) ↔ loadable files data).
  { unfold loadable, written_private, MAX_CACHE_BYTES. rewrite orb_false_iff, negb_false_iff, Z.ltb_ge.
    destruct (temporary files) as [f|]; split; intros [Hf ?]; (split; [|lia]); try done.
    - by intros g [= <-].
    - by apply Hf. }
  destruct (_ || _); split_and!; try done.
  - intros Hl. by apply Hok in Hl.
  - intros Hl. by destruct Hl; apply Hok.
  - intros Hne. by rewrite bool_decide_eq_false_2.
Qed.

(** C24: The cache gives back what was stored, to the account that stored it and
    to no other, and a write is all or nothing. A store that succeeds leaves the
    encoding of the catalog; a later start of the same account loads it as the very
    same catalog, time and traffic figures, if the encoding is within the 8 MiB
    and 64 KiB a load accepts, which the store does not look at, and no temporary
    file that others may open was left in its way; if not, and for any other
    account, there is no cache at all. A store that fails leaves the previous
    file, and a process that stops between any two steps of the write the
    previous one or the complete new one. Assumed are that YAML reads back what it
    writes, and a catalog and traffic figures that are valid. *)
Theorem cache_store_load fingerprint io m info fetched files :
  reads_back (envelope_of fingerprint m info fetched) →
  validate parse_ech_config m = Ok tt →
  (∀ i, info = Some i → Subscription.user_info_ok i ∧ Subscription.valid i = true) →
  let '(r, files') := store fingerprint io m info fetched files in
  match r with
  | Ok _ => ∃ data, yaml_encode (envelope_of fingerprint m info fetched) = Ok data ∧
      content <$> cache files' = Some data ∧
      (loadable files data → load fingerprint true files' = Some (MkCatalogSnapshot m fetched info)) ∧
      (¬ loadable files data → load fingerprint true files' = None) ∧
      ∀ other, other ≠ fingerprint → load other true files' = None
  | Err _ => cache files' = cache files
  end ∧
  ∀ data n, yaml_encode (envelope_of fingerprint m info fetched) = Ok data →
    let stopped := run_steps n (write_steps io data) files in
    cache stopped = cache files ∨
    content <$> cache stopped = Some data ∧
    (loadable files data → load fingerprint true stopped = Some (MkCatalogSnapshot m fetched info)).
Proof.
  intros Hyaml Hv Hinfo. unfold store_snapshot. unfold mbind, M_bind at 1. unfold lift at 1.
  assert (∀ data n, yaml_encode (envelope_of fingerprint m info fetched) = Ok data →
    let stopped := run_steps n (write_steps io data) files in
    cache stopped = cache files ∨ content <$> cache stopped = Some data ∧
    (loadable files data → load fingerprint true stopped = Some (MkCatalogSnapshot m fetched info))) as Hstop.
  { intros data n Hd stopped. destruct (write_steps_cases io data files n) as [?|Hc]; [by left|right].
    subst stopped. destruct (run_steps _ _ _) as [c t]. simpl in Hc. subst c. split; [done|].
    by destruct (load_stored data fingerprint fingerprint m info fetched files t) as (? & _). }
  destruct (yaml_encode (envelope_of fingerprint m info fetched)) as [data|e] eqn:Hd; [|by split]. cbn [map_err].
  pose proof (write_private_atomic_run io data files) as Hrun.
  destruct (write_private_atomic io data files) as [[[]|e] files']; (split; [|exact Hstop]); [|done]. subst files'.
  exists data. pose proof (λ other, load_stored data fingerprint other m info fetched files None Hd Hyaml Hv Hinfo) as Hl.
  split_and!; [done|done|apply (Hl fingerprint)|apply (Hl fingerprint)|intros other; apply Hl].
Qed.
End RoundTrip.

(** ** A concrete cache *)

Definition demo_catalog : ManagedConfig := MkManaged [demo_proxy (lit "Fusion 01")].
Definition demo_envelope : CacheEnvelope :=
  envelope_of (lit "account") demo_catalog (Some (Subscription.MkUserInfo 1 2 300 None)) (Some 1000).
Definition demo_ech (_ : bytes) : result unit := Ok tt.
Definition demo_encode (_ : CacheEnvelope) : result bytes := Ok [x01].
Definition demo_decode (_ : bytes) : option (result CacheEnvelope * bool) := Some (Ok demo_envelope, false).
Definition demo_io : WriteIo := MkWriteIo (Ok tt) None (Ok tt) (Ok tt) true.

Lemma cache_store_load_witness :
  let files := (store_snapshot demo_encode (lit "account") demo_io demo_catalog
                  (Some (Subscription.MkUserInfo 1 2 300 None)) (Some 1000) (MkFiles None None)).2 in
  cache files = Some (MkFile true [x01]) ∧
  load_snapshot demo_ech demo_decode (lit "other") true files = None.
Proof.
  cbv zeta. split; [by vm_compute|].
  pose proof (cache_store_load demo_ech demo_encode demo_decode (lit "account") demo_io demo_catalog
    (Some (Subscription.MkUserInfo 1 2 300 None)) (Some 1000) (MkFiles None None)) as Hcache.
  destruct (store_snapshot _ _ _ _ _ _ _) as [[[]|e] files] eqn:E; [|vm_compute in E; discriminate E].
  destruct Hcache as [(data & _ & _ & _ & _ & Hother) _].
  - intros data _. reflexivity.
  - by vm_compute.
  - intros i [= <-]. unfold Subscription.user_info_ok, u64, U64_MAX. simpl.
    split; [|reflexivity]. repeat split; try lia; discriminate.
  - apply Hother. discriminate.
Defined.
