(* ===== verification/CatalogService.v ===== *)
(** * CatalogService: reloads and refreshes of the running service ([src/cli.rs])

    The state of the service loop, the transactions that replace its
    configuration and its catalog, and the loop's dispatch of commands. It
    composes the configuration file ([Config]), the API client ([Api]), the
    catalog ([Nodes]), the cache ([CatalogCache]), the routers ([Gateway]) and
    the status ([Status]). *)
From S2P Require Import Prelude Bytes Text Ip Api Nodes Diagnostics Status.
From S2P Require Socks5 Config Gateway Api CatalogCache Network Subscription.
Local Open Scope Z_scope.

(** ** Control messages ([src/control.rs]) *)

Inductive Command : Type := RefreshNodes | RefreshProvider | ReloadConfig | Diagnose.

Record Response : Type := MkResponse { ok : bool; message : bytes; r_error : option ErrorKind; payload : json }.

Definition success (message : string) (payload : json) : Response := MkResponse true (lit message) None payload.
Definition failure (message : string) (error : ErrorKind) : Response := MkResponse false (lit message) (Some error) JNull.

(** ** The crates and the systems below

    Everything the service's components take as parameters. [make_runtime] is the
    making of a node's dialer and client with the settings of a configuration,
    [causes] the chain of an error the components give as text. *)
Class Crates : Type := {
  crates_base64 :: Base64Url;
  crates_url :: Config.UrlCrate;
  crates_files :: Config.FileSystem;
  Root : Type;
  EchConfig : Type;
  Value : Type;
  Identity : Type;
  to_lowercase : bytes → bytes;
  is_alphanumeric : Z → bool;
  parse_ech_config : bytes → result EchConfig;
  first_document : bytes → option (option (list Value));
  more_documents : bytes → bool;
  proxy_of_value : Value → option Proxy;
  hmac_sha256 : bytes → bytes → bytes;
  hex_encode : bytes → bytes;
  hex_decode : bytes → option bytes;
  base64_decode : bytes → option bytes;
  decode_envelope : bytes → option Api.ManagedEnvelope;
  age_open : bytes → Identity → option (result bytes);
  yaml_encode : CatalogCache.CacheEnvelope → result bytes;
  yaml_decode : bytes → option (result CatalogCache.CacheEnvelope * bool);
  set_path : bytes → Config.Url → Config.Url;
  make_runtime : Config.RuntimeConfig → Proxy → result unit;
  causes : Prelude.error → list cause;
}.

#[export] Instance udp_port_range_eq_dec : EqDecision Socks5.UdpPortRange.
Proof. solve_decision. Defined.

#[local] Existing Instance Config.url_eq_dec.

Section Service.
Context `{Crates}.

Definition of_result {A} (r : result A) : outcome A :=
  match r with Ok a => Done a | Err e => Failed (causes e) end.

(** ** The catalog from the API *)

(** What a fetch meets: the network's snapshot, the clock and timestamp it
    starts with, the identity it generates, its attempts, and the time at its end. *)
Record Fetch : Type := MkFetch {
  f_network : Network.NetworkSnapshot; f_start : Z; f_timestamp : bytes; f_identity : Identity;
  f_attempts : nat → Api.Attempt Api.HttpResponse; f_now : Z;
}.

Definition api_client (r : Config.RuntimeConfig) (network : Network.NetworkSnapshot) : result Api.Client :=
  client ← Api.client_new (Config.api_base_url r) (Config.access_token r) (Config.app_secret r)
             (Config.request_timeout r) (Some network);
  Api.with_fallback_urls (Config.api_fallback_urls r) client.

Definition published_proxies (m : ManagedConfig) (include_all : bool) (f : NodeFilter) : result (list Proxy) :=
  if include_all then Ok (proxies m) else filtered_proxies to_lowercase is_alphanumeric m f.

(** A context of type [ApiFailure] is a link of the chain as the pair of it and
    the error, of which no [downcast_ref] finds the [ApiFailure]. *)
Definition load_managed_catalog (r : Config.RuntimeConfig) (disable_filter : bool) (f : Fetch) :
    outcome CatalogCache.CatalogSnapshot :=
  client ← of_result (api_client r (f_network f));
  response ← default (Failed [Unknown])
    (Api.fetch_managed set_path hmac_sha256 hex_decode base64_decode decode_envelope age_open client
       (f_timestamp f) (f_identity f) (f_start f) (f_attempts f)).1;
  managed ← Api.in_context
    (of_result (Nodes.parse parse_ech_config first_document more_documents proxy_of_value (Api.m_config response)));
  managed ← (if disable_filter then Done managed
             else MkManaged <$> of_result (filtered_proxies to_lowercase is_alphanumeric managed
                                             (Config.node_filter r)));
  Done (CatalogCache.MkCatalogSnapshot managed (Some (f_now f)) (Api.m_userinfo response)).

(** ** The state of the loop *)

(** [fingerprint] is the cache's account; [files] are the files at its path,
    which is that of the configuration. *)
Record CatalogService : Type := MkCatalogService {
  service : Config.ProxyConfig; managed : ManagedConfig; fetched_at : option Z; fingerprint : bytes;
  context : Gateway.GatewayContext; manager : Status.Service (Root := Root); disable_filter : bool;
  events : EventLog; files : CatalogCache.Files;
}.

Definition set_manager (m : Status.Service) (s : CatalogService) : CatalogService :=
  MkCatalogService (service s) (managed s) (fetched_at s) (fingerprint s) (context s) m (disable_filter s) (events s)
    (files s).
Definition set_events (l : EventLog) (s : CatalogService) : CatalogService :=
  MkCatalogService (service s) (managed s) (fetched_at s) (fingerprint s) (context s) (manager s) (disable_filter s) l
    (files s).
Definition set_files (f : CatalogCache.Files) (s : CatalogService) : CatalogService :=
  MkCatalogService (service s) (managed s) (fetched_at s) (fingerprint s) (context s) (manager s) (disable_filter s)
    (events s) f.
Definition set_catalog_of (m : ManagedConfig) (at_ : option Z) (s : CatalogService) : CatalogService :=
  MkCatalogService (service s) m at_ (fingerprint s) (context s) (manager s) (disable_filter s) (events s) (files s).
Definition set_service (c : Config.ProxyConfig) (p : bytes) (ctx : Gateway.GatewayContext) (s : CatalogService) :
    CatalogService :=
  MkCatalogService c (managed s) (fetched_at s) p ctx (manager s) (disable_filter s) (events s) (files s).

(** A step that may fail, with the state it leaves. *)
Abbreviation Step A := (CatalogService → outcome A * CatalogService).

Definition then_ {A B} (m : Step A) (f : A → Step B) : Step B := λ s,
  match m s with (Done a, s) => f a s | (Failed chain, s) => (Failed chain, s) end.
Definition pure {A} (o : outcome A) : Step A := λ s, (o, s).
Definition update (f : CatalogService → CatalogService) : Step unit := λ s, (Done tt, f s).

(** [GatewayContext::reconfigured] *)
Definition reconfigured (old new : Config.RuntimeConfig) (c : Gateway.GatewayContext) :
    result Gateway.GatewayContext :=
  secret ← Gateway.derive_routing_secret hmac_sha256 (Config.access_token new);
  Ok (Gateway.MkContext (Gateway.outbound_ip c) (Gateway.udp_relay_advertised c) secret
        (if Config.dial_concurrency old =? Config.dial_concurrency new then Gateway.dial_limit c
         else Config.dial_concurrency new)).

(** [Router::build] with the settings of [runtime]; identities used by a build
    that fails are not used again. *)
Definition build_router (m : ManagedConfig) (published : list Proxy) (r : Config.RuntimeConfig)
    (ctx : Gateway.GatewayContext) (previous : option Gateway.Router) : Step Gateway.Router := λ s,
  let g := Status.manager (manager s) in
  let '(built, next) :=
    Gateway.build (make_runtime r) parse_ech_config (proxies m) published (Config.serve_port r)
      (Config.allow_remote_raw_provider r) ctx previous (Gateway.fresh_id g) in
  (of_result built, set_manager (Status.set_manager (Gateway.with_fresh next g) (manager s)) s).

Definition current : Step Gateway.Router := λ s, (of_result (Status.current (manager s)), s).

(** [manager.replace] *)
Definition replace (r : Gateway.Router) : Step unit := λ s,
  let '(result, g) := Gateway.replace r (Status.manager (manager s)) in
  (of_result result, set_manager (Status.set_manager g (manager s)) s).

Definition update_subscription (info : option Subscription.UserInfo) (at_ : option Z) (s : CatalogService) :
    CatalogService := set_manager (Status.update_subscription info at_ (manager s)) s.
Definition update_catalog (f : CatalogStatus → CatalogStatus) (s : CatalogService) : CatalogService :=
  set_manager (Status.set_catalog (f (Status.catalog_status (manager s))) (manager s)) s.

(** [store_snapshot], as [fingerprint]'s account *)
Definition store (account : bytes) (io : CatalogCache.WriteIo) (snapshot : CatalogCache.CatalogSnapshot) : Step unit := λ s,
  let '(result, f) :=
    CatalogCache.store_snapshot yaml_encode account io (CatalogCache.s_managed snapshot)
      (CatalogCache.s_userinfo snapshot) (CatalogCache.s_fetched_at snapshot) (files s) in
  (of_result result, set_files f s).
(** The error is only logged. *)
Definition store_or_log (account : bytes) (io : CatalogCache.WriteIo) (snapshot : CatalogCache.CatalogSnapshot)
    (s : CatalogService) : CatalogService := (store account io snapshot s).2.

(** ** Reloading the configuration *)

(** What a reload or a refresh meets: the fetch, the calls of a cache write, and
    the times the diagnostics read. *)
Record World : Type := MkWorld { w_fetch : Fetch; w_io : CatalogCache.WriteIo; w_started : Z; w_now : Z }.

Definition bindings_changed (next active : Config.ProxyConfig) : bool :=
  negb (bool_decide (Config.listen next = Config.listen active))
  || negb (bool_decide (Config.nodelist_listen next = Config.nodelist_listen active))
  || negb (bool_decide (Config.outbound_ip next = Config.outbound_ip active))
  || negb (bool_decide (Config.udp_port_range next = Config.udp_port_range active))
  || negb (bool_decide (Config.udp_advertise_address next = Config.udp_advertise_address active)).

Definition account_changed (next active : Config.ProxyConfig) : bool :=
  negb (bytes_eqb (Config.access_token (Config.runtime next)) (Config.access_token (Config.runtime active))).
Definition api_changed (next active : Config.ProxyConfig) : bool :=
  let n := Config.runtime next in let a := Config.runtime active in
  negb (bool_decide (Config.api_base_url n = Config.api_base_url a))
  || negb (bool_decide (Config.api_fallback_urls n = Config.api_fallback_urls a))
  || negb (bytes_eqb (Config.app_secret n) (Config.app_secret a)).

(** What a reload has installed when it has fetched a catalog. *)
Definition install_fetched (account : bytes) (io : CatalogCache.WriteIo) (snapshot : CatalogCache.CatalogSnapshot)
    (s : CatalogService) : CatalogService :=
  let s := update_subscription (CatalogCache.s_userinfo snapshot) (CatalogCache.s_fetched_at snapshot) s in
  let s := update_catalog (Status.initialize_status false (CatalogCache.s_fetched_at snapshot)) s in
  let s := store_or_log account io snapshot s in
  set_catalog_of (CatalogCache.s_managed snapshot) (CatalogCache.s_fetched_at snapshot) s.

Definition reload_inner (path : bytes) (w : World) : Step unit := λ s,
  match Config.load_proxy_config to_lowercase path with
  | Err _ => (Failed [Unknown], s)
  | Ok next =>
      if bindings_changed next (service s) then (Failed [Unknown], s)
      else
        then_ (pure (if account_changed next (service s) || api_changed next (service s)
                     then Some <$> load_managed_catalog (Config.runtime next) true (w_fetch w)
                     else Done None)) (λ fetched,
        let m := match fetched with Some snapshot => CatalogCache.s_managed snapshot | None => managed s end in
        then_ (pure (of_result (published_proxies m (disable_filter s) (Config.node_filter (Config.runtime next)))))
          (λ published,
        then_ (pure (of_result (reconfigured (Config.runtime (service s)) (Config.runtime next) (context s)))) (λ ctx,
        then_ current (λ previous,
        let reusable := Config.same_client_settings (Config.runtime (service s)) (Config.runtime next) in
        then_ (build_router m published (Config.runtime next) ctx (if reusable then Some previous else None)) (λ router,
        let account := CatalogCache.account_fingerprint hmac_sha256 hex_encode
                         (Config.access_token (Config.runtime next)) in
        then_ (replace router) (λ _,
        update (λ s, set_service next account ctx
          (match fetched with Some snapshot => install_fetched account (w_io w) snapshot s | None => s end)))))))) s
  end.

Definition record_event (kind : EventKind) (result : outcome unit) (now : Z) (s : CatalogService) : CatalogService :=
  set_events (log_record kind (match result with Done _ => None | Failed chain => Some chain end) now (events s)) s.

Definition reload (path : bytes) (w : World) : Step unit := λ s,
  let '(result, s) := reload_inner path w s in
  (result, record_event ConfigReload result (w_now w) s).

(** ** Refreshing the catalog *)

(** [apply_refreshed_catalog]: the router first, then the cache of a refresh that
    needs it written, then the exchange. *)
Definition replacement_router (refreshed : ManagedConfig) : Step (option Gateway.Router) := λ s,
  if bool_decide (proxies refreshed = proxies (managed s)) then (Done None, s)
  else
    then_ (pure (of_result (published_proxies refreshed (disable_filter s)
                              (Config.node_filter (Config.runtime (service s)))))) (λ published,
    then_ current (λ previous,
    then_ (build_router refreshed published (Config.runtime (service s)) (context s) (Some previous)) (λ router,
    pure (Done (Some router))))) s.

Definition apply_refreshed_catalog (refreshed : CatalogCache.CatalogSnapshot) (require_cache_write : bool) (w : World) :
    Step unit :=
  then_ (replacement_router (CatalogCache.s_managed refreshed)) (λ replacement,
  then_ (if require_cache_write then λ s, store (fingerprint s) (w_io w) refreshed s else pure (Done tt)) (λ _,
  then_ (match replacement with Some router => replace router | None => pure (Done tt) end) (λ _,
  update (λ s,
    let s := update_subscription (CatalogCache.s_userinfo refreshed) (CatalogCache.s_fetched_at refreshed) s in
    let s := if negb require_cache_write then store_or_log (fingerprint s) (w_io w) refreshed s else s in
    set_catalog_of (CatalogCache.s_managed refreshed) (CatalogCache.s_fetched_at refreshed) s)))).

Definition refused_account (chain : list cause) : bool :=
  match classify chain with Authentication | Forbidden => true | _ => false end.

(** The traffic figures of an account that is refused are not shown any more. *)
Definition forget_subscription (io : CatalogCache.WriteIo) (s : CatalogService) : CatalogService :=
  let s := update_subscription None None s in
  store_or_log (fingerprint s) io (CatalogCache.MkCatalogSnapshot (managed s) (fetched_at s) None) s.

Definition finish_refresh (fetched : outcome CatalogCache.CatalogSnapshot) (require_cache_write : bool) (w : World) :
    Step unit := λ s,
  let '(result, s) :=
    match fetched with
    | Done refreshed => apply_refreshed_catalog refreshed require_cache_write w s
    | Failed chain => (Failed chain, s)
    end in
  let error := match result with Done _ => None | Failed chain => Some chain end in
  let s := update_catalog (Status.refresh_finished error (w_now w)) s in
  let s := record_event CatalogRefresh result (w_now w) s in
  (result,
   match error with
   | Some chain => if negb require_cache_write && refused_account chain then forget_subscription (w_io w) s else s
   | None => s
   end).

Definition refresh_with_policy (require_cache_write : bool) (w : World) : Step unit := λ s,
  let s := update_catalog (Status.refresh_started (w_started w)) s in
  finish_refresh (load_managed_catalog (Config.runtime (service s)) true (w_fetch w)) require_cache_write w s.

(** ** The loop *)

(** [AcceptSettings]: what the accept loop takes from the configuration. *)
Record AcceptSettings : Type := MkSettings {
  handshake_timeout : Z; tcp_idle_timeout : Z; udp_idle_timeout : Z; max_connections : Z;
}.

Definition settings_of (r : Config.RuntimeConfig) : AcceptSettings :=
  MkSettings (Z.max (Config.request_timeout r) (Config.from_secs 45)) (Config.tcp_idle_timeout r)
    (Config.udp_idle_timeout r) (Config.max_client_connections r).

(** The loop's own variables beside the catalog. *)
Record LoopState : Type := MkLoop { catalog : CatalogService; settings : AcceptSettings; refresh_every : Z }.

Definition reloading (c : option Command) : bool := match c with Some ReloadConfig => true | _ => false end.
Definition provider_refresh (c : option Command) : bool := match c with Some RefreshProvider => true | _ => false end.

(** What a start meets besides: whether the cache file can be read, when it was
    modified, and the transport context. *)
Record Startup : Type := MkStartup {
  st_files : CatalogCache.Files; st_readable : bool; st_modified_at : option Z;
  st_transport : result (Status.Transport (Root := Root)); st_now : Z;
}.

(** [serve_run] up to the listeners. *)
Definition initial_catalog (c : Config.ProxyConfig) (account : bytes) (w : World) (u : Startup) :
    outcome (CatalogCache.CatalogSnapshot * bool * CatalogCache.Files) :=
  match CatalogCache.load_snapshot parse_ech_config yaml_decode account (st_readable u) (st_files u) with
  | Some cached => Done (cached, true, st_files u)
  | None =>
      fetched ← load_managed_catalog (Config.runtime c) true (w_fetch w);
      Done (fetched, false,
            (CatalogCache.store_snapshot_or_log yaml_encode account (w_io w) fetched (st_files u)).2)
  end.

Definition serve_start (config_path : bytes) (disable_node_filter : bool) (w : World) (u : Startup) :
    outcome LoopState :=
  c ← of_result (Config.load_proxy_config to_lowercase config_path);
  let r := Config.runtime c in
  let account := CatalogCache.account_fingerprint hmac_sha256 hex_encode (Config.access_token r) in
  initial ← initial_catalog c account w u;
  let '(snapshot, from_cache, files) := (initial : CatalogCache.CatalogSnapshot * bool * CatalogCache.Files) in
  let m := CatalogCache.s_managed snapshot in
  published ← of_result (published_proxies m disable_node_filter (Config.node_filter r));
  secret ← of_result (Gateway.derive_routing_secret hmac_sha256 (Config.access_token r));
  transport ← of_result (st_transport u);
  let advertised := is_loopback (sa_ip (Config.listen c))
                    || (bool_decide (is_Some (Config.udp_port_range c))
                        && bool_decide (is_Some (Config.udp_advertise_address c))) in
  let ctx := Gateway.MkContext (Config.outbound_ip c) advertised secret (Config.dial_concurrency r) in
  let '(built, next) := Gateway.build (make_runtime r) parse_ech_config (proxies m) published (Config.serve_port r)
                          (Config.allow_remote_raw_provider r) ctx None 0%nat in
  router ← of_result built;
  let success_at := if from_cache
    then match CatalogCache.s_fetched_at snapshot with Some t => Some t | None => st_modified_at u end
    else Some (w_now w) in
  let manager :=
    Status.update_subscription (CatalogCache.s_userinfo snapshot) (CatalogCache.s_fetched_at snapshot)
      (Status.MkService (Gateway.MkManager (Some router) next [])
         (Status.initialize_status from_cache success_at no_catalog) (Some transport) (λ _, new_node) None ∅) in
  Done (MkLoop
    (MkCatalogService c m (CatalogCache.s_fetched_at snapshot) account ctx manager disable_node_filter
       (event_log (st_now u)) files)
    (settings_of r) (Config.node_refresh_interval c)).

Section Loop.
Context (VERSION : bytes) (config_path : bytes) (bundle : CatalogService → json).

(** One turn: a command, or [None] for a tick; [closed] when nobody waits for the
    reply any more. The response, if one is sent, and the state. *)
Definition loop_turn (command : option Command) (closed : bool) (w : World) (l : LoopState) :
    option Response * LoopState :=
  let s := catalog l in
  if bool_decide (is_Some command) && closed then (None, l)
  else
    match command with
    | Some Diagnose => (Some (success "sanitized diagnostic bundle" (bundle s)), l)
    | _ =>
        let '(result, s) :=
          if reloading command then reload config_path w s
          else refresh_with_policy (provider_refresh command) w s in
        let reloaded := reloading command && match result with Done _ => true | Failed _ => false end in
        let l :=
          if reloaded
          then MkLoop s (settings_of (Config.runtime (service s))) (Config.node_refresh_interval (service s))
          else MkLoop s (settings l) (refresh_every l) in
        let response :=
          match result with
          | Done _ =>
              success (if reloading command then "configuration reloaded" else "node catalog refreshed")
                (if provider_refresh command then JNull else Status.status VERSION (w_now w) (manager s))
          | Failed chain =>
              failure (if reloading command
                       then "reload failed; active configuration retained; check config validity and restart-only fields"
                       else "refresh failed; previous catalog retained") (classify chain)
          end in
        ((λ _, response) <$> command, l)
    end.
End Loop.
End Service.

(** ** The steps of a transaction *)

Section Proofs.
Context `{Crates}.
Abbreviation Step A := (CatalogService → outcome A * CatalogService).

Definition gateway (s : CatalogService) : Gateway.GatewayManager := Status.manager (manager s).
Definition router (s : CatalogService) : option Gateway.Router := Gateway.router (gateway s).
Definition set_gateway (g : Gateway.GatewayManager) (s : CatalogService) : CatalogService :=
  set_manager (Status.set_manager g (manager s)) s.
(** Identities handed out by a build that came to nothing. *)
Definition with_ids (n : nat) (s : CatalogService) : CatalogService := set_gateway (Gateway.with_fresh n (gateway s)) s.
Abbreviation fresh s := (Gateway.fresh_id (gateway s)).

Lemma with_ids_id s : with_ids (fresh s) s = s.
Proof. destruct s as [? ? ? ? ? [[] ? ? ? ? ?] ? ? ?]. done. Qed.

Lemma then_inv {A B} (m : Step A) (f : A → Step B) s r s' :
  then_ m f s = (r, s') →
  (∃ chain, m s = (Failed chain, s') ∧ r = Failed chain) ∨ (∃ a s1, m s = (Done a, s1) ∧ f a s1 = (r, s')).
Proof. unfold then_. destruct (m s) as [[a|chain] s1]; [by right; eauto|]. intros [= <- <-]. left. eauto. Qed.

Lemma of_result_done {A} (r : result A) a : of_result r = Done a → r = Ok a.
Proof. destruct r; simpl; congruence. Qed.

Lemma current_inv s o s' :
  current s = (o, s') → s' = s ∧ ∀ r, o = Done r → router s = Some r.
Proof.
  unfold current, Status.current, router, gateway. intros [= <- <-]. split; [done|].
  intros r Hr%of_result_done. by apply ok_or_inv in Hr.
Qed.

Lemma build_router_inv m published rt ctx previous s o s' :
  build_router m published rt ctx previous s = (o, s') →
  ∃ n, s' = with_ids n s ∧ (fresh s <= n)%nat ∧
    ∀ r, o = Done r →
      Gateway.build (make_runtime rt) parse_ech_config (proxies m) published (Config.serve_port rt)
        (Config.allow_remote_raw_provider rt) ctx previous (fresh s) = (Ok r, n).
Proof.
  unfold build_router. fold (gateway s). destruct (Gateway.build _ _ _ _ _ _ _ _ _) as [built n] eqn:E.
  intros [= <- <-]. exists n. split_and!; [done| |].
  - pose proof (Gateway.build_next (make_runtime rt) parse_ech_config (proxies m) published (Config.serve_port rt)
      (Config.allow_remote_raw_provider rt) ctx previous (fresh s)) as Hn. by rewrite E in Hn.
  - intros r Hr%of_result_done. congruence.
Qed.

(** The gateway once a router has replaced another. *)
Definition replaced (previous new : Gateway.Router) (n : nat) (s : CatalogService) : CatalogService :=
  set_gateway (Gateway.MkManager (Some new) n
                 (Gateway.closed (gateway s) ++ Gateway.exclusive previous (Some new))) s.

Lemma replace_with_ids new previous n s :
  router s = Some previous → replace new (with_ids n s) = (Done tt, replaced previous new n s).
Proof.
  unfold router, gateway, replace, with_ids, replaced, set_gateway, gateway. intros Hr. simpl.
  unfold Gateway.replace, Gateway.with_fresh. simpl. rewrite Hr. done.
Qed.

(** The catalog a reload goes on with. *)
Definition reload_catalog (fetched : option CatalogCache.CatalogSnapshot) (s : CatalogService) : ManagedConfig :=
  match fetched with Some snapshot => CatalogCache.s_managed snapshot | None => managed s end.
Definition account_of (c : Config.ProxyConfig) : bytes :=
  CatalogCache.account_fingerprint hmac_sha256 hex_encode (Config.access_token (Config.runtime c)).

Lemma reload_inner_done path w s s' :
  reload_inner path w s = (Done tt, s') →
  ∃ next fetched published ctx previous new n,
    Config.load_proxy_config to_lowercase path = Ok next ∧ bindings_changed next (service s) = false ∧
    (if account_changed next (service s) || api_changed next (service s)
     then ∃ snapshot, load_managed_catalog (Config.runtime next) true (w_fetch w) = Done snapshot ∧
                      fetched = Some snapshot
     else fetched = None) ∧
    published_proxies (reload_catalog fetched s) (disable_filter s) (Config.node_filter (Config.runtime next))
      = Ok published ∧
    reconfigured (Config.runtime (service s)) (Config.runtime next) (context s) = Ok ctx ∧
    router s = Some previous ∧
    Gateway.build (make_runtime (Config.runtime next)) parse_ech_config (proxies (reload_catalog fetched s)) published
      (Config.serve_port (Config.runtime next)) (Config.allow_remote_raw_provider (Config.runtime next)) ctx
      (if Config.same_client_settings (Config.runtime (service s)) (Config.runtime next) then Some previous else None)
      (fresh s) = (Ok new, n) ∧
    s' = set_service next (account_of next) ctx
           (match fetched with
            | Some snapshot => install_fetched (account_of next) (w_io w) snapshot (replaced previous new n s)
            | None => replaced previous new n s end).
Proof.
  unfold reload_inner. destruct (Config.load_proxy_config to_lowercase path) as [next|e]; [|done].
  destruct (bindings_changed next (service s)) eqn:Eb; [done|].
  intros [(? & ? & ?)|(fetched & s1 & Hf & Hrun)]%then_inv; [done|]. unfold pure in Hf. injection Hf as Hf <-.
  apply then_inv in Hrun as [(? & ? & ?)|(published & s1 & Hp & Hrun)]; [done|]. injection Hp as Hp <-.
  apply then_inv in Hrun as [(? & ? & ?)|(ctx & s1 & Hc & Hrun)]; [done|]. injection Hc as Hc <-.
  apply then_inv in Hrun as [(? & ? & ?)|(previous & s1 & Hcur & Hrun)]; [done|].
  apply current_inv in Hcur as [-> Hprev]. specialize (Hprev _ eq_refl).
  apply then_inv in Hrun as [(? & ? & ?)|(new & s1 & Hb & Hrun)]; [done|].
  apply build_router_inv in Hb as (n & -> & _ & Hb). specialize (Hb _ eq_refl).
  apply then_inv in Hrun as [(? & ? & ?)|([] & s1 & Hr & Hrun)]; [done|].
  rewrite (replace_with_ids new previous) in Hr by done. injection Hr as <-. injection Hrun as <-.
  exists next, fetched, published, ctx, previous, new, n. apply of_result_done in Hp, Hc. split_and!; try done.
  destruct (account_changed next (service s) || api_changed next (service s)); [|by injection Hf].
  destruct (load_managed_catalog _ _ _) as [snapshot|]; [|done]. injection Hf as <-. eauto.
Qed.

Lemma reload_inner_failed path w s chain s' :
  reload_inner path w s = (Failed chain, s') → ∃ n, s' = with_ids n s ∧ (fresh s <= n)%nat.
Proof.
  assert (∃ n, s = with_ids n s ∧ (fresh s <= n)%nat) as Hid by (exists (fresh s); by rewrite with_ids_id).
  unfold reload_inner. destruct (Config.load_proxy_config to_lowercase path) as [next|e]; [|by intros [= _ <-]].
  destruct (bindings_changed next (service s)); [by intros [= _ <-]|].
  intros [(? & Hf & _)|(fetched & s1 & Hf & Hrun)]%then_inv; [by injection Hf as _ <-|]. injection Hf as _ <-.
  apply then_inv in Hrun as [(? & Hf & _)|(published & s1 & Hf & Hrun)]; [by injection Hf as _ <-|]. injection Hf as _ <-.
  apply then_inv in Hrun as [(? & Hf & _)|(ctx & s1 & Hf & Hrun)]; [by injection Hf as _ <-|]. injection Hf as _ <-.
  apply then_inv in Hrun as [(? & Hcur & _)|(previous & s1 & Hcur & Hrun)].
  { by apply current_inv in Hcur as [-> _]. }
  apply current_inv in Hcur as [-> Hprev]. specialize (Hprev _ eq_refl).
  apply then_inv in Hrun as [(? & Hb & _)|(new & s1 & Hb & Hrun)].
  { apply build_router_inv in Hb as (n & -> & ? & _). by exists n. }
  apply build_router_inv in Hb as (n & -> & _ & Hb).
  apply then_inv in Hrun as [(? & Hr & _)|([] & s1 & Hr & Hrun)];
    rewrite (replace_with_ids new previous) in Hr by done; [done|].
  injection Hr as <-. discriminate Hrun.
Qed.

(** ** What a reload compares *)

(** What only a restart can change. *)
Record same_bindings (a b : Config.ProxyConfig) : Prop := {
  sb_listen : Config.listen a = Config.listen b;
  sb_nodelist : Config.nodelist_listen a = Config.nodelist_listen b;
  sb_outbound : Config.outbound_ip a = Config.outbound_ip b;
  sb_udp_ports : Config.udp_port_range a = Config.udp_port_range b;
  sb_udp_address : Config.udp_advertise_address a = Config.udp_advertise_address b;
}.

(** Where a catalog comes from: the account and the API. *)
Record same_source (a b : Config.RuntimeConfig) : Prop := {
  ss_token : Config.access_token a = Config.access_token b;
  ss_url : Config.api_base_url a = Config.api_base_url b;
  ss_fallback : Config.api_fallback_urls a = Config.api_fallback_urls b;
  ss_secret : Config.app_secret a = Config.app_secret b;
}.

(** What a node's client is made with. *)
Record same_clients (a b : Config.RuntimeConfig) : Prop := {
  sc_token : Config.access_token a = Config.access_token b;
  sc_timeout : Config.request_timeout a = Config.request_timeout b;
  sc_dials : Config.dial_concurrency a = Config.dial_concurrency b;
  sc_node_dials : Config.per_node_dial_concurrency a = Config.per_node_dial_concurrency b;
  sc_idle : Config.reuse_max_idle a = Config.reuse_max_idle b;
  sc_uses : Config.reuse_max_uses a = Config.reuse_max_uses b;
  sc_idle_timeout : Config.reuse_idle_timeout a = Config.reuse_idle_timeout b;
}.

Lemma bindings_unchanged next active : bindings_changed next active = false ↔ same_bindings next active.
Proof.
  unfold bindings_changed. rewrite !orb_false_iff, !negb_false_iff, !bool_decide_eq_true.
  split; [by intros [[[[? ?] ?] ?] ?]|by intros []].
Qed.

Lemma source_unchanged next active :
  account_changed next active || api_changed next active = false ↔
  same_source (Config.runtime next) (Config.runtime active).
Proof.
  unfold account_changed, api_changed, bytes_eqb. rewrite !orb_false_iff, !negb_false_iff, !bool_decide_eq_true.
  split; [by intros (? & (? & ?) & ?)|intros []; by split_and!].
Qed.

Lemma clients_unchanged a b : Config.same_client_settings a b = true ↔ same_clients a b.
Proof.
  unfold Config.same_client_settings, bytes_eqb. rewrite !andb_true_iff, bool_decide_eq_true, !Z.eqb_eq.
  split; [by intros [[[[[[? ?] ?] ?] ?] ?] ?]|intros []; by split_and!].
Qed.

Lemma same_clients_refl c : same_clients c c.
Proof. by split. Qed.
Lemma same_clients_trans a b c : same_clients a b → same_clients b c → same_clients a c.
Proof. intros [] []. split; congruence. Qed.

(** ** What a transaction leaves alone *)

(** The running service: its configuration, catalog, account and routes, and the
    clients it has closed. *)
Record retained (s s' : CatalogService) : Prop := {
  ret_service : service s' = service s; ret_managed : managed s' = managed s;
  ret_fetched : fetched_at s' = fetched_at s; ret_account : fingerprint s' = fingerprint s;
  ret_context : context s' = context s; ret_filter : disable_filter s' = disable_filter s;
  ret_router : router s' = router s; ret_closed : Gateway.closed (gateway s') = Gateway.closed (gateway s);
}.

Lemma with_ids_retained n s : retained s (with_ids n s).
Proof. by split. Qed.

Lemma reload_failed_retained path w s chain s' : reload path w s = (Failed chain, s') → retained s s'.
Proof.
  unfold reload. destruct (reload_inner path w s) as [[[]|c] s1] eqn:E; [done|intros [= <- <-]].
  by apply reload_inner_failed in E as (n & -> & _).
Qed.

(** The clients of a router that replaces another after a reload. *)
Definition clients_after (s : CatalogService) (next : Config.ProxyConfig) (previous new : Gateway.Router)
    (gone : list nat) : Prop :=
  (∀ id, id ∈ gone ↔ ∃ n rt, Gateway.runtimes previous !! n = Some rt ∧ Gateway.r_id rt = id ∧
     ∀ rt', Gateway.runtimes new !! n = Some rt' → Gateway.r_id rt' ≠ id) ∧
  (same_clients (Config.runtime (service s)) (Config.runtime next) →
     ∀ n rt rt', Gateway.runtimes previous !! n = Some rt → Gateway.runtimes new !! n = Some rt' →
       Gateway.r_proxy rt' = Gateway.r_proxy rt → rt' = rt) ∧
  (¬ same_clients (Config.runtime (service s)) (Config.runtime next) →
     ∀ n rt, Gateway.runtimes new !! n = Some rt → (fresh s <= Gateway.r_id rt)%nat).

Lemma exclusive_gone previous new id :
  id ∈ Gateway.exclusive previous (Some new) ↔ ∃ n rt, Gateway.runtimes previous !! n = Some rt ∧ Gateway.r_id rt = id ∧
    ∀ rt', Gateway.runtimes new !! n = Some rt' → Gateway.r_id rt' ≠ id.
Proof.
  rewrite Gateway.exclusive_elem. unfold Gateway.shared. simpl.
  split; intros (n & rt & Hl & <- & Hs); exists n, rt; (split_and!; [done|done|]).
  - intros rt' Hl'. rewrite Hl' in Hs. by apply Nat.eqb_neq in Hs.
  - destruct (Gateway.runtimes new !! n) as [rt'|]; [|done]. apply Nat.eqb_neq. by apply Hs.
Qed.

Lemma reload_clients s next published ctx ps previous new n :
  Gateway.build (make_runtime (Config.runtime next)) parse_ech_config ps published
    (Config.serve_port (Config.runtime next)) (Config.allow_remote_raw_provider (Config.runtime next)) ctx
    (if Config.same_client_settings (Config.runtime (service s)) (Config.runtime next) then Some previous else None)
    (fresh s) = (Ok new, n) →
  clients_after s next previous new (Gateway.exclusive previous (Some new)).
Proof.
  intros Hbuild%Gateway.build_inv. destruct Hbuild as (b & Hbuilt & _ & Hrt & _ & _).
  split_and!; [apply exclusive_gone| |].
  - intros Hsame%clients_unchanged k rt rt' Hl Hk Hp. rewrite Hsame in Hbuilt. rewrite Hrt in Hk.
    destruct (Gateway.built_runtime _ _ _ _ Hbuilt k rt' Hk) as (_ & Hname & Hor).
    assert (Gateway.reusable (Some previous) (Gateway.r_proxy rt') = Some rt) as Hre.
    { unfold Gateway.reusable. simpl. rewrite Hname, Hl. simpl. by rewrite bool_decide_eq_true_2. }
    destruct Hor as [?|[? _]]; congruence.
  - intros Hdiff k rt Hk. rewrite <-clients_unchanged in Hdiff. apply not_true_is_false in Hdiff.
    rewrite Hdiff in Hbuilt. rewrite Hrt in Hk.
    destruct (Gateway.built_runtime _ _ _ _ Hbuilt k rt Hk) as (_ & _ & [Hre|[_ [? _]]]); [done|done].
Qed.

(** C12: A reload of the configuration is a transaction. When it fails, for
    whatever reason (an invalid file, a change of a listener or of the egress, a
    failed fetch, an empty selection, a node that cannot be built), the active
    configuration, catalog, account, router and cache file stay as they are, no
    client is closed and the traffic figures and catalog status are kept; only
    the event is logged. When it succeeds, the configuration is the file's, and
    both listeners, the egress address, the UDP ports and the advertised address
    are the old ones; the catalog is fetched anew exactly when the access token,
    the API's URLs or the app secret changed, and then written to the cache if that
    can be written, and else kept with its cache; the new
    router replaces the old one, and exactly the clients it does not share are
    closed. It shares the client of each node that is as it was, unless a setting
    the clients are made with changed (the token, the request timeout, the dial
    limits or one of the reuse settings): then every client is new. *)
Theorem reload_transaction path w s r s' :
  reload path w s = (r, s') →
  events s' = log_record ConfigReload (match r with Done _ => None | Failed chain => Some chain end) (w_now w) (events s) ∧
  match r with
  | Failed _ =>
      retained s s' ∧ files s' = files s ∧
      Status.subscription (manager s') = Status.subscription (manager s) ∧
      Status.catalog_status (manager s') = Status.catalog_status (manager s)
  | Done _ =>
      Config.load_proxy_config to_lowercase path = Ok (service s') ∧
      same_bindings (service s') (service s) ∧ fingerprint s' = account_of (service s') ∧
      (¬ same_source (Config.runtime (service s')) (Config.runtime (service s)) →
         ∃ snapshot, load_managed_catalog (Config.runtime (service s')) true (w_fetch w) = Done snapshot ∧
              managed s' = CatalogCache.s_managed snapshot ∧ fetched_at s' = CatalogCache.s_fetched_at snapshot ∧
              Status.subscription (manager s')
                = (λ i, (i, CatalogCache.s_fetched_at snapshot)) <$> CatalogCache.s_userinfo snapshot ∧
              ∀ data, yaml_encode (CatalogCache.envelope_of (fingerprint s') (managed s')
                                     (CatalogCache.s_userinfo snapshot) (fetched_at s')) = Ok data →
                CatalogCache.write_works (w_io w) →
                CatalogCache.cache (files s')
                  = Some (CatalogCache.MkFile (CatalogCache.written_private (files s)) data)) ∧
      (same_source (Config.runtime (service s')) (Config.runtime (service s)) →
         managed s' = managed s ∧ fetched_at s' = fetched_at s ∧ files s' = files s ∧
         Status.subscription (manager s') = Status.subscription (manager s)) ∧
      ∃ previous new gone, router s = Some previous ∧ router s' = Some new ∧
        Gateway.closed (gateway s') = Gateway.closed (gateway s) ++ gone ∧
        (∀ id, id ∈ gone ↔ ∃ n rt, Gateway.runtimes previous !! n = Some rt ∧ Gateway.r_id rt = id ∧
           ∀ rt', Gateway.runtimes new !! n = Some rt' → Gateway.r_id rt' ≠ id) ∧
        (same_clients (Config.runtime (service s)) (Config.runtime (service s')) →
           ∀ n rt rt', Gateway.runtimes previous !! n = Some rt → Gateway.runtimes new !! n = Some rt' →
             Gateway.r_proxy rt' = Gateway.r_proxy rt → rt' = rt) ∧
        (¬ same_clients (Config.runtime (service s)) (Config.runtime (service s')) →
           ∀ n rt, Gateway.runtimes new !! n = Some rt → (fresh s <= Gateway.r_id rt)%nat)
  end.
Proof.
  unfold reload. destruct (reload_inner path w s) as [[[]|chain] s1] eqn:E; intros [= <- <-];
    [|by apply reload_inner_failed in E as (n & -> & _)].
  apply reload_inner_done in E
    as (next & fetched & published & ctx & previous & new & n & Hload & Hb%bindings_unchanged & Hf & Hp & Hc & Hprev & Hbuild & ->).
  assert (Hrouter : ∃ gone, Gateway.closed (gateway s) ++ Gateway.exclusive previous (Some new) =
      Gateway.closed (gateway s) ++ gone ∧ clients_after s next previous new gone)
    by (exists (Gateway.exclusive previous (Some new)); split; [done|by eapply reload_clients]).
  destruct Hrouter as (gone & Hgone & Hshut & Hkept & Hnew).
  unfold record_event, set_events, install_fetched, store_or_log, store.
  destruct (account_changed next (service s) || api_changed next (service s)) eqn:Ech.
  - destruct Hf as (snapshot & Hfetch & ->).
    assert (Hne : ¬ same_source (Config.runtime next) (Config.runtime (service s)))
      by (rewrite <-source_unchanged; congruence).
    pose proof (CatalogCache.store_snapshot_cache yaml_encode (account_of next) (w_io w)
      (CatalogCache.s_managed snapshot) (CatalogCache.s_userinfo snapshot) (CatalogCache.s_fetched_at snapshot)
      (files s)) as [Hstored _]. simpl.
    destruct (CatalogCache.store_snapshot _ _ _ _ _ _ _) as [res f]. simpl. split; [done|].
    split_and!; [done|done|done| |done|by exists previous, new, gone].
    intros _. exists snapshot. split_and!; [done|done|done| |done]. by destruct (CatalogCache.s_userinfo snapshot).
  - subst fetched. apply source_unchanged in Ech. simpl. split; [done|].
    split_and!; [done..|by exists previous, new, gone].
Qed.

(** ** Refreshes *)

Lemma replacement_router_inv refreshed s o s' :
  replacement_router refreshed s = (o, s') →
  ∃ n, s' = with_ids n s ∧ (fresh s <= n)%nat ∧
  match o with
  | Failed _ => True
  | Done None => proxies refreshed = proxies (managed s) ∧ n = fresh s
  | Done (Some new) =>
      proxies refreshed ≠ proxies (managed s) ∧ ∃ published previous, router s = Some previous ∧
        published_proxies refreshed (disable_filter s) (Config.node_filter (Config.runtime (service s))) = Ok published ∧
        Gateway.build (make_runtime (Config.runtime (service s))) parse_ech_config (proxies refreshed) published
          (Config.serve_port (Config.runtime (service s))) (Config.allow_remote_raw_provider (Config.runtime (service s)))
          (context s) (Some previous) (fresh s) = (Ok new, n)
  end.
Proof.
  assert (s = with_ids (fresh s) s) as Hid by by rewrite with_ids_id.
  unfold replacement_router. case_bool_decide as Hsame; [intros [= <- <-]; by exists (fresh s)|].
  intros [(c & Hf & ->)|(published & s1 & Hp & Hrun)]%then_inv; [injection Hf as _ <-; by exists (fresh s)|].
  injection Hp as Hp <-. apply of_result_done in Hp.
  apply then_inv in Hrun as [(c & Hcur & ->)|(previous & s1 & Hcur & Hrun)];
    apply current_inv in Hcur as [-> Hprev]; [by exists (fresh s)|].
  specialize (Hprev _ eq_refl).
  apply then_inv in Hrun as [(c & Hb & ->)|(new & s1 & Hb & Hrun)];
    apply build_router_inv in Hb as (n & -> & Hn & Hb); [by exists n|].
  specialize (Hb _ eq_refl). injection Hrun as <- <-. exists n. split_and!; [done..|]. by exists published, previous.
Qed.

(** The write of a cache that is required: the file is the new one or the old. *)
Lemma store_inv account io snapshot s o s' :
  store account io snapshot s = (o, s') →
  ∃ f, s' = set_files f s ∧
    match o with
    | Done _ => ∃ data, yaml_encode (CatalogCache.envelope_of account (CatalogCache.s_managed snapshot)
                                (CatalogCache.s_userinfo snapshot) (CatalogCache.s_fetched_at snapshot)) = Ok data ∧
                        f = CatalogCache.MkFiles (Some (CatalogCache.MkFile (CatalogCache.written_private (files s)) data)) None
    | Failed _ => CatalogCache.cache f = CatalogCache.cache (files s)
    end.
Proof.
  unfold store, CatalogCache.store_snapshot, mbind, M_bind, lift.
  destruct (yaml_encode _) as [data|e]; simpl.
  - pose proof (CatalogCache.write_private_atomic_run io data (files s)) as Hw.
    destruct (CatalogCache.write_private_atomic io data (files s)) as [[[]|e] f]; intros [= <- <-]; exists f; eauto.
  - intros [= <- <-]. by exists (files s).
Qed.

(** The state once a refreshed catalog is in place. *)
Definition refreshed_state (snapshot : CatalogCache.CatalogSnapshot) (forced : bool) (w : World) (s : CatalogService) :
    CatalogService :=
  let s := update_subscription (CatalogCache.s_userinfo snapshot) (CatalogCache.s_fetched_at snapshot) s in
  let s := if negb forced then store_or_log (fingerprint s) (w_io w) snapshot s else s in
  set_catalog_of (CatalogCache.s_managed snapshot) (CatalogCache.s_fetched_at snapshot) s.

Lemma apply_refreshed_done snapshot forced w s s' :
  apply_refreshed_catalog snapshot forced w s = (Done tt, s') →
  ∃ replacement s1 s2 s3, replacement_router (CatalogCache.s_managed snapshot) s = (Done replacement, s1) ∧
    (if forced then store (fingerprint s) (w_io w) snapshot s1 = (Done tt, s2) else s2 = s1) ∧
    (match replacement with Some new => replace new s2 = (Done tt, s3) | None => s3 = s2 end) ∧
    s' = refreshed_state snapshot forced w s3.
Proof.
  unfold apply_refreshed_catalog.
  intros [(? & ? & ?)|(replacement & s1 & Hrep & Hrun)]%then_inv; [done|].
  apply then_inv in Hrun as [(? & ? & ?)|([] & s2 & Hst & Hrun)]; [done|].
  apply then_inv in Hrun as [(? & ? & ?)|([] & s3 & Hr & Hrun)]; [done|].
  injection Hrun as <-. exists replacement, s1, s2, s3.
  pose proof (replacement_router_inv _ _ _ _ Hrep) as (n & -> & _).
  split_and!; [done|by destruct forced; [|injection Hst]|by destruct replacement; [|injection Hr]|done].
Qed.

Lemma apply_refreshed_failed snapshot forced w s chain s' :
  apply_refreshed_catalog snapshot forced w s = (Failed chain, s') →
  retained s s' ∧ Status.subscription (manager s') = Status.subscription (manager s) ∧
  CatalogCache.cache (files s') = CatalogCache.cache (files s) ∧ (forced = false → files s' = files s) ∧
  Status.catalog_status (manager s') = Status.catalog_status (manager s) ∧ events s' = events s ∧
  (fresh s <= fresh s')%nat.
Proof.
  unfold apply_refreshed_catalog.
  intros [(c & Hrep & _)|(replacement & s1 & Hrep & Hrun)]%then_inv;
    apply replacement_router_inv in Hrep as (n & -> & Hn & Hrep); [done|].
  apply then_inv in Hrun as [(c & Hst & _)|([] & s2 & Hst & Hrun)].
  { destruct forced; [|done]. by apply store_inv in Hst as (f & -> & Hf). }
  apply then_inv in Hrun as [(c & Hr & _)|([] & s3 & Hr & Hrun)]; [|discriminate Hrun].
  destruct replacement as [new|]; [|done]. destruct Hrep as (_ & published & previous & Hprev & _).
  exfalso. assert (router s2 = Some previous) as Hs2.
  { destruct forced; [|by injection Hst as <-]. by apply store_inv in Hst as (f & -> & _). }
  unfold replace, Gateway.replace in Hr. unfold router, gateway in Hs2. by rewrite Hs2 in Hr.
Qed.

Lemma replace_inv new s o s' previous :
  router s = Some previous → replace new s = (o, s') →
  s' = set_gateway (Gateway.MkManager (Some new) (fresh s)
                      (Gateway.closed (gateway s) ++ Gateway.exclusive previous (Some new))) s.
Proof. unfold router, gateway, replace, Gateway.replace. intros Hr. rewrite Hr. by intros [= _ <-]. Qed.

(** The state after a successful application, and the file a forced one wrote. *)
Lemma apply_refreshed_state snapshot forced w s s' :
  apply_refreshed_catalog snapshot forced w s = (Done tt, s') →
  ∃ f g, s' = refreshed_state snapshot forced w (set_files f (set_gateway g s)) ∧
    (if forced
     then ∃ data, yaml_encode (CatalogCache.envelope_of (fingerprint s) (CatalogCache.s_managed snapshot)
                                 (CatalogCache.s_userinfo snapshot) (CatalogCache.s_fetched_at snapshot)) = Ok data ∧
                  f = CatalogCache.MkFiles (Some (CatalogCache.MkFile (CatalogCache.written_private (files s)) data)) None
     else f = files s) ∧
    ((proxies (CatalogCache.s_managed snapshot) = proxies (managed s) ∧ g = gateway s) ∨
     proxies (CatalogCache.s_managed snapshot) ≠ proxies (managed s) ∧
     ∃ published previous new n, router s = Some previous ∧
       g = Gateway.MkManager (Some new) n (Gateway.closed (gateway s) ++ Gateway.exclusive previous (Some new)) ∧
       published_proxies (CatalogCache.s_managed snapshot) (disable_filter s)
         (Config.node_filter (Config.runtime (service s))) = Ok published ∧
       Gateway.build (make_runtime (Config.runtime (service s))) parse_ech_config
         (proxies (CatalogCache.s_managed snapshot)) published
         (Config.serve_port (Config.runtime (service s))) (Config.allow_remote_raw_provider (Config.runtime (service s)))
         (context s) (Some previous) (fresh s) = (Ok new, n)).
Proof.
  intros Hrun. apply apply_refreshed_done in Hrun as (replacement & s1 & s2 & s3 & Hrep & Hst & Hr & ->).
  apply replacement_router_inv in Hrep as (n & -> & _ & Hrep).
  assert (∃ f, s2 = set_files f (with_ids n s) ∧
    if forced
    then ∃ data, yaml_encode (CatalogCache.envelope_of (fingerprint s) (CatalogCache.s_managed snapshot)
                                (CatalogCache.s_userinfo snapshot) (CatalogCache.s_fetched_at snapshot)) = Ok data ∧
                 f = CatalogCache.MkFiles (Some (CatalogCache.MkFile (CatalogCache.written_private (files s)) data)) None
    else f = files s) as (f & -> & Hf).
  { destruct forced; [by apply store_inv in Hst|]. exists (files s). subst s2. by destruct s. }
  destruct replacement as [new|].
  - destruct Hrep as (Hne & published & previous & Hprev & Hpub & Hbuild).
    apply (replace_inv _ _ _ _ previous) in Hr as ->; [|done].
    exists f, (Gateway.MkManager (Some new) n (Gateway.closed (gateway s) ++ Gateway.exclusive previous (Some new))).
    split_and!; [|done|right; split; [done|]; exists published, previous, new, n; split_and!; [done|reflexivity|done|done]].
    done.
  - destruct Hrep as [Hsame ->]. subst s3. exists f, (gateway s). split_and!; [|done|by left].
    by rewrite with_ids_id; destruct s as [? ? ? ? ? [[] ? ? ? ? ?] ? ? ?].
Qed.

(** What follows a failure. *)
Definition failed_state (chain : list cause) (forced : bool) (w : World) (s : CatalogService) : CatalogService :=
  let s := record_event CatalogRefresh (Failed chain) (w_now w)
             (update_catalog (Status.refresh_finished (Some chain) (w_now w)) s) in
  if negb forced && refused_account chain then forget_subscription (w_io w) s else s.

(** The account is refused: its traffic figures are forgotten, in the status and,
    when it can be written, in the cache, which keeps the active catalog. *)
Definition figures_forgotten (w : World) (s s' : CatalogService) : Prop :=
  Status.subscription (manager s') = None ∧
  (∀ data, yaml_encode (CatalogCache.envelope_of (fingerprint s) (managed s) None (fetched_at s)) = Ok data →
     CatalogCache.write_works (w_io w) →
     CatalogCache.cache (files s') = Some (CatalogCache.MkFile (CatalogCache.written_private (files s)) data)) ∧
  (¬ (CatalogCache.write_works (w_io w) ∧
      ∃ data, yaml_encode (CatalogCache.envelope_of (fingerprint s) (managed s) None (fetched_at s)) = Ok data) →
     CatalogCache.cache (files s') = CatalogCache.cache (files s)).

Definition is_refusal (k : ErrorKind) : Prop := k = Authentication ∨ k = Forbidden.

Lemma refused_account_iff chain : refused_account chain = true ↔ is_refusal (classify chain).
Proof. unfold refused_account, is_refusal. destruct (classify chain); split; intros; naive_solver. Qed.

Lemma forget_subscription_forgets w s : figures_forgotten w s (forget_subscription (w_io w) s).
Proof.
  unfold figures_forgotten, forget_subscription, store_or_log, store. simpl.
  pose proof (CatalogCache.store_snapshot_cache yaml_encode (fingerprint s) (w_io w) (managed s) None (fetched_at s)
    (files s)) as Hs.
  by destruct (CatalogCache.store_snapshot _ _ _ _ _ _ _) as [res f].
Qed.

Lemma failed_state_retained chain forced w s s1 :
  retained s s1 → Status.subscription (manager s1) = Status.subscription (manager s) →
  CatalogCache.cache (files s1) = CatalogCache.cache (files s) → (forced = false → files s1 = files s) →
  Status.catalog_status (manager s1) = Status.refresh_started (w_started w) (Status.catalog_status (manager s)) →
  events s1 = events s →
  let s' := failed_state chain forced w s1 in
  events s' = log_record CatalogRefresh (Some chain) (w_now w) (events s) ∧ retained s s' ∧
  (forced = false → is_refusal (classify chain) → figures_forgotten w s s') ∧
  (forced = true ∨ ¬ is_refusal (classify chain) →
     Status.subscription (manager s') = Status.subscription (manager s) ∧
     CatalogCache.cache (files s') = CatalogCache.cache (files s)) ∧
  refresh_failures (Status.catalog_status (manager s')) = refresh_failures (Status.catalog_status (manager s)) + 1 ∧
  c_last_success_at (Status.catalog_status (manager s')) = c_last_success_at (Status.catalog_status (manager s)).
Proof.
  intros Hret Hsub Hcache Hfiles Hstat Hev. cbv zeta. unfold failed_state. rewrite <-refused_account_iff.
  destruct (negb forced && refused_account chain) eqn:E.
  - apply andb_true_iff in E as [->%negb_true_iff Hr]. specialize (Hfiles eq_refl).
    set (s2 := record_event _ _ _ _).
    assert (figures_forgotten w s (forget_subscription (w_io w) s2)) as Hforgot.
    { pose proof (forget_subscription_forgets w s2) as Hf. unfold figures_forgotten in *.
      change (files s2) with (files s1) in Hf. change (fingerprint s2) with (fingerprint s1) in Hf.
      change (managed s2) with (managed s1) in Hf. change (fetched_at s2) with (fetched_at s1) in Hf.
      destruct Hret as [_ Hm Hfe Ha _ _ _ _]. by rewrite Hm, Hfe, Ha, Hfiles in Hf. }
    split_and!; [| |done|by intros [?|?]| |]; unfold forget_subscription, store_or_log, store; simpl;
      destruct (CatalogCache.store_snapshot _ _ _ _ _ _ _) as [res f]; simpl; rewrite ?Hev, ?Hstat; try done.
    by destruct Hret.
  - simpl. rewrite Hev, Hstat. split_and!; try done; [by destruct Hret|].
    intros -> Hr. by rewrite Hr in E.
Qed.

(** C18: A refresh of the catalog is a transaction. When the fetch fails or what
    it brought cannot be used, the configuration, catalog, account and router
    stay as they are and no client is closed; the failure is counted and logged.
    The cache file and the traffic figures stay too, with one exception: when the
    refresh is not forced and the failure is of the class [Authentication] or
    [Forbidden], and then only, the figures are forgotten, in the status and in
    the cache, which is written anew with the active catalog and no figures if it
    can be and else stays as it was. A forced refresh that fails leaves the cache
    file untouched, and one that succeeds has written the very catalog it serves,
    in a file with the mode of the temporary one (the owner's, unless a temporary
    file with another mode had been left there): a success is never reported on
    stale or unwritten data. Without a change of the nodes the router and its
    clients stay. *)
Theorem refresh_transaction forced w s r s' :
  refresh_with_policy forced w s = (r, s') →
  events s' = log_record CatalogRefresh (match r with Done _ => None | Failed chain => Some chain end) (w_now w) (events s) ∧
  match r with
  | Failed chain =>
      retained s s' ∧
      (forced = false → classify chain = Authentication ∨ classify chain = Forbidden → figures_forgotten w s s') ∧
      (forced = true ∨ ¬ (classify chain = Authentication ∨ classify chain = Forbidden) →
         Status.subscription (manager s') = Status.subscription (manager s) ∧
         CatalogCache.cache (files s') = CatalogCache.cache (files s)) ∧
      refresh_failures (Status.catalog_status (manager s')) = refresh_failures (Status.catalog_status (manager s)) + 1 ∧
      c_last_success_at (Status.catalog_status (manager s')) = c_last_success_at (Status.catalog_status (manager s))
  | Done _ =>
      service s' = service s ∧ context s' = context s ∧ fingerprint s' = fingerprint s ∧
      ∃ snapshot, load_managed_catalog (Config.runtime (service s)) true (w_fetch w) = Done snapshot ∧
        managed s' = CatalogCache.s_managed snapshot ∧ fetched_at s' = CatalogCache.s_fetched_at snapshot ∧
        Status.subscription (manager s')
          = (λ i, (i, CatalogCache.s_fetched_at snapshot)) <$> CatalogCache.s_userinfo snapshot ∧
        (forced = true → ∃ data,
           yaml_encode (CatalogCache.envelope_of (fingerprint s) (managed s') (CatalogCache.s_userinfo snapshot)
                          (fetched_at s')) = Ok data ∧
           CatalogCache.cache (files s')
             = Some (CatalogCache.MkFile (CatalogCache.written_private (files s)) data)) ∧
        (proxies (managed s') = proxies (managed s) →
           router s' = router s ∧ Gateway.closed (gateway s') = Gateway.closed (gateway s)) ∧
        c_last_success_at (Status.catalog_status (manager s')) = Some (w_now w)
  end.
Proof.
  unfold refresh_with_policy, finish_refresh.
  set (s0 := update_catalog _ s). change (service s0) with (service s).
  destruct (load_managed_catalog (Config.runtime (service s)) true (w_fetch w)) as [snapshot|chain] eqn:Hfetch.
  - destruct (apply_refreshed_catalog snapshot forced w s0) as [[[]|chain] s1] eqn:Happly; intros [= <- <-].
    + apply apply_refreshed_state in Happly as (f & g & -> & Hf & Hg).
      unfold refreshed_state, store_or_log, store. destruct forced; simpl.
      * split; [done|]. split_and!; [done..|]. exists snapshot. split_and!; [done|done|done| | | |done].
        -- by destruct (CatalogCache.s_userinfo snapshot).
        -- intros _. destruct Hf as (data & Hd & ->). by exists data.
        -- intros Hsame. by destruct Hg as [[_ ->]|[Hne _]].
      * destruct (CatalogCache.store_snapshot _ _ _ _ _ _ _) as [res f']. simpl.
        split; [done|]. split_and!; [done..|]. exists snapshot. split_and!; [done|done|done| |done| |done].
        -- by destruct (CatalogCache.s_userinfo snapshot).
        -- intros Hsame. by destruct Hg as [[_ ->]|[Hne _]].
    + apply apply_refreshed_failed in Happly as (Hret & Hsub & Hcache & Hfiles & Hstat & Hev & _).
      apply (failed_state_retained chain forced w s s1); try done. by destruct Hret.
  - intros [= <- <-]. by apply (failed_state_retained chain forced w s s0).
Qed.

(** ** The service serves its catalog *)

(** [made id]: the settings client [id] was made with. *)
Abbreviation Made := (nat → Config.RuntimeConfig).

(** A router serves a catalog: a runtime for each node and for nothing else,
    under its name, with clients made with the current settings; the documents
    are those of the nodes, and the selection of the filter is published. *)
Record serves (made : Made) (m : ManagedConfig) (c : Config.ProxyConfig) (no_filter : bool)
    (ctx : Gateway.GatewayContext) (next : nat) (r : Gateway.Router) : Prop := {
  sv_nodes p : p ∈ proxies m → ∃ rt, Gateway.runtimes r !! name p = Some rt ∧ Gateway.r_proxy rt = p;
  sv_runtimes n rt : Gateway.runtimes r !! n = Some rt →
    Gateway.r_proxy rt ∈ proxies m ∧ name (Gateway.r_proxy rt) = n ∧ (Gateway.r_id rt < next)%nat ∧
    same_clients (made (Gateway.r_id rt)) (Config.runtime c);
  sv_documents :
    let docs_of l := Gateway.render_provider_docs l (ip_to_string (Gateway.outbound_ip ctx))
                       (Config.serve_port (Config.runtime c)) (Gateway.context_secret ctx)
                       (Gateway.udp_relay_advertised ctx) in
    ∃ published, published_proxies m no_filter (Config.node_filter (Config.runtime c)) = Ok published ∧
      docs_of published = Ok (Gateway.filtered r) ∧ docs_of (proxies m) = Ok (Gateway.all r) ∧
      Gateway.raw_filtered r = RawProvider.raw_nodes parse_ech_config published ∧
      Gateway.raw_all r = RawProvider.raw_nodes parse_ech_config (proxies m);
  sv_secret : Gateway.routing_secret r = Gateway.context_secret ctx;
  sv_raw : Gateway.allow_remote_raw_provider r = Config.allow_remote_raw_provider (Config.runtime c);
}.

(** The configuration, the account, the secret and the router belong together. *)
Record consistent (made : Made) (s : CatalogService) : Prop := {
  con_secret : Gateway.derive_routing_secret hmac_sha256 (Config.access_token (Config.runtime (service s)))
               = Ok (Gateway.context_secret (context s));
  con_dial : Gateway.dial_limit (context s) = Config.dial_concurrency (Config.runtime (service s));
  con_account : fingerprint s = account_of (service s);
  con_router r : router s = Some r →
    serves made (managed s) (service s) (disable_filter s) (context s) (fresh s) r;
}.

(** A build for a configuration serves the catalog it was given. *)
Lemma build_serves made m c no_filter ctx previous next published new n :
  published_proxies m no_filter (Config.node_filter (Config.runtime c)) = Ok published →
  (∀ r k rt, previous = Some r → Gateway.runtimes r !! k = Some rt →
     (Gateway.r_id rt < next)%nat ∧
     same_clients (made (Gateway.r_id rt)) (Config.runtime c)) →
  Gateway.build (make_runtime (Config.runtime c)) parse_ech_config (proxies m) published
    (Config.serve_port (Config.runtime c)) (Config.allow_remote_raw_provider (Config.runtime c)) ctx previous next
    = (Ok new, n) →
  serves (λ id, if (id <? next)%nat then made id else Config.runtime c) m c no_filter ctx n new.
Proof.
  intros Hpub Hprev Hbuild.
  pose proof (Gateway.build_fields _ _ _ _ _ _ _ _ _ _ _ Hbuild) as (Hd & Ha & _ & Hrf & Hra & Hallow & Hsec).
  apply Gateway.build_inv in Hbuild as (b & Hbuilt & _ & Hrt & _ & ->).
  split; [| | |done|done].
  - intros p Hp. destruct (Gateway.built_added _ _ _ _ Hbuilt p Hp) as (rt & _ & Hx & Hpp & _).
    exists rt. by rewrite Hrt.
  - intros k rt Hk. rewrite Hrt in Hk.
    destruct (Gateway.built_runtime _ _ _ _ Hbuilt k rt Hk) as (Hin & Hname & Hor).
    pose proof (Gateway.built_next _ _ _ _ Hbuilt) as Hle.
    destruct Hor as [Hre|[_ Hid]].
    + apply Gateway.reusable_inv in Hre as (_ & r & Hr & Hl). destruct (Hprev r _ _ Hr Hl) as [Hlt Hs].
      rewrite (proj2 (Nat.ltb_lt _ _)) by done. split_and!; [done|done|lia|done].
    + destruct (Nat.ltb_spec (Gateway.r_id rt) next); [lia|]. split_and!; [done|done|lia|apply same_clients_refl].
  - cbv zeta in *. exists published. done.
Qed.

(** The settings of the clients after a transaction: the new ones are made with
    the configuration it ends with. *)
Definition made_after (made : Made) (s s' : CatalogService) : Made :=
  λ id, if (id <? fresh s)%nat then made id else Config.runtime (service s').

Lemma serves_later made made' m c no_filter ctx next next' r :
  serves made m c no_filter ctx next r → (next <= next')%nat → (∀ id, (id < next)%nat → made' id = made id) →
  serves made' m c no_filter ctx next' r.
Proof.
  intros [Hn Hr Hd Hs Ha] Hle Heq. split; try done.
  intros k rt Hk. destruct (Hr k rt Hk) as (? & ? & ? & Hset). rewrite Heq by done. split_and!; [done|done|lia|done].
Qed.

Lemma consistent_retained made s s' :
  consistent made s → retained s s' → (fresh s <= fresh s')%nat → consistent (made_after made s s') s'.
Proof.
  intros [Hsec Hdial Hacc Hr] [Hs Hm _ Ha Hc Hf Hro _] Hle. split.
  - by rewrite Hs, Hc.
  - by rewrite Hs, Hc.
  - by rewrite Ha, Hs.
  - intros r. rewrite Hro, Hs, Hm, Hf, Hc. intros Hlook. apply (serves_later made _ _ _ _ _ (fresh s)); [by apply Hr|done|].
    intros id Hid. unfold made_after. by rewrite (proj2 (Nat.ltb_lt _ _)).
Qed.

(** A part of the state that neither the routes nor the catalog depend on. *)
Lemma consistent_same made s s' :
  consistent made s → retained s s' → fresh s' = fresh s → consistent made s'.
Proof.
  intros [Hsec Hdial Hacc Hr] [Hs Hm _ Ha Hc Hf Hro _] Hle. split.
  - by rewrite Hs, Hc.
  - by rewrite Hs, Hc.
  - by rewrite Ha, Hs.
  - intros r. rewrite Hro, Hs, Hm, Hf, Hc, Hle. apply Hr.
Qed.

Lemma consistent_reload path w made s r s' :
  consistent made s → reload path w s = (r, s') → consistent (made_after made s s') s'.
Proof.
  intros Hcon. unfold reload. destruct (reload_inner path w s) as [[[]|chain] s1] eqn:E; intros [= <- <-].
  - apply reload_inner_done in E
      as (next & fetched & published & ctx & previous & new & n & _ & _ & _ & Hp & Hc & Hprev & Hbuild & ->).
    destruct Hcon as [_ Hdial _ Hr]. specialize (Hr _ Hprev).
    apply (build_serves made _ _ _ _ _ _ _ _ _ Hp) in Hbuild; [|intros x k rt Hx Hk].
    2: { destruct (Config.same_client_settings (Config.runtime (service s)) (Config.runtime next)) eqn:Esame; [|done].
         injection Hx as <-. destruct (sv_runtimes _ _ _ _ _ _ _ Hr k rt Hk) as (_ & _ & ? & ?).
         split; [done|]. apply clients_unchanged in Esame. by eapply same_clients_trans. }
    unfold reconfigured in Hc. apply result_bind_inv in Hc as (secret & Hsecret & Hctx). injection Hctx as <-.
    assert (∀ s', service s' = next → fingerprint s' = account_of next → managed s' = reload_catalog fetched s →
      disable_filter s' = disable_filter s → router s' = Some new → fresh s' = n →
      context s' = Gateway.MkContext (Gateway.outbound_ip (context s)) (Gateway.udp_relay_advertised (context s)) secret
        (if Config.dial_concurrency (Config.runtime (service s)) =? Config.dial_concurrency (Config.runtime next)
         then Gateway.dial_limit (context s) else Config.dial_concurrency (Config.runtime next)) →
      consistent (made_after made s s') s') as Hfinal.
    { intros s' E1 E2 E3 E4 E5 E6 E7. split.
      - by rewrite E1, E7.
      - rewrite E1, E7. simpl. destruct (_ =? _) eqn:Ed; [|done]. apply Z.eqb_eq in Ed. congruence.
      - by rewrite E2, E1.
      - intros x. rewrite E5. intros [= <-]. unfold made_after. by rewrite E1, E3, E4, E6, E7. }
    apply Hfinal; unfold install_fetched, store_or_log, store; destruct fetched as [snapshot|]; simpl; try done;
      by destruct (CatalogCache.store_snapshot _ _ _ _ _ _ _).
  - apply reload_inner_failed in E as (n & -> & Hn). by apply consistent_retained.
Qed.

Lemma retained_trans a b c : retained a b → retained b c → retained a c.
Proof. intros [] []. split; congruence. Qed.

Lemma failed_state_keeps chain forced w s :
  retained s (failed_state chain forced w s) ∧ fresh (failed_state chain forced w s) = fresh s.
Proof.
  unfold failed_state. destruct (negb forced && refused_account chain); [|done].
  unfold forget_subscription, store_or_log, store.
  by destruct (CatalogCache.store_snapshot _ _ _ _ _ _ _).
Qed.

(** A transaction that changes only the catalog and the gateway. *)
Lemma consistent_moved made s s' :
  consistent made s → service s' = service s → context s' = context s → fingerprint s' = fingerprint s →
  (∀ r, router s' = Some r →
     serves (made_after made s s') (managed s') (service s') (disable_filter s') (context s') (fresh s') r) →
  consistent (made_after made s s') s'.
Proof.
  intros [Hsec Hdial Hacc _] E1 E2 E3 Hr. split; [by rewrite E1, E2|by rewrite E1, E2|by rewrite E3, E1|exact Hr].
Qed.

Lemma managed_eq (a b : ManagedConfig) : proxies a = proxies b → a = b.
Proof. destruct a, b. simpl. by intros ->. Qed.

Lemma consistent_refresh forced w made s r s' :
  consistent made s → refresh_with_policy forced w s = (r, s') → consistent (made_after made s s') s'.
Proof.
  intros Hcon. unfold refresh_with_policy, finish_refresh.
  set (s0 := update_catalog _ s). change (service s0) with (service s).
  assert (∀ chain s1, retained s0 s1 → (fresh s0 <= fresh s1)%nat →
    consistent (made_after made s (failed_state chain forced w s1)) (failed_state chain forced w s1)) as Hfailed.
  { intros chain s1 Hret Hle. destruct (failed_state_keeps chain forced w s1) as [Hkeep Hids].
    apply consistent_retained; [done| |by rewrite Hids].
    apply (retained_trans _ s0); [done|]. by apply (retained_trans _ s1). }
  destruct (load_managed_catalog (Config.runtime (service s)) true (w_fetch w)) as [snapshot|chain] eqn:Hfetch.
  - destruct (apply_refreshed_catalog snapshot forced w s0) as [[[]|chain] s1] eqn:Happly; intros [= <- <-].
    + apply apply_refreshed_state in Happly as (f & g & -> & _ & Hg).
      assert (∀ s', service s' = service s → context s' = context s → fingerprint s' = fingerprint s →
        disable_filter s' = disable_filter s → managed s' = CatalogCache.s_managed snapshot → gateway s' = g →
        consistent (made_after made s s') s') as Hfinal.
      { intros s' E1 E2 E3 E4 E5 E6. apply consistent_moved; try done. intros x. unfold router. rewrite E1, E2, E4, E5, E6.
        destruct Hg as [[Hsame ->]|(_ & published & previous & new & n & Hprev & -> & Hpub & Hbuild)].
        - intros Hx. apply (con_router _ _ Hcon) in Hx. rewrite (managed_eq _ _ Hsame).
          apply (serves_later made _ _ _ _ _ (fresh s)); [done|done|].
          intros id Hid. unfold made_after. by rewrite (proj2 (Nat.ltb_lt _ _)).
        - simpl. intros [= <-]. apply (build_serves made _ _ _ _ _ _ _ _ _ Hpub) in Hbuild.
          + unfold made_after. rewrite E1. exact Hbuild.
          + intros y k rt [= <-] Hk. apply (con_router _ _ Hcon) in Hprev.
            by destruct (sv_runtimes _ _ _ _ _ _ _ Hprev k rt Hk) as (_ & _ & ? & ?). }
      apply Hfinal; unfold refreshed_state, store_or_log, store; destruct forced; simpl; try done;
        by destruct (CatalogCache.store_snapshot _ _ _ _ _ _ _).
    + apply apply_refreshed_failed in Happly as (Hret & _ & _ & _ & _ & _ & Hle). by apply Hfailed.
  - intros [= <- <-]. by apply Hfailed.
Qed.

Lemma refresh_service forced w s r s' :
  refresh_with_policy forced w s = (r, s') → service s' = service s.
Proof.
  unfold refresh_with_policy, finish_refresh. set (s0 := update_catalog _ s). change (service s0) with (service s).
  destruct (load_managed_catalog _ true (w_fetch w)) as [snapshot|chain].
  - destruct (apply_refreshed_catalog snapshot forced w s0) as [[[]|chain] s1] eqn:Happly; intros [= <- <-].
    + apply apply_refreshed_state in Happly as (f & g & -> & _).
      unfold refreshed_state, store_or_log, store. destruct forced; simpl; [done|].
      by destruct (CatalogCache.store_snapshot _ _ _ _ _ _ _).
    + apply apply_refreshed_failed in Happly as (Hret & _).
      apply (ret_service s (failed_state chain forced w s1)).
      apply (retained_trans _ s1); [by apply (retained_trans _ s0)|apply failed_state_keeps].
  - intros [= <- <-]. apply (ret_service s (failed_state chain forced w s0)).
    apply (retained_trans _ s0); [done|apply failed_state_keeps].
Qed.

(** ** The run of the service *)

Section Run.
Context (VERSION config_path : bytes) (bundle : CatalogService → json).

(** A start and the turns of the loop, with the settings the clients were made
    with. *)
Inductive service_run : Made → LoopState → Prop :=
  | run_start no_filter w u l :
      serve_start config_path no_filter w u = Done l →
      service_run (λ _, Config.runtime (service (catalog l))) l
  | run_turn made l command closed w response l' :
      service_run made l → loop_turn VERSION config_path bundle command closed w l = (response, l') →
      service_run (made_after made (catalog l) (catalog l')) l'.

Lemma retained_refl s : retained s s.
Proof. by split. Qed.

Definition loop_ok (made : Made) (l : LoopState) : Prop :=
  consistent made (catalog l) ∧
  settings l = settings_of (Config.runtime (service (catalog l))) ∧
  refresh_every l = Config.node_refresh_interval (service (catalog l)).

Lemma start_ok no_filter w u l :
  serve_start config_path no_filter w u = Done l → loop_ok (λ _, Config.runtime (service (catalog l))) l.
Proof.
  unfold serve_start. intros (c & _ & Hrun)%outcome_bind_inv.
  apply outcome_bind_inv in Hrun as ([[snapshot from_cache] f] & _ & Hrun).
  apply outcome_bind_inv in Hrun as (published & Hpub%of_result_done & Hrun).
  apply outcome_bind_inv in Hrun as (secret & Hsecret%of_result_done & Hrun).
  apply outcome_bind_inv in Hrun as (transport & _ & Hrun).
  destruct (Gateway.build _ _ _ _ _ _ _ _ _) as [built n] eqn:Hbuild.
  apply outcome_bind_inv in Hrun as (new & Hnew%of_result_done & Hrun). subst built. injection Hrun as <-.
  split_and!; [|done|done]. simpl.
  apply (build_serves (λ _, Config.runtime c) _ _ _ _ _ _ _ _ _ Hpub) in Hbuild; [|done].
  split; [done|done|done|]. intros r [= <-]. simpl.
  apply (serves_later _ _ _ _ _ _ n _ _ Hbuild); [done|]. intros id _. by destruct (id <? 0)%nat.
Qed.

Lemma loop_turn_ok made l command closed w response l' :
  loop_ok made l → loop_turn VERSION config_path bundle command closed w l = (response, l') →
  loop_ok (made_after made (catalog l) (catalog l')) l'.
Proof.
  intros (Hcon & Hset & Hevery). unfold loop_turn.
  assert (loop_ok (made_after made (catalog l) (catalog l)) l) as Hsame.
  { split_and!; [|done|done]. apply consistent_retained; [done|apply retained_refl|done]. }
  destruct (bool_decide (is_Some command) && closed); [by intros [= _ <-]|].
  assert (∀ result s', (if reloading command then reload config_path w (catalog l)
                        else refresh_with_policy (provider_refresh command) w (catalog l)) = (result, s') →
    consistent (made_after made (catalog l) s') s' ∧
    (reloading command && match result with Done _ => true | Failed _ => false end = false →
     service s' = service (catalog l))) as Hstep.
  { intros result s' Hrun. destruct (reloading command).
    - split; [by eapply consistent_reload|]. destruct result; [done|]. intros _.
      by apply reload_failed_retained in Hrun as [].
    - split; [by eapply consistent_refresh|]. intros _. by eapply refresh_service. }
  destruct command as [[]|]; [| | |by intros [= _ <-]|];
    (destruct (if reloading _ then _ else _) as [result s'] eqn:E; destruct (Hstep _ _ eq_refl) as [Hcon' Hserv];
     intros [= _ <-]; unfold loop_ok; simpl; simpl in Hserv).
  all: try (by rewrite (Hserv eq_refl)).
  all: destruct result; simpl; [done|by rewrite (Hserv eq_refl)].
Qed.

(** C6: Throughout a run of the service, after its start and any sequence of
    reloads, refreshes (of timers, of control commands and of HTTP requests) and
    diagnostics, whatever each of them meets, the parts of the service belong
    together: the router has one runtime for each node of the current catalog and
    no other, its documents are those of that catalog and of the selection the
    current filter makes of it, its secret is derived from the current access
    token, raw documents are allowed as configured, the cache is the current
    account's, and every client in use was made with settings equal to the
    current ones; the accept loop has the limits of the current configuration. *)
Theorem service_serves_catalog made l :
  service_run made l →
  consistent made (catalog l) ∧
  settings l = settings_of (Config.runtime (service (catalog l))) ∧
  (let current := Config.runtime (service (catalog l)) in
   handshake_timeout (settings l) = Z.max (Config.request_timeout current) (Config.from_secs 45) ∧
   tcp_idle_timeout (settings l) = Config.tcp_idle_timeout current ∧
   udp_idle_timeout (settings l) = Config.udp_idle_timeout current ∧
   max_connections (settings l) = Config.max_client_connections current) ∧
  refresh_every l = Config.node_refresh_interval (service (catalog l)).
Proof.
  intros Hrun. cut (loop_ok made l).
  { intros (Hcon & Hset & Hevery). rewrite Hset. by split_and!. }
  revert Hrun.
  induction 1 as [no_filter w u l Hstart|made l command closed w response l' _ IH Hturn];
    [by eapply start_ok|by eapply loop_turn_ok].
Qed.
End Run.
End Proofs.

(** ** A concrete service *)

Definition demo_cache_envelope : CatalogCache.CacheEnvelope :=
  CatalogCache.MkEnvelope 2 (lit "mock-secret") CatalogCache.demo_catalog (Some 1000) JNull.

#[local] Instance demo_files : Config.FileSystem := {
  metadata _ := Ok (true, 384); open_file _ := Ok (Ok Config.demo_file);
}.
#[local] Instance demo_crates : Crates := {
  crates_base64 := toy_base64; crates_url := Config.toy_url; crates_files := demo_files;
  Root := unit; EchConfig := unit; Value := unit; Identity := unit;
  to_lowercase := lower; is_alphanumeric _ := true; parse_ech_config _ := Ok tt;
  first_document _ := None; more_documents _ := false; proxy_of_value _ := None;
  hmac_sha256 key _ := key; hex_encode l := l; hex_decode := Some; base64_decode := Some;
  decode_envelope _ := None; age_open _ _ := None;
  yaml_encode _ := Ok [x01]; yaml_decode _ := Some (Ok demo_cache_envelope, false);
  set_path _ url := url; make_runtime _ _ := Ok tt; causes _ := [Unknown];
}.

Definition demo_fetch : Fetch :=
  MkFetch (Network.MkSnapshot Network.egress_empty None 1) 0 [] tt (λ _, MkAttempt 0 None) 0.
Definition demo_world : World := MkWorld demo_fetch CatalogCache.demo_io 2000 2001.
Definition demo_startup : Startup :=
  MkStartup (CatalogCache.MkFiles (Some (CatalogCache.MkFile true [x01])) None) true None
    (Ok (Status.MkTransport (Network.MkSnapshot Network.egress_empty None 1)
           (Trust.MkStore (Trust.MkState (Trust.MkTrust [tt] 1) true true) None false) no_dials)) 1000.
Definition demo_path : bytes := lit "oixc-proxy.conf".
Abbreviation demo_start := (serve_start demo_path true demo_world demo_startup).

(** A test of an outcome, evaluated. *)
Definition passes {A} (o : outcome A) (f : A → bool) : bool := match o with Done a => f a | Failed _ => false end.
Lemma passes_done {A} (o : outcome A) f : passes o f = true → ∃ a, o = Done a ∧ f a = true.
Proof. destruct o as [a|chain]; [by exists a|done]. Qed.

(** The service starts from its cache with the one node; a reload of the same
    file keeps the catalog and shares the client; and when no URL answers a
    refresh fails. *)
Abbreviation demo_test := (λ l : LoopState,
  bool_decide (proxies (managed (catalog l)) = proxies CatalogCache.demo_catalog)
  && bool_decide (is_Some (router (catalog l))) && bool_decide (CatalogCache.temporary (files (catalog l)) = None)
  && passes (reload demo_path demo_world (catalog l)).1 (λ _, true)
  && negb (passes (refresh_with_policy true demo_world (catalog l)).1 (λ _, true))).

Lemma demo_start_passes : passes demo_start demo_test = true.
Proof. by vm_compute. Qed.

Lemma demo_start_done : ∃ l, demo_start = Done l ∧ demo_test l = true.
Proof. exact (passes_done _ _ demo_start_passes). Qed.

Lemma service_serves_catalog_witness :
  ∃ l, demo_start = Done l ∧ service_run [] demo_path (λ _, JNull) (λ _, Config.runtime (service (catalog l))) l ∧
       Gateway.dial_limit (context (catalog l)) = Config.dial_concurrency (Config.runtime (service (catalog l))).
Proof.
  destruct demo_start_done as (l & Hl & _). 
  assert (service_run [] demo_path (λ _, JNull) (λ _, Config.runtime (service (catalog l))) l) as Hrun
    by exact (run_start [] demo_path (λ _, JNull) true demo_world demo_startup l Hl).
  exists l. split; [exact Hl|]. split; [exact Hrun|].
  destruct (service_serves_catalog [] demo_path (λ _, JNull) _ l Hrun) as [Hcon _].
  exact (con_dial _ _ Hcon).
Defined.

Lemma demo_transactions :
  ∃ l, demo_start = Done l ∧ CatalogCache.temporary (files (catalog l)) = None ∧
    (∃ r, (reload demo_path demo_world (catalog l)).1 = Done r) ∧
    ∃ chain, (refresh_with_policy true demo_world (catalog l)).1 = Failed chain.
Proof.
  destruct demo_start_done as (l & Hl & Ht). exists l. split; [exact Hl|]. cbv beta in Ht.
  apply andb_true_iff in Ht as [Ht Hrefresh]. apply andb_true_iff in Ht as [Ht Hreload].
  apply andb_true_iff in Ht as [_ Htmp]. apply bool_decide_eq_true in Htmp. split; [exact Htmp|].
  destruct (passes_done _ _ Hreload) as (r & Hr & _). split; [exists r; exact Hr|].
  apply negb_true_iff in Hrefresh. unfold passes in Hrefresh.
  destruct (refresh_with_policy true demo_world (catalog l)).1 as [x|chain]; [discriminate Hrefresh|by exists chain].
Qed.

Lemma reload_transaction_witness :
  ∃ l s', demo_start = Done l ∧ (reload demo_path demo_world (catalog l)).2 = s' ∧
          fingerprint s' = account_of (service s').
Proof.
  destruct demo_transactions as (l & Hl & _ & (r & Hr) & _). exists l, (reload demo_path demo_world (catalog l)).2.
  split; [exact Hl|]. split; [reflexivity|].
  pose proof (reload_transaction demo_path demo_world (catalog l) _ _ (surjective_pairing _)) as [_ H].
  rewrite Hr in H. exact (proj1 (proj2 (proj2 H))).
Defined.

Lemma refresh_transaction_witness :
  ∃ l chain s', demo_start = Done l ∧ refresh_with_policy true demo_world (catalog l) = (Failed chain, s') ∧
                managed s' = managed (catalog l).
Proof.
  destruct demo_transactions as (l & Hl & Htmp & _ & (chain & Hc)).
  exists l, chain, (refresh_with_policy true demo_world (catalog l)).2. split; [exact Hl|].
  pose proof (refresh_transaction true demo_world (catalog l) _ _ (surjective_pairing _))
    as [_ H]. rewrite Hc in H. split; [rewrite <-Hc; apply surjective_pairing|exact (ret_managed _ _ (proj1 H))].
Defined.
