(* ===== verification/Admission.v ===== *)
(** * Admission: the connection limit of the accept loop ([src/cli.rs])

    [serve_dynamic_listener] admits one connection after the other, with
    [admit_connection], under a limit that a reload may change, while the tasks of
    earlier connections end. The two interleave at the steps that other tasks can
    see: the atomic counter, the [Notify], and the [watch] channel of the
    settings. The listeners of a map ([serve_socks_listener]) share a semaphore
    instead ([Slots]). *)
From S2P Require Import Prelude.

(** Where the accept loop is: waiting for a connection, at the top of the loop of
    [admit_connection], about to count the connection (under the limit it read),
    in its [select!], or ended. *)
Inductive Position : Type := Accepting | Trying | Counting (limit : nat) | Selecting | Ended.

(** [max_connections] is the limit in the channel and [changed] whether the
    receiver has not seen it yet; [closed] when the sender is gone. [count] is the
    counter, [permit] the stored notification, and [dropping] the connections
    that have been subtracted but whose [notify_one] is yet to come. *)
Record State : Type := MkState {
  position : Position; max_connections : nat; changed : bool; closed : bool;
  count : nat; permit : bool; dropping : nat;
}.

Definition new (limit : nat) : State := MkState Accepting limit false false 0 false 0.

Definition at_position (p : Position) (s : State) : State :=
  MkState p (max_connections s) (changed s) (closed s) (count s) (permit s) (dropping s).
Definition seen (s : State) : State :=
  MkState (position s) (max_connections s) false (closed s) (count s) (permit s) (dropping s).
Definition with_count (n d : nat) (s : State) : State :=
  MkState (position s) (max_connections s) (changed s) (closed s) n (permit s) d.
Definition with_permit (b : bool) (s : State) : State :=
  MkState (position s) (max_connections s) (changed s) (closed s) (count s) b (dropping s).

(** *** The accept loop *)

(** [borrow_and_update], then the comparison with the counter. *)
Definition try_admit (s : State) : State :=
  let s := seen s in
  if (count s <? max_connections s)%nat then at_position (Counting (max_connections s)) s
  else at_position Selecting s.

(** [fetch_add]; the connection is served by a task of its own. *)
Definition count_in (s : State) : State := at_position Accepting (with_count (S (count s)) (dropping s) s).

(** The [select!]: the settings changed (or their sender is gone), or a notification.
    A notification that is dropped with the losing branch is handed back. *)
Definition wake (by_settings : bool) (s : State) : option State :=
  match position s with
  | Selecting =>
      if by_settings then
        if changed s then Some (at_position Trying (seen s))
        else if closed s then Some (at_position Ended s)
        else None
      else if permit s then Some (at_position Trying (with_permit false s)) else None
  | _ => None
  end.

(** One step of the accept loop. *)
Definition loop_step (arrival by_settings : bool) (s : State) : option State :=
  match position s with
  | Accepting => if arrival then Some (at_position Trying s) else None
  | Trying => Some (try_admit s)
  | Counting _ => Some (count_in s)
  | Selecting => wake by_settings s
  | Ended => None
  end.

(** *** The others *)

(** [Drop] of an [ActiveConnection]: [fetch_sub], then [notify_one]. *)
Definition drop_sub (s : State) : option State :=
  match count s with
  | O => None
  | S n => Some (with_count n (S (dropping s)) s)
  end.
Definition drop_notify (s : State) : option State :=
  match dropping s with
  | O => None
  | S d => Some (with_permit true (with_count (count s) d s))
  end.

(** [settings_tx.send_replace], and the end of the sender. *)
Definition send_settings (limit : nat) (s : State) : option State :=
  if closed s then None
  else Some (MkState (position s) limit true (closed s) (count s) (permit s) (dropping s)).
Definition close_settings (s : State) : State :=
  MkState (position s) (max_connections s) (changed s) true (count s) (permit s) (dropping s).

Inductive step : State → State → Prop :=
  | step_loop arrival by_settings s s' : loop_step arrival by_settings s = Some s' → step s s'
  | step_sub s s' : drop_sub s = Some s' → step s s'
  | step_notify s s' : drop_notify s = Some s' → step s s'
  | step_send limit s s' : send_settings limit s = Some s' → step s s'
  | step_close s : step s (close_settings s).

(** The states of a service started with a limit, with the limits it has had. *)
Inductive reachable : list nat → State → Prop :=
  | reach_new limit : reachable [limit] (new limit)
  | reach_step limits s s' : reachable limits s → step s s' → reachable (max_connections s' :: limits) s'.

(** ** No wakeup is lost *)

Record admission_ok (limits : list nat) (s : State) : Prop := {
  (** The limit in the channel is one of the limits. *)
  ok_limit : max_connections s ∈ limits;
  (** No more connections than some limit allowed. *)
  ok_count : count s = 0%nat ∨ ∃ limit, limit ∈ limits ∧ (count s <= limit)%nat;
  (** The place of the connection being counted is still free. *)
  ok_counting limit : position s = Counting limit → limit ∈ limits ∧ (count s < limit)%nat;
  (** A loop that waits with nothing to wake it has seen the current limit, and
      the connections that are counted or about to notify reach it. *)
  ok_waiting : position s = Selecting → changed s = false → permit s = false →
    (max_connections s <= count s + dropping s)%nat;
}.

Lemma admission_ok_new limit : admission_ok [limit] (new limit).
Proof. split; simpl; [by left|by left|done|done]. Qed.

Lemma admission_ok_step limits s s' :
  admission_ok limits s → step s s' → admission_ok (max_connections s' :: limits) s'.
Proof.
  intros [Hl Hc Hk Hw] Hstep.
  assert (∀ n m, (n <= count s)%nat → n = 0%nat ∨ ∃ limit, limit ∈ m :: limits ∧ (n <= limit)%nat) as Hcount.
  { intros n m Hn. destruct Hc as [?|(limit & ? & ?)]; [left; lia|right; exists limit; split; [by right|lia]]. }
  destruct Hstep as [arrival by_settings s s' Hs|s s' Hs|s s' Hs|limit s s' Hs|s].
  - unfold loop_step in Hs. destruct (position s) as [| |limit| |] eqn:Ep.
    + destruct arrival; [|done]. injection Hs as <-. split; simpl; [by left|by apply Hcount|done|done].
    + injection Hs as <-. unfold try_admit. cbn [seen count max_connections].
      destruct (count s <? max_connections s)%nat eqn:E; reflect_bools; split; simpl; try done; try by left.
      * by apply Hcount.
      * intros x [= <-]. split; [by left|done].
      * by apply Hcount.
      * intros _ _ _. lia.
    + injection Hs as <-. destruct (Hk limit eq_refl) as [Hin Hlt].
      split; simpl; [by left| |done|done]. right. exists limit. split; [by right|lia].
    + unfold wake in Hs. rewrite Ep in Hs. destruct by_settings.
      * destruct (changed s); [injection Hs as <-|destruct (closed s); [injection Hs as <-|done]];
          (split; simpl; [by left|by apply Hcount|done|done]).
      * destruct (permit s); [injection Hs as <-|done]. split; simpl; [by left|by apply Hcount|done|done].
    + done.
  - unfold drop_sub in Hs. destruct (count s) as [|n] eqn:En; [done|]. injection Hs as <-.
    split; simpl; [by left|apply Hcount; lia| |].
    + intros limit Hp. destruct (Hk limit Hp). split; [by right|lia].
    + intros Hp Hch Hpe. specialize (Hw Hp Hch Hpe). lia.
  - unfold drop_notify in Hs. destruct (dropping s) as [|d] eqn:Ed; [done|]. injection Hs as <-.
    split; simpl; [by left|by apply Hcount| |done].
    intros limit Hp. destruct (Hk limit Hp). split; [by right|done].
  - unfold send_settings in Hs. destruct (closed s); [done|]. injection Hs as <-.
    split; simpl; [by left|by apply Hcount| |done].
    intros x Hp. destruct (Hk x Hp). split; [by right|done].
  - split; simpl; [by left|by apply Hcount| |done].
    intros x Hp. destruct (Hk x Hp). split; [by right|done].
Qed.

Lemma reachable_ok limits s : reachable limits s → admission_ok limits s.
Proof. induction 1; [apply admission_ok_new|by eapply admission_ok_step]. Qed.

(** The steps of the accept loop alone. *)
Inductive own_steps : nat → State → State → Prop :=
  | own_none s : own_steps 0 s s
  | own_step n s s' s'' by_settings :
      loop_step false by_settings s = Some s' → own_steps n s' s'' → own_steps (S n) s s''.

(** C16: The limit of connections holds, and no connection waits while there is
    room. In every reachable state the counter is within a limit the service has
    had, and a connection is only counted under the limit its loop read, while
    there was room. And whenever the accept loop waits although there are fewer
    connections than the current limit, after any interleaving of ending
    connections and changes of the limit, then either a connection that has
    ended is about to notify it, or three steps of its own wake it and count its
    connection: no notification and no change of the settings is lost. *)
Theorem admission_no_lost_wakeup limits s :
  reachable limits s →
  (count s = 0%nat ∨ ∃ limit, limit ∈ limits ∧ (count s <= limit)%nat) ∧
  (∀ limit, position s = Counting limit → (count s < limit)%nat) ∧
  (position s = Selecting → (count s < max_connections s)%nat →
     is_Some (drop_notify s) ∨
     ∃ s', own_steps 3 s s' ∧ position s' = Accepting ∧ count s' = S (count s)).
Proof.
  intros [Hl Hc Hk Hw]%reachable_ok. split_and!; [done|intros limit Hp; apply (Hk limit Hp)|].
  intros Hp Hroom. destruct (dropping s) as [|d] eqn:Ed; [|left; unfold drop_notify; rewrite Ed; eauto].
  right. assert (∃ b s1, loop_step false b s = Some s1 ∧ position s1 = Trying ∧ count s1 = count s ∧
                   max_connections s1 = max_connections s) as (b & s1 & Hs1 & Hp1 & Hc1 & Hm1).
  { unfold loop_step, wake. rewrite Hp. destruct (changed s) eqn:Ech; [by eexists true, _|].
    destruct (permit s) eqn:Epe; [by eexists false, _|]. specialize (Hw Hp eq_refl eq_refl). lia. }
  assert (loop_step false true s1 = Some (at_position (Counting (max_connections s)) (seen s1))) as Hs2.
  { unfold loop_step. rewrite Hp1. unfold try_admit. cbn [seen count max_connections]. rewrite Hc1, Hm1.
    by rewrite (proj2 (Nat.ltb_lt _ _)). }
  eexists. split; [eapply own_step; [exact Hs1|]; eapply own_step; [exact Hs2|]; eapply (own_step _ _ _ _ true); [reflexivity|apply own_none]|].
  split; [done|]. simpl. by rewrite Hc1.
Qed.

(** A limit of one: the second connection waits; when the first ends and has
    notified, three steps count it in. *)
Definition demo_waiting : State := MkState Selecting 1 false false 0 true 0.

Lemma demo_reachable : ∃ limits, reachable limits demo_waiting.
Proof.
  eexists.
  eapply (reach_step _ (MkState Selecting 1 false false 0 false 1)); [|by eapply step_notify].
  eapply (reach_step _ (MkState Selecting 1 false false 1 false 0)); [|by eapply step_sub].
  eapply (reach_step _ (MkState Trying 1 false false 1 false 0)); [|by eapply (step_loop true true)].
  eapply (reach_step _ (MkState Accepting 1 false false 1 false 0)); [|by eapply (step_loop true true)].
  eapply (reach_step _ (MkState (Counting 1) 1 false false 0 false 0)); [|by eapply (step_loop true true)].
  eapply (reach_step _ (MkState Trying 1 false false 0 false 0)); [|by eapply (step_loop true true)].
  eapply (reach_step _ (new 1)); [|by eapply (step_loop true true)].
  apply reach_new.
Qed.

Lemma admission_no_lost_wakeup_witness :
  (∃ limits, reachable limits demo_waiting) ∧
  ∃ s', own_steps 3 demo_waiting s' ∧ position s' = Accepting ∧ count s' = 1%nat.
Proof.
  split; [exact demo_reachable|]. destruct demo_reachable as [limits Hr].
  destruct (admission_no_lost_wakeup limits demo_waiting Hr) as (_ & _ & H).
  destruct H as [[x Hx]|H]; [reflexivity|simpl; lia|discriminate Hx|exact H].
Defined.

(** ** The listeners of a map

    [serve_socks_listener]: the listeners of all ports share one semaphore, and a
    listener holds the connection it accepted until it has a permit. *)
Module Slots.

(** The permits nobody holds, the listeners that wait for one, in order, the
    sessions that hold one, and the listeners whose connections were started. *)
Record Slots : Type := MkSlots { available : nat; waiting : list nat; sessions : nat; started : list nat }.

Definition new_slots (max_client_connections : nat) : Slots := MkSlots max_client_connections [] 0 [].

Inductive slot_event : Type :=
  (** the listener of a port has accepted a connection *)
  | Connection (listener : nat)
  (** a session has ended and drops its permit *)
  | SessionEnd.

(** [acquire_owned] takes a permit or queues; a permit that is dropped goes to
    the first in the queue. *)
Definition slot_turn (e : slot_event) (s : Slots) : option Slots :=
  match e with
  | Connection i =>
      if bool_decide (i ∈ waiting s) then None
      else match available s with
           | S n => Some (MkSlots n (waiting s) (S (sessions s)) (started s ++ [i]))
           | O => Some (MkSlots 0 (waiting s ++ [i]) (sessions s) (started s))
           end
  | SessionEnd =>
      match sessions s, waiting s with
      | O, _ => None
      | S n, i :: waiting => Some (MkSlots (available s) waiting (S n) (started s ++ [i]))
      | S n, [] => Some (MkSlots (S (available s)) [] n (started s))
      end
  end.

Fixpoint slot_run (es : list slot_event) (s : Slots) : option Slots :=
  match es with
  | [] => Some s
  | e :: es => slot_turn e s ≫= slot_run es
  end.

(** The sessions that end in a run. *)
Fixpoint ends (es : list slot_event) : nat :=
  match es with [] => 0 | SessionEnd :: es => S (ends es) | Connection _ :: es => ends es end.

Record slots_ok (limit : nat) (s : Slots) : Prop := {
  so_permits : (available s + sessions s)%nat = limit;
  so_queue : waiting s ≠ [] → available s = 0%nat;
  so_distinct : NoDup (waiting s);
}.

Lemma slot_turn_ok limit e s s' : slots_ok limit s → slot_turn e s = Some s' → slots_ok limit s'.
Proof.
  intros [Hp Hq Hd] Ht. destruct e as [i|]; simpl in Ht.
  - case_bool_decide as Hi; [done|]. destruct (available s) as [|n] eqn:E; injection Ht as <-.
    + split; simpl; [lia|done|]. apply NoDup_app. split_and!; [done| |apply NoDup_singleton].
      intros x Hx ->%list_elem_of_singleton. done.
    + split; simpl; [lia| |done]. intros Hw. specialize (Hq Hw). done.
  - destruct (sessions s) as [|n] eqn:E; [done|]. destruct (waiting s) as [|i w] eqn:Ew; injection Ht as <-.
    + split; simpl; [lia|done|constructor].
    + apply NoDup_cons in Hd as [_ Hd]. split; simpl; [lia| |done]. intros _. by apply Hq.
Qed.

Lemma slot_run_ok limit es s s' : slots_ok limit s → slot_run es s = Some s' → slots_ok limit s'.
Proof.
  revert s. induction es as [|e es IH]; intros s Hs Hr; simpl in Hr; [by injection Hr as <-|].
  destruct (slot_turn e s) as [t|] eqn:Et; [|done]. eapply IH; [by eapply slot_turn_ok|done].
Qed.

(** The order of the queue is the order of the starts. *)
Lemma slot_turn_order e s s' : slot_turn e s = Some s' →
  started s ++ waiting s `prefix_of` started s' ++ waiting s' ∨ available s ≠ 0%nat.
Proof.
  intros Ht. destruct e as [i|]; simpl in Ht.
  - case_bool_decide; [done|]. destruct (available s) eqn:E; [|by right]. injection Ht as <-. left. simpl.
    exists [i]. by rewrite app_assoc.
  - destruct (sessions s) as [|n]; [done|]. destruct (waiting s) as [|i w]; injection Ht as <-; left; simpl.
    + done.
    + by rewrite <-app_assoc.
Qed.

Lemma slot_run_order limit es s s' : slots_ok limit s → slot_run es s = Some s' →
  started s ++ waiting s `prefix_of` started s' ++ waiting s' ∧
  (length (started s) + Nat.min (ends es) (length (waiting s)) <= length (started s'))%nat.
Proof.
  revert s. induction es as [|e es IH]; intros s Hs Hr; simpl in Hr; [injection Hr as <-; split; [done|simpl; lia]|].
  destruct (slot_turn e s) as [t|] eqn:Et; [|done].
  destruct (IH t) as [Hpre Hlen]; [by eapply slot_turn_ok|done|]. destruct Hs as [Hp Hq Hd].
  assert (Hturn : started s ++ waiting s `prefix_of` started t ++ waiting t).
  { destruct (slot_turn_order e s t Et) as [|Hav]; [done|].
    assert (waiting s = []) as Hw by (destruct (waiting s); [done|by destruct Hav; apply Hq]).
    destruct e as [i|]; simpl in Et; rewrite Hw in Et |- *.
    - case_bool_decide; [done|]. destruct (available s); [done|]. injection Et as <-. simpl.
      rewrite !app_nil_r. by exists [i].
    - destruct (sessions s); [done|]. by injection Et as <-. }
  split; [by etrans|]. destruct e as [i|]; simpl in Et |- *.
  - case_bool_decide; [done|]. destruct (available s) as [|n] eqn:Ea; injection Et as <-; simpl in Hlen;
      rewrite !length_app in *; simpl in *; lia.
  - destruct (sessions s) as [|n]; [done|]. destruct (waiting s) as [|i w]; injection Et as <-; simpl in *;
      rewrite ?length_app in *; simpl in *; lia.
Qed.

(** C37: The connection limit of a map holds over all its ports, and no port is
    starved. At any time the sessions and the free permits are exactly the
    limit, a connection waits only while the limit is reached, and a listener
    holds at most one waiting connection; and the connection that waits behind
    [k] others is started, in that order, once [k + 1] sessions have ended,
    whatever connections arrive in the meantime. *)
Theorem map_slots_fair limit es s es' s' :
  slot_run es (new_slots limit) = Some s → slot_run es' s = Some s' →
  (available s + sessions s)%nat = limit ∧ (waiting s ≠ [] → sessions s = limit) ∧ NoDup (waiting s) ∧
  ∀ k i, waiting s !! k = Some i → (k < ends es')%nat → started s' !! (length (started s) + k)%nat = Some i.
Proof.
  intros Hr Hr'. assert (Hs : slots_ok limit s).
  { eapply slot_run_ok; [|exact Hr]. split; simpl; [lia|done|constructor]. }
  pose proof Hs as [Hp Hq Hd]. split_and!; [done| |done|].
  { intros Hw. specialize (Hq Hw). lia. }
  intros k i Hk Hlt. destruct (slot_run_order limit es' s s' Hs Hr') as [[l Hpre] Hlen].
  apply lookup_lt_Some in Hk as Hkl.
  assert (Hl : (started s' ++ waiting s') !! (length (started s) + k)%nat = Some i).
  { rewrite Hpre. rewrite lookup_app_l by (rewrite length_app; lia).
    rewrite lookup_app_r by lia. by replace (_ + k - _)%nat with k by lia. }
  rewrite lookup_app_l in Hl by lia. done.
Qed.

(** Two permits, four ports: the third waits behind the fourth. *)
Definition demo_slots : list slot_event := [Connection 0; Connection 1; Connection 3; Connection 2].

Lemma map_slots_fair_witness :
  ∃ s s', slot_run demo_slots (new_slots 2) = Some s ∧ slot_run [SessionEnd; Connection 3; SessionEnd] s = Some s' ∧
    started s' !! 3%nat = Some 2%nat.
Proof.
  eexists _, _. split; [reflexivity|]. split; [reflexivity|].
  destruct (map_slots_fair 2 demo_slots _ [SessionEnd; Connection 3; SessionEnd] _ eq_refl eq_refl) as (_ & _ & _ & H).
  apply (H 1%nat 2%nat); [reflexivity|simpl; lia].
Defined.
End Slots.
