(* ===== verification/Login.v ===== *)
(** * Login: importing a token and rewriting the configuration ([run_login] of [src/cli.rs])

    [replace_config_token], and the login itself: a new configuration file is
    reserved, the token is exchanged at the API, and the file is written. The
    exchange is [Api.rebind_token]; what the system makes of the file is an
    argument. *)
From S2P Require Import Prelude Bytes Text Utf8 Config.
From S2P Require Api Subscription.
Local Open Scope Z_scope.

(** ** Rewriting the token of a file *)

(** The value of a line that sets the token, as it stands. *)
Definition token_setting (line : bytes) : option bytes :=
  if starts_with (lit "#") (trim_start line) then None
  else match split_once "=" line with
       | Some (key, current) => if bytes_eqb (trim key) (lit "token") then Some current else None
       | None => None
       end.

(** The loop over the lines, with what has been found and written. *)
Fixpoint replace_loop (expected token : bytes) (found : bool) (updated : bytes) (ls : list bytes) : result (bool * bytes) :=
  match ls with
  | [] => Ok (found, updated)
  | line :: ls =>
      match token_setting line with
      | Some current =>
          if found || negb (bytes_eqb (trim current) expected)
          then Err (Bail "proxy config changed while preparing login")
          else replace_loop expected token true (updated ++ lit "token=" ++ token ++ [x0a]) ls
      | None => replace_loop expected token found (updated ++ line ++ [x0a]) ls
      end
  end.

Definition replace_config_token (content expected token : bytes) : result bytes :=
  '(found, updated) ← replace_loop expected token false [] (Text.lines content);
  if negb found then Err (Bail "proxy config requires token") else Ok updated.

(** ** The settings of the rewritten file *)

(** A token as the API gives it ([Api.parse_rebound_token]), and the placeholder
    of the template: visible ASCII. *)
Definition token_ok (token : bytes) : Prop :=
  token ≠ [] ∧ Forall (λ b, 33 <= b2z b <= 126) token.

Lemma pending_ok : token_ok (lit "pending").
Proof. split; [done|]. repeat constructor. all: by vm_compute. Qed.

Lemma token_ascii token : token_ok token → ascii token.
Proof. intros [_ H]. eapply Forall_impl; [exact H|]. simpl. intros b Hb. lia. Qed.

Lemma token_trim token : token_ok token → trim token = token.
Proof.
  intros Ht. rewrite Subscription.trim_ascii_text by (by apply token_ascii). apply Subscription.trim_list_none.
  destruct Ht as [_ Ht]. eapply Forall_impl; [exact Ht|]. intros b Hb. simpl in Hb. unfold compose, is_whitespace. lia.
Qed.

Lemma token_no_lf token : token_ok token → x0a ∉ token.
Proof. intros [_ H] Hin. rewrite Forall_forall in H. specialize (H _ Hin). assert (b2z x0a = 10) by done. lia. Qed.

Lemma trim_idemp l : utf8 l → trim (trim l) = trim l.
Proof.
  intros Hl. unfold trim. assert (Forall own_char (trim_list ws (chars l))) as Hown.
  { pose proof (chars_own l Hl) as H. rewrite Forall_forall in *. intros c Hc. apply H.
    rewrite trim_list_rtrim in Hc. by apply rtrim_sub, drop_while_sub in Hc. }
  rewrite (proj1 (chars_unchars _ Hown)). f_equal.
  by rewrite (trim_list_rtrim ws (chars l)), trim_list_of_rtrim, <-trim_list_rtrim, trim_list_drop.
Qed.

(** A line of the file, as the parser sees it. *)
Definition view (line : bytes) : bool * option (bytes * bytes) := (ignored line, setting line).

Lemma view_trim a b : trim a = trim b → view a = view b.
Proof. unfold view, ignored, setting. by intros ->. Qed.

Lemma token_setting_view line : utf8 line →
  match token_setting line with
  | Some current => ignored line = false ∧
      setting line = if bool_decide (trim current = []) then None else Some (lit "token", trim current)
  | None => ignored line = true ∨ ∀ k x, setting line = Some (k, x) → k ≠ lit "token"
  end.
Proof.
  intros Hl. unfold token_setting, ignored, setting.
  change (lit "#") with ["#"%byte]. rewrite (starts_trim_start "#" line) by done.
  destruct (starts_with ["#"%byte] (trim line)) eqn:Hhash; [left; by rewrite orb_true_r|].
  pose proof (split_once_trim "=" line ltac:(done) ltac:(done) Hl) as Hsplit.
  destruct (split_once "=" line) as [[k v]|].
  - destruct Hsplit as (k' & v' & Hs & Hk & Hv).
    assert (trim line ≠ []) as Hne by (intros Hnil; by rewrite Hnil in Hs).
    rewrite Hs. simpl. rewrite Hk, Hv. unfold bytes_eqb. case_bool_decide as Hkey.
    + rewrite (bool_decide_eq_false_2 (trim line = [])) by done. split; [done|]. rewrite Hkey.
      rewrite (bool_decide_eq_false_2 (lit "token" = [])) by done.
      change (bool_decide (lit "token" ∈ allowed)) with true. by rewrite orb_false_r.
    + right. intros k0 x. destruct (_ || _); [done|]. by intros [= <- _].
  - rewrite Hsplit. by right.
Qed.

Lemma new_line_view token : token_ok token →
  utf8 (lit "token=" ++ token) ∧ x0a ∉ lit "token=" ++ token ∧ view (lit "token=" ++ token) = (false, Some (lit "token", token)).
Proof.
  intros Ht. assert (utf8 (lit "token=" ++ token)) as Hu.
  { apply ascii_utf8, Forall_app. split; [by repeat constructor|by apply token_ascii]. }
  split; [done|]. split.
  { rewrite not_elem_of_app. split; [|by apply token_no_lf]. intros Hin. by vm_compute in Hin; repeat (apply elem_of_cons in Hin as [[=]|Hin]); apply not_elem_of_nil in Hin. }
  assert (token_setting (lit "token=" ++ token) = Some token) as Hset.
  { unfold token_setting. replace (starts_with (lit "#") (trim_start (lit "token=" ++ token))) with false.
    - assert (split_once "=" (lit "token=" ++ token) = Some (lit "token", token)) as ->; [|done].
      apply split_once_spec. split; [done|]. intros Hin. by vm_compute in Hin; repeat (apply elem_of_cons in Hin as [[=]|Hin]); apply not_elem_of_nil in Hin.
    - unfold trim_start. change (lit "token=" ++ token) with ("t"%byte :: lit "oken=" ++ token).
      rewrite chars_cons by done. done. }
  pose proof (token_setting_view _ Hu) as H. rewrite Hset in H. destruct H as [Hi Hs].
  unfold view. rewrite Hi, Hs, (token_trim token Ht). destruct Ht as [Hne _]. by rewrite bool_decide_eq_false_2.
Qed.

Definition TOKEN : bytes := lit "token".

(** A line as the rewritten file has it. *)
Definition new_line (token line : bytes) : bytes :=
  match token_setting line with Some _ => lit "token=" ++ token | None => line end.
Definition update_setting (token : bytes) (s : bytes * bytes) : bytes * bytes :=
  if bool_decide (s.1 = TOKEN) then (TOKEN, token) else s.

Lemma setting_lines_cons l ls :
  mapM setting (setting_lines (l :: ls))
  = if ignored l then mapM setting (setting_lines ls)
    else s ← setting l; rest ← mapM setting (setting_lines ls); Some (s :: rest).
Proof. unfold setting_lines. rewrite filter_cons. by destruct (ignored l). Qed.

Lemma new_lines_settings token (ls : list bytes) (settings : list (bytes * bytes)) :
  token_ok token → Forall utf8 ls → mapM setting (setting_lines ls) = Some settings →
  mapM setting (setting_lines (strip_suffix_byte x0d <$> (new_line token <$> ls))) = Some (update_setting token <$> settings).
Proof.
  intros Ht Hls. revert settings. induction Hls as [|l ls Hl Hls IH]; intros settings; [by intros [= <-]|].
  rewrite !fmap_cons, !setting_lines_cons.
  destruct (new_line_view token Ht) as (Hu & _ & Hnew).
  assert (view (strip_suffix_byte x0d (new_line token l)) = view (new_line token l)) as Hview.
  { apply view_trim, trim_strip_cr. unfold new_line. by destruct (token_setting l). }
  pose proof (token_setting_view l Hl) as Hv. unfold new_line in *.
  destruct (token_setting l) as [current|]; rewrite ?Hnew in Hview;
    pose proof (f_equal fst Hview) as Hi; pose proof (f_equal snd Hview) as Hs; unfold view in Hi, Hs;
    cbn [fst snd] in Hi, Hs; rewrite Hi, Hs.
  - destruct Hv as [Hig Hset]. rewrite Hig, Hset. case_bool_decide; [done|]. cbn [mbind option_bind].
    destruct (mapM setting (setting_lines ls)) as [rest|]; [|done]. intros [= <-]. by rewrite (IH rest eq_refl).
  - destruct (ignored l) eqn:Hig; [apply IH|]. destruct Hv as [?|Hkey]; [done|].
    destruct (setting l) as [[k x]|] eqn:Hset; [|done]. cbn [mbind option_bind].
    destruct (mapM setting (setting_lines ls)) as [rest|]; [|done]. intros [= <-]. rewrite (IH rest eq_refl).
    simpl. unfold update_setting at 2. simpl. by rewrite bool_decide_eq_false_2 by (by eapply Hkey).
Qed.

(** The loop over lines that set the token once, to what is expected. *)
Lemma replace_loop_new expected token found updated (ls : list bytes) (settings : list (bytes * bytes)) :
  Forall utf8 ls → mapM setting (setting_lines ls) = Some settings → NoDup settings.*1 →
  (∀ x, (TOKEN, x) ∈ settings → x = expected) → (found = true → TOKEN ∉ settings.*1) →
  replace_loop expected token found updated ls
  = Ok (found || bool_decide (TOKEN ∈ settings.*1), updated ++ unlines (new_line token <$> ls)).
Proof.
  intros Hls. revert found updated settings. induction Hls as [|l ls Hl Hls IH]; intros found updated settings Hm Hnd Hx Hf.
  { injection Hm as <-. simpl. unfold unlines. simpl. by rewrite orb_false_r, app_nil_r. }
  rewrite setting_lines_cons in Hm. cbn [replace_loop fmap list_fmap]. unfold new_line at 1, unlines.
  pose proof (token_setting_view l Hl) as Hv. destruct (token_setting l) as [current|].
  - destruct Hv as [Hig Hset]. rewrite Hig, Hset in Hm. case_bool_decide; [done|]. cbn [mbind option_bind] in Hm.
    destruct (mapM setting (setting_lines ls)) as [rest|]; [|done]. injection Hm as <-. simpl in *.
    apply NoDup_cons in Hnd as [Hn Hnd].
    destruct found; [exfalso; apply Hf; [done|by left]|]. simpl.
    rewrite (Hx (trim current)) by (by left). unfold bytes_eqb. rewrite bool_decide_eq_true_2 by done. simpl.
    rewrite (IH true _ rest eq_refl Hnd); [|intros x Hin; apply Hx; by right|by intros _].
    simpl. unfold unlines. rewrite <-!app_assoc. simpl. by rewrite <-?app_assoc.
  - assert (∃ s, mapM setting (setting_lines ls) = Some s ∧ NoDup s.*1 ∧ (TOKEN ∈ s.*1 ↔ TOKEN ∈ settings.*1) ∧
                 (∀ p, p ∈ s → p ∈ settings)) as (s & Hs & Hnds & Hin & Hsub).
    { destruct (ignored l); [by exists settings|]. destruct Hv as [?|Hkey]; [done|].
      destruct (setting l) as [[k x]|]; [|done]. cbn [mbind option_bind] in Hm.
      destruct (mapM setting (setting_lines ls)) as [rest|]; [|done]. injection Hm as <-. simpl in *.
      apply NoDup_cons in Hnd as [_ Hnd]. exists rest. split_and!; [done|done| |by intros p; right].
      rewrite elem_of_cons. split; [by right|]. intros [Heq|]; [|done]. by destruct (Hkey k x eq_refl). }
    rewrite (IH found _ s Hs Hnds); [|intros x Hp; by apply Hx, Hsub|by intros Hfound Htok; apply (Hf Hfound), Hin].
    rewrite (bool_decide_ext _ _ Hin). unfold unlines. csimpl. by rewrite <-!app_assoc.
Qed.

Lemma update_settings_map token (settings : list (bytes * bytes)) :
  TOKEN ∈ settings.*1 → NoDup settings.*1 →
  NoDup (update_setting token <$> settings).*1 ∧
  (list_to_map (update_setting token <$> settings) : values) = <[TOKEN := token]> (list_to_map settings).
Proof.
  assert ((update_setting token <$> settings).*1 = settings.*1) as Hkeys.
  { rewrite <-list_fmap_compose. apply list_fmap_ext. intros i [k x] _. unfold update_setting. simpl. by case_bool_decide. }
  intros Hin Hnd. rewrite Hkeys. split; [done|].
  apply map_eq. intros k. destruct (decide (k = TOKEN)) as [->|Hk].
  - rewrite lookup_insert_eq. apply elem_of_list_to_map_1; [by rewrite Hkeys|].
    apply list_elem_of_fmap in Hin as ([k x] & Heq & Hin). simpl in Heq. subst k.
    apply list_elem_of_fmap. exists (TOKEN, x). split; [|done]. unfold update_setting. by rewrite bool_decide_eq_true_2.
  - rewrite lookup_insert_ne by done. clear Hin Hnd Hkeys. induction settings as [|[k' x] settings IH]; [done|].
    rewrite fmap_cons.
    assert (update_setting token (k', x) = if bool_decide (k' = TOKEN) then (TOKEN, token) else (k', x)) as -> by done.
    case_bool_decide as Hk'; rewrite !list_to_map_cons.
    + subst k'. by rewrite !lookup_insert_ne by done.
    + destruct (decide (k = k')) as [->|]; [by rewrite !lookup_insert_eq|by rewrite !lookup_insert_ne by done].
Qed.

(** Rewriting an accepted file with the token it has succeeds, the rewritten file
    has the same settings but for the token, and its other lines are the same, up
    to white space at their ends. *)
Lemma replace_config_token_exact content expected token v :
  token_ok token → parse_proxy_config content = Ok v → v !! TOKEN = Some expected →
  ∃ updated, replace_config_token content expected token = Ok updated ∧
    parse_proxy_config updated = Ok (<[TOKEN := token]> v) ∧
    Forall2 (λ old new, trim new = trim old ∨ is_Some (token_setting old) ∧ new = lit "token=" ++ token)
      (Text.lines content) (Text.lines updated).
Proof.
  intros Ht [Hu (settings & Hm & Hnd & ->)]%parse_proxy_config_exact Hv. apply from_utf8_iff in Hu.
  apply elem_of_list_to_map_2 in Hv.
  pose proof (lines_utf8 content Hu) as Hls. set (ls := Text.lines content) in *.
  assert (TOKEN ∈ settings.*1) as Hin by (apply list_elem_of_fmap; by exists (TOKEN, expected)).
  destruct (new_line_view token Ht) as (Hut & Hlf & _).
  assert (Forall utf8 (new_line token <$> ls)) as Hnew.
  { apply Forall_fmap. eapply Forall_impl; [exact Hls|]. intros l Hl. unfold compose, new_line. by destruct (token_setting l). }
  assert (Text.lines (unlines (new_line token <$> ls)) = strip_suffix_byte x0d <$> (new_line token <$> ls)) as Hlines.
  { apply lines_unlines, Forall_fmap. eapply Forall_impl; [exact (lines_no_lf content)|]. intros l Hl.
    unfold compose, new_line. by destruct (token_setting l). }
  exists (unlines (new_line token <$> ls)). split_and!.
  - unfold replace_config_token. fold ls. rewrite (replace_loop_new expected token false [] ls settings); [|done..| |done].
    + simpl. by rewrite bool_decide_eq_true_2.
    + intros x Hx. pose proof (elem_of_list_to_map_1 (M := gmap bytes) _ _ _ Hnd Hx) as Hx'.
      rewrite (elem_of_list_to_map_1 (M := gmap bytes) _ _ _ Hnd Hv) in Hx'. by injection Hx'.
  - apply parse_proxy_config_exact. split; [by apply from_utf8_iff, utf8_unlines|].
    rewrite Hlines. destruct (update_settings_map token settings Hin Hnd) as [Hnd' Hmap].
    exists (update_setting token <$> settings). split_and!; [by apply new_lines_settings|done|by rewrite Hmap].
  - rewrite Hlines. rewrite <-list_fmap_compose. apply Forall2_fmap_r, Forall2_same_length_lookup_2; [done|].
    intros i l l' Hl Hl'. simplify_eq. unfold compose, new_line. rewrite Forall_lookup in Hls. specialize (Hls i l Hl).
    destruct (token_setting l) as [current|] eqn:Hset; [|left; by apply trim_strip_cr].
    right. split; [done|]. unfold strip_suffix_byte. rewrite reverse_app.
    destruct (reverse token) as [|b r] eqn:Er; [by destruct Ht as [[] _]; rewrite <-(reverse_involutive token), Er|].
    simpl. destruct (byteb x0d b) eqn:Eb; [|done]. exfalso. apply byteb_eq in Eb as <-.
    assert (x0d ∈ token) as Hcr by (rewrite <-elem_of_reverse, Er; by left).
    destruct Ht as [_ Ht]. rewrite Forall_forall in Ht. specialize (Ht _ Hcr). assert (b2z x0d = 13) by done. lia.
Qed.

(** ** The configuration of the rewritten file *)

Lemma setting_trimmed l k x : utf8 l → setting l = Some (k, x) → trim x = x.
Proof.
  intros Hl. unfold setting. destruct (split_once "=" (trim l)) as [[key value]|] eqn:E; [|done]. simpl.
  destruct (_ || _); [done|]. intros [= _ <-]. apply split_once_spec in E as [E _].
  assert (utf8 (trim l)) as Ht.
  { unfold trim. apply chars_unchars. pose proof (chars_own l Hl) as H. rewrite Forall_forall in *. intros c Hc. apply H.
    rewrite trim_list_rtrim in Hc. by apply rtrim_sub, drop_while_sub in Hc. }
  rewrite E in Ht. apply utf8_cut in Ht as [_ Hv]; [|done]. by apply trim_idemp.
Qed.

Lemma parsed_trimmed content v k x : parse_proxy_config content = Ok v → v !! k = Some x → trim x = x.
Proof.
  intros [Hu (settings & Hm & Hnd & ->)]%parse_proxy_config_exact Hx%elem_of_list_to_map_2. apply from_utf8_iff in Hu.
  pose proof (lines_utf8 content Hu) as Hls. clear Hnd. revert settings Hm Hx.
  induction Hls as [|l ls Hl _ IH]; intros settings Hm Hx; [by injection Hm as <-; apply not_elem_of_nil in Hx|].
  rewrite setting_lines_cons in Hm. destruct (ignored l); [by eapply IH|].
  destruct (setting l) as [[k' x']|] eqn:E; [|done]. cbn [mbind option_bind] in Hm.
  destruct (mapM setting (setting_lines ls)) as [rest|]; [|done]. injection Hm as <-.
  apply elem_of_cons in Hx as [[= -> ->]|Hx]; [by eapply setting_trimmed|by eapply IH].
Qed.

Section Token.
Context `{UrlCrate} `{FileSystem} (to_lowercase : bytes → bytes).

(** The same settings with another token. *)
Definition runtime_with_token (token : bytes) (r : RuntimeConfig) : RuntimeConfig :=
  MkRuntime token (app_secret r) (api_base_url r) (api_fallback_urls r) (node_filter r) (listen_address r) (serve_port r)
    (map_base_port r) (request_timeout r) (tcp_idle_timeout r) (udp_idle_timeout r) (allow_remote_access r)
    (allow_remote_raw_provider r) (socks_username r) (socks_password r) (max_client_connections r) (dial_concurrency r)
    (per_node_dial_concurrency r) (reuse_max_idle r) (reuse_max_uses r) (reuse_idle_timeout r)
    (perf_trace_sample_every r).
Definition with_token (token : bytes) (c : ProxyConfig) : ProxyConfig :=
  MkProxyConfig (runtime_with_token token (runtime c)) (listen c) (nodelist_listen c) (outbound_ip c) (udp_port_range c)
    (udp_advertise_address c) (node_refresh_interval c).
Definition file_with_token (token : bytes) (f : FileConfig) : FileConfig :=
  MkFile token (f_access_token_file f) (f_app_secret f) (f_api_base_url f) (f_api_fallback_urls f) (f_filter_lines f)
    (f_filter_regions f) (f_filter_include f) (f_filter_exclude f) (f_listen_address f) (f_serve_port f)
    (f_map_base_port f) (f_request_timeout f) (f_tcp_idle_timeout f) (f_udp_idle_timeout f) (f_allow_remote_access f)
    (f_allow_remote_raw_provider f) (f_socks_username f) (f_socks_password_file f) (f_max_client_connections f)
    (f_dial_concurrency f) (f_per_node_dial_concurrency f) (f_reuse_max_idle f) (f_reuse_max_uses f)
    (f_reuse_idle_timeout f) (f_perf_trace_sample_every f) (f_allow_insecure_file_permissions f).

Lemma read_inline_token dir f : f_access_token_file f = [] →
  read_access_token dir f
  = if bool_decide (trim (f_access_token f) = []) then Err (Bail "configure exactly one of accessToken or accessTokenFile")
    else Ok (trim (f_access_token f)).
Proof.
  intros Hf. unfold read_access_token. rewrite Hf. rewrite (bool_decide_eq_true_2 (trim [] = [])) by done.
  by case_bool_decide.
Qed.

(** Everything but the token is read from the rest of the file. *)
Lemma runtime_token dir f r token :
  f_access_token_file f = [] → token_ok token → runtime_from_raw to_lowercase dir f = Ok r →
  access_token r = trim (f_access_token f) ∧
  runtime_from_raw to_lowercase dir (file_with_token token f) = Ok (runtime_with_token token r).
Proof.
  intros Hf Ht. unfold runtime_from_raw. rewrite !read_inline_token by done.
  cbn [file_with_token f_access_token]. rewrite (token_trim token Ht).
  rewrite (bool_decide_eq_false_2 (token = [])) by (by destruct Ht).
  destruct (bool_decide (trim (f_access_token f) = [])); [done|]. cbn [mbind result_bind].
  change (api_urls (file_with_token token f)) with (api_urls f).
  change (check_listen_address (file_with_token token f)) with (check_listen_address f).
  change (resolve_socks_credentials dir (file_with_token token f)) with (resolve_socks_credentials dir f).
  destruct (api_urls f) as [[base fallbacks]|]; [|done]. simpl.
  assert (∀ a c, check_remote a (file_with_token token f) c = check_remote a f c) as Hremote by done.
  repeat match goal with
  | |- ?m ≫= _ = Ok _ → _ => rewrite ?Hremote; destruct m; [|done]; cbn [mbind result_bind]
  end.
  by intros [= <-].
Qed.

Lemma file_of_values_token v token old l f :
  file_of_values v old l = Ok f →
  f_access_token f = old ∧ f_access_token_file f = [] ∧
  file_of_values (<[TOKEN := token]> v) token l = Ok (file_with_token token f).
Proof.
  assert (∀ name, name ≠ TOKEN → <[TOKEN := token]> v !! name = v !! name) as Hv
    by (intros; by apply lookup_insert_ne).
  unfold file_of_values, config_usize, config_string. rewrite !Hv by done.
  repeat match goal with
  | |- ?m ≫= _ = Ok _ → _ => destruct m; [|done]; cbn [mbind result_bind]
  end.
  by intros [= <-].
Qed.

(** The configuration that is made of the rewritten settings is the old one with
    the new token. *)
Lemma proxy_config_token content content' v c token :
  token_ok token → parse_proxy_config content = Ok v → proxy_config_from_bytes to_lowercase content = Ok c →
  parse_proxy_config content' = Ok (<[TOKEN := token]> v) →
  proxy_config_from_bytes to_lowercase content' = Ok (with_token token c).
Proof.
  intros Ht Hp Hc Hp'. unfold proxy_config_from_bytes in *. rewrite Hp in Hc. rewrite Hp'. cbn [mbind result_bind] in *.
  assert (∀ name, name ≠ TOKEN → <[TOKEN := token]> v !! name = v !! name) as Hv
    by (intros; by apply lookup_insert_ne).
  unfold listen_value in *. rewrite !Hv by done. change (lit "token") with TOKEN in *. rewrite lookup_insert_eq.
  cbn [mbind option_bind]. rewrite (bool_decide_eq_false_2 (token = [])) by (by destruct Ht). cbn [ok_or mbind result_bind].
  apply result_bind_inv in Hc as (old & Hold%ok_or_inv & Hc).
  destruct (v !! TOKEN) as [t|] eqn:Etok; [|done]. cbn [mbind option_bind] in Hold.
  destruct (bool_decide (t = [])); [done|]. injection Hold as ->.
  pose proof (parsed_trimmed _ _ _ _ Hp Etok) as Htrim.
  revert Hc.
  repeat match goal with
  | |- ?m ≫= _ = Ok _ → _ => lazymatch m with file_of_values _ _ _ => fail | _ => destruct m; [|done]; cbn [mbind result_bind] end
  | |- (if ?b then Err _ else _) = Ok _ → _ => destruct b; [done|]
  end.
  intros (f & (Hft & Hff & Hf)%(file_of_values_token v token) & (r & Hr & [= <-])%result_bind_inv)%result_bind_inv.
  destruct (runtime_token [] f r token Hff Ht Hr) as [Haccess Hr'].
  rewrite Hf. cbn [mbind result_bind]. by rewrite Hr'.
Qed.

(** The token of a configuration is the value of its file. *)
Lemma proxy_config_from_bytes_token content v c :
  parse_proxy_config content = Ok v → proxy_config_from_bytes to_lowercase content = Ok c →
  v !! TOKEN = Some (access_token (runtime c)).
Proof.
  intros Hp Hc. unfold proxy_config_from_bytes in Hc. rewrite Hp in Hc. cbn [mbind result_bind] in Hc.
  apply result_bind_inv in Hc as (old & Hold%ok_or_inv & Hc). change (lit "token") with TOKEN in Hold.
  destruct (v !! TOKEN) as [t|] eqn:Etok; [|done]. cbn [mbind option_bind] in Hold.
  destruct (bool_decide (t = [])); [done|]. injection Hold as ->.
  pose proof (parsed_trimmed _ _ _ _ Hp Etok) as Htrim.
  do 3 apply result_bind_inv in Hc as (? & _ & Hc). destruct (listens_conflict _ _); [done|].
  do 3 apply result_bind_inv in Hc as (? & _ & Hc). destruct (negb _); [done|].
  apply result_bind_inv in Hc as (? & _ & Hc). apply result_bind_inv in Hc as (f & Hf & Hc).
  apply result_bind_inv in Hc as (r & Hr & [= <-]).
  apply (file_of_values_token v []) in Hf as (Hft & Hff & _).
  destruct (runtime_token [] f r (lit "pending") Hff pending_ok Hr) as [Haccess _].
  simpl. by rewrite Haccess, Hft, Htrim.
Qed.
End Token.

(** ** The login *)

Section Login.
Context `{UrlCrate} `{FileSystem} (to_lowercase : bytes → bytes).
(** serde_json's reading of the API's answer. *)
Context (decode_rebound : bytes → option (Z * option bytes)).

(** What a login meets: reading the configuration, making the client, creating
    the file besides its having to be new, the answer ([None] when it is late),
    removing the file again, and after how many bytes writing fails, if it does,
    and the sync. *)
Record World : Type := MkWorld {
  l_read : result bytes; l_client : result unit; l_create : result unit;
  l_sent : option (Api.outcome Api.HttpResponse); l_removed : bool; l_write : option nat; l_sync : result unit;
}.

(** The configuration and the template, before anything is changed. *)
Definition prepare (w : World) : result bytes :=
  content ← l_read w;
  service ← proxy_config_from_bytes to_lowercase content;
  text ← ok_or (Context "read proxy config" (Bail "invalid utf-8 sequence")) (from_utf8 content);
  template ← replace_config_token text (access_token (runtime service)) (lit "pending");
  l_client w;;
  Ok template.

(** [create_exclusive], on the file at the output path. *)
Definition create_exclusive (w : World) (output : option bytes) : result unit :=
  match output with
  | Some _ => Err (Context "create output file" (Bail "File exists"))
  | None => l_create w
  end.

(** [run_login]: the result, the file at the output path, and the token printed
    for the operator. *)
Definition run_login (w : World) (output : option bytes) : result unit * option bytes * option bytes :=
  match template ← prepare w; create_exclusive w output;; Ok template with
  | Err e => (Err e, output, None)
  | Ok template =>
      match Api.rebind_token decode_rebound (l_sent w) with
      | Api.Failed _ =>
          (Err (Bail "Helper login failed; no automatic retry was made"), if l_removed w then None else Some [], None)
      | Api.Done token =>
          match replace_config_token template (lit "pending") token with
          | Err e => (Err e, Some [], Some token)
          | Ok updated =>
              match l_write w with
              | Some written => (Err (Bail "save Helper login config"), Some (take written updated), Some token)
              | None => match l_sync w with
                        | Ok _ => (Ok tt, Some updated, None)
                        | Err e => (Err (Context "sync Helper login config" e), Some updated, Some token)
                        end
              end
          end
      end
  end.

Lemma rebound_token_ok sent token : Api.rebind_token decode_rebound sent = Api.Done token → token_ok token.
Proof.
  unfold Api.rebind_token. destruct sent as [sent|]; [|done].
  intros (response & _ & Hr)%Api.outcome_bind_inv. apply Api.outcome_bind_inv in Hr as ([] & _ & Hr).
  apply Api.outcome_bind_inv in Hr as (body & _ & Hr). unfold Api.parse_rebound_token in Hr.
  destruct (decode_rebound body) as [[ret data]|]; [|done]. destruct (negb _); [done|].
  destruct (_ || _) eqn:E; [done|]. injection Hr as <-. reflect_bools. split; [done|].
  apply Forall_forall. intros b Hb%list_elem_of_In. match goal with Hx : existsb _ _ = false |- _ => rename Hx into Hno end.
  destruct (is_ascii_ws b || negb (Api.is_ascii_graphic b)) eqn:Eb.
  - rewrite (proj2 (existsb_exists _ _)) in Hno; [done|]. by exists b.
  - reflect_bools. match goal with Hg : Api.is_ascii_graphic b = true |- _ => unfold Api.is_ascii_graphic in Hg end. lia.
Qed.

Lemma prepare_inv w template : prepare w = Ok template →
  ∃ content c v, l_read w = Ok content ∧ proxy_config_from_bytes to_lowercase content = Ok c ∧
    parse_proxy_config content = Ok v ∧ parse_proxy_config template = Ok (<[TOKEN := lit "pending"]> v).
Proof.
  unfold prepare. intros (content & Hread & Hp)%result_bind_inv. apply result_bind_inv in Hp as (c & Hc & Hp).
  apply result_bind_inv in Hp as (text & Htext%ok_or_inv & Hp). apply result_bind_inv in Hp as (t & Ht & Hp).
  apply result_bind_inv in Hp as ([] & _ & [= ->]).
  assert (text = content) as ->.
  { unfold from_utf8 in Htext. destruct (forallb _ _); [by injection Htext|done]. }
  assert (∃ v, parse_proxy_config content = Ok v) as [v Hv].
  { unfold proxy_config_from_bytes in Hc. apply result_bind_inv in Hc as (v & Hv & _). by exists v. }
  exists content, c, v. split_and!; [done..|].
  pose proof (proxy_config_from_bytes_token to_lowercase content v c Hv Hc) as Htok.
  destruct (replace_config_token_exact content _ _ v pending_ok Hv Htok) as (updated & Hu & Hpu & _).
  rewrite Ht in Hu. by injection Hu as ->.
Qed.

(** A login changes nothing but the token, and loses none. Before the exchange
    nothing is done to the output path, and a file that is already there is never
    touched and no token asked for. A failed exchange leaves no settings behind.
    Once the API has issued a token, the rewriting of the file cannot fail: unless
    the system fails to write or sync it, the new file is there, and it is
    accepted as the active configuration with the token replaced and every other
    setting as it was; and when the system does fail, the token is printed. *)
Theorem login_keeps_settings w output :
  let '(r, output', printed) := run_login w output in
  match prepare w, create_exclusive w output with
  | Ok _, Ok _ =>
      output = None ∧
      match Api.rebind_token decode_rebound (l_sent w) with
      | Api.Failed _ => is_ok r = false ∧ printed = None ∧ (output' = None ∨ output' = Some [])
      | Api.Done token =>
          ∃ content c updated, l_read w = Ok content ∧ proxy_config_from_bytes to_lowercase content = Ok c ∧
            proxy_config_from_bytes to_lowercase updated = Ok (with_token token c) ∧
            match l_write w, l_sync w with
            | None, Ok _ => r = Ok tt ∧ output' = Some updated ∧ printed = None
            | _, _ => is_ok r = false ∧ printed = Some token
            end
      end
  | _, _ => is_ok r = false ∧ output' = output ∧ printed = None
  end.
Proof.
  unfold run_login. destruct (prepare w) as [template|e] eqn:Hprep; [|done]. cbn [mbind result_bind].
  destruct (create_exclusive w output) as [[]|e] eqn:Hcreate; [|done]. cbn [mbind result_bind].
  destruct (Api.rebind_token decode_rebound (l_sent w)) as [token|chain] eqn:Htoken.
  2: { destruct output; [done|]. split; [done|]. split_and!; [done..|]. destruct (l_removed w); auto. }
  apply rebound_token_ok in Htoken. apply prepare_inv in Hprep as (content & c & v & Hread & Hc & Hv & Ht).
  destruct (replace_config_token_exact template (lit "pending") token _ Htoken Ht) as (updated & Hup & Hpu & _);
    [apply lookup_insert_eq|].
  rewrite insert_insert_eq in Hpu.
  pose proof (proxy_config_token to_lowercase content updated v c token Htoken Hv Hc Hpu) as Hnew.
  rewrite Hup. destruct (l_write w) as [k|]; [|destruct (l_sync w) as [[]|e]].
  all: destruct output; [done|]; split; [done|]; by exists content, c, updated.
Qed.
End Login.

(** ** A concrete login *)

Definition demo_sent : option (Api.outcome Api.HttpResponse) :=
  Some (Api.Done (Api.MkHttp 200 None None [Api.Done (lit "{}")])).
Definition demo_rebound (_ : bytes) : option (Z * option bytes) := Some (200, Some (lit "new-token")).
Definition demo_world : World := MkWorld (Ok demo_file) (Ok tt) (Ok tt) demo_sent true None (Ok tt).

Example demo_login :
  let '(r, output, printed) := run_login (H0 := toy_files) lower demo_rebound demo_world None in
  r = Ok tt ∧ printed = None ∧
  (Text.lines <$> output) = Some ((lit <$> ["# oixc-proxy"; "token=new-token"]%string) ++ drop 2 (Text.lines demo_file)).
Proof. by vm_compute. Qed.
