(* ===== verification/Control.v ===== *)
(** * Control: the private control channel and the diagnostic bundle ([src/control.rs])

    One request of the control socket, from the line a client sends to the line
    it gets back, the client's side of it ([send]), and the bundle a diagnostic
    request exports ([CatalogService::bundle], [diagnostics::config_summary]).
    The socket, its file and the pipe of Windows are in [ControlSocket]; serde_json
    is an interface with its laws. *)
From S2P Require Import Prelude Bytes Text Ip Diagnostics Status Api CatalogService.
From S2P Require Login Traffic Config Socks5 Nodes Gateway CatalogCache.
Local Open Scope Z_scope.

Definition REQUEST_LIMIT : Z := 4096.
Definition RESPONSE_LIMIT : Z := 8 * 2 ^ 20.

(** ** The wire *)

Definition response_json (r : Response) : json :=
  JObj [field "ok" (JBool (ok r)); field "message" (JStr (message r));
        field "error" (json_option json_kind (r_error r)); field "payload" (payload r)].

(** serde_json: commands as they are read and written, documents, and responses
    as they are read. *)
Class ControlCodec : Type := {
  encode_command : Command → option bytes;
  decode_command : bytes → option Command;
  to_vec : json → result bytes;
  decode_response : bytes → option Response;
}.

Definition NL : byte := x0a.

(** The commands of the wire: [RefreshProvider] is skipped. Documents are compact
    (no line feed in them), and end where they end: a line feed may follow. *)
Class ControlCodecLaws (C : ControlCodec) : Prop := {
  command_skipped : encode_command RefreshProvider = None;
  command_never_skipped l : decode_command l ≠ Some RefreshProvider;
  command_line c l : encode_command c = Some l →
    NL ∉ l ∧ Z.of_nat (length l) < REQUEST_LIMIT ∧ decode_command (l ++ [NL]) = Some c;
  document_line v l : to_vec v = Ok l → NL ∉ l;
  response_line r l : to_vec (response_json r) = Ok l → decode_response (l ++ [NL]) = Some r;
}.

Section Wire.
Context `{C : ControlCodec}.

(** What the queue makes of a request: [None] when it is full or gone, and else
    the reply, [None] when none comes in time. *)
Abbreviation Queue := (Command → option (option Response)).

(** The line a reader with a limit takes, if it is one. *)
Definition bounded_line (limit : Z) (stream : bytes) (e : Prelude.error) : result bytes :=
  let line := Traffic.read_until (Z.to_nat (limit + 1)) stream in
  if (limit <? Z.of_nat (length line)) || negb (bool_decide (last line = Some NL)) then Err e else Ok line.

(** The response to a line, and the command that went into the queue. *)
Definition respond (line : bytes) (queue : Queue) : Response * option Command :=
  match decode_command line with
  | None => (failure "invalid control command" InvalidResponse, None)
  | Some command =>
      match queue command with
      | None => (failure "service control queue is busy" Other, None)
      | Some reply =>
          (default (failure "service control operation unavailable or timed out" Timeout) reply, Some command)
      end
  end.

(** [handle]: [received] is what the client sends before its end or the time
    limit, [None] when the limit comes first; [write] what writing comes to. The
    result is what is written and the command that went into the queue. *)
Definition handle (received : option bytes) (queue : Queue) (write : result unit) : result bytes * option Command :=
  match received with
  | None => (Err (Bail "deadline has elapsed"), None)
  | Some stream =>
      match bounded_line REQUEST_LIMIT stream (Bail "invalid control request length") with
      | Err e => (Err e, None)
      | Ok line =>
          let '(response, command) := respond line queue in
          (l ← to_vec (response_json response); write;; Ok (l ++ [NL]), command)
      end
  end.

(** [send]: [fits] whether the path fits a socket address, [connect] and
    [exchange] what the connection comes to, [None] when the time is over. *)
Definition send (fits : bool) (connect : result unit) (exchange : bytes → option (result bytes)) (command : Command) :
    result Response :=
  if negb fits then Err (Bail "service control socket path exceeds the platform limit")
  else
    connect;;
    request ← ok_or (Bail "the enum variant Command::RefreshProvider cannot be serialized") (encode_command command);
    match exchange (request ++ [NL]) with
    | None => Err (Context "service control request timed out" (Bail "deadline has elapsed"))
    | Some answer =>
        stream ← answer;
        line ← bounded_line RESPONSE_LIMIT stream (Bail "invalid service control response");
        ok_or (Context "decode service control result" (Bail "invalid JSON")) (decode_response line)
    end.

(** ** Lines *)

Lemma bounded_line_ok limit l rest e :
  NL ∉ l → Z.of_nat (length l) < limit → bounded_line limit (l ++ NL :: rest) e = Ok (l ++ [NL]).
Proof.
  intros Hl Hlen. unfold bounded_line, Traffic.read_until. set (n := Z.to_nat (limit + 1)).
  assert (S (length l) <= n)%nat as Hn by lia. clearbody n.
  replace (take n (l ++ NL :: rest)) with (l ++ NL :: take (n - S (length l)) rest).
  2: { rewrite take_app, (take_ge l) by lia. by replace (n - length l)%nat with (S (n - S (length l))) by lia. }
  assert (∀ r, position (λ b, byteb b Traffic.NL) (l ++ NL :: r) = Some (length l)) as ->.
  { intros r. clear -Hl. induction l as [|b l IH]; simpl; [done|]. apply not_elem_of_cons in Hl as [Hb Hl].
    destruct (byteb b Traffic.NL) eqn:E; [by apply byteb_eq in E|]. by rewrite IH. }
  replace (take (S (length l)) _) with (l ++ [NL])
    by (rewrite take_app, (take_ge l) by lia; by replace (S _ - _)%nat with 1%nat by lia).
  rewrite length_app, last_snoc, bool_decide_eq_true_2 by done.
  destruct (limit <? _) eqn:E; reflect_bools; [simpl in *; lia|done].
Qed.
End Wire.
#[local] Arguments bounded_line : simpl never.

(** ** The diagnostic bundle *)

(** [Duration::as_millis] *)
Definition as_millis (d : Z) : Z := d / 10 ^ 6.

Definition config_summary `{Config.UrlCrate} (c : Config.ProxyConfig) (disable_filter : bool) : json :=
  let r := Config.runtime c in
  JObj [
    field "remote_listener" (JBool (negb (is_loopback (sa_ip (Config.listen c)))));
    field "allow_remote_raw_provider" (JBool (Config.allow_remote_raw_provider r));
    field "pinned_egress" (JBool (negb (is_loopback (Config.outbound_ip c))));
    field "fixed_udp_port_count" (json_option (λ range, JNum (Socks5.port_count range)) (Config.udp_port_range c));
    field "api_fallback_count" (JNum (Z.of_nat (length (Config.api_fallback_urls r))));
    field "filter" (json_text (if disable_filter then "disabled"
                               else if Nodes.is_custom (Config.node_filter r) then "custom" else "default"));
    field "request_timeout_ms" (JNum (as_millis (Config.request_timeout r)));
    field "tcp_idle_timeout_ms" (JNum (as_millis (Config.tcp_idle_timeout r)));
    field "udp_idle_timeout_ms" (JNum (as_millis (Config.udp_idle_timeout r)));
    field "node_refresh_interval_ms" (JNum (as_millis (Config.node_refresh_interval c)));
    field "max_client_connections" (JNum (Config.max_client_connections r));
    field "dial_concurrency" (JNum (Config.dial_concurrency r));
    field "per_node_dial_concurrency" (JNum (Config.per_node_dial_concurrency r));
    field "reuse_max_idle" (JNum (Config.reuse_max_idle r));
    field "reuse_max_uses" (JNum (Config.reuse_max_uses r));
    field "reuse_idle_timeout_ms" (JNum (as_millis (Config.reuse_idle_timeout r)));
    field "perf_trace_sample_every" (JNum (Config.perf_trace_sample_every r))].

Section Bundle.
Context `{Crates}.
(** The version, and the constants of the build and the process. *)
Context (VERSION commit build_time os arch : bytes) (pid : Z).

(** [CatalogService::bundle] at a time. *)
Definition bundle (now : Z) (s : CatalogService) : json :=
  JObj [
    field "schema_version" (JNum 1); field "collected_at" (JNum now);
    field "process" (JObj [field "version" (JStr VERSION); field "commit" (JStr commit);
                           field "build_time" (JStr build_time); field "os" (JStr os); field "arch" (JStr arch);
                           field "pid" (JNum pid)]);
    field "active_config" (config_summary (service s) (disable_filter s));
    field "status" (bundle_status (Status.status VERSION now (manager s)));
    field "service" (log_snapshot now (events s))].

(** What of a service may be exported: of its configuration the limits, three
    flags and two counts; the view of its gateway; and the log of its events. *)
Record public_equal (now : Z) (s t : CatalogService) : Prop := {
  pub_limits : let r := Config.runtime (service s) in let r' := Config.runtime (service t) in
    (Config.request_timeout r, Config.tcp_idle_timeout r, Config.udp_idle_timeout r, Config.reuse_idle_timeout r,
     Config.max_client_connections r, Config.dial_concurrency r, Config.per_node_dial_concurrency r,
     Config.reuse_max_idle r, Config.reuse_max_uses r, Config.perf_trace_sample_every r)
    = (Config.request_timeout r', Config.tcp_idle_timeout r', Config.udp_idle_timeout r', Config.reuse_idle_timeout r',
       Config.max_client_connections r', Config.dial_concurrency r', Config.per_node_dial_concurrency r',
       Config.reuse_max_idle r', Config.reuse_max_uses r', Config.perf_trace_sample_every r');
  pub_interval : Config.node_refresh_interval (service s) = Config.node_refresh_interval (service t);
  pub_remote : is_loopback (sa_ip (Config.listen (service s))) = is_loopback (sa_ip (Config.listen (service t)));
  pub_raw : Config.allow_remote_raw_provider (Config.runtime (service s))
            = Config.allow_remote_raw_provider (Config.runtime (service t));
  pub_pinned : is_loopback (Config.outbound_ip (service s)) = is_loopback (Config.outbound_ip (service t));
  pub_ports : Socks5.port_count <$> Config.udp_port_range (service s)
              = Socks5.port_count <$> Config.udp_port_range (service t);
  pub_fallbacks : length (Config.api_fallback_urls (Config.runtime (service s)))
                  = length (Config.api_fallback_urls (Config.runtime (service t)));
  pub_filter : disable_filter s = disable_filter t ∧
    Nodes.is_custom (Config.node_filter (Config.runtime (service s)))
    = Nodes.is_custom (Config.node_filter (Config.runtime (service t)));
  pub_view : view now (manager s) = view now (manager t);
  pub_events : events s = events t;
}.

(** C36: A diagnostic bundle gives nothing away. Two services that agree on their
    limits, on whether they listen beyond loopback, pin an egress address, export
    raw nodes to others and filter, on how many UDP ports and API URLs they have,
    on the counts and flags of the status, on the nodes' own counters in the order
    of their names, and on the log of events, export the very same bundle: the
    access token, the secrets, the credentials, the URLs, the addresses, the
    filters and the names, servers and keys of the nodes can differ at will. *)
Theorem bundle_confidential now s t : public_equal now s t → bundle now s = bundle now t.
Proof.
  intros [Hlimits Hevery Hremote Hraw Hpinned Hports Hfall [Hoff Hfilter] Hview Hevents].
  unfold bundle. rewrite !bundle_redacts, Hview, Hevents. unfold config_summary. simpl in Hlimits.
  injection Hlimits as -> -> -> -> -> -> -> -> -> ->.
  rewrite Hevery, Hremote, Hraw, Hpinned, Hfall, Hoff, Hfilter.
  by destruct (Config.udp_port_range (service s)), (Config.udp_port_range (service t)); simplify_eq/=; rewrite ?Hports.
Qed.
End Bundle.

(** ** One request *)

Section Service.
Context `{Crates} `{!ControlCodecLaws C}.
Context (VERSION config_path : bytes) (bundle : CatalogService → json).

(** The queue of a service that takes the request in its next turn. *)
Definition served (w : World) (l : LoopState) (command : Command) : option (option Response) :=
  Some (fst (loop_turn VERSION config_path bundle (Some command) false w l)).

(** A control command is carried out once and answered truly. Whatever a
    client sends and whatever becomes of its request, at most one command enters
    the queue, never the refresh that only HTTP requests may ask for; a line that
    is too long, incomplete or late enters nothing and gets no answer, and else
    the answer is one line. And a command sent with [send] to a running service
    is the command its loop carries out, and the response the client shows is the
    loop's own, failures included. *)
Theorem control_commands_answered :
  (∀ received queue write,
     let '(out, command) := handle received queue write in
     command ≠ Some RefreshProvider ∧
     (∀ c, command = Some c → ∃ stream line e, received = Some stream ∧
        bounded_line REQUEST_LIMIT stream e = Ok line ∧ decode_command line = Some c ∧ is_Some (queue c)) ∧
     (∀ b, out = Ok b → ∃ l, b = l ++ [NL] ∧ NL ∉ l ∧ is_Some received)) ∧
  (∀ c w l l' response document,
     c ≠ RefreshProvider → is_Some (encode_command c) →
     loop_turn VERSION config_path bundle (Some c) false w l = (Some response, l') →
     to_vec (response_json response) = Ok document → Z.of_nat (length document) < RESPONSE_LIMIT →
     (∃ request, encode_command c = Some request ∧
        handle (Some (request ++ [NL])) (served w l) (Ok tt) = (Ok (document ++ [NL]), Some c)) ∧
     send true (Ok tt) (λ request, Some (fst (handle (Some request) (served w l) (Ok tt)))) c = Ok response).
Proof.
  split.
  - intros received queue write. unfold handle. destruct received as [stream|]; [|done].
    destruct (bounded_line _ _ _) as [line|e] eqn:Hline; [|done]. unfold respond.
    destruct (decode_command line) as [c|] eqn:Hc; [destruct (queue c) as [reply|] eqn:Hq|].
    all: split_and!; [|intros c' [= <-]; by eexists stream, line, _|].
    all: try (by intros [= ->]; by apply command_never_skipped in Hc).
    all: try done.
    all: intros b (l & Hl & Hb)%result_bind_inv; apply result_bind_inv in Hb as ([] & _ & [= <-]);
      exists l; split_and!; [done|by eapply document_line|done].
  - intros c w l l' response document Hc [request Hreq] Hturn Hdoc Hlen.
    destruct (command_line c request Hreq) as (Hnl & Hlr & Hdec).
    assert (handle (Some (request ++ [NL])) (served w l) (Ok tt) = (Ok (document ++ [NL]), Some c)) as Hh.
    { unfold handle. rewrite bounded_line_ok by done. unfold respond. rewrite Hdec. unfold served. rewrite Hturn.
      simpl. by rewrite Hdoc. }
    split; [by exists request|]. set (exchange := λ request, Some _). 
    assert (exchange (request ++ [NL]) = Some (Ok (document ++ [NL]))) as Hex by (unfold exchange; by rewrite Hh).
    clearbody exchange. unfold send. rewrite Hreq. simpl. rewrite Hex. simpl.
    rewrite bounded_line_ok by (first [by eapply document_line|lia]). simpl.
    by rewrite (response_line _ _ Hdoc).
Qed.
End Service.

(** ** A concrete channel: commands are bytes, and only the plain success is a document *)

#[local] Existing Instance demo_crates.

#[local] Instance demo_codec : ControlCodec := {
  encode_command c := match c with
    RefreshNodes => Some [x01] | ReloadConfig => Some [x02] | Diagnose => Some [x03] | RefreshProvider => None end;
  decode_command l := match l with
    [x01; x0a] => Some RefreshNodes | [x02; x0a] => Some ReloadConfig | [x03; x0a] => Some Diagnose | _ => None end;
  to_vec v := match v with
    | JObj [(_, JBool true); (_, JStr m); (_, JNull); (_, JNull)] =>
        if bool_decide (NL ∈ m) then Err (Bail "no document") else Ok m
    | _ => Err (Bail "no document") end;
  decode_response l := Some (MkResponse true (take (length l - 1) l) None JNull);
}.

#[local] Instance demo_codec_laws : ControlCodecLaws demo_codec.
Proof.
  split.
  - done.
  - intros l. simpl. repeat case_match; done.
  - intros [] l; intros [= <-]; simpl; (split_and!; [|done|done]); by intros [=]%list_elem_of_singleton.
  - intros v l. simpl. repeat case_match; try done. intros [= <-]. by case_bool_decide.
  - intros [good m e v] document. destruct good, e, v; simpl; try done. case_bool_decide; [done|]. intros [= ->].
    by rewrite length_app, Nat.add_sub, take_app_length.
Qed.

Lemma control_commands_answered_witness :
  ∃ l, demo_start = Done l ∧
    send true (Ok tt) (λ request, Some (fst (handle (Some request)
           (served [] demo_path (λ _, JNull) demo_world l) (Ok tt)))) Diagnose
    = Ok (success "sanitized diagnostic bundle" JNull).
Proof.
  destruct demo_start_done as (l & Hl & _). exists l. split; [exact Hl|].
  destruct (control_commands_answered [] demo_path (λ _, JNull)) as [_ Hsend].
  exact (proj2 (Hsend Diagnose demo_world l l (success "sanitized diagnostic bundle" JNull)
    (lit "sanitized diagnostic bundle") ltac:(discriminate) ltac:(by eexists) eq_refl
    ltac:(by vm_compute) ltac:(by vm_compute))).
Defined.

Lemma bundle_confidential_witness :
  ∃ l, demo_start = Done l ∧ ∀ token,
    let s := catalog l in
    let t := set_service (Login.with_token token (service s)) (fingerprint s) (context s) s in
    Config.access_token (Config.runtime (service t)) = token ∧
    bundle [] [] [] [] [] 1 2000 s = bundle [] [] [] [] [] 1 2000 t.
Proof.
  destruct demo_start_done as (l & Hl & _). exists l. split; [exact Hl|]. intros token s t. split; [reflexivity|].
  apply (bundle_confidential [] [] [] [] [] 1 2000 s t). split; try reflexivity. split; reflexivity.
Defined.
