(* ===== verification/Commands.v ===== *)
(** * Commands: flags, paths and the systemd unit ([src/cli.rs])

    [parse_flags] with the flags each command allows, the paths commands derive
    from the configuration's, and the rendering of a systemd unit. *)
From stdpp Require Import gmap.
From S2P Require Import Prelude Bytes Text.
Local Open Scope Z_scope.

(** ** Flags *)

Abbreviation flags := (gmap bytes (option bytes)).

Definition usage {A} (message : string) : result A := Err (Context "usage" (Bail message)).

Definition help_flag (argument : bytes) : bool := bytes_eqb argument (lit "-h") || bytes_eqb argument (lit "--help").

(** The name of an argument, with the value it carries itself. *)
Definition flag_parts (argument : bytes) : bytes * option bytes :=
  let trimmed := drop_while (byteb "-") argument in
  match split_once "=" trimmed with
  | Some (name, value) => (name, Some value)
  | None => (trimmed, None)
  end.

(** The loop over the arguments; the name in the messages is left out. *)
Fixpoint flags_loop (allowed : gmap bytes bool) (args : list bytes) (parsed : flags) : result flags :=
  match args with
  | [] => Ok parsed
  | argument :: args =>
      if help_flag argument then usage "help requested"
      else if negb (starts_with (lit "-") argument) then usage "unexpected positional arguments"
      else
        let '(name, inline) := flag_parts argument in
        match (allowed !! name : option bool) with
        | None => usage "flag provided but not defined"
        | Some needs_value =>
            if bool_decide (is_Some (parsed !! name)) then usage "flag provided more than once"
            else if needs_value then
              match inline with
              | Some value =>
                  if negb (bool_decide (value = [])) then flags_loop allowed args (<[name := Some value]> parsed)
                  else usage "flag needs an argument"
              | None =>
                  match args with
                  | value :: args =>
                      if negb (starts_with (lit "-") value)
                      then flags_loop allowed args (<[name := Some value]> parsed)
                      else usage "flag needs an argument"
                  | [] => usage "flag needs an argument"
                  end
              end
            else flags_loop allowed args (<[name := None]> parsed)
        end
  end.

(** Collecting pairs into a map, the last of equal keys counting. *)
Definition parse_flags (args : list bytes) (definitions : list (bytes * bool)) : result flags :=
  flags_loop (list_to_map (reverse definitions)) args ∅.

Definition flag_value (f : flags) (name : string) : option bytes := f !! lit name ≫= id.
Definition flag_path (f : flags) (name : string) (default_path : bytes) : bytes :=
  default default_path (flag_value f name).

Definition serve_definitions (map : bool) : list (bytes * bool) :=
  [(lit "disable-node-filter", false); (lit "traffic-file", true)]
  ++ (if map
      then (λ n, (lit n, true)) <$>
        ["token-file"; "listen"; "base-port"; "node-filter-lines"; "node-filter-regions"; "node-filter-include";
         "node-filter-exclude"]%string
      else [(lit "config", true)]).
Definition serve_flags (args : list bytes) (map : bool) : result flags := parse_flags args (serve_definitions map).

(** ** Paths *)

(** [Path::join] on a Unix path. *)
Definition join_path (directory name : bytes) : bytes :=
  if starts_with (lit "/") name || bool_decide (directory = []) then name
  else if bool_decide (last directory = Some (x2f : byte)) then directory ++ name
  else directory ++ lit "/" ++ name.

(** [is_absolute]; [current_dir] is the process's. *)
Definition absolute_path (current_dir : result bytes) (path : bytes) : result bytes :=
  if starts_with (lit "/") path then Ok path else directory ← current_dir; Ok (join_path directory path).

(** The configuration of the user whose [HOME] this is. *)
Definition default_proxy_config_path (home : option bytes) : result bytes :=
  match home with
  | Some directory =>
      if bool_decide (directory = []) then Err (Bail "locate home directory")
      else Ok (join_path directory (lit ".config/oixc-proxy/oixc-proxy.conf"))
  | None => Err (Bail "locate home directory")
  end.

(** A file next to a path, [parent] being [Path::parent] of it. *)
Definition beside (parent : option bytes) (name : string) : bytes := join_path (default (lit ".") parent) (lit name).

(** *** What is accepted *)

(** The arguments that spell a flag: one that takes no value (whatever follows an
    equals sign is not looked at), and one that does, in either form. *)
Inductive spells (allowed : gmap bytes bool) : bytes * option bytes → list bytes → Prop :=
  | spells_bare a n inline :
      help_flag a = false → starts_with (lit "-") a = true → flag_parts a = (n, inline) →
      allowed !! n = Some false → spells allowed (n, None) [a]
  | spells_inline a n v :
      help_flag a = false → starts_with (lit "-") a = true → flag_parts a = (n, Some v) →
      allowed !! n = Some true → v ≠ [] → spells allowed (n, Some v) [a]
  | spells_next a n v :
      help_flag a = false → starts_with (lit "-") a = true → flag_parts a = (n, None) →
      allowed !! n = Some true → starts_with (lit "-") v = false → spells allowed (n, Some v) [a; v].

Definition accepts (allowed : gmap bytes bool) (args : list bytes) (parsed r : flags) : Prop :=
  ∃ given pieces, args = concat pieces ∧ Forall2 (spells allowed) given pieces ∧ NoDup given.*1 ∧
    (∀ n, n ∈ given.*1 → parsed !! n = None) ∧ r = list_to_map given ∪ parsed.

Lemma accepts_nil allowed parsed r : accepts allowed [] parsed r ↔ r = parsed.
Proof.
  split.
  - intros (given & pieces & Hargs & Hs & _ & _ & ->). destruct Hs as [|f p given pieces Hp _].
    + by rewrite list_to_map_nil, (left_id_L ∅ (∪)).
    + by destruct Hp.
  - intros ->. exists [], []. split_and!; [done|constructor|constructor|by intros n ?%not_elem_of_nil|].
    by rewrite list_to_map_nil, (left_id_L ∅ (∪)).
Qed.

Lemma accepts_cons allowed n v piece args parsed r :
  spells allowed (n, v) piece → parsed !! n = None →
  accepts allowed args (<[n := v]> parsed) r → accepts allowed (piece ++ args) parsed r.
Proof.
  intros Hp Hn (given & pieces & -> & Hs & Hnd & Hnew & ->).
  exists ((n, v) :: given), (piece :: pieces). simpl.
  assert (n ∉ given.*1) as Hin by (intros Hin; specialize (Hnew n Hin); by rewrite lookup_insert_eq in Hnew).
  split_and!; [done|by constructor|by constructor| |].
  - intros k [->|Hk]%elem_of_cons; [done|]. specialize (Hnew k Hk). by apply lookup_insert_None in Hnew as [? _].
  - rewrite <-insert_union_l, insert_union_r; [done|]. by apply not_elem_of_list_to_map_1.
Qed.

(** The first flag of accepted arguments decides how they go on. *)
Lemma accepts_inv allowed a args parsed r :
  accepts allowed (a :: args) parsed r →
  ∃ n v piece rest, a :: args = piece ++ rest ∧ spells allowed (n, v) piece ∧ parsed !! n = None ∧
    accepts allowed rest (<[n := v]> parsed) r.
Proof.
  intros (given & pieces & Hargs & Hs & Hnd & Hnew & ->). destruct Hs as [|[n v] p given pieces Hp Hs]; [done|].
  simpl in *. apply NoDup_cons in Hnd as [Hn Hnd].
  exists n, v, p, (concat pieces). split_and!; [done|done|apply Hnew; by left|].
  exists given, pieces. split_and!; [done|done|done| |].
  - intros k Hk. rewrite lookup_insert_ne; [apply Hnew; by right|]. by intros ->.
  - rewrite <-insert_union_l, insert_union_r; [done|]. by apply not_elem_of_list_to_map_1.
Qed.

Lemma flags_loop_exact allowed args parsed r :
  flags_loop allowed args parsed = Ok r ↔ accepts allowed args parsed r.
Proof.
  remember (length args) as k eqn:Hk. assert (length args <= k)%nat as Hle by lia. clear Hk.
  revert args parsed Hle. induction k as [|k IH]; intros [|a args] parsed Hle; simpl in Hle; try lia;
    try (rewrite accepts_nil; simpl; naive_solver).
  cbn [flags_loop]. split.
  - destruct (help_flag a) eqn:Hh; [done|]. destruct (starts_with (lit "-") a) eqn:Hd; [|done]. cbn [negb].
    destruct (flag_parts a) as [n inline] eqn:Hparts. destruct (allowed !! n) as [needs|] eqn:Ha; [|done].
    case_bool_decide as Hn; [done|]. apply eq_None_not_Some in Hn.
    destruct needs; [destruct inline as [v|]|].
    + case_bool_decide as Hv; [done|]. cbn [negb]. rewrite IH by lia. intros Hacc.
      apply (accepts_cons _ n (Some v) [a] args); [by eapply spells_inline|done|done].
    + destruct args as [|v args]; [done|]. destruct (starts_with (lit "-") v) eqn:Hv; [done|]. cbn [negb].
      rewrite IH by (simpl in Hle; lia). intros Hacc.
      apply (accepts_cons _ n (Some v) [a; v] args); [by eapply spells_next|done|done].
    + rewrite IH by lia. intros Hacc. apply (accepts_cons _ n None [a] args); [by eapply spells_bare|done|done].
  - intros (n & v & piece & rest & Hargs & Hp & Hn & Hacc)%accepts_inv.
    inversion Hp as [a' n' inline Hh Hd Hparts Ha|a' n' v' Hh Hd Hparts Ha Hv|a' n' v' Hh Hd Hparts Ha Hv]; subst;
      injection Hargs as -> Hargs; rewrite Hh, Hd, Hparts, Ha; cbn [negb];
      rewrite bool_decide_eq_false_2 by (rewrite Hn; by intros []).
    + subst rest. by apply IH; [lia|].
    + subst rest. rewrite bool_decide_eq_false_2 by done. by apply IH; [lia|].
    + subst args. rewrite Hv. simpl in Hle. by apply IH; [lia|].
Qed.

(** The arguments of a command are accepted exactly when they fall into defined
    flags, each given once, with a value exactly for those that take one (in the
    same argument or in the next, which must not look like a flag), and nothing
    else; and the result is those flags. *)
Theorem parse_flags_exact args definitions r :
  parse_flags args definitions = Ok r ↔
  ∃ given pieces, args = concat pieces ∧ Forall2 (spells (list_to_map (reverse definitions))) given pieces ∧
    NoDup given.*1 ∧ r = list_to_map given.
Proof.
  unfold parse_flags. rewrite flags_loop_exact. unfold accepts. split.
  - intros (given & pieces & Ha & Hs & Hnd & _ & ->). exists given, pieces. by rewrite (right_id_L ∅ (∪)).
  - intros (given & pieces & Ha & Hs & Hnd & ->). exists given, pieces. rewrite (right_id_L ∅ (∪)).
    split_and!; [done..|by intros|done].
Qed.

Example serve_flags_example :
  let f := serve_flags (lit <$> ["--disable-node-filter=false"; "-config"; "a.conf"]%string) false in
  match f with Ok f => bool_decide (map_to_list f ≡ₚ [(lit "disable-node-filter", None); (lit "config", Some (lit "a.conf"))])
             | Err _ => false end = true.
Proof. by vm_compute. Qed.

(** ** Output *)

Definition format_node_count (published total : nat) : bytes :=
  if (published =? total)%nat then dec (Z.of_nat published) ++ lit " named nodes"
  else dec (Z.of_nat published) ++ lit " named nodes (" ++ dec (Z.of_nat total) ++ lit " total)".

(** ** The systemd unit *)

(** [str::replace] of one ASCII character *)
Definition replace (b : byte) (by_ text : bytes) : bytes := text ≫= λ c, if byteb c b then by_ else [c].

Definition QUOTE : byte := x22.
Definition BACKSLASH : byte := x5c.

Definition systemd_quote (path : bytes) : bytes :=
  replace "$" (lit "$$") (replace "%" (lit "%%")
    (replace QUOTE [BACKSLASH; QUOTE] (replace BACKSLASH [BACKSLASH; BACKSLASH] (from_utf8_lossy path)))).

Definition systemd_list_quote (path : bytes) : bytes :=
  [QUOTE] ++ replace "%" (lit "%%")
    (replace QUOTE [BACKSLASH; QUOTE] (replace BACKSLASH [BACKSLASH; BACKSLASH] (from_utf8_lossy path))) ++ [QUOTE].

(** [byte as char] and its encoding *)
Definition latin1 (b : byte) : bytes :=
  if b2z b <? 128 then [b] else [z2b (192 + b2z b / 64); z2b (128 + b2z b mod 64)].
(** [{:02x}] *)
Definition hex02 (b : byte) : bytes := [hex_digit (b2z b / 16); hex_digit (b2z b mod 16)].

Definition systemd_path (path : bytes) : bytes :=
  from_utf8_lossy path ≫= λ b,
    if byteb b "%" then lit "%%"
    else if byteb b " " || byteb b x09 || byteb b QUOTE || byteb b "'" || byteb b BACKSLASH
    then [BACKSLASH] ++ lit "x" ++ hex02 b
    else latin1 b.

Definition quoted (text : bytes) : bytes := [QUOTE] ++ text ++ [QUOTE].

Definition render_systemd (executable config working : bytes) : bytes :=
  concat ((λ line, line ++ [x0a]) <$>
    [lit "[Unit]"; lit "Description=oixc-proxy named-node SOCKS5 gateway"; lit "Wants=network-online.target";
     lit "After=network-online.target"; []; lit "[Service]"; lit "Type=simple";
     lit "ExecStart=" ++ quoted (systemd_quote executable) ++ lit " serve --config " ++ quoted (systemd_quote config);
     lit "WorkingDirectory=" ++ systemd_path working; lit "Restart=on-failure"; lit "RestartSec=5s";
     lit "TimeoutStopSec=10s"; lit "LimitNOFILE=infinity"; lit "NoNewPrivileges=true"; lit "PrivateTmp=true";
     lit "ProtectSystem=strict"; lit "ProtectHome=read-only"; lit "ReadWritePaths=" ++ systemd_list_quote working;
     lit "RestrictAddressFamilies=AF_INET AF_INET6 AF_NETLINK AF_UNIX"; lit "LockPersonality=true";
     lit "MemoryDenyWriteExecute=true"; []; lit "[Install]"; lit "WantedBy=default.target"]).

(** A quoted text ends where it was meant to: past escapes, no quote is in it. *)
Fixpoint stays_quoted (text : bytes) : bool :=
  match text with
  | [] => true
  | b :: rest =>
      if byteb b BACKSLASH then match rest with _ :: rest => stays_quoted rest | [] => false end
      else negb (byteb b QUOTE) && stays_quoted rest
  end.

Lemma bind_bind {A B D} (l : list A) (f : A → list B) (g : B → list D) : (l ≫= f) ≫= g = l ≫= λ a, f a ≫= g.
Proof. induction l as [|a l IH]; csimpl; [done|]. by rewrite bind_app, IH. Qed.

(** What the replacements make of one character. *)
Definition quote_byte (c : byte) : bytes :=
  if byteb c BACKSLASH then [BACKSLASH; BACKSLASH] else if byteb c QUOTE then [BACKSLASH; QUOTE]
  else if byteb c "%" then lit "%%" else if byteb c "$" then lit "$$" else [c].

Lemma systemd_quote_bytes path : systemd_quote path = from_utf8_lossy path ≫= quote_byte.
Proof.
  unfold systemd_quote, replace. rewrite !bind_bind. apply list_bind_ext; [|done]. intros c.
  unfold quote_byte. destruct (byteb c BACKSLASH) eqn:E1; [done|]. simpl. destruct (byteb c QUOTE) eqn:E2; [done|].
  simpl. destruct (byteb c "%") eqn:E3; [done|]. simpl. by destruct (byteb c "$").
Qed.

Lemma stays_quoted_bytes l : stays_quoted (l ≫= quote_byte) = true.
Proof.
  induction l as [|c l IH]; csimpl; [done|]. unfold quote_byte.
  destruct (byteb c BACKSLASH) eqn:E1; [done|]. destruct (byteb c QUOTE) eqn:E2; [done|].
  destruct (byteb c "%"); [done|]. destruct (byteb c "$"); [done|]. simpl. by rewrite E1, E2.
Qed.

(** No path can end the quotation of the unit's command line, whatever it is. *)
Lemma systemd_quote_stays path : stays_quoted (systemd_quote path) = true.
Proof. rewrite systemd_quote_bytes. apply stays_quoted_bytes. Qed.

(** The working directory of a path that is not ASCII is another path: each byte
    of its UTF-8 text becomes a character of its own. *)
Example systemd_path_not_ascii :
  systemd_path [x2f; xc3; xa9] = [x2f; xc3; x83; xc2; xa9] ∧
  systemd_quote [x2f; xc3; xa9] = [x2f; xc3; xa9].
Proof. by vm_compute. Qed.
