(* ===== verification/ControlSocket.v ===== *)
(** * ControlSocket: the socket of the control channel ([src/control.rs])

    Where the socket is, how a service takes it over ([Server::bind]) and gives
    it up ([SocketFile]), [start], and the loop that accepts clients ([serve]),
    as compiled for Unix, and the named pipe that takes its place on Windows
    ([new_pipe], [connect_pipe]). What one client is answered is in [Control]. The
    file system is the entry at the socket's path; what other processes do to it in
    the meantime, and what system calls come to, is the environment. *)
From S2P Require Import Prelude Bytes Text Commands.
Local Open Scope Z_scope.

(** [sun_path] of Linux. *)
Definition SUN_PATH : nat := 108.
Definition MAX_CLIENTS : nat := 16.

Definition PATH_TOO_LONG : error := Bail
  "service control socket path exceeds the platform limit; move the config to a shorter directory to use refresh-nodes, reload-config and diagnose".

(** ** The path *)

Section Path.
(** [Path::parent], [Path::file_name], [canonicalize], [Sha256] and [hex]. *)
Context (parent file_name : bytes → option bytes) (canonicalize : bytes → result bytes).
Context (sha256 hex : bytes → bytes).

Definition socket_path (config : bytes) : result bytes :=
  let directory := match parent config with
                   | Some p => if bool_decide (p = []) then lit "." else p
                   | None => lit "."
                   end in
  directory ← map_err (Context "locate service configuration directory") (canonicalize directory);
  name ← ok_or (Bail "config path requires a filename") (file_name config);
  Ok (join_path directory (lit ".oixc-" ++ take 8 (hex (sha256 name)) ++ lit ".sock")).
End Path.

Definition fits_socket_address (path : bytes) : bool := (length path <? SUN_PATH)%nat.

(** ** The file *)

(** What [symlink_metadata] tells of the entry. *)
Record Meta : Type := MkMeta { is_socket : bool; uid : Z; inode : Z; device : Z; permissions : Z }.

Definition identity (m : Meta) : Z * Z := (inode m, device m).

(** The entry at the path. *)
Abbreviation Disk := (option Meta).

(** [SocketFile] *)
Definition SocketFile : Type := Z * Z.
Definition socket_file_of (m : Meta) : SocketFile := identity m.

(** [SocketFile::drop]: what others do to the entry between the look at it and
    its removal, and what removing it comes to, which is ignored. *)
Record DropEnv : Type := MkDropEnv { before_drop : Disk → Disk; drop_removed : result unit }.

Definition drop_file (env : DropEnv) (file : SocketFile) (d : Disk) : Disk :=
  match d with
  | Some m =>
      if bool_decide (identity m = file) then
        match drop_removed env with Ok _ => None | Err _ => before_drop env d end
      else d
  | None => d
  end.

Inductive Connect : Type := Connected | ConnectionRefused | OtherOutcome.

(** The service's user; whether the entry can be looked at; what connecting to it
    comes to; the calls that look at it again, remove it, make a new one (which
    [created] describes), look at that and restrict it, and the end of the file
    when this fails; and what others do to the entry before each of these calls. *)
Record BindEnv : Type := MkBindEnv {
  euid : Z;
  visible : bool;
  connect : Connect;
  before_check : Disk → Disk;
  before_remove : Disk → Disk;
  remove_file : result unit;
  before_listen : Disk → Disk;
  listen : result unit;
  created : Meta;
  before_look : Disk → Disk;
  looked_at : result unit;
  before_restrict : Disk → Disk;
  set_permissions : result unit;
  dropped : DropEnv
}.

Definition restrict (m : Meta) : Meta := MkMeta (is_socket m) (uid m) (inode m) (device m) 384 (* 0o600 *).

Definition not_found : error := Bail "No such file or directory".

(** [symlink_metadata], which may also fail otherwise. *)
Definition look (r : result unit) : M Disk Meta :=
  lift r;; entry ← get; lift (ok_or not_found entry).

(** [fs::remove_file]: whatever is at the path by then. *)
Definition unlink (r : result unit) : M Disk unit :=
  entry ← get;
  lift (ok_or not_found entry);; lift r;; modify (λ _, None).

(** Removing an existing entry, if that is safe. *)
Definition replace_existing (env : BindEnv) (metadata : Meta) : M Disk unit :=
  if negb (is_socket metadata) then bail "control socket path is occupied by a non-socket file"
  else if negb (euid env =? 0) && negb (uid metadata =? euid env)
  then bail "control socket belongs to another user"
  else
    modify (before_check env);;
    match connect env with
    | Connected => bail "another service already uses this configuration"
    | ConnectionRefused =>
        current ← look (Ok tt);
        if negb (bool_decide (identity current = identity metadata))
        then bail "control socket changed during startup"
        else
          modify (before_remove env);;
          catch_map (Context "remove stale service control socket") (unlink (remove_file env))
    | OtherOutcome => bail "existing control socket is not safely replaceable"
    end.

(** [UnixListener::bind] does not replace an entry. *)
Definition listen_at (env : BindEnv) : M Disk unit :=
  entry ← get;
  match entry with
  | Some _ => throw (Context "bind private service control socket" (Bail "Address already in use"))
  | None =>
      catch_map (Context "bind private service control socket") (lift (listen env));;
      modify (λ _, Some (created env))
  end.

(** [fs::set_permissions] on the entry there is by then. *)
Definition restrict_entry (r : result unit) : M Disk unit :=
  entry ← get;
  lift (ok_or not_found entry);; lift r;; modify (fmap restrict).

(** Making the socket; an error after its file is known drops it. *)
Definition listen_private (env : BindEnv) : M Disk SocketFile :=
  modify (before_listen env);;
  listen_at env;;
  modify (before_look env);;
  metadata ← look (looked_at env);
  let file := socket_file_of metadata in
  modify (before_restrict env);;
  restricted ← try_ (restrict_entry (set_permissions env));
  match restricted with
  | Ok _ => mret file
  | Err e => modify (drop_file (dropped env) file);; throw e
  end.

(** [Server::bind] at a path. *)
Definition bind (path : bytes) (env : BindEnv) : M Disk SocketFile :=
  if negb (fits_socket_address path) then throw PATH_TOO_LONG
  else
    entry ← get;
    match (if visible env then entry else None) with
    | Some metadata => replace_existing env metadata
    | None => mret tt
    end;;
    listen_private env.

(** ** The server *)

(** [Running]: a server that listens, or one that is disabled and never ends. *)
Inductive Running : Type := Serving (file : SocketFile) | Disabled.

Definition start (path : result bytes) (env : BindEnv) : M Disk Running :=
  path ← lift path;
  if negb (fits_socket_address path) then mret Disabled
  else file ← bind path env; mret (Serving file).

(** [Drop for Running], with its file. *)
Definition drop_running (env : DropEnv) (r : Running) (d : Disk) : Disk :=
  match r with Serving file => drop_file env file d | Disabled => d end.

(** What the [select] of [serve] meets: a connection or the failure to accept
    one, or the end of a client's task. *)
Inductive serve_event : Type := Accepted | AcceptFailed (e : error) | ClientDone.

(** One turn with so many clients: how many there are after it and whether the
    connection was taken; the second arm needs a client. *)
Definition serve_turn (ev : serve_event) (clients : nat) : option (result (nat * bool)) :=
  match ev with
  | AcceptFailed e => Some (Err (Context "accept service control connection" e))
  | Accepted => Some (Ok (if (MAX_CLIENTS <=? clients)%nat then (clients, false) else (S clients, true)))
  | ClientDone => match clients with O => None | S n => Some (Ok (n, false)) end
  end.

Inductive serving : list serve_event → nat → Prop :=
  | serving_start : serving [] 0
  | serving_turn evs ev n n' taken :
      serving evs n → serve_turn ev n = Some (Ok (n', taken)) → serving (evs ++ [ev]) n'.

(** *** The named pipe of Windows

    The first instance is made exclusively ([first_pipe_instance]), so that a
    second service fails; every instance rejects remote clients. *)

(** The options of [new_pipe]. *)
Record PipeOptions : Type := MkPipe { first_instance : bool; reject_remote : bool; private_security : bool }.

(** [create] is [CreateNamedPipeW] with a descriptor made by
    [Security::private], whose outcome is [security]. *)
Definition new_pipe (create : PipeOptions → result unit) (security : result unit) (first : bool) : result PipeOptions :=
  security;;
  let options := MkPipe first true true in
  map_err (Context "create private service control pipe") (create options);; Ok options.

(** What the [select] of the pipe's server meets; after a client connects, the
    next instance is made before its task is started. *)
Inductive pipe_event : Type := PipeConnected (next : result PipeOptions) | PipeFailed (e : error) | PipeClientDone.

(** One turn: both arms are guarded, so at the limit nobody is accepted and the
    client that waits is not dropped. *)
Definition pipe_turn (ev : pipe_event) (clients : nat) : option (result nat) :=
  match ev with
  | PipeConnected next => if (clients <? MAX_CLIENTS)%nat then Some (next;; Ok (S clients)) else None
  | PipeFailed e =>
      if (clients <? MAX_CLIENTS)%nat then Some (Err (Context "accept service control pipe" e)) else None
  | PipeClientDone => match clients with O => None | S n => Some (Ok n) end
  end.

Inductive piping : list pipe_event → nat → Prop :=
  | piping_start : piping [] 0
  | piping_turn evs ev n n' : piping evs n → pipe_turn ev n = Some (Ok n') → piping (evs ++ [ev]) n'.

(** [connect_pipe] on the outcomes of its attempts: it pauses 50 ms while all
    instances are busy, and [None] is still waiting. *)
Inductive open_outcome : Type := Opened | PipeBusy | OpenFailed (e : error).

Fixpoint connect_pipe (outcomes : list open_outcome) : option (result unit) * Z :=
  match outcomes with
  | [] => (None, 0)
  | Opened :: _ => (Some (Ok tt), 0)
  | PipeBusy :: rest => let '(r, slept) := connect_pipe rest in (r, 50 + slept)
  | OpenFailed e :: _ =>
      (Some (Err (Context "connect service control pipe; run as the service user or Administrator" e)), 0)
  end.

(** ** What taking over the path may do *)

(** The entry can be looked at, is a socket of this user (of anybody for root)
    that refused a connection, and is still the same when it is looked at again,
    as [current]. *)
Definition stale (env : BindEnv) (d : Disk) (current : Meta) : Prop :=
  ∃ m, d = Some m ∧ visible env = true ∧ is_socket m = true ∧ (euid env = 0 ∨ uid m = euid env) ∧
    connect env = ConnectionRefused ∧ before_check env d = Some current ∧ identity current = identity m.

(** Replacing an entry gets as far as removing one only when it is stale. *)
Lemma replace_existing_cases env m d :
  d = Some m → visible env = true →
  let '(r, d') := replace_existing env m d in
  (∃ current gone, r = Ok tt ∧ stale env d current ∧ before_remove env (Some current) = Some gone ∧
     remove_file env = Ok tt ∧ d' = None) ∨
  (is_ok r = false ∧ (∃ current, stale env d current) ∧ d' = before_remove env (before_check env d)) ∨
  (is_ok r = false ∧ (∀ current, ¬ stale env d current) ∧ (d' = d ∨ d' = before_check env d)).
Proof.
  intros -> Hv. unfold replace_existing, look, unlink, bail, throw, modify, get, catch_map, lift.
  unfold mbind, M_bind.
  destruct (is_socket m) eqn:Es; cbn [negb]; [|right; right; split; [done|]; split; [|by left]; intros c (m' & [= <-] & _ & ? & _); congruence].
  destruct (negb (euid env =? 0) && negb (uid m =? euid env)) eqn:Eu.
  { right; right. split; [done|]. split; [|by left]. intros c (? & [= <-] & _ & _ & Hu & _).
    apply andb_true_iff in Eu as [E1 E2]. rewrite !negb_true_iff, !Z.eqb_neq in *. lia. }
  assert (Hown : euid env = 0 ∨ uid m = euid env)
    by (apply andb_false_iff in Eu as [Eu|Eu]; apply negb_false_iff, Z.eqb_eq in Eu; auto).
  destruct (connect env) eqn:Ec.
  - right; right. split; [done|]. split; [|by right]. intros c (? & _ & _ & _ & _ & ? & _). congruence.
  - destruct (before_check env (Some m)) as [c|] eqn:Em; simpl.
    2: { right; right. split; [done|]. split; [|by right]. intros c (? & _ & _ & _ & _ & _ & ? & _). congruence. }
    case_bool_decide as Hi; cbn [negb].
    2: { right; right. split; [done|]. split; [|by right]. intros c' (m' & [= <-] & _ & _ & _ & _ & Hc & ?). congruence. }
    assert (Hst : stale env (Some m) c) by (exists m; by split_and!).
    destruct (before_remove env (Some c)) as [gone|] eqn:Eg; simpl; [|right; left; split_and!; [done|by exists c|done]].
    destruct (remove_file env) as [[]|e] eqn:Er; simpl; [left|right; left; split_and!; [done|by exists c|done]].
    by exists c, gone.
  - right; right. split; [done|]. split; [|by right]. intros c (? & _ & _ & _ & _ & ? & _). congruence.
Qed.

(** A stale one that nobody replaces meanwhile is removed. *)
Lemma replace_existing_stale env m c :
  stale env (Some m) c → before_remove env (Some c) = Some c → remove_file env = Ok tt →
  replace_existing env m (Some m) = (Ok tt, None).
Proof.
  intros (m' & Hm & _ & Hso & Hown & Hc & Hb & Hi) Hrem Hrm. injection Hm as <-.
  assert (Hu : negb (euid env =? 0) && negb (uid m =? euid env) = false).
  { destruct Hown as [Ho|Ho]; rewrite Ho, Z.eqb_refl; [done|by rewrite andb_false_r]. }
  unfold replace_existing. rewrite Hso, Hu, Hc. cbn [negb].
  rewrite (M_bind_ok (modify (before_check env)) _ (Some m) tt (Some c)) by (unfold modify; by rewrite Hb).
  rewrite (M_bind_ok (look (Ok tt)) _ (Some c) c (Some c)) by done. rewrite bool_decide_true by done. cbn [negb].
  rewrite (M_bind_ok (modify (before_remove env)) _ (Some c) tt (Some c)) by (unfold modify; by rewrite Hrem).
  unfold catch_map, unlink, get, lift, modify, mbind, M_bind. simpl. by rewrite Hrm.
Qed.

(** The entry [m] for its owner only: it may read and write it, nobody else. *)
Definition private_of (m : Meta) (d' : Disk) : Prop :=
  ∃ m', d' = Some m' ∧ permissions m' = 6 * 8 ^ 2 ∧ is_socket m' = is_socket m ∧ uid m' = uid m ∧
    inode m' = inode m ∧ device m' = device m.

(** The socket made, and how it is left: [seen] is the entry that is there when
    the service looks for its own. *)
Definition made (env : BindEnv) (file : SocketFile) (d' : Disk) : Prop :=
  ∃ seen left, before_look env (Some (created env)) = Some seen ∧ file = (inode seen, device seen) ∧
    before_restrict env (Some seen) = Some left ∧ private_of left d'.

Lemma restrict_private m : private_of m (Some (restrict m)).
Proof. by exists (restrict m). Qed.

Lemma bind_rest (env : BindEnv) d1 :
  let '(r, d') := listen_private env d1 in
  (before_listen env d1 ≠ None → is_ok r = false ∧ d' = before_listen env d1) ∧
  (∀ file, r = Ok file → before_listen env d1 = None ∧ made env file d') ∧
  (before_listen env d1 = None → listen env = Ok tt → looked_at env = Ok tt → set_permissions env = Ok tt →
   (∃ seen left, before_look env (Some (created env)) = Some seen ∧ before_restrict env (Some seen) = Some left) →
   is_ok r = true).
Proof.
  unfold listen_private, listen_at, look, restrict_entry, modify, get, catch_map, try_, lift, throw, mret, M_ret, mbind, M_bind.
  destruct (before_listen env d1) as [m|]; simpl; [by split_and!|].
  destruct (listen env) as [[]|e]; simpl; [|by split_and!].
  destruct (looked_at env) as [[]|e]; simpl; [|by split_and!].
  destruct (before_look env (Some (created env))) as [seen|] eqn:El; simpl.
  2: { split_and!; [done..|]. by intros _ _ _ _ (? & ? & ? & _). }
  destruct (before_restrict env (Some seen)) as [left|] eqn:Er; simpl.
  2: { split_and!; [done..|]. intros _ _ _ _ (? & ? & [= <-] & ?). congruence. }
  destruct (set_permissions env) as [[]|e]; simpl; [|by split_and!].
  split_and!; [done| |done]. intros file [= <-]. split; [done|].
  exists seen, left. split_and!; [done..|apply restrict_private].
Qed.

(** C32: Taking over the control socket. A service removes what is at the path only
    when its first look showed a socket of its own user (of anybody for root), this
    refused a connection, and a second look showed the same socket; else, for a
    regular file, another user's socket, a socket a running service listens on, one
    that just changed, the attempt fails and only others have changed the entry.
    What is removed is the entry that is there by then: that very socket, unless
    another process has replaced it between the second look and the removal, which
    are two system calls; nothing prevents this, and [takeover_race] shows it. The
    service gets the path only where nothing is when it listens; the entry is then
    its new socket, private to its user, or what others have put there meanwhile.
    Where nothing or a stale socket was and nobody interferes, it gets the path
    when its calls succeed. Giving it up removes its entry and no other one it sees
    there; the removal may fail, and then the entry stays. A path the platform
    cannot represent disables the channel without failing the service or touching
    anything, and a running server never has more than sixteen clients. *)
Theorem control_socket_exclusive :
  (∀ path env d,
     let '(r, d') := bind path env d in
     (∀ m, d = Some m → visible env = true → (∀ current, ¬ stale env d current) →
        is_ok r = false ∧ (d' = d ∨ d' = before_check env d)) ∧
     (∀ file, r = Ok file → made env file d' ∧
        ((d = None ∧ before_listen env None = None) ∨ (visible env = false ∧ before_listen env d = None) ∨
         ∃ current gone, stale env d current ∧ before_remove env (Some current) = Some gone ∧
           before_listen env None = None)) ∧
     (∀ current, fits_socket_address path = true → (d = None ∨ stale env d current) →
        before_remove env (Some current) = Some current → before_listen env None = None →
        before_look env (Some (created env)) = Some (created env) →
        before_restrict env (Some (created env)) = Some (created env) →
        remove_file env = Ok tt → listen env = Ok tt → looked_at env = Ok tt → set_permissions env = Ok tt →
        r = Ok (inode (created env), device (created env)) ∧ private_of (created env) d')) ∧
  (∀ env file m, drop_file env file None = None ∧
     (identity m ≠ file → drop_file env file (Some m) = Some m) ∧
     (identity m = file → drop_file env file (Some m)
        = match drop_removed env with Ok _ => None | Err _ => before_drop env (Some m) end)) ∧
  (∀ path env denv d, fits_socket_address path = false →
     start (Ok path) env d = (Ok Disabled, d) ∧ drop_running denv Disabled d = d) ∧
  (∀ evs n, serving evs n → (n <= MAX_CLIENTS)%nat).
Proof.
  split_and!.
  - intros path env d. unfold bind. destruct (fits_socket_address path); cbn [negb].
    2: { split_and!; [|done|done]. intros. by split; [|left]. }
    rewrite (M_bind_ok get _ d d d) by done.
    destruct (decide (visible env = true ∧ d ≠ None)) as [[Hv Hd]|Hskip].
    + destruct d as [m|]; [|done]. rewrite Hv. pose proof (replace_existing_cases env m (Some m) eq_refl Hv) as Hcases.
      destruct (replace_existing env m (Some m)) as [[[]|e] d1] eqn:Er.
      * rewrite (M_bind_ok _ _ _ _ _ Er). pose proof (bind_rest env d1) as Hrest.
        destruct (listen_private env d1) as [r d']. destruct Hrest as (_ & Hok & Hpos).
        destruct Hcases as [(current & gone & _ & Hst & Hg & Hrm & ->)|[(? & _)|(? & _)]]; [|done..].
        split_and!.
        -- intros m' [= <-] _ Hno. by destruct (Hno current).
        -- intros file Hr. destruct (Hok file Hr) as [Hl Hm]. split; [done|]. right. right. by exists current, gone.
        -- intros c _ _ _ Hl Hlook Hres _ H1 H2 H3.
           destruct r as [file|e]; [|by specialize (Hpos Hl H1 H2 H3 ltac:(eauto))].
           destruct (Hok file eq_refl) as [_ (seen & left & Hs & -> & Hle & Hpriv)]. by simplify_eq.
      * rewrite (M_bind_err _ _ _ _ _ Er). split_and!.
        -- intros m' [= <-] _ Hno. destruct Hcases as [(c & ? & ? & _)|[(_ & [c Hc] & _)|(_ & _ & Hd')]];
             [done|by destruct (Hno c)|by split].
        -- done.
        -- intros c _ [?|Hst] Hrem _ _ _ Hrm _ _ _; [done|exfalso].
           by rewrite (replace_existing_stale _ _ c Hst Hrem Hrm) in Er.
    + assert (Hnone : (if visible env then d else None) = None).
      { destruct (visible env); [|done]. destruct d; [|done]. exfalso. by apply Hskip. }
      rewrite Hnone. rewrite (M_bind_ok (mret tt) _ d tt d) by done. pose proof (bind_rest env d) as Hrest.
      destruct (listen_private env d) as [r d']. destruct Hrest as (_ & Hok & Hpos). split_and!.
      * intros m -> Hv _. by exfalso; apply Hskip.
      * intros file Hr. destruct (Hok file Hr) as [Hl Hm]. split; [done|].
        destruct d as [m|]; [|by left]. right. left. split; [|done]. by destruct (visible env).
      * intros c _ Hd _ Hl Hlook Hres _ H1 H2 H3.
        assert (d = None) as ->.
        { destruct Hd as [?|(m & -> & Hv & _)]; [done|]. by exfalso; apply Hskip. }
        destruct r as [file|e]; [|by specialize (Hpos Hl H1 H2 H3 ltac:(eauto))].
        destruct (Hok file eq_refl) as [_ (seen & left & Hs & -> & Hle & Hpriv)]. by simplify_eq.
  - intros env file m. split_and!; [done|intros; unfold drop_file; by rewrite bool_decide_false|intros; unfold drop_file; by rewrite bool_decide_true].
  - intros path env denv d Hf. unfold start, lift, mbind, M_bind. by rewrite Hf.
  - induction 1 as [|evs ev n n' taken _ IH Ht]; [lia|].
    destruct ev as [|e|]; unfold serve_turn in Ht; [|done|destruct n; [done|]].
    + destruct (MAX_CLIENTS <=? n)%nat eqn:E; reflect_bools; simplify_eq; lia.
    + simplify_eq. lia.
Qed.

(** The pipe serves as many clients as the socket does and is never open to
    others: at most sixteen are connected, a client is accepted whenever there
    are fewer, an instance is always private and local, and only the first is
    exclusive. A client that finds every instance busy tries again until it is
    let in or meets another error, and gives up on nothing else. *)
Theorem control_pipe_serves :
  (∀ evs n, piping evs n → (n <= MAX_CLIENTS)%nat ∧
     ((n < MAX_CLIENTS)%nat → ∀ options, pipe_turn (PipeConnected (Ok options)) n = Some (Ok (S n)))) ∧
  (∀ create security first options, new_pipe create security first = Ok options →
     security = Ok tt ∧ options = MkPipe first true true ∧ create options = Ok tt) ∧
  (∀ outcomes r slept, connect_pipe outcomes = (Some r, slept) →
     ∃ busy o rest, outcomes = replicate busy PipeBusy ++ o :: rest ∧ o ≠ PipeBusy ∧ slept = 50 * Z.of_nat busy ∧
       (r = Ok tt ↔ o = Opened)).
Proof.
  split_and!.
  - induction 1 as [|evs ev n n' _ [IH _] Ht]; [split; [lia|done]|].
    assert (Hle : (n' <= MAX_CLIENTS)%nat).
    { destruct ev as [next|e|]; simpl in Ht.
      - destruct (n <? MAX_CLIENTS)%nat eqn:E; [|done]. reflect_bools. destruct next; simplify_eq/=. lia.
      - by destruct (n <? MAX_CLIENTS)%nat.
      - destruct n; [done|]. simplify_eq. lia. }
    split; [done|]. intros Hlt options. unfold pipe_turn. by rewrite (proj2 (Nat.ltb_lt _ _)).
  - intros create security first options H. unfold new_pipe in H.
    apply result_bind_inv in H as ([] & -> & H). apply result_bind_inv in H as ([] & Hc & [= <-]).
    by destruct (create (MkPipe first true true)) as [[]|].
  - induction outcomes as [|o outcomes IH]; intros r slept; [done|]. destruct o as [| |e]; simpl.
    + intros [= <- <-]. by exists 0%nat, Opened, outcomes.
    + destruct (connect_pipe outcomes) as [r' s'] eqn:E. intros [= -> <-].
      destruct (IH r s' eq_refl) as (busy & o & rest & -> & Ho & -> & Hr).
      exists (S busy), o, rest. split_and!; [done|done|lia|exact Hr].
    + intros [= <- <-]. exists 0%nat, (OpenFailed e), outcomes. by split_and!.
Qed.

(** A stale socket is taken over, a socket somebody listens on is not. *)
Definition demo_old : Meta := MkMeta true 1000 7 1 384.
Definition demo_new : Meta := MkMeta true 1000 8 1 493.
Definition demo_env (c : Connect) (before_remove : Disk → Disk) : BindEnv :=
  MkBindEnv 1000 true c (λ d, d) before_remove (Ok tt) (λ d, d) (Ok tt) demo_new (λ d, d) (Ok tt) (λ d, d) (Ok tt)
    (MkDropEnv (λ d, d) (Ok tt)).
Definition demo_socket : bytes := lit "/etc/oixc/.oixc-0a1b2c3d.sock".

Example demo_take_over :
  bind demo_socket (demo_env ConnectionRefused (λ d, d)) (Some demo_old) = (Ok (8, 1), Some (MkMeta true 1000 8 1 384)).
Proof. reflexivity. Qed.
Example demo_in_use :
  bind demo_socket (demo_env Connected (λ d, d)) (Some demo_old)
  = (Err (Bail "another service already uses this configuration"), Some demo_old).
Proof. reflexivity. Qed.

(** Two services that start at once both find the stale socket. The other one takes
    the path after this one has looked at the old socket again: its new socket, on
    which it listens by then, is removed, and this service takes the path. *)
Lemma takeover_race :
  let theirs := MkMeta true 1000 9 1 384 in
  let env := demo_env ConnectionRefused (λ _, Some theirs) in
  stale env (Some demo_old) demo_old ∧
  bind demo_socket env (Some demo_old) = (Ok (8, 1), Some (MkMeta true 1000 8 1 384)).
Proof. split; [exists demo_old; split_and!; auto|reflexivity]. Qed.
