(* ===== verification/Install.v ===== *)
(** * Install: installing the service ([src/cli.rs])

    Copying the executable into place, writing a new service file, and the two
    installers that can undo what they did: [run_install_systemd] and
    [run_install_launch_agent]. The state is the files by path and the commands
    run so far; what the system makes of each call is the environment. *)
From S2P Require Import Prelude Bytes Text Commands.
Local Open Scope Z_scope.

Record World : Type := MkWorld { files : gmap bytes bytes; ran : list (bytes * list bytes) }.

Definition put (path content : bytes) (w : World) : World := MkWorld (<[path := content]> (files w)) (ran w).
Definition remove (path : bytes) (w : World) : World := MkWorld (delete path (files w)) (ran w).
(** What a call that failed half way leaves at a path. *)
Definition leave (path : bytes) (left : option bytes → option bytes) (w : World) : World :=
  MkWorld (partial_alter left path (files w)) (ran w).
Definition note (program : bytes) (arguments : list bytes) (w : World) : World :=
  MkWorld (files w) (ran w ++ [(program, arguments)]).

(** The system: the process (its user, its working directory, its executable,
    [HOME], its id), and what calls come to. A write may stop after some bytes, a
    copy that fails and an [install] that fails under [sudo] leave at their target
    what they like, a file may refuse to be removed; a command sees how many were
    run before it. *)
Record System : Type := MkSystem {
  os : bytes;
  euid : Z;
  uid : Z;
  current_dir : result bytes;
  current_exe : result bytes;
  home : option bytes;
  pid : Z;
  make_dirs : bytes → result unit;
  open_new : bytes → result unit;
  write_stops : bytes → option nat;
  sync : bytes → result unit;
  copy : result unit;
  copy_left : option bytes → option bytes;
  chmod : result unit;
  reopen : result unit;
  rename : result unit;
  remove_file : bytes → result unit;
  run : nat → bytes → list bytes → result unit;
  sudo : result bool;
  install_left : option bytes → option bytes
}.

Section Install.
Context (s : System).
(** [Path::parent]; loading the configuration; its default path; whether an
    error is [PermissionDenied]. *)
Context (parent : bytes → option bytes) (load_proxy_config : bytes → result unit).
Context (default_proxy_config_path : result bytes) (permission_denied : error → bool).

(** The second error in the message is left out. *)
Definition run_command (program : string) (arguments : list bytes) : M World unit := λ w,
  (map_err (Context "command failed") (run s (length (ran w)) (lit program) arguments),
   note (lit program) arguments w).

(** [write_all] and [sync_all] on an open file. *)
Definition write_file (path content : bytes) : M World unit :=
  match write_stops s path with
  | Some n => modify (put path (take n content));; bail "write"
  | None => modify (put path content);; lift (sync s path)
  end.

Definition write_service_file (path content : bytes) : M World unit :=
  directory ← lift (ok_or (Bail "service file has no parent") (parent path));
  lift (make_dirs s directory);;
  w ← get;
  match (files w !! path : option bytes) with
  | Some _ => throw (Context "service definition already exists" (Bail "File exists"))
  | None =>
      catch_map (Context "service definition already exists") (lift (open_new s path));;
      modify (put path []);;
      write_file path content
  end.

Definition ensure_not_root (command : string) : result unit :=
  if euid s =? 0 then Err (Bail "do not run this command with sudo; run it as the login user") else Ok tt.

Definition DESTINATION : bytes := lit "/usr/local/bin/oixc-proxy".

(** Copying: the source is read, a temporary copy becomes the destination. *)
Definition temporary_of (directory : bytes) : bytes :=
  join_path directory (lit ".oixc-proxy-install-" ++ dec (pid s)).

Definition install_executable (source destination : bytes) : M World unit :=
  directory ← lift (ok_or (Bail "destination has no directory") (parent destination));
  lift (make_dirs s directory);;
  let temporary := temporary_of directory in
  w ← get;
  content ← lift (ok_or (Bail "No such file or directory") (files w !! source : option bytes));
  match copy s with
  | Ok _ => modify (put temporary content)
  | Err e => modify (leave temporary (copy_left s));; throw e
  end;;
  lift (chmod s);;
  lift (reopen s);;
  lift (sync s temporary);;
  lift (rename s);;
  modify (λ w, put destination content (remove temporary w)).

(** With [sudo], [install] puts the content of the source in place when it
    succeeds. *)
Definition sudo_install (source destination : bytes) : M World unit :=
  let source := from_utf8_lossy source in
  modify (note (lit "/usr/bin/sudo") [lit "/usr/bin/install"; lit "-m"; lit "0755"; source; destination]);;
  success ← lift (sudo s);
  if (success : bool) then modify (λ w, match (files w !! source : option bytes) with Some content => put destination content w | None => w end)
  else modify (leave destination (install_left s));; bail "sudo install failed".

Definition install_current_executable : M World bytes :=
  source ← lift (current_exe s);
  if bool_decide (source = DESTINATION) then mret DESTINATION
  else
    installed ← try_ (install_executable source DESTINATION);
    match installed with
    | Ok _ => mret DESTINATION
    | Err e =>
        if permission_denied e then sudo_install source DESTINATION;; mret DESTINATION
        else throw e
    end.

Definition home_directory : result bytes := ok_or (Bail "locate home directory") (home s).

(** [fs::remove_file] whose result is ignored. *)
Definition forget (path : bytes) : M World unit :=
  match remove_file s path with Ok _ => modify (remove path) | Err _ => mret tt end.

(** ** The systemd user service *)

Definition unit_of (home : bytes) : bytes := join_path home (lit ".config/systemd/user/oixc-proxy.service").
Definition systemctl (arguments : list string) : M World unit := run_command "systemctl" (lit <$> ("--user"%string :: arguments)).

(** The last part: the unit is there, and has to be enabled. *)
Definition enable_unit (unit_path : bytes) : M World unit :=
  reloaded ← try_ (systemctl ["daemon-reload"%string]);
  match reloaded with
  | Err e => forget unit_path;; throw e
  | Ok _ =>
      enabled ← try_ (systemctl ["enable"; "--now"; "oixc-proxy.service"]%string);
      match enabled with
      | Err e =>
          try_ (systemctl ["disable"; "--now"; "oixc-proxy.service"]%string);;
          forget unit_path;;
          try_ (systemctl ["daemon-reload"%string]);;
          throw e
      | Ok _ => mret tt
      end
  end.

Definition working_of (config : bytes) : bytes := default (lit "/") (parent config).

Definition run_install_systemd (args : list bytes) : M World unit :=
  (if negb (bytes_eqb (os s) (lit "linux")) then bail "systemd installation is supported only on Linux" else mret tt);;
  lift (ensure_not_root "install-systemd");;
  default_path ← lift default_proxy_config_path;
  flags ← lift (parse_flags args [(lit "config", true)]);
  config ← lift (absolute_path (current_dir s) (flag_path flags "config" default_path));
  lift (load_proxy_config config);;
  installed ← install_current_executable;
  home ← lift home_directory;
  let unit_path := unit_of home in
  write_service_file unit_path (render_systemd installed config (working_of config));;
  enable_unit unit_path.

(** ** The macOS launch agent *)

Definition xml_escape (path : bytes) : bytes :=
  replace "'" (lit "&apos;") (replace QUOTE (lit "&quot;") (replace ">" (lit "&gt;")
    (replace "<" (lit "&lt;") (replace "&" (lit "&amp;") (from_utf8_lossy path))))).

Definition string_element (text : bytes) : bytes := lit "<string>" ++ text ++ lit "</string>".

(** Two attributes of the prologue are quoted. *)
Definition render_launch_agent (executable config working stdout stderr : bytes) : bytes :=
  concat ((λ line, line ++ [x0a]) <$>
    [lit "<?xml version=" ++ quoted (lit "1.0") ++ lit " encoding=" ++ quoted (lit "UTF-8") ++ lit "?>";
     lit "<!DOCTYPE plist PUBLIC " ++ quoted (lit "-//Apple//DTD PLIST 1.0//EN") ++ lit " "
       ++ quoted (lit "http://www.apple.com/DTDs/PropertyList-1.0.dtd") ++ lit ">";
     lit "<plist version=" ++ quoted (lit "1.0") ++ lit ">";
     lit "<dict>";
     lit "  <key>Label</key>"; lit "  " ++ string_element (lit "io.oixc.proxy");
     lit "  <key>ProgramArguments</key>"; lit "  <array>";
     lit "    " ++ string_element (xml_escape executable);
     lit "    " ++ string_element (lit "serve");
     lit "    " ++ string_element (lit "--config");
     lit "    " ++ string_element (xml_escape config);
     lit "  </array>";
     lit "  <key>WorkingDirectory</key>"; lit "  " ++ string_element (xml_escape working);
     lit "  <key>RunAtLoad</key>"; lit "  <true/>"; lit "  <key>KeepAlive</key>"; lit "  <true/>";
     lit "  <key>ProcessType</key>"; lit "  " ++ string_element (lit "Background");
     lit "  <key>ThrottleInterval</key>"; lit "  <integer>10</integer>";
     lit "  <key>StandardOutPath</key>"; lit "  " ++ string_element (xml_escape stdout);
     lit "  <key>StandardErrorPath</key>"; lit "  " ++ string_element (xml_escape stderr);
     lit "</dict>"; lit "</plist>"]).

Definition run_install_launch_agent (args : list bytes) : M World unit :=
  (if negb (bytes_eqb (os s) (lit "macos")) then bail "LaunchAgent installation is supported only on macOS" else mret tt);;
  lift (ensure_not_root "install-launch-agent");;
  default_path ← lift default_proxy_config_path;
  flags ← lift (parse_flags args [(lit "config", true)]);
  config ← lift (absolute_path (current_dir s) (flag_path flags "config" default_path));
  lift (load_proxy_config config);;
  installed ← install_current_executable;
  home ← lift home_directory;
  let plist := join_path home (lit "Library/LaunchAgents/io.oixc.proxy.plist") in
  let logs := join_path home (lit "Library/Logs") in
  lift (make_dirs s logs);;
  write_service_file plist (render_launch_agent installed config (working_of config)
    (join_path logs (lit "oixc-proxy.stdout.log")) (join_path logs (lit "oixc-proxy.stderr.log")));;
  let domain := lit "gui/" ++ dec (uid s) in
  bootstrapped ← try_ (run_command "launchctl" [lit "bootstrap"; domain; from_utf8_lossy plist]);
  match bootstrapped with
  | Err e => forget plist;; throw e
  | Ok _ => run_command "launchctl" [lit "kickstart"; lit "-k"; domain ++ lit "/io.oixc.proxy"]
  end.

(** ** What the parts do *)

Ltac run_steps :=
  unfold bail, throw, modify, get, lift, catch_map, try_, mret, M_ret, mbind, M_bind; simpl.

Lemma write_service_file_cases path content w :
  let '(r, w') := write_service_file path content w in
  ran w' = ran w ∧ (∀ p, p ≠ path → files w' !! p = files w !! p) ∧
  ((r = Ok tt ∧ files w !! path = None ∧ files w' !! path = Some content) ∨
   (is_ok r = false ∧ (w' = w ∨
      (files w !! path = None ∧ (write_stops s path ≠ None ∨ is_ok (sync s path) = false))))).
Proof.
  unfold write_service_file, write_file. run_steps.
  destruct (parent path) as [directory|]; simpl; [|by auto 10].
  destruct (make_dirs s directory) as [[]|e]; simpl; [|by auto 10].
  destruct (files w !! path) as [c|] eqn:Ef; [by auto 10|].
  destruct (open_new s path) as [[]|e]; simpl; [|by auto 10].
  destruct (write_stops s path) as [n|] eqn:Ew.
  - simpl. split_and!; [done|intros p Hp; by rewrite !lookup_insert_ne|]. right. split; [done|]. right. by auto.
  - destruct (sync s path) as [[]|e] eqn:Es; simpl;
      (split_and!; [done|intros p Hp; by rewrite !lookup_insert_ne|]).
    + left. by rewrite lookup_insert_eq.
    + right. split; [done|]. right. by auto.
Qed.

(** A write that breaks off leaves a part of the file, and while that is there
    writing the file again fails without touching it. *)
Lemma broken_write_blocks_retry path content again w e w' n :
  write_service_file path content w = (Err e, w') → files w !! path = None → files w' !! path = Some n →
  ∃ e', write_service_file path again w' = (Err e', w').
Proof.
  intros Hrun Hnone Hpart. unfold write_service_file in *. run_steps. revert Hrun. run_steps.
  destruct (parent path) as [directory|]; simpl; [|intros [= <- <-]; congruence].
  destruct (make_dirs s directory) as [[]|d]; simpl; [|intros [= <- <-]; congruence].
  intros _. rewrite Hpart. eauto.
Qed.

(** The paths an installation of the executable may touch. *)
Definition temporary : bytes := temporary_of (default [] (parent DESTINATION)).

Definition others_kept (w w' : World) : Prop :=
  ∀ p, p ≠ DESTINATION → p ≠ temporary → files w' !! p = files w !! p.
(** The executable in place is the old one or the whole new one. *)
Definition whole (w w' : World) : Prop :=
  files w' !! DESTINATION = files w !! DESTINATION
  ∨ ∃ source, current_exe s = Ok source ∧ files w' !! DESTINATION = files w !! source.
Definition executable_only (w w' : World) : Prop := others_kept w w' ∧ whole w w'.

(** The copy with [sudo] failed, and left there what it likes. *)
Definition sudo_failed {A} (w : World) (r : result A) (w' : World) : Prop :=
  r = Err (Bail "sudo install failed") ∧ sudo s = Ok false
  ∧ files w' !! DESTINATION = install_left s (files w !! DESTINATION).

Lemma last_dec z : u64 z → ∃ d, last (dec z) = Some d ∧ is_digit d = true.
Proof.
  intros Hz. pose proof (dec_digits z Hz) as Hd. pose proof (dec_nonempty z Hz) as Hn.
  destruct (dec z) as [|x l _] using rev_ind; [done|]. exists x. rewrite last_snoc. split; [done|].
  apply Forall_app in Hd as [_ Hd]. by rewrite Forall_singleton in Hd.
Qed.

Lemma last_join directory name : name ≠ [] → last (join_path directory name) = last name.
Proof.
  intros Hn. unfold join_path. destruct (_ || _); [done|].
  assert (∀ a, last (a ++ name) = last name) as Ha.
  { intros a. rewrite last_app. by destruct name as [|x name] using rev_ind; [|rewrite last_snoc]. }
  case_bool_decide; [apply Ha|]. by rewrite app_assoc.
Qed.

(** Service files end in letters, so they are neither the executable nor its copy. *)
Lemma service_path_apart home name c :
  u64 (pid s) → name ≠ [] → last name = Some c → is_digit c = false → c ≠ x79 →
  join_path home name ≠ DESTINATION ∧ join_path home name ≠ temporary.
Proof.
  intros Hp Hn Hl Hc Hy. pose proof (last_join home name Hn) as Hlj. rewrite Hl in Hlj.
  split; intros E; rewrite E in Hlj.
  - vm_compute in Hlj. congruence.
  - unfold temporary, temporary_of in Hlj. destruct (last_dec (pid s) Hp) as (d & Hd & Hdig).
    rewrite last_join in Hlj by (intros [H _]%app_nil; by vm_compute in H).
    rewrite last_app, Hd in Hlj. congruence.
Qed.

Lemma executable_only_refl w : executable_only w w.
Proof. split; [done|by left]. Qed.

(** A failed copy leaves the destination, a finished one has the source's content. *)
Lemma install_executable_cases source w :
  current_exe s = Ok source → source ≠ DESTINATION → source ≠ temporary → temporary ≠ DESTINATION →
  let '(r, w') := install_executable source DESTINATION w in
  ran w' = ran w ∧ executable_only w w' ∧ (is_ok r = false → files w' !! source = files w !! source
    ∧ files w' !! DESTINATION = files w !! DESTINATION).
Proof.
  intros Hs Hne Hst Ht. unfold install_executable. run_steps.
  destruct (parent DESTINATION) as [directory|] eqn:Ep; simpl; [|by auto using executable_only_refl].
  assert (Htemp : temporary_of directory = temporary) by (unfold temporary; by rewrite Ep). rewrite Htemp.
  destruct (make_dirs s directory) as [[]|e]; simpl; [|by auto using executable_only_refl].
  destruct (files w !! source) as [content|] eqn:Ef; simpl; [|by auto using executable_only_refl].
  destruct (copy s) as [[]|e]; simpl.
  2: { split_and!; [done| |]; simpl.
       - split; [intros p _ Hp|left]; simpl; by rewrite lookup_partial_alter_ne.
       - intros _. by rewrite !lookup_partial_alter_ne. }
  set (w1 := put temporary content w).
  assert (H1 : executable_only w w1 ∧ files w1 !! source = Some content ∧ files w1 !! DESTINATION = files w !! DESTINATION).
  { split_and!.
    - split; [|left; simpl; by rewrite lookup_insert_ne]. intros p _ Hp. simpl. by rewrite lookup_insert_ne.
    - simpl. by rewrite lookup_insert_ne.
    - simpl. by rewrite lookup_insert_ne. }
  destruct H1 as (Ho & Hsrc & Hdst).
  destruct (chmod s) as [[]|e]; simpl; [|by auto].
  destruct (reopen s) as [[]|e]; simpl; [|by auto].
  destruct (sync s temporary) as [[]|e]; simpl; [|by auto].
  destruct (rename s) as [[]|e]; simpl; [|by auto].
  split_and!; [done| |done]. split.
  - intros p Hd Hp. simpl. rewrite lookup_insert_ne, lookup_delete_ne, lookup_insert_ne by done. done.
  - right. exists source. split; [done|]. simpl. by rewrite lookup_insert_eq, Ef.
Qed.

Lemma install_current_executable_cases w :
  temporary ≠ DESTINATION → (∀ source, current_exe s = Ok source → from_utf8_lossy source = source ∧ source ≠ temporary) →
  let '(r, w') := install_current_executable w in
  others_kept w w' ∧ (whole w w' ∨ sudo_failed w r w') ∧ (∀ d, r = Ok d → d = DESTINATION) ∧
  (∃ asked, ran w' = ran w ++ asked ∧ Forall (λ c, c.1 = lit "/usr/bin/sudo") asked).
Proof.
  intros Ht Hutf8. unfold install_current_executable. run_steps.
  assert (Hnone : ∀ w', ran w' = ran w →
    ∃ asked, ran w' = ran w ++ asked ∧ Forall (λ c, c.1 = lit "/usr/bin/sudo") asked).
  { intros w' ->. exists []. by rewrite app_nil_r. }
  destruct (current_exe s) as [source|e] eqn:Es; simpl; [|by split_and!; [|left; left| |apply Hnone]].
  destruct (Hutf8 source eq_refl) as [Htext Hst].
  case_bool_decide as Hd; [simpl; by split_and!; [|left; left|intros d [= <-]|apply Hnone]|].
  pose proof (install_executable_cases source w Es Hd Hst Ht) as Hi.
  destruct (install_executable source DESTINATION w) as [[[]|e] w1]; destruct Hi as (Hr & [Ho Hw] & Hsame).
  { simpl. split_and!; [done|by left|by intros d [= <-]|by apply Hnone]. }
  destruct (Hsame eq_refl) as [Hsrc Hdst]. simpl.
  destruct (permission_denied e); [|split_and!; [done|by left|done|by apply Hnone]].
  unfold sudo_install. rewrite Htext. run_steps.
  assert (Hasked : ∃ asked, ran w1 ++ [(lit "/usr/bin/sudo",
      [lit "/usr/bin/install"; lit "-m"; lit "0755"; source; DESTINATION])] = ran w ++ asked
      ∧ Forall (λ c, c.1 = lit "/usr/bin/sudo") asked).
  { rewrite Hr. eexists. split; [done|]. by apply Forall_singleton. }
  destruct (sudo s) as [[|]|e'] eqn:Esudo; simpl.
  - destruct (files w1 !! source) as [content|] eqn:Ef; simpl;
      (split_and!; [| |by intros d [= <-]|done]); [|left|exact Ho|by left].
    + intros p Hp Hpt. simpl. rewrite lookup_insert_ne by done. by apply Ho.
    + right. exists source. split; [done|]. simpl. rewrite lookup_insert_eq. congruence.
  - split_and!; [|right|done|done].
    + intros p Hp Hpt. simpl. rewrite lookup_partial_alter_ne by done. by apply Ho.
    + split_and!; [done|done|]. simpl. by rewrite lookup_partial_alter_eq, Hdst.
  - by split_and!; [|left| |].
Qed.

Definition systemctl_call (arguments : list string) : bytes * list bytes :=
  (lit "systemctl", lit <$> ("--user"%string :: arguments)).
Definition enabling : list (bytes * list bytes) :=
  [systemctl_call ["daemon-reload"]; systemctl_call ["enable"; "--now"; "oixc-proxy.service"]]%string.

(** Enabling keeps the unit, or fails and removes it unless it cannot be removed. *)
Lemma enable_unit_cases unit_path w :
  let '(r, w') := enable_unit unit_path w in
  (r = Ok tt ∧ files w' = files w ∧ ran w' = ran w ++ enabling) ∨
  (is_ok r = false ∧ files w' = if is_ok (remove_file s unit_path) then delete unit_path (files w) else files w).
Proof.
  unfold enable_unit, forget. run_steps.
  destruct (run s (length (ran w)) _ _) as [[]|e]; simpl.
  2: { destruct (remove_file s unit_path) as [[]|]; by right. }
  destruct (run s _ _ _) as [[]|e]; simpl; [left; by rewrite <-app_assoc|].
  destruct (remove_file s unit_path) as [[]|]; by right.
Qed.

(** What an installation may leave behind, for a unit at [unit_path]. *)
Definition installed_or_undone (unit_path : bytes) (w : World) (r : result unit) (w' : World) : Prop :=
  (∀ c, files w !! unit_path = Some c → is_ok r = false ∧ files w' !! unit_path = Some c) ∧
  match r with
  | Ok _ =>
      euid s ≠ 0 ∧ (∃ config, load_proxy_config config = Ok tt
        ∧ files w' !! unit_path = Some (render_systemd DESTINATION config (working_of config)))
      ∧ ∃ before, ran w' = before ++ enabling
  | Err _ =>
      write_stops s unit_path = None → sync s unit_path = Ok tt →
      files w' !! unit_path = files w !! unit_path
      ∨ is_ok (remove_file s unit_path) = false ∧ ∃ config, load_proxy_config config = Ok tt
        ∧ files w' !! unit_path = Some (render_systemd DESTINATION config (working_of config))
  end ∧
  (files w' !! DESTINATION = files w !! DESTINATION
   ∨ (∃ source, current_exe s = Ok source ∧ files w' !! DESTINATION = files w !! source)
   ∨ r = Err (Bail "sudo install failed") ∧ sudo s = Ok false
     ∧ files w' !! DESTINATION = install_left s (files w !! DESTINATION)) ∧
  (∀ p, p ∉ [unit_path; DESTINATION; temporary] → files w' !! p = files w !! p).

Lemma undone unit_path w w' e :
  unit_path ≠ DESTINATION → unit_path ≠ temporary → others_kept w w' →
  whole w w' ∨ sudo_failed w (Err (A := unit) e) w' → installed_or_undone unit_path w (Err e) w'.
Proof.
  intros Hd Ht Ho Hdst. split_and!; [|by intros _ _; left; apply Ho|unfold whole, sudo_failed in Hdst; tauto|].
  - intros c Hc. split; [done|]. by rewrite Ho.
  - intros p Hp. apply Ho; set_solver.
Qed.

(** The part after the executable is in place. *)
Lemma unit_part unit_path config w w1 :
  unit_path ≠ DESTINATION → unit_path ≠ temporary → executable_only w w1 →
  euid s ≠ 0 → load_proxy_config config = Ok tt →
  let '(r, w') := (write_service_file unit_path (render_systemd DESTINATION config (working_of config));;
                   enable_unit unit_path) w1 in
  installed_or_undone unit_path w r w'.
Proof.
  intros Hd Ht Ho Hroot Hload. set (content := render_systemd _ _ _).
  pose proof (write_service_file_cases unit_path content w1) as Hw.
  unfold mbind, M_bind. destruct (write_service_file unit_path content w1) as [[[]|e] w2];
    destruct Hw as (Hran & Hother & [(Hok & Hnone & Hsome)|(Hbad & Hcases)]); try done.
  - pose proof (enable_unit_cases unit_path w2) as He. destruct (enable_unit unit_path w2) as [r w3].
    destruct Ho as [Ho Hdst]. rewrite Ho in Hnone by done.
    destruct He as [(-> & Hf & Hr)|(Hr & Hf)].
    + split_and!; [intros c Hc; congruence|done|exists config; split; [done|by rewrite Hf]|by eexists|..].
      * rewrite Hf, Hother by done. unfold whole in Hdst. tauto.
      * intros p Hp. rewrite Hf, Hother, Ho by set_solver. done.
    + destruct r as [[]|e]; [done|]. split_and!; [intros c Hc; congruence|..].
      * intros _ _. rewrite Hf. destruct (is_ok (remove_file s unit_path)); [left; by rewrite lookup_delete_eq|].
        right. split; [done|]. by exists config.
      * rewrite Hf. destruct (is_ok (remove_file s unit_path)); [rewrite lookup_delete_ne by done|]; rewrite Hother by done; unfold whole in Hdst; tauto.
      * intros p Hp. rewrite Hf. destruct (is_ok (remove_file s unit_path)); [rewrite lookup_delete_ne by set_solver|]; by rewrite Hother, Ho by set_solver.
  - destruct Hcases as [->|[Hnone Hio]]; [by destruct Ho; apply undone; [..|left]|].
    destruct Ho as [Ho Hdst]. rewrite Ho in Hnone by done. split_and!.
    + intros c Hc. congruence.
    + intros Hw Hs. destruct Hio as [?|Hio]; [done|]. by rewrite Hs in Hio.
    + rewrite Hother by done. unfold whole in Hdst. tauto.
    + intros p Hp. rewrite Hother, Ho by set_solver. done.
Qed.

(** C33: Installing the systemd user service is a transaction on its unit. An
    existing unit is never touched, and the installation then fails. A successful
    one was not run by root, leaves the unit rendered for the installed executable
    and a configuration that loads, and ends with its daemon-reload and enabling.
    A failed one leaves no unit behind where there was none, at any step, unless
    writing the unit itself broke off, or the written unit could not be removed
    again (which is ignored): then it is there whole. The executable in place is the
    old one or the whole new one, never a part, unless the copy with sudo fails: then
    the installation fails with this, and what that copy left is there. No other file
    changes but the installer's temporary copy. The path of the running executable is
    UTF-8 and is not that of this temporary copy. *)
Theorem install_systemd_transaction args home_dir w :
  u64 (pid s) → home s = Some home_dir →
  (∀ source, current_exe s = Ok source → from_utf8_lossy source = source ∧ source ≠ temporary) →
  let '(r, w') := run_install_systemd args w in
  installed_or_undone (unit_of home_dir) w r w'.
Proof.
  intros Hpid Hhome Hutf8. set (unit_path := unit_of home_dir).
  destruct (service_path_apart home_dir (lit ".config/systemd/user/oixc-proxy.service") x65 Hpid
              ltac:(by vm_compute) eq_refl eq_refl ltac:(done)) as [Hud Hut].
  fold (unit_of home_dir) in Hud, Hut. fold unit_path in Hud, Hut.
  assert (Htd : temporary ≠ DESTINATION).
  { intros E. apply (f_equal last) in E. unfold temporary, temporary_of in E.
    destruct (last_dec (pid s) Hpid) as (d & Hd & Hdig).
    rewrite last_join in E by (intros [H _]%app_nil; by vm_compute in H).
    rewrite last_app, Hd in E. vm_compute in E. injection E as ->. done. }
  assert (Hearly : ∀ e, installed_or_undone unit_path w (Err e) w)
    by (intros e; apply undone; [done|done|done|by left; left]).
  unfold run_install_systemd, ensure_not_root.
  destruct (negb (bytes_eqb (os s) (lit "linux"))); [apply Hearly|].
  destruct (euid s =? 0) eqn:Eu; [apply Hearly|]. reflect_bools.
  destruct default_proxy_config_path as [default_path|e]; [|apply Hearly].
  unfold mbind at 1 2 3, M_bind at 1 2 3, mret at 1, M_ret at 1, lift at 1 2. 
  unfold mbind at 1, M_bind at 1, lift at 1. destruct (parse_flags args _) as [flags|e]; [|apply Hearly].
  unfold mbind at 1, M_bind at 1, lift at 1. destruct (absolute_path _ _) as [config|e]; [|apply Hearly].
  unfold mbind at 1, M_bind at 1, lift at 1. destruct (load_proxy_config config) as [[]|e] eqn:El; [|apply Hearly].
  pose proof (install_current_executable_cases w Htd Hutf8) as Hi.
  unfold mbind at 1, M_bind at 1. destruct (install_current_executable w) as [[installed|e] w1];
    destruct Hi as (Ho & Hw & Hdst & _).
  2: { apply undone; [done..|]. destruct Hw as [?|[E ?]]; [by left|right]. injection E as ->. by split. }
  destruct Hw as [Hw|[? _]]; [|done]. rewrite (Hdst _ eq_refl). unfold home_directory. rewrite Hhome.
  unfold mbind at 1, M_bind at 1, lift at 1. cbn [ok_or].
  apply unit_part; by try split.
Qed.
End Install.

(** ** The launch agent's strings *)

(** Reading the text of an XML element: the five predefined entities. *)
Definition entities : list (bytes * byte) :=
  [(lit "amp;", "&"%byte); (lit "lt;", "<"%byte); (lit "gt;", ">"%byte); (lit "quot;", QUOTE); (lit "apos;", "'"%byte)].

Fixpoint xml_text (fuel : nat) (text : bytes) : option bytes :=
  match fuel, text with
  | _, [] => Some []
  | O, _ => None
  | S fuel, b :: rest =>
      if byteb b "&" then
        e ← List.find (λ e, starts_with e.1 rest) entities;
        (cons e.2) <$> xml_text fuel (drop (length e.1) rest)
      else if byteb b "<" then None
      else (cons b) <$> xml_text fuel rest
  end.

(** What the replacements make of one character, in one pass. *)
Definition escape_byte (c : byte) : bytes :=
  if byteb c "&" then lit "&amp;" else if byteb c "<" then lit "&lt;" else if byteb c ">" then lit "&gt;"
  else if byteb c QUOTE then lit "&quot;" else if byteb c "'" then lit "&apos;" else [c].

Lemma xml_escape_bytes path : xml_escape path = from_utf8_lossy path ≫= escape_byte.
Proof.
  unfold xml_escape, replace. rewrite !bind_bind. apply list_bind_ext; [|done]. intros c.
  unfold escape_byte. destruct (byteb c "&") eqn:E1; [done|]. simpl. destruct (byteb c "<") eqn:E2; [done|].
  simpl. destruct (byteb c ">") eqn:E3; [done|]. simpl. destruct (byteb c QUOTE) eqn:E4; [done|].
  simpl. by destruct (byteb c "'").
Qed.

Lemma xml_text_step fuel c l :
  (length (l ≫= escape_byte) <= fuel)%nat →
  xml_text (length (escape_byte c) + fuel) (escape_byte c ++ (l ≫= escape_byte)) =
    (cons c) <$> xml_text (length (escape_byte c) - 1 + fuel) (l ≫= escape_byte).
Proof.
  intros _. unfold escape_byte at 1 2 4.
  destruct (byteb c "&") eqn:E1; [by apply byteb_eq in E1 as ->|].
  destruct (byteb c "<") eqn:E2; [by apply byteb_eq in E2 as ->|].
  destruct (byteb c ">") eqn:E3; [by apply byteb_eq in E3 as ->|].
  destruct (byteb c QUOTE) eqn:E4; [by apply byteb_eq in E4 as ->|].
  destruct (byteb c "'") eqn:E5; [by apply byteb_eq in E5 as ->|].
  simpl. by rewrite E1, E2.
Qed.

(** A path is read back from the launch agent as its (lossy) text, whatever
    characters it has. *)
Lemma xml_escape_roundtrip path fuel :
  (length (xml_escape path) <= fuel)%nat → xml_text fuel (xml_escape path) = Some (from_utf8_lossy path).
Proof.
  rewrite xml_escape_bytes. generalize (from_utf8_lossy path). clear path. intros l.
  revert fuel; induction l as [|c l IH]; intros fuel Hf; [by destruct fuel|]. csimpl. csimpl in Hf.
  rewrite length_app in Hf.
  assert (1 <= length (escape_byte c))%nat by (unfold escape_byte; repeat case_match; simpl; lia).
  replace fuel with (length (escape_byte c) + (fuel - length (escape_byte c)))%nat by lia.
  rewrite xml_text_step by lia. rewrite IH by lia. done.
Qed.

(** ** Witness: enabling fails, and the unit is gone again *)

Definition demo_system (enable : result unit) : System :=
  MkSystem (lit "linux") 1000 1000 (Ok (lit "/home/u")) (Ok (lit "/home/u/oixc-proxy")) (Some (lit "/home/u")) 42
    (λ _, Ok tt) (λ _, Ok tt) (λ _, None) (λ _, Ok tt) (Ok tt) (λ _, None) (Ok tt) (Ok tt) (Ok tt) (λ _, Ok tt)
    (λ n _ _, if (n =? 1)%nat then enable else Ok tt) (Ok false) (λ _, None).
Definition demo_world : World := MkWorld {[ lit "/home/u/oixc-proxy" := lit "ELF" ]} [].
Definition demo_install (enable : result unit) : result unit * World :=
  run_install_systemd (demo_system enable) (λ _, Some (lit "/usr/local/bin")) (λ _, Ok tt) (Ok (lit "oixc.conf"))
    (λ _, false) [lit "--config"; lit "my.conf"] demo_world.

Lemma install_systemd_transaction_witness :
  (∃ w', demo_install (Ok tt) = (Ok tt, w') ∧ ∃ unit_text, files w' !! unit_of (lit "/home/u") = Some unit_text)
  ∧ (∃ e w', demo_install (Err (Bail "enable")) = (Err e, w') ∧ files w' !! unit_of (lit "/home/u") = None).
Proof.
  split.
  - pose proof (install_systemd_transaction (demo_system (Ok tt)) (λ _, Some (lit "/usr/local/bin")) (λ _, Ok tt)
      (Ok (lit "oixc.conf")) (λ _, false) [lit "--config"; lit "my.conf"] (lit "/home/u") demo_world
      ltac:(unfold u64, U64_MAX; simpl; lia) eq_refl
      ltac:(intros source [= <-]; split; [vm_compute; reflexivity|vm_compute; discriminate])) as H.
    assert (Hr : (demo_install (Ok tt)).1 = Ok tt) by (vm_compute; reflexivity).
    unfold demo_install in *.
    destruct (run_install_systemd _ _ _ _ _ _ demo_world) as [r w']. simpl in Hr. subst r.
    exists w'. split; [reflexivity|]. destruct H as (_ & (_ & (config & _ & Hc) & _) & _). eexists. exact Hc.
  - pose proof (install_systemd_transaction (demo_system (Err (Bail "enable"))) (λ _, Some (lit "/usr/local/bin"))
      (λ _, Ok tt) (Ok (lit "oixc.conf")) (λ _, false) [lit "--config"; lit "my.conf"] (lit "/home/u") demo_world
      ltac:(unfold u64, U64_MAX; simpl; lia) eq_refl
      ltac:(intros source [= <-]; split; [vm_compute; reflexivity|vm_compute; discriminate])) as H.
    assert (Hr : is_ok (demo_install (Err (Bail "enable"))).1 = false) by (vm_compute; reflexivity).
    unfold demo_install in *.
    destruct (run_install_systemd _ _ _ _ _ _ demo_world) as [[[]|e] w']; [discriminate|].
    exists e, w'. split; [reflexivity|]. destruct H as (_ & H & _).
    destruct (H eq_refl eq_refl) as [E|[E _]]; [rewrite E; vm_compute; reflexivity|discriminate E].
Defined.
