(* ===== verification/ServeMap.v ===== *)
(** * ServeMap: one SOCKS5 port per node ([run_serve_map] of [src/cli.rs])

    The settings of the command, the ports and routes of a map, what a listener
    serves, and the refresh of a running map. Fetching the catalog is
    [CatalogService.load_managed_catalog]; here its outcome is an argument, as is
    whether a node's client can be made and a port bound. *)
From stdpp Require Import gmap.
From S2P Require Import Prelude Bytes Text Ip Nodes Commands.
From S2P Require Gateway Socks5.
Local Open Scope Z_scope.

(** ** Settings *)

Definition map_token_file (f : flags) : result bytes :=
  let token_file := default (lit "token.txt") (flag_value f "token-file") in
  if bool_decide (token_file = []) then usage "--token-file cannot be empty" else Ok token_file.

Section Settings.
Context (to_lowercase : bytes → bytes).
Definition map_filter (f : flags) : result NodeFilter :=
  let text name := default [] (flag_value f name) in
  filter_new to_lowercase (text "node-filter-lines"%string) (text "node-filter-regions"%string)
    (text "node-filter-include"%string) (text "node-filter-exclude"%string).
End Settings.

Definition map_listen (f : flags) : result IpAddr :=
  listen ← ok_or (Context "usage" (Bail "SOCKS5 map must use a numeric loopback IP"))
    (parse_ip (default (lit "127.0.0.1") (flag_value f "listen")));
  if negb (is_loopback listen) then usage "SOCKS5 map must use a numeric loopback IP" else Ok listen.

(** The first port: the configured one where the flag is missing or zero. *)
Definition map_base (f : flags) (map_base_port : Z) : result Z :=
  requested ← match flag_value f "base-port" with
              | Some value => ok_or (Context "usage" (Bail "--base-port must be between 1 and 65535"))
                                (parse_uint U16_MAX value)
              | None => Ok 0
              end;
  Ok (if requested =? 0 then map_base_port else requested).

(** ** The routes *)

Section Map.
Context (make_client : Proxy → result unit) (bind : Z → result unit).

(** [build_fixed_route]: the client is the next one. *)
Definition build_fixed_route (p : Proxy) (next : nat) : result Gateway.Route :=
  make_client p;; Ok (Gateway.MkRoute next (udp p)).

(** [base_port + index as u16] *)
Definition map_port (base : Z) (index : nat) : Z := (base + Z.of_nat index mod 2 ^ 16) mod 2 ^ 16.

(** The loop that makes the listeners and the routes, with their ports. *)
Fixpoint map_routes (base : Z) (index : nat) (ps : list Proxy) : result (list (Z * Gateway.Route)) :=
  match ps with
  | [] => Ok []
  | p :: ps =>
      let port := map_port base index in
      bind port;;
      route ← build_fixed_route p index;
      rest ← map_routes base (S index) ps;
      Ok ((port, route) :: rest)
  end.

Record MapState : Type := MkMap {
  mapped : list Proxy; ports : list Z; routes : list Gateway.Route; next_client : nat; closed_clients : list nat;
}.

(** [run_serve_map], from the catalog to the loop. *)
Definition map_start (base : Z) (managed : list Proxy) : result MapState :=
  if U16_MAX + 1 <? base + Z.of_nat (length managed) then Err (Bail "SOCKS5 map port range exceeds 65535")
  else
    built ← map_routes base 0 managed;
    Ok (MkMap managed built.*1 built.*2 (length managed) []).

(** ** Refreshes *)

Record MapRefresh : Type := MkRefresh { updates : list (nat * Proxy); added : nat; removed : nat }.

(** The loop over the mapped nodes. *)
Fixpoint plan_loop (index : nat) (current : list Proxy) (refreshed : list Proxy) : list (nat * Proxy) * nat :=
  match current with
  | [] => ([], 0%nat)
  | c :: current =>
      let '(us, gone) := plan_loop (S index) current refreshed in
      match List.find (λ p, bytes_eqb (name p) (name c)) refreshed with
      | Some p => if bool_decide (p ≠ c) then ((index, p) :: us, gone) else (us, gone)
      | None => (us, S gone)
      end
  end.

Definition plan_map_refresh (current refreshed : list Proxy) : MapRefresh :=
  let '(us, gone) := plan_loop 0 current refreshed in
  MkRefresh us
    (length (filter (λ p, existsb (λ c, bytes_eqb (name c) (name p)) current = false) refreshed)) gone.

(** One update of the loop: a node whose client cannot be made keeps its old one. *)
Definition apply_update (s : MapState) (u : nat * Proxy) : MapState :=
  match build_fixed_route u.2 (next_client s) with
  | Err _ => s
  | Ok route =>
      MkMap (<[u.1 := u.2]> (mapped s)) (ports s) (<[u.1 := route]> (routes s)) (S (next_client s))
        (closed_clients s ++ match routes s !! u.1 with Some old => [Gateway.route_client old] | None => [] end)
  end.

(** A turn of the loop: what the fetch gave, or nothing when it failed. *)
Definition map_turn (fetched : option (list Proxy)) (s : MapState) : MapState :=
  match fetched with
  | None => s
  | Some refreshed => foldl apply_update s (updates (plan_map_refresh (mapped s) refreshed))
  end.
End Map.

(** ** What a listener serves *)

Definition map_credentials (socks_username socks_password : bytes) : option Socks5.Credentials :=
  if bool_decide (socks_username = []) then None
  else Some (Socks5.MkCredentials socks_username socks_password).

(** [FixedRoute::get] of the listener at an index, when a handshake needs it:
    the route is looked up for each connection, so a refresh reaches the next
    one while those before keep theirs. *)
Definition map_mode (credentials : option Socks5.Credentials) (s : MapState) (index : nat) :
    option (Socks5.Mode (Route := Gateway.Route)) :=
  (λ route, Socks5.Fixed route credentials) <$> routes s !! index.

(** ** Ports stay with their nodes *)

Lemma map_port_exact base n i :
  0 < base → base + Z.of_nat n <= U16_MAX + 1 → (i < n)%nat → map_port base i = base + Z.of_nat i.
Proof. unfold map_port, U16_MAX. intros. rewrite (Z.mod_small (Z.of_nat i)) by lia. apply Z.mod_small. lia. Qed.

Section Guarantees.
Context (make_client : Proxy → result unit) (bind : Z → result unit).
Abbreviation clients s := (Gateway.route_client <$> routes s).

(** Each port has a node, its port number and a client made for it; no client is
    on two ports, and none in use is closed. *)
Record map_ok (base : Z) (s : MapState) : Prop := {
  mo_ports i p : ports s !! i = Some p → p = base + Z.of_nat i ∧ u16 p;
  mo_lengths : length (ports s) = length (mapped s) ∧ length (routes s) = length (mapped s);
  mo_routes i p r : mapped s !! i = Some p → routes s !! i = Some r → Gateway.route_udp r = udp p;
  mo_distinct : NoDup (clients s ++ closed_clients s);
  mo_made id : id ∈ clients s ++ closed_clients s → (id < next_client s)%nat;
}.

(** The node that a port's node becomes. *)
Definition refreshed_node (refreshed : list Proxy) (p : Proxy) : Proxy :=
  match List.find (λ q, bytes_eqb (name q) (name p)) refreshed with
  | Some q => if is_ok (make_client q) then q else p
  | None => p
  end.

Lemma map_routes_ok base n index ps built :
  0 < base → base + Z.of_nat n <= U16_MAX + 1 → (index + length ps <= n)%nat →
  map_routes make_client bind base index ps = Ok built →
  length built = length ps ∧
  ∀ i p, ps !! i = Some p →
    built !! i = Some (base + Z.of_nat (index + i), Gateway.MkRoute (index + i) (udp p)).
Proof.
  intros Hb Hn. revert index built. induction ps as [|p ps IH]; intros index built Hle; cbn [map_routes].
  { intros [= <-]. by split. }
  simpl in Hle. intros ([] & _ & Hr)%result_bind_inv. unfold build_fixed_route in Hr.
  apply result_bind_inv in Hr as (route & Hroute & Hr). apply result_bind_inv in Hroute as ([] & _ & [= <-]).
  apply result_bind_inv in Hr as (rest & Hrest & [= <-]).
  destruct (IH (S index) rest) as [Hl Hi]; [lia|done|]. split; [simpl; lia|].
  intros [|i] q Hq; simpl in *.
  - injection Hq as ->. rewrite (map_port_exact base n index) by lia. by rewrite Nat.add_0_r.
  - rewrite (Hi i q Hq). by rewrite Nat.add_succ_r.
Qed.

Lemma map_start_ok base managed s :
  0 < base → map_start make_client bind base managed = Ok s → map_ok base s ∧ mapped s = managed.
Proof.
  intros Hb. unfold map_start. destruct (_ <? _) eqn:E; [done|]. reflect_bools.
  intros (built & Hbuilt & [= <-])%result_bind_inv.
  destruct (map_routes_ok base (length managed) 0 managed built) as [Hl Hi]; [done|lia|lia|done|].
  assert (Hclients : Gateway.route_client <$> built.*2 = seq 0 (length managed)).
  { apply list_eq. intros i. rewrite !list_lookup_fmap. destruct (managed !! i) as [p|] eqn:Hp.
    - rewrite (Hi i p Hp). simpl. rewrite lookup_seq_lt; [done|]. by apply lookup_lt_Some in Hp.
    - apply lookup_ge_None in Hp. rewrite (lookup_ge_None_2 built) by lia. symmetry. by apply lookup_seq_ge. }
  split; [|done]. split; cbn [mapped ports routes next_client closed_clients].
  - intros i p. rewrite list_lookup_fmap. destruct (managed !! i) as [q|] eqn:Hq.
    + rewrite (Hi i q Hq). apply lookup_lt_Some in Hq. intros [= <-]. unfold u16, U16_MAX in *. lia.
    + apply lookup_ge_None in Hq. by rewrite (lookup_ge_None_2 built) by lia.
  - rewrite !length_fmap. by split.
  - intros i p r Hp. rewrite list_lookup_fmap, (Hi i p Hp). by intros [= <-].
  - rewrite app_nil_r, Hclients. apply NoDup_seq.
  - intros id. rewrite app_nil_r, Hclients. rewrite elem_of_seq. lia.
Qed.

Lemma insert_Permutation {A} (l : list A) i x y : l !! i = Some x → x :: <[i := y]> l ≡ₚ y :: l.
Proof.
  intros Hx. pose proof (lookup_lt_Some _ _ _ Hx) as Hi.
  assert (delete i (<[i := y]> l) = delete i l) as Hd.
  { rewrite !delete_take_drop, take_insert_ge by lia. by rewrite drop_insert_lt by lia. }
  rewrite (delete_Permutation (<[i := y]> l) i y) by (by apply list_lookup_insert_eq). rewrite Hd.
  rewrite (delete_Permutation l i x Hx) at 2. constructor.
Qed.

Lemma apply_update_ok base s i p old q :
  map_ok base s → mapped s !! i = Some p → routes s !! i = Some old → is_ok (make_client q) = true →
  let s' := apply_update make_client s (i, q) in
  map_ok base s' ∧ mapped s' = <[i := q]> (mapped s) ∧ ports s' = ports s ∧
  routes s' = <[i := Gateway.MkRoute (next_client s) (udp q)]> (routes s) ∧
  closed_clients s' = closed_clients s ++ [Gateway.route_client old].
Proof.
  intros [Hports Hlen Hroutes Hdist Hmade] Hp Hold Hq. unfold apply_update, build_fixed_route. cbn [fst snd].
  destruct (make_client q) as [[]|]; [|done]. simpl. rewrite Hold. split_and!; try done.
  pose proof (lookup_lt_Some _ _ _ Hp) as Hi. pose proof (lookup_lt_Some _ _ _ Hold) as Hio.
  assert (clients s !! i = Some (Gateway.route_client old)) as Hc by (by rewrite list_lookup_fmap, Hold).
  assert (Hperm : (Gateway.route_client <$> <[i := Gateway.MkRoute (next_client s) (udp q)]> (routes s))
                  ++ closed_clients s ++ [Gateway.route_client old]
                  ≡ₚ next_client s :: clients s ++ closed_clients s).
  { rewrite list_fmap_insert. cbn [Gateway.route_client]. rewrite app_assoc, (Permutation_app_comm _ [_]).
    simpl. rewrite app_comm_cons. by rewrite (insert_Permutation _ i _ _ Hc). }
  split; cbn [mapped ports routes next_client closed_clients].
  - done.
  - by rewrite !length_insert.
  - intros j p' r. destruct (decide (j = i)) as [->|Hj].
    + rewrite !list_lookup_insert_eq by done. by intros [= <-] [= <-].
    + rewrite !list_lookup_insert_ne by done. apply Hroutes.
  - rewrite Hperm. constructor; [|done]. intros Hin. apply Hmade in Hin. lia.
  - intros id. rewrite Hperm. intros [->|Hin]%elem_of_cons; [lia|]. apply Hmade in Hin. lia.
Qed.

(** What the updates for the nodes from a port on do. *)
Record turned (base : Z) (refreshed : list Proxy) (index : nat) (current : list Proxy) (s s' : MapState) : Prop := {
  tu_ok : map_ok base s';
  tu_length : length (mapped s') = length (mapped s) ∧ ports s' = ports s;
  tu_others j : (j < index)%nat ∨ (index + length current <= j)%nat →
    mapped s' !! j = mapped s !! j ∧ routes s' !! j = routes s !! j;
  tu_nodes i p : current !! i = Some p →
    mapped s' !! (index + i)%nat = Some (refreshed_node refreshed p) ∧
    (refreshed_node refreshed p = p → routes s' !! (index + i)%nat = routes s !! (index + i)%nat);
  tu_closed : ∃ closed, closed_clients s' = closed_clients s ++ closed ∧ ∀ id, id ∈ closed ↔
    ∃ i p r, current !! i = Some p ∧ refreshed_node refreshed p ≠ p ∧ routes s !! (index + i)%nat = Some r ∧
             Gateway.route_client r = id;
}.

Lemma turned_nil base refreshed index s : map_ok base s → turned base refreshed index [] s s.
Proof.
  split; try done. exists []. rewrite app_nil_r. split; [done|]. intros id. split; [by intros ?%not_elem_of_nil|].
  by intros (i & p & r & Hp & _).
Qed.

(** A node that stays as it is. *)
Lemma turned_same base refreshed index c current s s' :
  mapped s !! index = Some c → refreshed_node refreshed c = c →
  turned base refreshed (S index) current s s' → turned base refreshed index (c :: current) s s'.
Proof.
  intros Hc Hsame [Hok Hl Hothers Hnodes (closed & Hcl & Hin)]. split; [done|done| | |].
  - intros j Hj. apply Hothers. simpl in Hj. lia.
  - intros [|i] p Hp; simpl in Hp.
    + injection Hp as ->. rewrite Nat.add_0_r, Hsame. destruct (Hothers index) as [-> ->]; [lia|done].
    + rewrite Nat.add_succ_r. exact (Hnodes i p Hp).
  - exists closed. split; [done|]. intros id. rewrite Hin. split.
    + intros (i & p & r & Hp & Hne & Hr & Hid). exists (S i), p, r. by rewrite Nat.add_succ_r.
    + intros ([|i] & p & r & Hp & Hne & Hr & Hid); [by injection Hp as <-|].
      exists i, p, r. by rewrite Nat.add_succ_r in Hr.
Qed.

(** A node that is replaced. *)
Lemma turned_replaced base refreshed index c q old current s s' :
  mapped s !! index = Some c → routes s !! index = Some old → refreshed_node refreshed c = q → q ≠ c →
  is_ok (make_client q) = true → map_ok base s →
  turned base refreshed (S index) current (apply_update make_client s (index, q)) s' →
  turned base refreshed index (c :: current) s s'.
Proof.
  intros Hc Hold Hnode Hne Hq Hs [Hok [Hl Hp'] Hothers Hnodes (closed & Hcl & Hin)].
  destruct (apply_update_ok base s index c old q Hs Hc Hold Hq) as (_ & Hm & Hports & Hr & Hclosed).
  rewrite Hm, Hr in Hothers. rewrite Hr in Hnodes, Hin. rewrite Hclosed in Hcl. rewrite Hm, length_insert in Hl.
  split; [done|by rewrite Hp'| | |].
  - intros j Hj. simpl in Hj. specialize (Hothers j). rewrite !list_lookup_insert_ne in Hothers by lia.
    apply Hothers. lia.
  - intros [|i] p Hp; simpl in Hp.
    + injection Hp as ->. rewrite Nat.add_0_r, Hnode. destruct (Hothers index) as [-> _]; [lia|].
      rewrite list_lookup_insert_eq by (by apply lookup_lt_Some in Hc). done.
    + rewrite Nat.add_succ_r. destruct (Hnodes i p Hp) as [? Hroute]. split; [done|]. intros Hsame.
      etrans; [exact (Hroute Hsame)|]. apply list_lookup_insert_ne. lia.
  - exists (Gateway.route_client old :: closed). split; [by rewrite Hcl, <-app_assoc|].
    intros id. rewrite elem_of_cons, Hin. split.
    + intros [->|(i & p & r & Hp & Hn & Hri & Hid)].
      * exists 0%nat, c, old. rewrite Nat.add_0_r, Hnode. done.
      * exists (S i), p, r. rewrite list_lookup_insert_ne in Hri by lia. by rewrite Nat.add_succ_r.
    + intros ([|i] & p & r & Hp & Hn & Hri & Hid).
      * left. rewrite Nat.add_0_r in Hri. by simplify_eq.
      * right. exists i, p, r. rewrite list_lookup_insert_ne by lia. by rewrite Nat.add_succ_r in Hri.
Qed.

Lemma plan_turned base refreshed index current s :
  map_ok base s → (∀ i p, current !! i = Some p → mapped s !! (index + i)%nat = Some p) →
  turned base refreshed index current s (foldl (apply_update make_client) s (plan_loop index current refreshed).1).
Proof.
  revert index s. induction current as [|c current IH]; intros index s Hs Hcur; [by apply turned_nil|].
  pose proof (Hcur 0%nat c eq_refl) as Hc. rewrite Nat.add_0_r in Hc.
  assert (∀ i p, current !! i = Some p → mapped s !! (S index + i)%nat = Some p) as Hrest.
  { intros i p Hp. specialize (Hcur (S i) p Hp). by rewrite Nat.add_succ_r in Hcur. }
  cbn [plan_loop]. destruct (plan_loop (S index) current refreshed) as [us gone] eqn:Hplan.
  assert (∀ t, map_ok base t → (∀ i p, current !! i = Some p → mapped t !! (S index + i)%nat = Some p) →
    turned base refreshed (S index) current t (foldl (apply_update make_client) t us)) as IH'.
  { intros t Ht Hct. specialize (IH (S index) t Ht Hct). by rewrite Hplan in IH. }
  clear IH. unfold refreshed_node in *.
  destruct (List.find _ refreshed) as [q|] eqn:Hfind.
  2: { apply turned_same; [done|unfold refreshed_node; by rewrite Hfind|by apply IH']. }
  case_bool_decide as Hne; cbn [fst foldl].
  2: { subst q. apply turned_same; [done| |by apply IH'].
       unfold refreshed_node. rewrite Hfind. by destruct (is_ok _). }
  destruct (is_ok (make_client q)) eqn:Hq.
  - destruct (routes s !! index) as [old|] eqn:Hold.
    2: { apply lookup_ge_None in Hold. apply lookup_lt_Some in Hc. destruct (mo_lengths _ _ Hs) as [_ Hl]. lia. }
    eapply turned_replaced; [done|done| |done|done|done|].
    + unfold refreshed_node. by rewrite Hfind, Hq.
    + destruct (apply_update_ok base s index c old q Hs Hc Hold Hq) as (Hok & Hm & _).
      apply IH'; [done|]. intros i p Hp. rewrite Hm, list_lookup_insert_ne by lia. by apply Hrest.
  - replace (apply_update make_client s (index, q)) with s.
    2: { unfold apply_update, build_fixed_route. cbn [snd]. by destruct (make_client q) as [[]|]. }
    apply turned_same; [done|unfold refreshed_node; by rewrite Hfind, Hq|by apply IH'].
Qed.

(** The states of a map: its start and any sequence of refreshes. *)
Inductive map_run (base : Z) (managed : list Proxy) : MapState → Prop :=
  | map_started s : map_start make_client bind base managed = Ok s → map_run base managed s
  | map_refreshed s fetched : map_run base managed s → map_run base managed (map_turn make_client fetched s).

Lemma map_turn_turned base refreshed s :
  map_ok base s → turned base refreshed 0 (mapped s) s (map_turn make_client (Some refreshed) s).
Proof.
  intros Hs. unfold map_turn, plan_map_refresh.
  destruct (plan_loop 0 (mapped s) refreshed) as [us gone] eqn:Hplan. cbn [updates].
  pose proof (plan_turned base refreshed 0 (mapped s) s Hs (λ i p Hp, Hp)) as H. by rewrite Hplan in H.
Qed.

Lemma refreshed_name refreshed p : name (refreshed_node refreshed p) = name p.
Proof.
  unfold refreshed_node. destruct (List.find _ refreshed) as [q|] eqn:Hfind; [|done].
  apply find_some in Hfind as [_ Hq]. apply bool_decide_eq_true in Hq. by destruct (is_ok _).
Qed.

Lemma turned_names base refreshed s s' : turned base refreshed 0 (mapped s) s s' → name <$> mapped s' = name <$> mapped s.
Proof.
  intros [_ [Hl _] _ Hnodes _]. apply list_eq. intros i. rewrite !list_lookup_fmap.
  destruct (mapped s !! i) as [p|] eqn:Hp.
  - destruct (Hnodes i p Hp) as [Hn _]. simpl in Hn. rewrite Hn. simpl. by rewrite refreshed_name.
  - apply lookup_ge_None in Hp. by rewrite (lookup_ge_None_2 (mapped s')) by lia.
Qed.

Lemma map_run_ok base managed s :
  0 < base → map_run base managed s → map_ok base s ∧ name <$> mapped s = name <$> managed.
Proof.
  intros Hb. induction 1 as [s Hs|s fetched _ [Hok Hnames]].
  - apply map_start_ok in Hs as [? ->]; done.
  - destruct fetched as [refreshed|]; [|done]. pose proof (map_turn_turned base refreshed s Hok) as Ht.
    split; [apply Ht|]. by rewrite (turned_names _ _ _ _ Ht).
Qed.

(** C40: The ports of a map stay with their nodes. From the start on and over any
    sequence of refreshes, failed ones included, the port at an index is the base
    port plus the index, without wrapping, and its node has the name it had at
    the start, whatever nodes appear, vanish or move in the catalog; its route has
    a client of its own, and no client in use is closed. In one refresh, a node
    the catalog has under its name becomes the catalog's when a client for it can
    be made, and else stays; and the clients closed are exactly those of the
    nodes replaced. *)
Theorem map_ports_stable base managed s fetched :
  0 < base → map_run base managed s →
  let s' := map_turn make_client fetched s in
  map_ok base s ∧ name <$> mapped s = name <$> managed ∧ ports s' = ports s ∧
  match fetched with
  | None => s' = s
  | Some refreshed =>
      mapped s' = refreshed_node refreshed <$> mapped s ∧
      ∃ closed, closed_clients s' = closed_clients s ++ closed ∧ ∀ id, id ∈ closed ↔
        ∃ i p r, mapped s !! i = Some p ∧ refreshed_node refreshed p ≠ p ∧ routes s !! i = Some r ∧
                 Gateway.route_client r = id
  end.
Proof.
  intros Hb Hrun. destruct (map_run_ok base managed s Hb Hrun) as [Hok Hnames].
  destruct fetched as [refreshed|]; [|done]. destruct (map_turn_turned base refreshed s Hok) as [_ [Hl Hp] _ Hnodes Hcl].
  split_and!; [done|done|done| |exact Hcl].
  apply list_eq. intros i. rewrite list_lookup_fmap. destruct (mapped s !! i) as [p|] eqn:Hm.
  - destruct (Hnodes i p Hm) as [Hn _]. exact Hn.
  - apply lookup_ge_None in Hm. apply lookup_ge_None_2. by rewrite Hl.
Qed.

(** A client of a map's port gets that port's node or nothing. In every state a
    map reaches, the listener of each node has a mode; with a user name
    configured it accepts exactly that name with its password, without one it
    asks for nothing; and the client it then leads to is the port's own, not
    closed, used by no other port, and relays UDP exactly when the node does. *)
Theorem map_clients_reach_node socks_username socks_password base managed s i p user pass :
  0 < base → map_run base managed s → mapped s !! i = Some p →
  ∃ mode route,
    map_mode (map_credentials socks_username socks_password) s i = Some mode ∧ routes s !! i = Some route ∧
    (Socks5.requires_auth mode = true ↔ socks_username ≠ []) ∧
    (∀ r, Socks5.authenticate mode user pass = Ok r ↔
       r = route ∧ (socks_username = [] ∨ user = socks_username ∧ pass = socks_password)) ∧
    Gateway.route_udp route = udp p ∧ Gateway.route_client route ∉ closed_clients s ∧
    ∀ j route', j ≠ i → routes s !! j = Some route' → Gateway.route_client route' ≠ Gateway.route_client route.
Proof.
  intros Hb Hrun Hp. destruct (map_run_ok base managed s Hb Hrun) as [[Hports [_ Hl] Hroutes Hdist Hmade] _].
  destruct (lookup_lt_is_Some_2 (routes s) i) as [route Hr]; [rewrite Hl; by eapply lookup_lt_Some|].
  apply NoDup_app in Hdist as (Hnd & Hdis & _).
  assert (Hin : Gateway.route_client route ∈ clients s) by (apply list_elem_of_fmap; exists route; split; [done|by eapply list_elem_of_lookup_2]).
  eexists _, route. unfold map_mode. rewrite Hr. split; [done|]. split; [done|].
  split_and!; [| |by eapply Hroutes|by apply Hdis|].
  - unfold map_credentials. case_bool_decide; simpl; by split.
  - intros r. unfold map_credentials, Socks5.authenticate, Socks5.constant_time_equal. case_bool_decide as Hu.
    + split; [intros [= ->]; auto|by intros [-> _]].
    + cbn [Socks5.username Socks5.password]. case_bool_decide; case_bool_decide; simpl; naive_solver.
  - intros j route' Hj Hr' Heq. apply Hj. eapply (NoDup_lookup (clients s)); [done| |].
    + rewrite list_lookup_fmap, Hr'. done.
    + rewrite list_lookup_fmap, Hr. simpl. by rewrite Heq.
Qed.
End Guarantees.

(** ** A concrete map *)

Definition demo_node (udp_ : bool) (n : string) : Proxy :=
  let p := demo_proxy (lit n) in
  MkProxy (name p) (proxy_type p) (server p) (port p) (psk p) (version p) udp_ (tfo p) (reuse p) (identity p) (obfs p).
Definition demo_nodes : list Proxy := [demo_node false "Fusion 01"; demo_node false "CIA 02"].
Definition demo_catalog : list Proxy := [demo_node false "Fusion 03"; demo_node true "CIA 02"].
Definition demo_client (_ : Proxy) : result unit := Ok tt.
Definition demo_bind (_ : Z) : result unit := Ok tt.

Lemma map_ports_stable_witness :
  ∃ s, map_start demo_client demo_bind 1080 demo_nodes = Ok s ∧ ports s = [1080; 1081] ∧
    let s' := map_turn demo_client (Some demo_catalog) s in
    mapped s' = [demo_node false "Fusion 01"; demo_node true "CIA 02"] ∧ closed_clients s' = [1%nat] ∧
    removed (plan_map_refresh (mapped s) demo_catalog) = 1%nat ∧ added (plan_map_refresh (mapped s) demo_catalog) = 1%nat.
Proof.
  exists (MkMap demo_nodes [1080; 1081] [Gateway.MkRoute 0 false; Gateway.MkRoute 1 false] 2 []).
  assert (Hs : map_start demo_client demo_bind 1080 demo_nodes
               = Ok (MkMap demo_nodes [1080; 1081] [Gateway.MkRoute 0 false; Gateway.MkRoute 1 false] 2 []))
    by (vm_compute; reflexivity).
  split; [exact Hs|]. split; [reflexivity|].
  destruct (map_ports_stable demo_client demo_bind 1080 demo_nodes _ (Some demo_catalog) ltac:(lia)
              (map_started _ _ _ _ _ Hs)) as (_ & _ & _ & Hm & _).
  split; [rewrite Hm; vm_compute; reflexivity|]. split; [vm_compute; reflexivity|]. split; vm_compute; reflexivity.
Defined.

Lemma map_clients_reach_node_witness :
  ∃ s mode route, map_run demo_client demo_bind 1080 demo_nodes s ∧
    map_mode (map_credentials (lit "user") (lit "pass")) s 1 = Some mode ∧ routes s !! 1%nat = Some route ∧
    Socks5.authenticate mode (lit "user") (lit "pass") = Ok route.
Proof.
  set (s0 := MkMap demo_nodes [1080; 1081] [Gateway.MkRoute 0 false; Gateway.MkRoute 1 false] 2 []).
  assert (Hs : map_start demo_client demo_bind 1080 demo_nodes = Ok s0) by (vm_compute; reflexivity).
  assert (Hrun : map_run demo_client demo_bind 1080 demo_nodes s0) by exact (map_started _ _ _ _ _ Hs).
  destruct (map_clients_reach_node demo_client demo_bind (lit "user") (lit "pass") 1080 demo_nodes s0 1
              (demo_node false "CIA 02") (lit "user") (lit "pass") ltac:(lia) Hrun eq_refl)
    as (mode & route & Hm & Hr & _ & Hauth & _).
  exists s0, mode, route. split; [exact Hrun|]. split; [exact Hm|]. split; [exact Hr|].
  apply Hauth. split; [reflexivity|]. right. split; reflexivity.
Defined.
