(* ===== verification/Cli.v ===== *)
(** * Cli: the commands that read and report ([run] and its commands in
    [src/cli.rs], [query] and [open_private] of [src/traffic.rs])

    The dispatch and the exit codes, the traffic report, the version, the account
    information, the preview of the nodes, the control commands, the diagnostic
    bundle, and the run of a service under the traffic recorder. The state is
    what a command prints and the files it creates. The commands of [Login],
    [Install], [CatalogService] and [ServeMap] are arguments of the dispatch. *)
From stdpp Require Import gmap.
From S2P Require Import Prelude Bytes Text Ip Nodes Status Commands.
From S2P Require Api Config CatalogCache CatalogService Control ControlSocket Traffic TrafficTime Recorder Network.
Local Open Scope Z_scope.

(** What a command prints, and the files by path. *)
Record Console : Type := MkConsole { out : bytes; err : bytes; files : gmap bytes bytes }.

Definition print (text : bytes) : M Console unit := modify (λ c, MkConsole (out c ++ text) (err c) (files c)).
Definition println (text : bytes) : M Console unit := print (text ++ [x0a]).
Definition eprint (text : bytes) : M Console unit := modify (λ c, MkConsole (out c) (err c ++ text) (files c)).
Definition put_file (path content : bytes) (c : Console) : Console :=
  MkConsole (out c) (err c) (<[path := content]> (files c)).

(** What the system makes of a new file: opening it (when there is none), a
    write that stops after some bytes, and the sync. *)
Record Outputs : Type := MkOutputs {
  open_new : bytes → result unit; write_stops : bytes → option nat; sync : bytes → result unit
}.

Definition create_exclusive (io : Outputs) (path : bytes) : M Console unit :=
  c ← get;
  match (files c !! path : option bytes) with
  | Some _ => throw (Context "create output file" (Bail "File exists"))
  | None => catch_map (Context "create output file") (lift (open_new io path));; modify (put_file path [])
  end.

Definition write_exclusive (io : Outputs) (path content : bytes) : M Console unit :=
  create_exclusive io path;;
  match write_stops io path with
  | Some n => modify (put_file path (take n content));; bail "write"
  | None => modify (put_file path content);; lift (sync io path)
  end.

(** ** Dispatch *)

Inductive cmd : Type :=
  | Traffic | Login | Information | PreviewNodes | RefreshNodes | ReloadConfig | Diagnose | Serve | ServeMap
  | InstallLaunchAgent | InstallSystemd | InstallWindowsService | UninstallWindowsService | Version | Help.

Definition command_names : list (string * cmd) :=
  [("traffic", Traffic); ("login", Login); ("information", Information); ("preview-nodes", PreviewNodes);
   ("refresh-nodes", RefreshNodes); ("reload-config", ReloadConfig); ("diagnose", Diagnose); ("serve", Serve);
   ("serve-map", ServeMap); ("install-launch-agent", InstallLaunchAgent); ("install-systemd", InstallSystemd);
   ("install-windows-service", InstallWindowsService); ("uninstall-windows-service", UninstallWindowsService);
   ("version", Version); ("-V", Version); ("--version", Version); ("help", Help); ("-h", Help); ("--help", Help)]%string.

Definition command_of (name : bytes) : option cmd :=
  snd <$> List.find (λ p : string * cmd, bytes_eqb name (lit p.1)) command_names.

(** [downcast_ref::<UsageError>]: no usage error gets a context of its own. *)
Definition is_usage (e : error) : bool :=
  match e with Context ctx _ => bool_decide (ctx = "usage"%string) | _ => false end.

(** [{error}] of a usage error, and [{error:#}] of another: the whole chain. *)
Definition usage_message (e : error) : bytes := match e with Context _ cause => lit (display cause) | _ => lit (display e) end.
Fixpoint chain_message (e : error) : bytes :=
  match e with
  | Context ctx cause => lit ctx ++ lit ": " ++ chain_message cause
  | _ => lit (display e)
  end.

Section Run.
(** The usage text, the [Debug] form of a string, and the commands. *)
Context (USAGE : bytes) (debug : bytes → bytes) (commands : cmd → list bytes → M Console unit).

Definition run (args : list bytes) (c : Console) : Z * Console :=
  match args with
  | [] => (2, (eprint USAGE c).2)
  | name :: rest =>
      match command_of name with
      | None => (2, (eprint (lit "unknown command " ++ debug name ++ [x0a; x0a] ++ USAGE ++ [x0a]) c).2)
      | Some Help => (0, (print USAGE c).2)
      | Some command =>
          let '(result, c) := commands command rest c in
          match result with
          | Ok _ => (0, c)
          | Err e =>
              if is_usage e then (2, (eprint (lit "error: " ++ usage_message e ++ [x0a]) c).2)
              else (1, (eprint (lit "error: " ++ chain_message e ++ [x0a]) c).2)
          end
      end
  end.
End Run.

(** ** Numbers in the report *)

(** The quotient rounded to the nearest integer, halves to the even one. *)
Definition round_even (a b : Z) : Z :=
  let q := a / b in
  match 2 * (a mod b) ?= b with Lt => q | Eq => if Z.even q then q else q + 1 | Gt => q + 1 end.

(** [value as f64]: 53 significant bits. *)
Definition as_f64 (value : Z) : Z :=
  if value <? 2 ^ 53 then value
  else let unit := 2 ^ (Z.log2 value - 52) in round_even value unit * unit.

(** [{:.2}] of [value as f64 / 1048576.0]; dividing by a power of two is exact. *)
Definition mib (value : Z) : bytes :=
  let hundredths := round_even (as_f64 value * 100) (2 ^ 20) in
  dec (hundredths / 100) ++ lit "." ++ TrafficTime.pad 2 (hundredths mod 100).

Definition format_bytes (value : Z) : bytes := dec value ++ lit " bytes (" ++ mib value ++ lit " MiB)".
Definition format_bool (b : bool) : bytes := if b then lit "true" else lit "false".

Definition version_string (package commit build_time : bytes) : bytes :=
  lit "oixc-proxy " ++ package ++ lit " (commit " ++ commit ++ lit ", built " ++ build_time ++ lit ")".

Definition run_version (package commit build_time : bytes) (args : list bytes) : M Console unit :=
  if bool_decide (args = []) then println (version_string package commit build_time)
  else bail "version takes no arguments".

(** ** The traffic report *)

Section Report.
Context `{C : Traffic.SampleCodec}.

(** An open traffic file: its kind, mode and owner, and what it holds. *)
Record Opened : Type := MkOpened { is_file : bool; mode : Z; owner : Z; content : bytes }.

(** What a report meets: [HOME], [Path::parent], the opening of the file, the
    user, the lock, and the reading of the file; the platform's time functions;
    serde_json. *)
Record Reading : Type := MkReading {
  home : option bytes; parent : bytes → option bytes;
  open_file : bytes → result Opened; euid : Z; lock_shared : result unit;
  mktime : TrafficTime.tm → Z; localtime_r : Z → option TrafficTime.tm; tm_gmtoff : Z → Z;
  to_string_pretty : json → result bytes
}.
Context (io : Reading).

(** [traffic::open_private] *)
Definition open_private (path : bytes) : result bytes :=
  file ← map_err (Context "open private traffic file") (open_file io path);
  if negb (is_file file) || negb (Z.land (mode file) 63 =? 0)
     || (negb (euid io =? 0) && negb (owner file =? euid io))
  then Err (Bail "traffic file must be a private regular file owned by the service user")
  else Ok (content file).

(** [traffic::query], from the file on. *)
Definition query_file (path : bytes) (from to : option Z) : result Traffic.Report :=
  if match from, to with Some a, Some b => b <=? a | _, _ => false end
  then Err (Bail "--from must precede --to")
  else
    journal ← open_private path;
    lock_shared io;;
    Traffic.query journal from to.

Definition bytes_json (b : Traffic.Bytes) : json :=
  JObj [field "tcp_upload" (JNum (Traffic.tcp_upload b)); field "tcp_download" (JNum (Traffic.tcp_download b));
        field "udp_upload" (JNum (Traffic.udp_upload b)); field "udp_download" (JNum (Traffic.udp_download b))].

Definition report_json (r : Traffic.Report) : json :=
  JObj [field "from" (json_option JNum (Traffic.report_from r)); field "to" (json_option JNum (Traffic.report_to r));
        field "samples" (JNum (Traffic.samples r));
        field "first_sample_at" (json_option JNum (Traffic.first_sample_at r));
        field "last_sample_at" (json_option JNum (Traffic.last_sample_at r));
        field "bytes" (bytes_json (Traffic.report_bytes r));
        field "upload_bytes" (JNum (Traffic.upload_bytes r)); field "download_bytes" (JNum (Traffic.download_bytes r));
        field "total_bytes" (JNum (Traffic.total_bytes r));
        field "sampling_interval_seconds" (JNum (Traffic.sampling_interval_seconds r));
        field "extended_windows" (JNum (Traffic.extended_windows r));
        field "clock_reversals" (JNum (Traffic.clock_reversals r));
        field "incomplete_tail_ignored" (JBool (Traffic.incomplete_tail_ignored r))].

(** A timestamp of the report. *)
Definition local (timestamp : option Z) : bytes :=
  match timestamp with
  | None => lit "unbounded/none"
  | Some value =>
      match TrafficTime.format_local_time (localtime_r io) (tm_gmtoff io) value with
      | Ok text => text
      | Err _ => dec value ++ lit " (Unix seconds; local formatting unavailable)"
      end
  end.

Definition report_text (r : Traffic.Report) : bytes :=
  let b := Traffic.report_bytes r in
  concat ((λ line, line ++ [x0a]) <$>
    ([lit "Upload:   " ++ format_bytes (Traffic.upload_bytes r);
      lit "Download: " ++ format_bytes (Traffic.download_bytes r);
      lit "Total:    " ++ format_bytes (Traffic.total_bytes r);
      lit "TCP: upload=" ++ dec (Traffic.tcp_upload b) ++ lit " download=" ++ dec (Traffic.tcp_download b)
        ++ lit " bytes; UDP: upload=" ++ dec (Traffic.udp_upload b) ++ lit " download="
        ++ dec (Traffic.udp_download b) ++ lit " bytes";
      lit "Range (local time): [" ++ local (Traffic.report_from r) ++ lit ", " ++ local (Traffic.report_to r) ++ lit ")";
      lit "Samples: " ++ dec (Traffic.samples r) ++ lit "; first=" ++ local (Traffic.first_sample_at r)
        ++ lit ", last=" ++ local (Traffic.last_sample_at r) ++ lit " (local time)";
      lit "Persisted samples only; normally sampled every 60 seconds."]
     ++ (if Traffic.incomplete_tail_ignored r || negb (Traffic.extended_windows r =? 0)
            || negb (Traffic.clock_reversals r =? 0)
         then [lit "Warning: incomplete_tail=" ++ format_bool (Traffic.incomplete_tail_ignored r)
                 ++ lit ", extended_windows=" ++ dec (Traffic.extended_windows r)
                 ++ lit ", clock_reversals=" ++ dec (Traffic.clock_reversals r)]
         else []))).

Definition has (f : flags) (name : string) : bool := bool_decide (is_Some (f !! lit name)).

Definition traffic_definitions : list (bytes * bool) :=
  [(lit "config", true); (lit "file", true); (lit "from", true); (lit "to", true); (lit "json", false);
   (lit "all", false)].

(** The time a flag gives; the message is left out. *)
Definition time_flag (f : flags) (name : string) : result (option Z) :=
  match flag_value f name with
  | None => Ok None
  | Some text =>
      match TrafficTime.parse_time (mktime io) (localtime_r io) text with
      | Ok t => Ok (Some t)
      | Err _ => usage "expected Unix seconds or YYYY-MM-DDTHH:MM[:SS][Z|+HH:MM|-HH:MM]"
      end
  end.

Definition traffic_path (f : flags) : result bytes :=
  match flag_value f "file" with
  | Some path => Ok path
  | None =>
      default_path ← default_proxy_config_path (home io);
      Ok (beside (parent io (flag_path f "config" default_path)) "traffic.jsonl")
  end.

(** The report that is asked for. *)
Definition traffic_report (f : flags) : result Traffic.Report :=
  if has f "config" && has f "file" then usage "choose --config or --file, not both"
  else if has f "all" && (has f "from" || has f "to") then usage "--all cannot be combined with --from or --to"
  else
    path ← traffic_path f;
    from ← time_flag f "from";
    to ← time_flag f "to";
    query_file path from to.

Definition run_traffic (args : list bytes) : M Console unit :=
  f ← lift (parse_flags args traffic_definitions);
  report ← lift (traffic_report f);
  if has f "json" then text ← lift (to_string_pretty io (report_json report)); println text
  else print (report_text report).
End Report.

(** ** The commands that ask the API or the service *)

#[local] Existing Instance CatalogService.crates_base64.
#[local] Existing Instance CatalogService.crates_url.
#[local] Existing Instance CatalogService.crates_files.

Section Commands.
Context `{CatalogService.Crates}.
Context `{!Control.ControlCodec}.
(** [HOME] and [Path::parent]; the reading of a configuration; serde_json. *)
Context (home : option bytes) (to_string_pretty : json → result bytes).
Context (io : Outputs).

(** Two pieces that several commands share: the configuration's path, and the
    output that has to be given. *)
Definition config_path (f : flags) (default_path : bytes) : bytes := flag_path f "config" default_path.
Definition output_of (f : flags) (message : string) : result bytes :=
  match flag_value f "output" with Some path => Ok path | None => usage message end.

Definition of_outcome {A} (o : Api.outcome A) : result A :=
  match o with Api.Done a => Ok a | Api.Failed _ => Err (Bail "request to the API failed") end.

(** What asking for the information meets: the network, the clock, the attempts,
    and serde_json's check of the answer. *)
Record Asking : Type := MkAsking {
  a_network : Network.NetworkSnapshot; a_start : Z; a_attempts : nat → Api.Attempt Api.HttpResponse;
  a_json : bytes → option unit
}.

(** The answer of the API to a configuration's account. *)
Definition information_of (ask : Asking) (c : Config.ProxyConfig) : result bytes :=
  client ← CatalogService.api_client (Config.runtime c) (a_network ask);
  of_outcome (default (Api.Failed [Diagnostics.Unknown])
    (Api.information CatalogService.set_path (a_json ask) client (a_start ask) (a_attempts ask)).1).

Definition run_information (ask : Asking) (args : list bytes) : M Console unit :=
  default_path ← lift (default_proxy_config_path home);
  f ← lift (parse_flags args [(lit "config", true); (lit "output", true)]);
  output ← lift (output_of f "--output is required");
  service ← lift (Config.load_proxy_config CatalogService.to_lowercase (config_path f default_path));
  answer ← lift (information_of ask service);
  write_exclusive io output answer;;
  println (lit "Wrote API response to " ++ output).

Definition preview_json (p : FilterPreview) : json :=
  JObj [field "mode" (json_text (preview_mode p)); field "total" (JNum (Z.of_nat (total p)));
        field "kept" (JNum (Z.of_nat (kept p))); field "excluded" (JNum (Z.of_nat (excluded p)));
        field "nodes" (JArr (JStr <$> nodes p))].

(** The cache beside a configuration, whether it can be read, and the fetch. *)
Record Previewing : Type := MkPreviewing {
  v_cache : bytes → CatalogCache.Files; v_readable : bool; v_fetch : CatalogService.Fetch
}.

(** [CatalogCache::load] of the configuration's account, else
    [load_managed_nodes]. *)
Definition previewed (v : Previewing) (f : flags) (config : bytes) (c : Config.ProxyConfig) : result ManagedConfig :=
  let account := CatalogCache.account_fingerprint CatalogService.hmac_sha256 CatalogService.hex_encode
                   (Config.access_token (Config.runtime c)) in
  match (if has f "refresh" then None
         else CatalogCache.load_snapshot CatalogService.parse_ech_config CatalogService.yaml_decode account
                (v_readable v) (v_cache v config)) with
  | Some cached => Ok (CatalogCache.s_managed cached)
  | None => CatalogCache.s_managed <$> of_outcome (CatalogService.load_managed_catalog (Config.runtime c) true (v_fetch v))
  end.

Definition run_preview_nodes (v : Previewing) (args : list bytes) : M Console unit :=
  default_path ← lift (default_proxy_config_path home);
  f ← lift (parse_flags args [(lit "config", true); (lit "refresh", false); (lit "disable-node-filter", false)]);
  let config := config_path f default_path in
  service ← lift (Config.load_proxy_config CatalogService.to_lowercase config);
  managed ← lift (previewed v f config service);
  text ← lift (to_string_pretty (preview_json
    (preview CatalogService.to_lowercase CatalogService.is_alphanumeric (Config.node_filter (Config.runtime service))
       (proxies managed) (has f "disable-node-filter"))));
  println text.

(** The socket of a configuration, the connection to a socket and the exchange
    on it. *)
Record Channel : Type := MkChannel {
  socket_of : bytes → result bytes; connect : bytes → result unit; exchange : bytes → bytes → option (result bytes)
}.

(** [control::send] *)
Definition control_send (ch : Channel) (config : bytes) (command : CatalogService.Command) :
    result CatalogService.Response :=
  path ← socket_of ch config;
  Control.send (ControlSocket.fits_socket_address path) (connect ch path) (exchange ch path) command.

Definition run_control (ch : Channel) (command : CatalogService.Command) (args : list bytes) : M Console unit :=
  default_path ← lift (default_proxy_config_path home);
  f ← lift (parse_flags args [(lit "config", true)]);
  response ← lift (control_send ch (config_path f default_path) command);
  value ← lift (to_string_pretty (Control.response_json response));
  if negb (CatalogService.ok response) then bail "the service refused the command"
  else println value.

Definition run_diagnose (ch : Channel) (args : list bytes) : M Console unit :=
  default_path ← lift (default_proxy_config_path home);
  f ← lift (parse_flags args [(lit "config", true); (lit "output", true)]);
  output ← lift (path ← output_of f "diagnose requires --output PATH";
                 if bool_decide (path = []) then usage "diagnose requires --output PATH" else Ok path);
  response ← lift (control_send ch (config_path f default_path) CatalogService.Diagnose);
  if negb (CatalogService.ok response) then bail "diagnostic export failed"
  else
    text ← lift (to_string_pretty (CatalogService.payload response));
    write_exclusive io output text;;
    println (lit "Diagnostic bundle written to " ++ output).

(** The installers of Windows services, on another system. *)
Definition run_install_windows_service (args : list bytes) : M Console unit :=
  lift (parse_flags args [(lit "config", true)]);;
  lift (default_proxy_config_path home);;
  bail "Windows service installation is supported only on Windows".
Definition run_uninstall_windows_service (args : list bytes) : M Console unit :=
  lift (parse_flags args []);;
  bail "Windows service removal is supported only on Windows".
End Commands.

(** ** A service under the recorder *)

Section Serve.
Context `{C : Traffic.SampleCodec}.
(** The reading of a configuration and of a token file; [HOME], [Path::parent],
    and whether the signal handlers can be installed. *)
Context (load_proxy_config load_token_file : bytes → result unit).
Context (home : option bytes) (parent : bytes → option bytes) (shutdown_signal : result unit).
(** The recorder's journal, its thread and the clock. The service until it ends
    or a signal stops it, in the process's state; the recorder's thread from the
    message of [stop] to its end, with what the remaining tasks record; whether
    joining it works. *)
Context (open_io : Traffic.OpenIo) (spawned : bool) (now : Z).
Context (service : bool → list bytes → Recorder.State → result unit * Recorder.State).
Context (finish : Recorder.State → Recorder.State) (joined : result unit).

(** The journals by path, and the recorder of the process. *)
Record Process : Type := MkProcess { journals : gmap bytes bytes; recorder : option Recorder.State }.

(** [Recorder::start] *)
Definition start_recorder (path : bytes) : M Process Recorder.State := λ p,
  let already := bool_decide (is_Some (recorder p)) in
  match Recorder.start open_io already spawned now (default [] (journals p !! path)) with
  | (Ok s, old) => (Ok s, MkProcess (<[path := old]> (journals p)) (Some s))
  | (Err e, old) => (Err e, MkProcess (<[path := old]> (journals p)) (recorder p))
  end.

Definition set_recorder (path : bytes) (s : Recorder.State) (p : Process) : Process :=
  MkProcess (<[path := Traffic.content (Recorder.files s).2]> (journals p)) (Some s).

(** [Recorder::stop]: the message, the join, and the drop. *)
Definition stop_recorder (path : bytes) (s : Recorder.State) : M Process (result unit) :=
  let ended := finish (Recorder.send_stop s) in
  modify (set_recorder path (Recorder.send_stop (Recorder.set_enabled false ended)));;
  match Recorder.worker ended with
  | Recorder.Over r => mret r
  | _ => mret (Err (Bail "traffic recorder panicked"))
  end.

(** The configuration or token file, its check, and the journal. *)
Definition served_config (map : bool) (f : flags) : result bytes :=
  if map then Ok (flag_path f "token-file" (lit "token.txt"))
  else default_path ← default_proxy_config_path home; Ok (flag_path f "config" default_path).
Definition check_config (map : bool) (config : bytes) : result unit :=
  if map then load_token_file config else load_proxy_config config.
Definition traffic_file (f : flags) (config : bytes) : bytes :=
  flag_path f "traffic-file" (beside (parent config) "traffic.jsonl").

Definition run_with_traffic (map : bool) (args : list bytes) : M Process unit :=
  f ← lift (serve_flags args map);
  config ← lift (served_config map f);
  lift (check_config map config);;
  let path := traffic_file f config in
  lift shutdown_signal;;
  s ← start_recorder path;
  let '(result, s) := service map args s in
  saved ← stop_recorder path s;
  lift (map_err (Context "join traffic recorder") joined);;
  match saved with
  | Err e => lift (result;; Err e)
  | Ok _ => lift result
  end.
End Serve.

(** ** Commands create only the output they are given *)

(** What a command may do to the console: files that exist stay, and nothing is
    printed unless it succeeds. *)
Definition tidy (c : Console) (end_ : result unit * Console) : Prop :=
  (∀ p x, files c !! p = Some x → files end_.2 !! p = Some x) ∧ err end_.2 = err c ∧
  (is_ok end_.1 = false → out end_.2 = out c).

Lemma tidy_lift {A} (r : result A) (m : A → M Console unit) c :
  (∀ a, r = Ok a → tidy c (m a c)) → tidy c ((a ← lift r; m a) c).
Proof. unfold mbind, M_bind, lift. destruct r; [by intros H; apply H|done]. Qed.

Lemma tidy_print text c : tidy c (print text c).
Proof. by split_and!. Qed.

Lemma tidy_fail c e : tidy c (throw e c).
Proof. by split_and!. Qed.

(** One new file, all of it when the command succeeds. *)
Lemma write_exclusive_cases io path content c :
  let '(r, c') := write_exclusive io path content c in
  out c' = out c ∧ err c' = err c ∧
  (∀ p x, files c !! p = Some x → files c' !! p = Some x) ∧
  (r = Ok tt → files c !! path = None ∧ files c' = <[path := content]> (files c)).
Proof.
  unfold write_exclusive, create_exclusive, get, catch_map, lift, modify, bail, throw, mbind, M_bind. simpl.
  destruct (files c !! path) as [x|] eqn:Ef; simpl; [by split_and!|].
  assert (Hk : ∀ (p x y : bytes), files c !! p = Some x → <[path := y]> (files c) !! p = Some x).
  { intros p x y Hp. rewrite lookup_insert_ne; [done|]. intros ->. congruence. }
  destruct (open_new io path) as [[]|e]; simpl; [|by split_and!].
  destruct (write_stops io path) as [n|]; simpl; rewrite insert_insert_eq.
  - split_and!; [done..|eauto|done].
  - by split_and!; eauto.
Qed.

Lemma tidy_write io path content text c :
  let '(r, c') := (write_exclusive io path content;; println text) c in
  tidy c (r, c') ∧ (r = Ok tt → files c !! path = None ∧ files c' = <[path := content]> (files c)).
Proof.
  pose proof (write_exclusive_cases io path content c) as Hw. unfold mbind, M_bind.
  destruct (write_exclusive io path content c) as [[[]|e] c1]; destruct Hw as (Ho & He & Hk & Hr); simpl.
  - by split; [split_and!|auto].
  - by split; [split_and!|].
Qed.

Section Commands.
Context `{CatalogService.Crates}.
Context `{!Control.ControlCodec} `{!Traffic.SampleCodec}.
Context (USAGE package commit build_time : bytes) (debug : bytes → bytes) (io : Outputs) (reading : Reading).
Context (ask : Asking) (v : Previewing) (ch : Channel).

(** The commands of this file, and those of the others. *)
Context (others : cmd → list bytes → M Console unit).

Definition commands (command : cmd) : list bytes → M Console unit :=
  match command with
  | Traffic => run_traffic reading
  | Information => run_information (home reading) io ask
  | PreviewNodes => run_preview_nodes (home reading) (to_string_pretty reading) v
  | RefreshNodes => run_control (home reading) (to_string_pretty reading) ch CatalogService.RefreshNodes
  | ReloadConfig => run_control (home reading) (to_string_pretty reading) ch CatalogService.ReloadConfig
  | Diagnose => run_diagnose (home reading) (to_string_pretty reading) io ch
  | InstallWindowsService => run_install_windows_service (home reading)
  | UninstallWindowsService => run_uninstall_windows_service
  | Version => run_version package commit build_time
  | _ => others command
  end.

Definition reports (command : cmd) : bool :=
  match command with
  | Traffic | Information | PreviewNodes | RefreshNodes | ReloadConfig | Diagnose | InstallWindowsService
  | UninstallWindowsService | Version => true
  | _ => false
  end.

(** What a report that writes a file has written: the answer of the API for a
    configuration that loads, or the bundle of the service's response. *)
Definition written (command : cmd) (args : list bytes) (output content : bytes) : Prop :=
  ∃ f, flag_value f "output" = Some output ∧
    parse_flags args [(lit "config", true); (lit "output", true)] = Ok f ∧
    match command with
    | Information => ∃ config service,
        Config.load_proxy_config CatalogService.to_lowercase config = Ok service
        ∧ information_of ask service = Ok content
    | Diagnose => ∃ config response,
        control_send ch config CatalogService.Diagnose = Ok response ∧ CatalogService.ok response = true
        ∧ to_string_pretty reading (CatalogService.payload response) = Ok content
    | _ => False
    end.

(** What a report leaves of the files. *)
Definition left_files (command : cmd) (args : list bytes) (c : Console) (end_ : result unit * Console) : Prop :=
  match command with
  | Information | Diagnose =>
      end_.1 = Ok tt → ∃ output content, written command args output content
        ∧ files c !! output = None ∧ files end_.2 = <[output := content]> (files c)
  | _ => files end_.2 = files c
  end.

Lemma report_tidy command args c :
  reports command = true → tidy c (commands command args c) ∧ left_files command args c (commands command args c).
Proof.
  assert (Hlift : ∀ {A} (r : result A) (m : A → M Console unit),
    (∀ a, r = Ok a → tidy c (m a c) ∧ left_files command args c (m a c)) →
    tidy c ((a ← lift r; m a) c) ∧ left_files command args c ((a ← lift r; m a) c)).
  { intros A r m Hm. unfold mbind, M_bind, lift. destruct r as [a|e]; [by apply Hm|]. split; [done|].
    by destruct command. }
  destruct command; intros Hr; try done; cbn [commands].
  - unfold run_traffic. apply Hlift. intros f _. apply Hlift. intros report _.
    destruct (has f "json"); [apply Hlift; intros text _|]; by split; [split_and!|].
  - unfold run_information. apply Hlift. intros default_path _. apply Hlift. intros f Hf. apply Hlift. intros output Ho.
    apply Hlift. intros service Hs. apply Hlift. intros answer Ha.
    pose proof (tidy_write io output answer (lit "Wrote API response to " ++ output) c) as Hw.
    destruct ((write_exclusive io output answer;; _) c) as [r c']. destruct Hw as [Ht Hw]. split; [done|].
    intros Hok. destruct (Hw Hok) as [Hn Hfs]. exists output, answer. split_and!; [|done|done].
    exists f. unfold output_of in Ho. destruct (flag_value f "output"); simplify_eq. split_and!; [done|done|].
    by exists (config_path f default_path), service.
  - unfold run_preview_nodes. apply Hlift. intros default_path _. apply Hlift. intros f Hf. apply Hlift. intros service _.
    apply Hlift. intros managed _. apply Hlift. intros text _. by split; [split_and!|].
  - unfold run_control. apply Hlift. intros default_path _. apply Hlift. intros f Hf. apply Hlift. intros response _.
    apply Hlift. intros text _. destruct (negb _); by split; [split_and!|].
  - unfold run_control. apply Hlift. intros default_path _. apply Hlift. intros f Hf. apply Hlift. intros response _.
    apply Hlift. intros text _. destruct (negb _); by split; [split_and!|].
  - unfold run_diagnose. apply Hlift. intros default_path _. apply Hlift. intros f Hf. apply Hlift. intros output Ho.
    apply Hlift. intros response Hresp. destruct (CatalogService.ok response) eqn:Eok; cbn [negb]; [|by split].
    apply Hlift. intros text Htext.
    pose proof (tidy_write io output text (lit "Diagnostic bundle written to " ++ output) c) as Hw.
    destruct ((write_exclusive io output text;; _) c) as [r c']. destruct Hw as [Ht Hw]. split; [done|].
    intros Hok. destruct (Hw Hok) as [Hn Hfs]. exists output, text. split_and!; [|done|done].
    exists f. unfold output_of in Ho. destruct (flag_value f "output") as [o|]; [|done]. simpl in Ho.
    case_bool_decide; simplify_eq. split_and!; [done|done|].
    by exists (config_path f default_path), response.
  - unfold run_install_windows_service. apply Hlift. intros f _. apply Hlift. intros default_path _. by split.
  - unfold run_uninstall_windows_service. apply Hlift. intros f _. by split.
  - unfold run_version. case_bool_decide; by split; [split_and!|].
Qed.

(** The commands that report do nothing else. Whatever the arguments, the API
    and the service answer, a report leaves every file that exists as it is, and
    prints its result only when it succeeds; the traffic report, the preview, the
    version and the control commands create no file at all. When [information] or
    [diagnose] succeeds there is exactly one new file, at the path that was given:
    the whole answer of the API for a configuration that loads, or the whole
    bundle of a service that accepted the command. The process ends with 0
    exactly when the command did, with 2 for a usage error and 1 for any other,
    and says so on the error output. *)
Theorem report_commands_safe name args c command :
  command_of name = Some command → reports command = true →
  let '(code, c') := run USAGE debug commands (name :: args) c in
  let r := (commands command args c).1 in
  (∀ p x, files c !! p = Some x → files c' !! p = Some x) ∧
  left_files command args c (r, c') ∧
  match r with
  | Ok _ => code = 0 ∧ err c' = err c
  | Err e => code = (if is_usage e then 2 else 1) ∧ out c' = out c ∧ ∃ message, err c' = err c ++ lit "error: " ++ message
  end.
Proof.
  intros Hname Hrep. pose proof (report_tidy command args c Hrep) as [(Hk & He & Ho) Hf].
  unfold run. rewrite Hname. destruct (commands command args c) as [r c1] eqn:Ec. simpl in Hk, He, Ho |- *.
  assert (Hleft : ∀ c', files c' = files c1 → left_files command args c (r, c')).
  { intros c' Hc. unfold left_files in *. destruct command; simpl in *; rewrite ?Hc; done. }
  destruct command; try done;
    (destruct r as [[]|e]; [by split_and!; [done|apply Hleft|..]|]);
    (destruct (is_usage e); (split_and!; [done|by apply Hleft|done|by apply Ho|]); simpl; rewrite He; by eexists).
Qed.
End Commands.

(** *** The traffic command *)

Lemma lift_ok_M {A} (r : result A) (m : A → M Console unit) a c : r = Ok a → (a ← lift r; m a) c = m a c.
Proof. by intros ->. Qed.

Section TrafficCommand.
#[local] Existing Instance Traffic.in_range_dec.
Context `{C : Traffic.SampleCodec} `{!Traffic.SampleCodecLaws C}.
Context (io : Reading).

(** The text of a report, as asked for. *)
Definition shown (f : flags) (r : Traffic.Report) : result bytes :=
  if has f "json" then (λ text, text ++ [x0a]) <$> to_string_pretty io (report_json r) else Ok (report_text io r).

(** What [traffic] reports. Over the journal of a private file, with or without
    a record that is still being written, the command prints the report of
    exactly the samples in [from, to): their number, their sums by protocol and
    direction, the first and the last, and whether an incomplete record was left
    out. It fails, and prints nothing, exactly when a sum does not fit 64 bits or
    the report cannot be encoded; and it never reads a file that is not regular,
    that others than its owner may use, or that belongs to another user. *)
Theorem traffic_command_exact args f path from to c :
  parse_flags args traffic_definitions = Ok f →
  (has f "config" && has f "file" = false)%bool → (has f "all" && (has f "from" || has f "to") = false)%bool →
  traffic_path io f = Ok path → time_flag io f "from" = Ok from → time_flag io f "to" = Ok to →
  match from, to with Some a, Some b => a < b | _, _ => True end → lock_shared io = Ok tt →
  (∀ file ss part, open_file io path = Ok file → content file = Traffic.journal_of ss ++ part →
     Forall Traffic.sample_wf ss → Traffic.NL ∉ part → (length part <= Traffic.MAX_LINE)%nat →
     is_file file = true → Z.land (mode file) 63 = 0 → euid io = 0 ∨ owner file = euid io →
     let selected := filter (Traffic.in_range from to) ss in
     let report := Traffic.report_of from to selected (negb (bool_decide (part = []))) in
     match run_traffic io args c with
     | (Ok _, c') => Traffic.bytes_total (Traffic.bytes_sum selected) <= U64_MAX ∧
         ∃ text, shown f report = Ok text ∧ c' = MkConsole (out c ++ text) (err c) (files c)
     | (Err _, c') => c' = c ∧
         (U64_MAX < Traffic.bytes_total (Traffic.bytes_sum selected) ∨ is_ok (shown f report) = false)
     end) ∧
  (∀ file, open_file io path = Ok file →
     is_file file = false ∨ Z.land (mode file) 63 ≠ 0 ∨ (euid io ≠ 0 ∧ owner file ≠ euid io) →
     ∃ e, run_traffic io args c = (Err e, c)).
Proof.
  intros Hf Hcf Hall Hpath Hfrom Hto Hrange Hlock. unfold run_traffic. rewrite (lift_ok_M _ _ f) by done.
  unfold traffic_report. rewrite Hcf, Hall, Hpath. cbn [mbind result_bind]. rewrite Hfrom, Hto. cbn [mbind result_bind].
  unfold query_file, open_private. set (bad := match from with Some _ => _ | None => _ end).
  assert (bad = false) as ->. { unfold bad. destruct from, to; try done. apply Z.leb_gt. lia. }
  split.
  - intros file ss part Hopen Hcontent Hss Hnl Hlen Hreg Hmode Hown.
    set (selected := filter (Traffic.in_range from to) ss). set (report := Traffic.report_of from to selected _). rewrite Hopen. cbn [map_err mbind result_bind].
    assert (negb (is_file file) || negb (Z.land (mode file) 63 =? 0) || negb (euid io =? 0) && negb (owner file =? euid io)
            = false) as ->.
    { rewrite Hreg, Hmode. simpl. destruct Hown as [->| ->]; [done|]. by rewrite Z.eqb_refl, andb_false_r. }
    cbn [mbind result_bind]. rewrite Hlock, Hcontent. cbn [mbind result_bind].
    pose proof (Traffic.query_reports_range from to ss part Hss Hnl Hlen Hrange) as Hq. fold selected in Hq.
    destruct (Traffic.query _ from to) as [r|e]; [destruct Hq as [Hle ->]|by split; [|left]].
    fold report. unfold shown, mbind, M_bind, lift. destruct (has f "json"); [|split; [done|by eexists]].
    destruct (to_string_pretty io (report_json report)) as [text|e]; simpl; [split; [done|by eexists]|by split; [|right]].
  - intros file Hopen Hbad. rewrite Hopen. cbn [map_err mbind result_bind].
    assert (negb (is_file file) || negb (Z.land (mode file) 63 =? 0) || negb (euid io =? 0) && negb (owner file =? euid io)
            = true) as ->.
    { destruct Hbad as [->|[Hm%Z.eqb_neq|[He%Z.eqb_neq Ho%Z.eqb_neq]]]; [done|..];
        rewrite ?Hm, ?He, ?Ho; simpl; by rewrite ?orb_true_r. }
    by eexists.
Qed.
End TrafficCommand.

(** ** The traffic of a service is kept *)

Section ServeProofs.
Context `{C : Traffic.SampleCodec} `{!Traffic.SampleCodecLaws C}.
Context (load_proxy_config load_token_file : bytes → result unit).
Context (home : option bytes) (parent : bytes → option bytes) (shutdown_signal : result unit).
Context (open_io : Traffic.OpenIo) (spawned : bool) (now : Z).
Context (service : bool → list bytes → Recorder.State → result unit * Recorder.State).
Context (finish : Recorder.State → Recorder.State) (joined : result unit).

Abbreviation serve := (run_with_traffic load_proxy_config load_token_file home parent shutdown_signal open_io spawned now
  service finish joined).

(** The configuration or the token file the arguments name can be used. *)
Definition usable (map : bool) (args : list bytes) (path : bytes) : Prop :=
  ∃ f config, serve_flags args map = Ok f ∧ served_config home map f = Ok config
    ∧ check_config load_proxy_config load_token_file map config = Ok tt ∧ path = traffic_file parent f config.

(** The service and what comes after it are runs of the recorder, which only its
    owner stops; after the message of the stop the thread is waited for. *)
Definition lawful (map : bool) (args : list bytes) : Prop := ∀ s0,
  Recorder.stop_sent s0 = false →
  let s1 := (service map args s0).2 in
  let s2 := finish (Recorder.send_stop s1) in
  rtc Recorder.step s0 s1 ∧ Recorder.stop_sent s1 = false ∧ rtc Recorder.step (Recorder.send_stop s1) s2.

(** What a run leaves once the recorder has started in state [s0] on the journal
    [old] at [path]. *)
Record kept (map : bool) (args : list bytes) (p : Process) (end_ : result unit * Process) (path : bytes)
    (s0 : Recorder.State) (old : bytes) : Prop := {
  kept_others q : q ≠ path → journals end_.2 !! q = journals p !! q;
  kept_stopped : ∃ s3, recorder end_.2 = Some s3 ∧ Recorder.stop_sent s3 = true ∧
    Traffic.enabled (Recorder.counters s3) = false;
  kept_journal :
    let '(ended, s1) := service map args s0 in
    let s2 := finish (Recorder.send_stop s1) in
    (∃ ss part, journals end_.2 !! path = Some (old ++ Traffic.journal_of (fst <$> ss) ++ part) ∧
       (∀ d, Recorder.field d (Traffic.replay Traffic.bytes_zero (Traffic.confirmed ss))
             = Traffic.wrap64 (Recorder.taken s2 d)) ∧
       (length (Traffic.repeated ss) <= Recorder.unlock_failures s2)%nat ∧
       (Recorder.unlock_failures s2 = 0%nat → fst <$> ss = Traffic.confirmed ss)) ∧
    (∀ d, Recorder.taken s2 d <= Recorder.recorded s2 d) ∧
    end_.1 = match joined, ended, Recorder.worker s2 with
             | Err e, _, _ => Err (Context "join traffic recorder" e)
             | Ok _, Err e, _ => Err e
             | Ok _, Ok _, Recorder.Over saved => saved
             | Ok _, Ok _, _ => Err (Bail "traffic recorder panicked")
             end ∧
    (end_.1 = Ok tt → ended = Ok tt ∧ ∀ d, Recorder.recorded s1 d <= Recorder.taken s2 d)
}.

Lemma stop_keeps (s : Recorder.State) :
  Traffic.content (Recorder.files (Recorder.send_stop (Recorder.set_enabled false s))).2
  = Traffic.content (Recorder.files s).2.
Proof. done. Qed.

(** The stop remembers what was recorded when it was sent, through every step. *)
Lemma at_stop_kept s s' b :
  rtc Recorder.step s s' → Recorder.at_stop s = Some b → Recorder.at_stop s' = Some b.
Proof.
  induction 1 as [|s1 s2 s3 Hs _ IH]; [done|]. intros Hb. apply IH. clear IH.
  destruct Hs as [Hw|Ho].
  - revert Hb. destruct Hw as [?|? ? ? ? ? Hl|s io now' stopping loaded current]; [done| |].
    + unfold Recorder.load in Hl. destruct (Recorder.directions !! _); simplify_eq/=. done.
    + unfold Recorder.flush. by destruct (Traffic.sampler_flush _ _ _ _).
  - revert Hb. destruct Ho; simpl; intros Hb; try done; by rewrite Hb.
Qed.

(** The run over a recorder that has started. *)
Lemma recorded_run map args p path s0 old :
  lawful map args → Recorder.start open_io false spawned now (default [] (journals p !! path)) = (Ok s0, old) →
  kept map args p
    ((let '(result, s) := service map args s0 in
      saved ← stop_recorder finish path s;
      lift (map_err (Context "join traffic recorder") joined);;
      match saved with Err e => lift (result;; Err e) | Ok _ => lift result end)
       (MkProcess (<[path := old]> (journals p)) (Some s0))) path s0 old.
Proof.
  intros Hlaw Es. destruct (Recorder.recorder_start_ok _ _ _ _ _ _ _ Es) as (Hok & Hstop & _).
  specialize (Hlaw s0 Hstop). destruct (service map args s0) as [ended s1] eqn:Eserv. simpl in Hlaw.
  destruct Hlaw as (Hrun & Hs1 & Hfin). set (s2 := finish (Recorder.send_stop s1)) in *.
  assert (Hok2 : Recorder.recorder_ok old s2).
  { eapply Recorder.steps_ok; [exact Hfin|]. apply Recorder.send_stop_ok. by eapply Recorder.steps_ok. }
  assert (Hat : Recorder.at_stop s2 = Some (Recorder.recorded s1)).
  { eapply at_stop_kept; [exact Hfin|]. assert (Hok1 : Recorder.recorder_ok old s1) by (by eapply Recorder.steps_ok).
    pose proof (Recorder.ok_stop _ _ Hok1) as Ha. rewrite Hs1 in Ha. simpl. by rewrite Ha. }
  destruct (Recorder.ok_accounts _ _ Hok2) as (ss & part & Hct & _ & Hpv & Hrep & _).
  assert (Hover : Recorder.worker s2 = Recorder.Over (Ok tt) → ∀ d, Recorder.recorded s1 d <= Recorder.taken s2 d).
  { intros Hw d. destruct (Recorder.ok_over _ _ Hok2 _ Hw) as (b & Hb & Hle). rewrite Hat in Hb. simplify_eq. by apply Hle. }
  assert (Hcore : ∀ r,
    r = match joined, ended, Recorder.worker s2 with
        | Err e, _, _ => Err (Context "join traffic recorder" e)
        | Ok _, Err e, _ => Err e
        | Ok _, Ok _, Recorder.Over saved => saved
        | Ok _, Ok _, _ => Err (Bail "traffic recorder panicked")
        end →
    kept map args p (r, set_recorder path (Recorder.send_stop (Recorder.set_enabled false s2))
      (MkProcess (<[path := old]> (journals p)) (Some s0))) path s0 old).
  { intros r Hr. split.
    - intros q Hq. simpl. by rewrite !lookup_insert_ne.
    - by eexists.
    - rewrite Eserv. fold s2. split_and!; [|intros d; apply (Recorder.ok_taken _ _ Hok2 d)|done|].
      + exists ss, part. split_and!; [simpl; by rewrite lookup_insert_eq, Hct| |done|].
        * intros d. rewrite <-Hpv. apply (Recorder.ok_taken _ _ Hok2 d).
        * intros Hz. apply Traffic.none_repeated, nil_length_inv. lia.
      + cbn [fst]. rewrite Hr. destruct joined; [|done]. destruct ended as [[]|]; [|done].
        destruct (Recorder.worker s2) as [| |saved]; [done..|]. intros ->. split; [done|by apply Hover]. }
  unfold stop_recorder. fold s2. unfold mbind at 1 2, M_bind at 1 2, modify.
  destruct (Recorder.worker s2) as [| |saved]; unfold mret, M_ret; cbn beta iota;
    unfold mbind, M_bind, lift; (destruct joined as [[]|e]; [|by apply Hcore]); simpl.
  - by apply Hcore; destruct ended as [[]|].
  - by apply Hcore; destruct ended as [[]|].
  - destruct saved as [[]|e]; by apply Hcore; destruct ended as [[]|].
Qed.

Lemma start_recorder_fresh path p :
  recorder p = None →
  start_recorder open_io spawned now path p =
    match Recorder.start open_io false spawned now (default [] (journals p !! path)) with
    | (Ok s, old) => (Ok s, MkProcess (<[path := old]> (journals p)) (Some s))
    | (Err e, old) => (Err e, MkProcess (<[path := old]> (journals p)) None)
    end.
Proof. intros Hnone. unfold start_recorder. by rewrite Hnone. Qed.

(** C25: Serving under the recorder. A configuration or token file that cannot be
    used is refused before any journal is touched, and so is the run when the
    signal handlers cannot be installed. Else the journal is opened; when this or
    the thread fails, the run ends with this error, and nothing but what opening
    did to that journal has changed. Once the recorder has started, however the
    service ends, by itself, by an error or by a signal, the recorder is stopped
    and waited for, no other journal changes, and the journal has gained samples;
    those whose append succeeded account for every byte at most once, and the
    others, which the next one counts again, are at most as many as the times
    unlocking the journal failed. The result is the failure of the join if there
    is one, else the service's error, else that of the last samples; so the command
    succeeds only when the service ended well and everything recorded until then is
    in the journal. *)
Theorem service_traffic_kept map args p :
  lawful map args → recorder p = None →
  ((¬ ∃ path, usable map args path) → ∃ e, serve map args p = (Err e, p)) ∧
  ∀ path, usable map args path →
    match shutdown_signal, Recorder.start open_io false spawned now (default [] (journals p !! path)) with
    | Err e, _ => serve map args p = (Err e, p)
    | Ok _, (Err e, old) => serve map args p = (Err e, MkProcess (<[path := old]> (journals p)) None)
    | Ok _, (Ok s0, old) => kept map args p (serve map args p) path s0 old
    end.
Proof.
  intros Hlaw Hnone. unfold run_with_traffic. split.
  - intros Hno. unfold mbind, M_bind, lift. unfold usable in Hno.
    destruct (serve_flags args map) as [f|e] eqn:Ef; [|by eauto].
    destruct (served_config home map f) as [config|e] eqn:Ec; [|by eauto].
    destruct (check_config _ _ map config) as [[]|e] eqn:Eu; [|by eauto]. exfalso. apply Hno. by eexists _, f, config.
  - intros path (f & config & Hf & Hconfig & Hcheck & ->).
    rewrite (M_bind_ok (lift (serve_flags args map)) _ p f p) by (unfold lift; by rewrite Hf).
    rewrite (M_bind_ok (lift (served_config home map f)) _ p config p) by (unfold lift; by rewrite Hconfig).
    rewrite (M_bind_ok (lift (check_config _ _ map config)) _ p tt p) by (unfold lift; by rewrite Hcheck).
    cbv zeta. destruct shutdown_signal as [[]|e]; [|done]. rewrite (M_bind_ok (lift (Ok tt)) _ p tt p) by done.
    pose proof (recorded_run map args p (traffic_file parent f config)) as Hrun.
    pose proof (start_recorder_fresh (traffic_file parent f config) p Hnone) as Hs.
    destruct (Recorder.start _ _ _ _ _) as [[s0|e] old].
    + rewrite (M_bind_ok _ _ _ _ _ Hs). by apply Hrun.
    + by rewrite (M_bind_err _ _ _ _ _ Hs).
Qed.
End ServeProofs.

(** ** Witnesses *)

#[local] Existing Instance CatalogService.demo_crates.
#[local] Existing Instance Control.demo_codec.
#[local] Existing Instance Traffic.toy_codec.
#[local] Existing Instance Traffic.toy_codec_laws.
#[local] Existing Instance Traffic.in_range_dec.

Definition demo_outputs : Outputs := MkOutputs (λ _, Ok tt) (λ _, None) (λ _, Ok tt).
Definition demo_file : Opened := MkOpened true 384 1000 (Traffic.journal_of Traffic.demo_samples ++ lit "{to").
Definition demo_reading : Reading :=
  MkReading (Some (lit "/home/u")) (λ _, None) (λ _, Ok demo_file) 1000 (Ok tt) (λ _, -1) (λ _, None) (λ _, 0)
    (λ j, Ok (match j with JNull => lit "null" | _ => lit "{}" end)).
Definition demo_ask : Asking :=
  MkAsking (CatalogService.f_network CatalogService.demo_fetch) 0 (CatalogService.f_attempts CatalogService.demo_fetch)
    (λ _, None).
Definition demo_previewing : Previewing :=
  MkPreviewing (λ _, CatalogService.st_files CatalogService.demo_startup) true CatalogService.demo_fetch.
Definition demo_channel : Channel := MkChannel (λ _, Ok (lit "/s")) (λ _, Ok tt) (λ _ _, Some (Ok (lit "done" ++ [x0a]))).
Definition demo_console : Console := MkConsole [] [] {[ lit "/tmp/old" := lit "kept" ]}.
Definition demo_commands : cmd → list bytes → M Console unit :=
  commands (lit "1.0") (lit "c") (lit "t") demo_outputs demo_reading demo_ask demo_previewing demo_channel
    (λ _ _, bail "elsewhere").
Definition demo_run (output : string) : Z * Console :=
  run (lit "Usage:") (λ b, b) demo_commands [lit "diagnose"; lit "--output"; lit output] demo_console.

(** A bundle is written to a new file; an old file is left alone, with status 1. *)
Lemma report_commands_safe_witness :
  (∃ c', demo_run "/tmp/new" = (0, c') ∧ files c' !! lit "/tmp/old" = Some (lit "kept")
     ∧ ∃ output content, files c' = <[output := content]> (files demo_console))
  ∧ (∃ c', demo_run "/tmp/old" = (1, c') ∧ files c' !! lit "/tmp/old" = Some (lit "kept")).
Proof.
  assert (Hnew : ∃ u, (demo_commands Diagnose [lit "--output"; lit "/tmp/new"] demo_console).1 = Ok u)
    by (vm_compute; by eexists).
  assert (Hold : ∃ e, (demo_commands Diagnose [lit "--output"; lit "/tmp/old"] demo_console).1 = Err e ∧ is_usage e = false)
    by (vm_compute; by eexists).
  split.
  - pose proof (report_commands_safe (lit "Usage:") (lit "1.0") (lit "c") (lit "t") (λ b, b) demo_outputs demo_reading
      demo_ask demo_previewing demo_channel (λ _ _, bail "elsewhere") (lit "diagnose")
      [lit "--output"; lit "/tmp/new"] demo_console Diagnose ltac:(by vm_compute) eq_refl) as Hs.
    fold demo_commands in Hs. fold (demo_run "/tmp/new") in Hs. destruct (demo_run "/tmp/new") as [code c'].
    destruct Hnew as [[] Hnew]. cbv zeta in Hs. rewrite Hnew in Hs. destruct Hs as (Hk & Hl & -> & _).
    exists c'. split; [reflexivity|]. split; [apply Hk; by vm_compute|].
    destruct (Hl eq_refl) as (output & content & _ & _ & Hf). by exists output, content.
  - pose proof (report_commands_safe (lit "Usage:") (lit "1.0") (lit "c") (lit "t") (λ b, b) demo_outputs demo_reading
      demo_ask demo_previewing demo_channel (λ _ _, bail "elsewhere") (lit "diagnose")
      [lit "--output"; lit "/tmp/old"] demo_console Diagnose ltac:(by vm_compute) eq_refl) as Hs.
    fold demo_commands in Hs. fold (demo_run "/tmp/old") in Hs. destruct (demo_run "/tmp/old") as [code c'].
    destruct Hold as (e & Hold & Hu). cbv zeta in Hs. rewrite Hold, Hu in Hs. destruct Hs as (Hk & _ & -> & _).
    exists c'. split; [reflexivity|]. apply Hk. by vm_compute.
Defined.

(** The report of the samples from 100 on, with the last record incomplete. *)
Definition traffic_args : list bytes := [lit "--file"; lit "/t"; lit "--from"; lit "100"].
Definition demo_flags : flags := match parse_flags traffic_args traffic_definitions with Ok f => f | Err _ => ∅ end.
Lemma demo_flags_parsed : parse_flags traffic_args traffic_definitions = Ok demo_flags.
Proof.
  assert (H : is_ok (parse_flags traffic_args traffic_definitions) = true) by (vm_compute; reflexivity).
  unfold demo_flags. by destruct (parse_flags _ _).
Qed.

Lemma traffic_command_exact_witness :
  ∃ text, run_traffic demo_reading traffic_args demo_console = (Ok tt, MkConsole text [] (files demo_console))
    ∧ starts_with (lit "Upload:   8 bytes (0.00 MiB)") text = true.
Proof.
  assert (Hfrom : time_flag demo_reading demo_flags "from" = Ok (Some 100)) by (vm_compute; reflexivity).
  assert (Hto : time_flag demo_reading demo_flags "to" = Ok None) by (vm_compute; reflexivity).
  assert (Hpath : traffic_path demo_reading demo_flags = Ok (lit "/t")) by (vm_compute; reflexivity).
  assert (Hno : (has demo_flags "config" && has demo_flags "file" = false)%bool) by (vm_compute; reflexivity).
  assert (Hall : (has demo_flags "all" && (has demo_flags "from" || has demo_flags "to") = false)%bool)
    by (vm_compute; reflexivity).
  destruct (traffic_command_exact demo_reading traffic_args demo_flags (lit "/t") (Some 100) None demo_console
    demo_flags_parsed Hno Hall Hpath Hfrom Hto I eq_refl) as [H _].
  specialize (H demo_file Traffic.demo_samples (lit "{to") eq_refl eq_refl).
  specialize (H ltac:(repeat constructor; simpl; unfold U64_MAX; lia)).
  specialize (H ltac:(by vm_compute; intros Hin;
    repeat (apply elem_of_cons in Hin as [Hin|Hin]; [discriminate|]); apply elem_of_nil in Hin)).
  specialize (H ltac:(vm_compute; lia) eq_refl eq_refl (or_intror eq_refl)). cbv zeta in H.
  assert (Hok : is_ok (run_traffic demo_reading traffic_args demo_console).1 = true) by (vm_compute; reflexivity).
  destruct (run_traffic demo_reading traffic_args demo_console) as [[[]|e] c']; [|discriminate Hok].
  destruct H as (_ & text & Htext & ->). exists text. split; [reflexivity|].
  assert (Ht : match shown demo_reading demo_flags (Traffic.report_of (Some 100) None
             (filter (Traffic.in_range (Some 100) None) Traffic.demo_samples) true) with
           | Ok text => starts_with (lit "Upload:   8 bytes (0.00 MiB)") text | Err _ => false end = true)
    by (vm_compute; reflexivity).
  change (negb (bool_decide (lit "{to" = []))) with true in Htext. by rewrite Htext in Ht.
Defined.

(** A service that transfers ten bytes; the thread's last turn writes them. *)
Definition demo_service (map : bool) (args : list bytes) (s : Recorder.State) : result unit * Recorder.State :=
  (Ok tt, Recorder.record_bytes Traffic.TcpUpload 10 (Recorder.set_enabled true s)).
Definition demo_serve : result unit * Process :=
  run_with_traffic (λ _, Ok tt) (λ _, Ok tt) (Some (lit "/home/u")) (λ _, Some (lit "/etc/oixc")) (Ok tt)
    Traffic.open_io_ok true 0 demo_service Recorder.demo_turn (Ok tt) false [] (MkProcess ∅ None).

Lemma service_traffic_kept_witness :
  ∃ p', demo_serve = (Ok tt, p')
    ∧ journals p' !! lit "/etc/oixc/traffic.jsonl"
      = Some (Traffic.journal_of [Traffic.MkSample 1 60 0 (Traffic.MkBytes 10 0 0 0)])
    ∧ ∃ path s0 old, kept demo_service Recorder.demo_turn (Ok tt) false [] (MkProcess ∅ None) (Ok tt, p') path s0 old.
Proof.
  assert (Hlaw : lawful demo_service Recorder.demo_turn false []).
  { intros s0 Hs. cbv zeta. split_and!; [|exact Hs|apply Recorder.demo_turn_run].
    eapply rtc_l; [right; apply Recorder.step_enable|]. apply rtc_once. right.
    apply (Recorder.step_record _ Traffic.TcpUpload 10). unfold u64, U64_MAX. lia. }
  destruct (service_traffic_kept (λ _, Ok tt) (λ _, Ok tt) (Some (lit "/home/u")) (λ _, Some (lit "/etc/oixc")) (Ok tt)
    Traffic.open_io_ok true 0 demo_service Recorder.demo_turn (Ok tt) false [] (MkProcess ∅ None) Hlaw eq_refl) as [_ H].
  specialize (H (lit "/etc/oixc/traffic.jsonl")). change (run_with_traffic _ _ _ _ _ _ _ _ _ _ _ _ _ _) with demo_serve in H.
  assert (Hstart : Recorder.start Traffic.open_io_ok false true 0 (default [] ((∅ : gmap bytes bytes) !! lit "/etc/oixc/traffic.jsonl"))
    = (Ok Recorder.demo_s0, [])) by exact Recorder.demo_started.
  cbn [journals] in H. rewrite Hstart in H.
  assert (Hok : is_ok demo_serve.1 = true) by (vm_compute; reflexivity).
  assert (Hj : journals demo_serve.2 !! lit "/etc/oixc/traffic.jsonl" =
            Some (Traffic.journal_of [Traffic.MkSample 1 60 0 (Traffic.MkBytes 10 0 0 0)])) by (vm_compute; reflexivity).
  destruct demo_serve as [[[]|e] p']; [|discriminate Hok].
  exists p'. split; [reflexivity|]. split; [exact Hj|]. eexists _, _, _. apply H.
  eexists _, _. split; [vm_compute; reflexivity|]. split; [vm_compute; reflexivity|]. by split.
Defined.
