(* ===== verification/WindowsService.v ===== *)
(** * WindowsService: the service under the Windows service manager
    ([src/windows/service.rs])

    What the process reports to the service manager (the SCM) while its main
    thread, the control handler and the worker interleave; the worker's start;
    and the installation and removal of the service. *)
From stdpp Require Import relations.
From S2P Require Import Prelude Bytes Text.
From S2P Require Commands.
Local Open Scope Z_scope.

(** ** Statuses *)

Inductive ServiceState : Type := StartPending | Running | StopPending | Stopped | OtherState.

#[export] Instance service_state_eq_dec : EqDecision ServiceState.
Proof. solve_decision. Defined.

(** [accepts]: STOP and SHUTDOWN, or nothing; the hint is in seconds. *)
Record ServiceStatus : Type := MkStatus {
  current_state : ServiceState; accepts : bool; exit_code : Z; checkpoint : Z; wait_hint : Z
}.

Definition pending (s : ServiceState) : bool := match s with StartPending | StopPending => true | _ => false end.

Definition status (current : ServiceState) (exit : Z) : ServiceStatus :=
  MkStatus current (bool_decide (current = Running)) exit (if pending current then 1 else 0)
    (if pending current then 60 else 0).

(** ** The process *)

Inductive ServiceControl : Type := Interrogate | Stop | Shutdown | OtherControl.
Inductive HandlerResult : Type := NoError | NotImplemented.

(** [State]: the notification and its stored permit, the flag, and whether the
    handle is there; the lock of the handle is held for a part of [ready] only,
    every other holder does its work in one step. *)
Record State : Type := MkState {
  permit : bool; stopping : bool; handle : bool
}.

(** Where the main thread is; the result of the worker at its end. *)
Inductive Main : Type :=
  | Unregistered | Refused | Registered | Working | Ended (ok : bool) | Cleared (ok : bool) | Returned (ok : bool).
(** Where the handler is with a stop or shutdown: before the flag, before the
    report, before the notification. *)
Inductive Handler : Type := Idle | Received | Flagged | Reported.
(** Where [ready] is: not called, past its check with the lock, over, over
    without a report. *)
Inductive Ready : Type := NotReady | Checked | ReadyOver | NothingReported.

(** The whole: the statuses that reached the SCM so far, those whose report failed
    with the error ignored, and whether the worker has been notified of a stop. *)
Record Process : Type := MkProcess {
  shared : State; main : Main; handler : Handler; ready_at : Ready;
  reports : list ServiceStatus; lost : list ServiceStatus; woken : bool
}.

Definition initial : Process := MkProcess (MkState false false false) Unregistered Idle NotReady [] [] false.

Definition report (s : ServiceStatus) (p : Process) : Process :=
  MkProcess (shared p) (main p) (handler p) (ready_at p) (reports p ++ [s]) (lost p) (woken p).

(** [let _ = handle.set_service_status(..)]: it reaches the SCM when [sent]. *)
Definition tell (sent : bool) (s : ServiceStatus) (p : Process) : Process :=
  if sent then report s p
  else MkProcess (shared p) (main p) (handler p) (ready_at p) (reports p) (lost p ++ [s]) (woken p).
Definition set_main (m : Main) (p : Process) : Process :=
  MkProcess (shared p) m (handler p) (ready_at p) (reports p) (lost p) (woken p).
Definition set_handler (h : Handler) (p : Process) : Process :=
  MkProcess (shared p) (main p) h (ready_at p) (reports p) (lost p) (woken p).
Definition set_ready (r : Ready) (p : Process) : Process :=
  MkProcess (shared p) (main p) (handler p) r (reports p) (lost p) (woken p).
Definition set_shared (s : State) (p : Process) : Process :=
  MkProcess s (main p) (handler p) (ready_at p) (reports p) (lost p) (woken p).
Definition set_handle (b : bool) (p : Process) : Process :=
  set_shared (MkState (permit (shared p)) (stopping (shared p)) b) p.
Definition set_stopping (p : Process) : Process :=
  set_shared (MkState (permit (shared p)) true (handle (shared p))) p.
Definition set_permit (b : bool) (p : Process) : Process :=
  set_shared (MkState b (stopping (shared p)) (handle (shared p))) p.
Definition wake (p : Process) : Process :=
  MkProcess (shared p) (main p) (handler p) (ready_at p) (reports p) (lost p) true.

(** The lock is free for another thread. *)
Definition unlocked (p : Process) : bool := match ready_at p with Checked => false | _ => true end.

Definition is_service (p : Process) : bool := handle (shared p).

(** What the handler answers at once; a stop or a shutdown starts its work. *)
Definition handle_control (control : ServiceControl) (p : Process) : HandlerResult * Process :=
  match control with
  | Interrogate => (NoError, p)
  | Stop | Shutdown => (NoError, set_handler Received p)
  | OtherControl => (NotImplemented, p)
  end.

(** The SCM sends a stop or shutdown only to a service whose last status accepts
    it, and one control at a time. *)
Definition accepted (p : Process) : bool :=
  match last (reports p) with Some s => accepts s | None => false end.
Definition deliverable (control : ServiceControl) (p : Process) : Prop :=
  handler p = Idle ∧ handle (shared p) = true ∧
  match control with Stop | Shutdown => accepted p = true | _ => True end.

(** The steps of the main thread ([service_main]). *)
Inductive main_step : Process → Process → Prop :=
  | main_refused p : main p = Unregistered → main_step p (set_main Refused p)
  | main_register p : main p = Unregistered → unlocked p = true →
      main_step p (set_main Registered (set_handle true p))
  | main_start p sent : main p = Registered → main_step p (set_main Working (tell sent (status StartPending 0) p))
  | main_worker_over p ok : main p = Working → unlocked p = true → main_step p (set_main (Ended ok) p)
  | main_clear p ok : main p = Ended ok → unlocked p = true → main_step p (set_main (Cleared ok) (set_handle false p))
  | main_stopped p ok sent : main p = Cleared ok →
      main_step p (set_main (Returned ok) (tell sent (status Stopped (if ok then 0 else 1)) p)).

(** The steps of the worker: [ready] (the service calls it once; a worker that
    ends does not leave it half done), and [stopping]. *)
Inductive worker_step : Process → Process → Prop :=
  | ready_check p : main p = Working → ready_at p = NotReady →
      worker_step p (set_ready (if handle (shared p) && negb (stopping (shared p)) then Checked else NothingReported) p)
  | ready_report p : main p = Working → ready_at p = Checked →
      worker_step p (set_ready ReadyOver (report (status Running 0) p))
  | ready_failed p : main p = Working → ready_at p = Checked → worker_step p (set_ready NothingReported p)
  | stopping_notified p : main p = Working → permit (shared p) = true →
      worker_step p (wake (set_permit false p)).

(** The steps of the SCM and the handler. *)
Inductive handler_step : Process → Process → Prop :=
  | control_delivered p control r p' :
      deliverable control p → handle_control control p = (r, p') → handler_step p p'
  | handler_flag p : handler p = Received → handler_step p (set_handler Flagged (set_stopping p))
  | handler_report p sent : handler p = Flagged → unlocked p = true →
      handler_step p (set_handler Reported
        (if handle (shared p) then tell sent (status StopPending 0) p else p))
  | handler_notify p : handler p = Reported → handler_step p (set_handler Idle (set_permit true p)).

Definition step (p p' : Process) : Prop := main_step p p' ∨ worker_step p p' ∨ handler_step p p'.

(** ** What the service manager sees *)

Definition seen (p : Process) : list ServiceState := current_state <$> reports p.

Definition optional (b : bool) (s : ServiceState) : list ServiceState := if b then [s] else [].

(** The report of a state was lost. *)
Definition missed (s : ServiceState) (p : Process) : Prop := s ∈ current_state <$> lost p.

Definition started (m : Main) : bool := match m with Unregistered | Refused | Registered => false | _ => true end.
Definition returned (m : Main) : bool := match m with Returned _ => true | _ => false end.
Definition running (r : Ready) : bool := match r with ReadyOver => true | _ => false end.

(** The states the SCM has seen: of the main thread, of [ready], of the handler. *)
Record seen_ok (p : Process) (start stop stopped : bool) : Prop := {
  so_seen : seen p = optional start StartPending ++ optional (running (ready_at p)) Running
                     ++ optional stop StopPending ++ optional stopped Stopped;
  so_start : (start = true → started (main p) = true) ∧ (started (main p) = true → start = true ∨ missed StartPending p);
  so_stop : stop = true → stopping (shared p) = true ∧ (handler p = Reported ∨ handler p = Idle);
  so_told : stopping (shared p) = true → handler p = Reported ∨ handler p = Idle → handle (shared p) = true →
            stop = true ∨ missed StopPending p;
  so_stopped : (stopped = true → returned (main p) = true) ∧ (returned (main p) = true → stopped = true ∨ missed Stopped p)
}.

Record process_ok (p : Process) : Prop := {
  po_statuses : Forall (λ s, ∃ c e, s = status c e) (reports p);
  po_handle : handle (shared p) = match main p with Registered | Working | Ended _ => true | _ => false end;
  po_ready : match main p with Unregistered | Refused | Registered => ready_at p = NotReady | Working => True | _ => ready_at p ≠ Checked end;
  (** no stop before [Running] is reported *)
  po_stop : ready_at p ≠ ReadyOver → stopping (shared p) = false ∧ handler p = Idle;
  po_flag : handler p = Flagged ∨ handler p = Reported → stopping (shared p) = true;
  po_notified : stopping (shared p) = true → handler p = Idle → permit (shared p) = true ∨ woken p = true;
  po_reports : ∃ start stop stopped, seen_ok p start stop stopped;
  po_exit ok : main p = Returned ok → ∃ s, s = status Stopped (if ok then 0 else 1) ∧
    (last (reports p) = Some s ∨ last (lost p) = Some s)
}.

Lemma initial_ok : process_ok initial.
Proof. split; try done; [by intros [|]|]. exists false, false, false. by split. Qed.

Lemma statuses_app l c e :
  Forall (λ s, ∃ c e, s = status c e) l → Forall (λ s, ∃ c e, s = status c e) (l ++ [status c e]).
Proof. intros H. apply Forall_app. split; [done|]. apply Forall_singleton. by eexists _, _. Qed.

Lemma missed_snoc l s c : c ∈ current_state <$> l → c ∈ current_state <$> (l ++ [s]).
Proof. rewrite fmap_app. set_solver. Qed.
Lemma missed_new l c e : c ∈ current_state <$> (l ++ [status c e]).
Proof. rewrite fmap_app. set_solver. Qed.

Ltac open_process :=
  match goal with p : Process |- _ => destruct p as [[pe st ha] ma hd re rs lo wo] end; simpl in *; simplify_eq.
Ltac open_ok :=
  match goal with H : process_ok _ |- _ =>
    let Hst := fresh "Hst" in let Hrep := fresh "Hrep" in
    destruct H as [Hst Hh Hr Hs Hf Hn Hrep Hx];
    destruct Hrep as (start & stop & stopped & [Hseen [Hstart Hstart'] Hstop Htold [Hstopped Hstopped']]) end;
  unfold seen, missed in *; simpl in *; simplify_eq.
Ltac close_ok start stop stopped :=
  split; simpl; [by try apply statuses_app|try done|try done|try done|try done|try done
    |exists start, stop, stopped; split; unfold seen, missed; simpl; try done|try done].
(** What is left of a report: it was sent, or it was lost. *)
Ltac settle :=
  try solve [done | intuition (first [done | congruence | right; apply missed_new | right; apply missed_snoc; assumption])].

Lemma main_step_ok p p' : main_step p p' → process_ok p → process_ok p'.
Proof.
  intros Hstep Hok. destruct Hstep as [p Hm|p Hm Hu|p sent Hm|p ok Hm Hu|p ok Hm Hu|p ok sent Hm]; open_process; open_ok.
  - close_ok start stop stopped.
  - close_ok start stop stopped. by destruct Hs as [-> _].
  - destruct Hs as [-> ->]; [done|].
    assert (start = false) as -> by (destruct start; [by discriminate Hstart|done]).
    assert (stop = false) as -> by (destruct stop; [by destruct (Hstop eq_refl)|done]).
    assert (stopped = false) as -> by (destruct stopped; [by discriminate Hstopped|done]).
    destruct sent; simpl.
    + close_ok true false false; settle; by rewrite fmap_app, Hseen.
    + close_ok false false false; settle.
  - close_ok start stop stopped; settle. by intros ->.
  - close_ok start stop stopped; settle.
  - assert (stopped = false) as -> by (destruct stopped; [by discriminate Hstopped|done]).
    destruct sent; simpl.
    + close_ok start stop true; settle.
      * rewrite fmap_app, Hseen. by rewrite app_nil_r, <-!app_assoc.
      * intros ok' [= ->]. eexists. split; [done|]. left. by rewrite last_snoc.
    + close_ok start stop false; settle.
      intros ok' [= ->]. eexists. split; [done|]. right. by rewrite last_snoc.
Qed.

Lemma worker_step_ok p p' : worker_step p p' → process_ok p → process_ok p'.
Proof.
  intros Hstep Hok. destruct Hstep as [p Hm Hready|p Hm Hready|p Hm Hready|p Hm Hp]; open_process; open_ok.
  - destruct Hs as [-> ->]; [done|]. close_ok start stop stopped; by destruct (ha && _).
  - destruct Hs as [-> ->]; [done|].
    assert (stop = false) as -> by (destruct stop; [by destruct (Hstop eq_refl)|done]).
    assert (stopped = false) as -> by (destruct stopped; [by discriminate Hstopped|done]).
    close_ok start false false. rewrite fmap_app, Hseen. by rewrite !app_nil_r.
  - destruct Hs as [-> ->]; [done|]. close_ok start stop stopped.
  - close_ok start stop stopped; settle.
Qed.

(** What accepts a stop: the report of a running service. *)
Lemma accepted_running p : process_ok p → accepted p = true → ∃ k, seen p = k ++ [Running].
Proof.
  intros Hok Ha. unfold accepted in Ha. destruct (last (reports p)) as [s|] eqn:El; [|done].
  apply last_Some in El as [l El]. pose proof (po_statuses _ Hok) as Hst. rewrite El in Hst.
  apply Forall_app in Hst as [_ (c & e & ->)%Forall_singleton]. unfold status in Ha. simpl in Ha.
  case_bool_decide; simplify_eq. exists (current_state <$> l). unfold seen. by rewrite El, fmap_app.
Qed.

(** A stop is delivered only while the last state seen is [Running]. *)
Lemma last_running start run stop stopped k :
  optional start StartPending ++ optional run Running ++ optional stop StopPending ++ optional stopped Stopped
    = k ++ [Running] → run = true ∧ stop = false ∧ stopped = false.
Proof.
  intros E. apply (f_equal last) in E. rewrite last_snoc in E. destruct start, run, stop, stopped; by simplify_eq/=.
Qed.

Lemma handler_step_ok p p' : handler_step p p' → process_ok p → process_ok p'.
Proof.
  intros Hstep Hok. destruct Hstep as [p control r p' (Hid & Hhandle & Hacc) Hc|p Hhd|p sent Hhd Hu|p Hhd].
  - destruct control; simpl in Hc; simplify_eq; try done;
      (destruct (accepted_running _ Hok Hacc) as [k Hk]; open_process; open_ok;
       rewrite Hseen in Hk; apply last_running in Hk as (Hrun & -> & ->); destruct re; try done;
       close_ok start false false; settle).
  - open_process. open_ok. destruct re; [by destruct Hs|by destruct Hs| |by destruct Hs].
    assert (stop = false) as -> by (destruct stop; [by destruct (Hstop eq_refl) as [_ [|]]|done]).
    close_ok start false stopped; by intros _ [|].
  - open_process. open_ok. destruct re; [by destruct Hs|by destruct Hs| |by destruct Hs].
    rewrite (Hf (or_introl eq_refl)) in *.
    assert (stop = false) as -> by (destruct stop; [by destruct (Hstop eq_refl) as [_ [|]]|done]).
    destruct ma; try done; simpl.
    1,2: assert (stopped = false) as -> by (destruct stopped; [by discriminate Hstopped|done]); destruct sent; simpl; [close_ok start true false; settle; rewrite fmap_app, Hseen; by rewrite !app_nil_r, <-?app_assoc
      |close_ok start false false; settle].
    all: close_ok start false stopped; settle.
  - open_process. open_ok. destruct re; [by destruct Hs|by destruct Hs| |by destruct Hs]. rewrite (Hf (or_intror eq_refl)) in *.
    close_ok start stop stopped; settle.
Qed.

Lemma process_steps_ok p p' : rtc step p p' → process_ok p → process_ok p'.
Proof.
  induction 1 as [|p p1 p' Hs _ IH]; [done|]. intros Hok. apply IH. destruct Hs as [?|[?|?]];
    eauto using main_step_ok, worker_step_ok, handler_step_ok.
Qed.

(** C28: The life of the service as the service manager sees it. However the main
    thread, the worker and the control handler interleave, the reports are, in
    this order and each at most once: start pending, running, stop pending,
    stopped; stop pending only after running. A report that fails (and whose error
    is ignored) is missing: start pending is there once the worker runs, and
    stopped once the process has returned, unless that report failed. Only a
    running service says that it accepts a stop, and only a pending one gives a
    hint how long to wait. The last report of a process that returns is that it
    stopped, with exit code 0 when the worker ended well and 1 when not, or else
    exactly this report failed. And no stop is lost: once the handler is done with
    one, the worker has been notified of it or the notification is stored for
    it. *)
Theorem service_lifecycle p :
  rtc step initial p →
  (∃ start running stop stopped,
     seen p = optional start StartPending ++ optional running Running ++ optional stop StopPending ++ optional stopped Stopped
     ∧ (stop = true → running = true)
     ∧ (StartPending ∉ current_state <$> lost p →
        (start = true ↔ match main p with Unregistered | Refused | Registered => False | _ => True end))
     ∧ (Stopped ∉ current_state <$> lost p → (stopped = true ↔ ∃ ok, main p = Returned ok))) ∧
  (match main p with Unregistered | Refused | Registered => seen p = [] | _ => True end) ∧
  Forall (λ s, accepts s = bool_decide (current_state s = Running)
               ∧ (wait_hint s ≠ 0 ↔ pending (current_state s) = true)) (reports p) ∧
  (∀ ok, main p = Returned ok → ∃ s,
     (last (reports p) = Some s ∨ last (lost p) = Some s) ∧ current_state s = Stopped ∧ exit_code s = (if ok then 0 else 1)) ∧
  (stopping (shared p) = true → handler p = Idle → permit (shared p) = true ∨ woken p = true).
Proof.
  intros Hrun. pose proof (process_steps_ok _ _ Hrun initial_ok)
    as [Hst Hh Hr Hs Hf Hn (start & stop & stopped & [Hseen Hstart Hstop _ Hstopped]) Hx].
  split_and!.
  - exists start, (running (ready_at p)), stop, stopped. split_and!; [done|..].
    + intros E. destruct (Hstop E) as [E' _]. destruct (ready_at p); try done; by destruct Hs as [? _]; congruence.
    + unfold missed, started in Hstart. intros Hm. destruct Hstart as [H1 H2].
      split; [intros E; specialize (H1 E)|intros E]; destruct (main p); try done; by destruct H2.
    + unfold missed, returned in Hstopped. intros Hm. destruct Hstopped as [H1 H2]. split.
      * intros E; specialize (H1 E). destruct (main p); try done. by eexists.
      * intros [ok E]. rewrite E in H2. by destruct H2.
  - rewrite Hseen. destruct Hstart as [Hstart _], Hstopped as [Hstopped _]. unfold started, returned in *.
    destruct (main p); try done; rewrite Hr in *; destruct Hs as [Hno _]; try done;
      (destruct start; [by discriminate Hstart|]; destruct stopped; [by discriminate Hstopped|];
       destruct stop; [|done]; destruct (Hstop eq_refl); congruence).
  - eapply Forall_impl; [exact Hst|]. intros ? (c & e & ->). simpl. split; [done|by destruct (pending c)].
  - intros ok E. destruct (Hx ok E) as (s & -> & Hl). by exists (status Stopped (if ok then 0 else 1)).
  - done.
Qed.

(** ** The worker *)

(** What the worker meets: [Path::parent] and the calls it makes; [cli_run] is
    the whole service, with its exit code. *)
Record WorkerEnv : Type := MkWorkerEnv {
  parent : bytes → option bytes; set_current_dir : bytes → result unit; open_log : bytes → result unit;
  seek_end : result unit; redirect : result unit; runtime : result unit; cli_run : list bytes → Z; sync_log : result unit
}.

Definition run_worker (env : WorkerEnv) (arguments : list bytes) : result unit :=
  match arguments with
  | [command; flag; path] =>
      if negb (bytes_eqb command (lit "windows-service")) || negb (bytes_eqb flag (lit "--config"))
      then Err (Bail "windows-service requires --config PATH")
      else
        working ← ok_or (Bail "configuration has no parent directory") (parent env path);
        map_err (Context "set service working directory") (set_current_dir env working);;
        open_log env working;;
        seek_end env;;
        map_err (Context "redirect service logs") (redirect env);;
        runtime env;;
        let exit := cli_run env [lit "serve"; lit "--config"; path] in
        sync_log env;;
        if negb (exit =? 0) then Err (Bail "service worker exited with a code; see oixc-proxy.log") else Ok tt
  | _ => Err (Bail "windows-service requires --config PATH")
  end.

(** ** Installing and removing *)


(** The calls to the service manager and to the process. *)
Inductive call : Type :=
  | CreateService (executable : bytes) (arguments : list bytes) | SetDescription | SetDelayedStart
  | UpdateFailureActions | SetNonCrashFailures | StartService | StopService | DeleteService | Slept.

#[export] Instance call_eq_dec : EqDecision call.
Proof. solve_decision. Defined.

(** The manager: what each call comes to, the states a query shows and the clock,
    in milliseconds, by the number of queries so far. *)
Record Manager : Type := MkManager {
  open_manager : result unit; open_service : result unit; granted : call → result unit;
  query_status : nat → result ServiceState; clock : nat → Z
}.

(** The calls made, and the queries. *)
Record Log : Type := MkLog { calls : list call; queries : nat }.

Section Manage.
Context (m : Manager).

Definition make (c : call) : M Log unit :=
  modify (λ l, MkLog (calls l ++ [c]) (queries l));; lift (granted m c).
Definition query : M Log ServiceState := λ l,
  (query_status m (queries l), MkLog (calls l) (S (queries l))).
Definition sleep : M Log unit := modify (λ l, MkLog (calls l ++ [Slept]) (queries l)).
Definition now : M Log Z := λ l, (Ok (clock m (queries l)), l).

(** The loop of [wait]. *)
Fixpoint wait_loop (fuel : nat) (deadline : Z) (wanted : ServiceState) : M Log unit :=
  match fuel with
  | O => throw OutOfFuel
  | S fuel =>
      current ← query;
      if bool_decide (current = wanted) then mret tt
      else if bool_decide (wanted = Running) && bool_decide (current = Stopped)
      then bail "Windows service failed to start; inspect oixc-proxy.log and the System event log"
      else
        time ← now;
        if deadline <=? time then bail "timed out waiting for Windows service; registration and files retained"
        else sleep;; wait_loop fuel deadline wanted
  end.

(** A minute in turns of 200 milliseconds. *)
Definition WAIT_FUEL : nat := 301.
Definition wait (wanted : ServiceState) : M Log unit :=
  started ← now; wait_loop WAIT_FUEL (started + 60000) wanted.

Definition uninstall : M Log unit :=
  lift (open_manager m);;
  lift (open_service m);;
  current ← query;
  match current with
  | Stopped => mret tt
  | StopPending => wait Stopped
  | _ => make StopService;; wait Stopped
  end;;
  make DeleteService.

(** What an installation meets: the configuration and the executable as the file
    system knows them, [Path::starts_with], and the checks of the two. *)
Record InstallEnv : Type := MkInstallEnv {
  canonical_config : result bytes; load_config : bytes → result unit; executable : result bytes;
  program_files : result bytes; path_starts_with : bytes → bytes → bool; validate_private : bytes → result unit
}.

Definition install (env : InstallEnv) : M Log unit :=
  config ← lift (map_err (Context "locate service configuration") (canonical_config env));
  lift (load_config env config);;
  executable ← lift (executable env);
  program_files ← lift (program_files env);
  if negb (path_starts_with env executable program_files)
  then bail "install the executable under ProgramFiles first (use install.ps1)"
  else
    lift (validate_private env executable);;
    catch_map (Context "open service manager; run PowerShell as Administrator") (lift (open_manager m));;
    catch_map (Context "create oixc-proxy service (existing services are not overwritten)")
      (make (CreateService executable [lit "windows-service"; lit "--config"; config]));;
    make SetDescription;;
    make SetDelayedStart;;
    make UpdateFailureActions;;
    make SetNonCrashFailures;;
    make StartService;;
    wait Running.

(** ** What managing the service does *)

Ltac run_steps :=
  unfold make, query, sleep, now, bail, throw, modify, lift, catch_map, mret, M_ret, mbind, M_bind; simpl.

(** Waiting only sleeps, and succeeds on the state that was waited for. *)
Lemma wait_loop_cases fuel deadline wanted l :
  let '(r, l') := wait_loop fuel deadline wanted l in
  (∃ n, calls l' = calls l ++ replicate n Slept) ∧
  (r = Ok tt → ∃ k, queries l' = S k ∧ query_status m k = Ok wanted).
Proof.
  revert l. induction fuel as [|fuel IH]; intros l; simpl.
  { split; [|done]. exists 0%nat. by rewrite app_nil_r. }
  assert (Hnone : ∃ n, calls l = calls l ++ replicate n Slept) by (exists 0%nat; by rewrite app_nil_r).
  unfold mbind, M_bind, query, mret, M_ret. destruct (query_status m (queries l)) as [s|e] eqn:Es; simpl; [|by split].
  case_bool_decide as Hs; [subst; simpl; split; [done|by eauto]|].
  destruct (bool_decide (wanted = Running) && _); [by split|]. destruct (deadline <=? _); [by split|]. simpl.
  specialize (IH (MkLog (calls l ++ [Slept]) (S (queries l)))). destruct (wait_loop _ _ _ _) as [r l'].
  destruct IH as [[n Hn] Hr]. split; [|done]. exists (S n). simpl in Hn. by rewrite Hn, <-app_assoc.
Qed.

Lemma wait_cases wanted l :
  let '(r, l') := wait wanted l in
  (∃ n, calls l' = calls l ++ replicate n Slept) ∧
  (r = Ok tt → ∃ k, queries l' = S k ∧ query_status m k = Ok wanted).
Proof. apply wait_loop_cases. Qed.

(** The clock after a sleep. *)
Definition clock_runs (from : nat) : Prop :=
  clock m from <= clock m (S from) ∧ ∀ k, (from < k)%nat → clock m k + 200 <= clock m (S k).

Lemma clock_later from i : clock_runs from → clock m from + 200 * Z.of_nat i <= clock m (S (from + i)).
Proof.
  intros [H0 Hk]. induction i as [|i IH]; [rewrite Nat.add_0_r; lia|].
  specialize (Hk (S (from + i)) ltac:(lia)). replace (from + S i)%nat with (S (from + i)) by lia. lia.
Qed.

(** A turn of the loop, on states that are not the wanted one. *)
Lemma wait_loop_turn fuel deadline wanted l :
  wait_loop (S fuel) deadline wanted l =
    (let l1 := MkLog (calls l) (S (queries l)) in
     match query_status m (queries l) with
     | Err e => (Err e, l1)
     | Ok s =>
         if bool_decide (s = wanted) then (Ok tt, l1)
         else if bool_decide (wanted = Running) && bool_decide (s = Stopped)
         then bail "Windows service failed to start; inspect oixc-proxy.log and the System event log" l1
         else if deadline <=? clock m (S (queries l))
         then bail "timed out waiting for Windows service; registration and files retained" l1
         else wait_loop fuel deadline wanted (MkLog (calls l ++ [Slept]) (S (queries l)))
     end).
Proof.
  cbn [wait_loop]. unfold mbind at 1, M_bind at 1, query. simpl. destruct (query_status m (queries l)) as [s|e]; [|done].
  case_bool_decide; [done|]. destruct (_ && _); [done|]. unfold mbind at 1, M_bind at 1, now. simpl.
  by destruct (_ <=? _).
Qed.

Lemma wait_loop_ends from wanted fuel i l :
  clock_runs from → (∀ k, query_status m k ≠ Err OutOfFuel) → queries l = (from + i)%nat →
  (S fuel + i = WAIT_FUEL)%nat → (wait_loop (S fuel) (clock m from + 60000) wanted l).1 ≠ Err OutOfFuel.
Proof.
  intros Hclock Hq. revert i l. induction fuel as [|fuel IH]; intros i l Hl Hf; rewrite wait_loop_turn; cbv zeta;
    specialize (Hq (queries l)) as Hq1; (destruct (query_status m (queries l)) as [s|e]; [|cbn [fst]; congruence]);
    (case_bool_decide; [done|]; destruct (bool_decide (wanted = Running) && _); [done|]);
    pose proof (clock_later from i Hclock) as Hlate; rewrite Hl; (destruct (_ <=? _) eqn:E; [done|]); reflect_bools.
  - unfold WAIT_FUEL in Hf. lia.
  - apply (IH (S i)); simpl; lia.
Qed.

Lemma wait_ends wanted l :
  clock_runs (queries l) → (∀ k, query_status m k ≠ Err OutOfFuel) → (wait wanted l).1 ≠ Err OutOfFuel.
Proof. intros Hc Hq. apply (wait_loop_ends (queries l) wanted 300 0 l); [done|done|symmetry; apply Nat.add_0_r|done]. Qed.

Definition installing (executable config : bytes) : list call :=
  [CreateService executable [lit "windows-service"; lit "--config"; config]; SetDescription; SetDelayedStart;
   UpdateFailureActions; SetNonCrashFailures; StartService].

(** What was called, sleeping aside. *)
Definition acted (l : Log) : list call := filter (λ c, c ≠ Slept) (calls l).

Lemma acted_sleep l l' n : calls l' = calls l ++ replicate n Slept → acted l' = acted l.
Proof.
  unfold acted. intros ->. rewrite filter_app. replace (filter _ (replicate n Slept)) with (@nil call).
  - apply app_nil_r.
  - symmetry. induction n as [|n IH]; [done|]. cbn [replicate]. rewrite filter_cons_False; [done|]. intros H. by apply H.
Qed.

Lemma acted_snoc l c q : c ≠ Slept → acted (MkLog (calls l ++ [c]) q) = acted l ++ [c].
Proof. intros Hc. unfold acted. simpl. rewrite filter_app. by rewrite filter_cons_True, filter_nil. Qed.

(** Calls in a row that stop at the first failure. *)
Lemma make_cases c l (f : unit → M Log unit) (Q : result unit → Log → Prop) :
  (∀ e, Q (Err e) (MkLog (calls l ++ [c]) (queries l))) →
  (granted m c = Ok tt → let '(r, l') := f tt (MkLog (calls l ++ [c]) (queries l)) in Q r l') →
  let '(r, l') := (make c ≫= f) l in Q r l'.
Proof.
  unfold make, modify, lift, mbind, M_bind. simpl. intros He Hf. destruct (granted m c) as [[]|e]; [by apply Hf|apply He].
Qed.

Lemma catch_make_cases ctx c l (f : unit → M Log unit) (Q : result unit → Log → Prop) :
  (∀ e, Q (Err e) (MkLog (calls l ++ [c]) (queries l))) →
  (granted m c = Ok tt → let '(r, l') := f tt (MkLog (calls l ++ [c]) (queries l)) in Q r l') →
  let '(r, l') := (catch_map (Context ctx) (make c) ≫= f) l in Q r l'.
Proof.
  unfold catch_map, make, modify, lift, mbind, M_bind. simpl. intros He Hf.
  destruct (granted m c) as [[]|e]; [by apply Hf|apply He].
Qed.

(** What an installation has done. *)
Definition installation (env : InstallEnv) (r : result unit) (l' : Log) : Prop :=
  (acted l' ≠ [] → ∃ config exe dir,
     canonical_config env = Ok config ∧ load_config env config = Ok tt ∧ executable env = Ok exe
     ∧ program_files env = Ok dir ∧ path_starts_with env exe dir = true ∧ validate_private env exe = Ok tt
     ∧ (∃ k, acted l' = take k (installing exe config))
     ∧ (r = Ok tt → acted l' = installing exe config ∧ ∃ q, queries l' = S q ∧ query_status m q = Ok Running)) ∧
  (r = Ok tt → acted l' ≠ []).

Lemma install_calls env : let '(r, l') := install env (MkLog [] 0) in installation env r l'.
Proof.
  set (Q := installation env).
  assert (Hlift : ∀ {A} (o : result A) (f : A → M Log unit),
    (∀ a, o = Ok a → let '(r, l') := f a (MkLog [] 0) in Q r l') → let '(r, l') := (a ← lift o; f a) (MkLog [] 0) in Q r l').
  { intros A o f Hf. unfold mbind, M_bind, lift. destruct o; [by apply Hf|by split]. }
  unfold install. apply Hlift. intros config Hc. apply Hlift. intros [] Hl. apply Hlift. intros exe He.
  apply Hlift. intros dir Hd. destruct (path_starts_with env exe dir) eqn:Ep; simpl; [|by split].
  apply Hlift. intros [] Hv.
  destruct (canonical_config env) as [config'|] eqn:Ec; simpl in Hc; [injection Hc as ->|done].
  assert (HQ : ∀ k r l', acted l' = take k (installing exe config) →
    (r = Ok tt → acted l' = installing exe config ∧ ∃ q, queries l' = S q ∧ query_status m q = Ok Running) → Q r l').
  { intros k r l' Ha Hr. split; [|intros Hok; by destruct (Hr Hok) as [-> _]]. intros _. exists config, exe, dir.
    split_and!; [done..|by exists k|done]. }
  unfold catch_map at 1. unfold mbind at 1, M_bind at 1, lift at 1.
  destruct (open_manager m) as [[]|e]; cbn [map_err]; [|by split].
  apply catch_make_cases; [intros e; by apply (HQ 1%nat)|intros _].
  apply (make_cases SetDescription); [intros e; by apply (HQ 2%nat)|intros _].
  apply (make_cases SetDelayedStart); [intros e; by apply (HQ 3%nat)|intros _].
  apply (make_cases UpdateFailureActions); [intros e; by apply (HQ 4%nat)|intros _].
  apply (make_cases SetNonCrashFailures); [intros e; by apply (HQ 5%nat)|intros _].
  apply (make_cases StartService); [intros e; by apply (HQ 6%nat)|intros _].
  match goal with |- context [wait Running ?l] => pose proof (wait_cases Running l) as Hw; destruct (wait Running l) as [r l'] end.
  destruct Hw as [[n Hn] Hr]. apply (HQ 6%nat); [by rewrite (acted_sleep _ _ _ Hn)|].
  intros Hok. split; [by rewrite (acted_sleep _ _ _ Hn)|by apply Hr].
Qed.

Lemma uninstall_calls :
  let '(r, l') := uninstall (MkLog [] 0) in
  (DeleteService ∈ acted l' → ∃ k, queries l' = S k ∧ query_status m k = Ok Stopped) ∧
  (StopService ∈ acted l' → query_status m 0 ≠ Ok Stopped ∧ query_status m 0 ≠ Ok StopPending) ∧
  (r = Ok tt → DeleteService ∈ acted l' ∧ granted m DeleteService = Ok tt).
Proof.
  unfold uninstall. unfold mbind at 1 2, M_bind at 1 2, lift.
  destruct (open_manager m) as [[]|e]; simpl; [|by split_and!; [intros []%not_elem_of_nil|intros []%not_elem_of_nil|]].
  destruct (open_service m) as [[]|e]; simpl; [|by split_and!; [intros []%not_elem_of_nil|intros []%not_elem_of_nil|]].
  unfold mbind at 1, M_bind at 1, query. simpl.
  destruct (query_status m 0) as [s|e] eqn:Es; simpl; [|by split_and!; [intros []%not_elem_of_nil|intros []%not_elem_of_nil|]].
  set (stop := match s with Stopped => _ | StopPending => _ | _ => _ end).
  assert (Hstop : let '(r, l') := stop (MkLog [] 1) in
    (acted l' = [] ∨ acted l' = [StopService] ∧ s ≠ Stopped ∧ s ≠ StopPending) ∧
    (r = Ok tt → ∃ k, queries l' = S k ∧ query_status m k = Ok Stopped)).
  { assert (Hw : ∀ l, let '(r, l') := wait Stopped l in
      acted l' = acted l ∧ (r = Ok tt → ∃ k, queries l' = S k ∧ query_status m k = Ok Stopped)).
    { intros l. pose proof (wait_cases Stopped l) as Hw. destruct (wait Stopped l) as [r l'].
      destruct Hw as [[n Hn] Hr]. by rewrite (acted_sleep _ _ _ Hn). }
    unfold stop, make, modify, lift, mbind, M_bind, mret, M_ret. destruct s; simpl.
    4: by split; [left|eauto].
    3: { specialize (Hw (MkLog [] 1)). destruct (wait _ _) as [r l']. destruct Hw as [-> ?]. by split; [left|]. }
    all: destruct (granted m StopService) as [[]|e]; simpl; [|by split; [right|]];
      specialize (Hw (MkLog [StopService] 1)); destruct (wait _ _) as [r l']; destruct Hw as [-> ?];
      by split; [right|]. }
  clearbody stop. unfold mbind, M_bind. destruct (stop (MkLog [] 1)) as [[[]|e] l1]; destruct Hstop as [Ha Hr].
  - unfold make, modify, lift, mbind, M_bind. rewrite acted_snoc by done. simpl.
    split_and!.
    + intros _. by apply Hr.
    + intros Hin. destruct Ha as [Ha|(_ & ? & ?)]; [rewrite Ha in Hin; set_solver|]. split; congruence.
    + intros ->. split; [set_solver|done].
  - split_and!; [|intros Hin; destruct Ha as [Ha|(_ & ? & ?)]; [rewrite Ha in Hin; set_solver|split; congruence]|done].
    intros Hin. destruct Ha as [Ha|(Ha & _)]; rewrite Ha in Hin; set_solver.
Qed.

Lemma config_argument config : starts_with (lit "-") config = false →
  ∃ f, Commands.serve_flags [lit "--config"; config] false = Ok f
    ∧ ∀ default_path, Commands.flag_path f "config" default_path = config.
Proof.
  intros Hc. exists {[ lit "config" := Some config ]}. split.
  - unfold Commands.serve_flags, Commands.parse_flags. set (allowed := list_to_map _).
    assert (Ha : (allowed : gmap bytes bool) !! lit "config" = Some true) by (vm_compute; reflexivity). clearbody allowed.
    cbn [Commands.flags_loop].
    replace (Commands.help_flag (lit "--config")) with false by (vm_compute; reflexivity).
    replace (starts_with (lit "-") (lit "--config")) with true by (vm_compute; reflexivity). cbn [negb].
    replace (Commands.flag_parts (lit "--config")) with (lit "config", @None bytes) by (vm_compute; reflexivity).
    rewrite Ha, lookup_empty, Hc. by rewrite bool_decide_eq_false_2 by (by intros [? ?]).
  - intros default_path. unfold Commands.flag_path, Commands.flag_value. by rewrite lookup_singleton_eq.
Qed.

(** Managing the Windows service. An installation creates the registration
    first, and so never replaces one, for an executable under ProgramFiles whose
    access list is private and a configuration that loads; then it does
    its steps in a fixed order and succeeds only when the service was seen
    running. A removal asks the service to stop unless it has stopped or is
    stopping, and deletes the registration only after it was seen stopped.
    Waiting comes to an end within its 301 turns. The worker that the manager
    starts with the registered arguments runs the service on the configuration
    that was checked. *)
Theorem windows_service_managed env worker :
  (let '(r, l') := install env (MkLog [] 0) in installation env r l') ∧
  (let '(r, l') := uninstall (MkLog [] 0) in
   (DeleteService ∈ acted l' → ∃ k, queries l' = S k ∧ query_status m k = Ok Stopped) ∧
   (StopService ∈ acted l' → query_status m 0 ≠ Ok Stopped ∧ query_status m 0 ≠ Ok StopPending) ∧
   (r = Ok tt → DeleteService ∈ acted l' ∧ granted m DeleteService = Ok tt)) ∧
  (∀ wanted l, clock_runs (queries l) → (∀ k, query_status m k ≠ Err OutOfFuel) → (wait wanted l).1 ≠ Err OutOfFuel) ∧
  (∀ exe config l', CreateService exe l' ∈ installing exe config → run_worker worker l' = Ok tt →
     cli_run worker [lit "serve"; lit "--config"; config] = 0
     ∧ (starts_with (lit "-") config = false →
        ∃ f, Commands.serve_flags [lit "--config"; config] false = Ok f
          ∧ ∀ default_path, Commands.flag_path f "config" default_path = config)).
Proof.
  split_and!; [apply install_calls|apply uninstall_calls|by apply wait_ends|].
  intros exe config l' Hin Hrun. assert (l' = [lit "windows-service"; lit "--config"; config]) as ->.
  { unfold installing in Hin. repeat (apply elem_of_cons in Hin as [Hin|Hin]; [by simplify_eq|]).
    by apply elem_of_nil in Hin. }
  split.
  - unfold run_worker in Hrun. destruct (negb _ || _); [done|].
    apply result_bind_inv in Hrun as (working & _ & Hrun). do 5 (apply result_bind_inv in Hrun as ([] & _ & Hrun)).
    apply result_bind_inv in Hrun as ([] & _ & Hrun). destruct (cli_run _ _ =? 0) eqn:E; [by apply Z.eqb_eq|done].
  - by apply config_argument.
Qed.
End Manage.

(** ** Witness: a service that is started, stopped and ends well *)

Definition demo_process : Process :=
  MkProcess (MkState false true false) (Returned true) Idle ReadyOver
    [status StartPending 0; status Running 0; status StopPending 0; status Stopped 0] [] true.

Lemma demo_service_run : rtc step initial demo_process.
Proof.
  eapply rtc_l; [left; by apply main_register|].
  eapply rtc_l; [left; by apply (main_start _ true)|].
  eapply rtc_l; [right; left; by apply ready_check|].
  eapply rtc_l; [right; left; by apply ready_report|].
  eapply rtc_l; [right; right; by apply (control_delivered _ Stop NoError)|].
  eapply rtc_l; [right; right; by apply handler_flag|].
  eapply rtc_l; [right; right; by apply (handler_report _ true)|].
  eapply rtc_l; [right; right; by apply handler_notify|].
  eapply rtc_l; [right; left; by apply stopping_notified|].
  eapply rtc_l; [left; by apply (main_worker_over _ true)|].
  eapply rtc_l; [left; by apply (main_clear _ true)|].
  eapply rtc_l; [left; by apply (main_stopped _ true true)|]. apply rtc_refl.
Qed.

Lemma service_lifecycle_witness :
  main demo_process = Returned true
  ∧ (∃ s, last (reports demo_process) = Some s ∧ current_state s = Stopped ∧ exit_code s = 0)
  ∧ ∃ start running stop stopped,
      seen demo_process = optional start StartPending ++ optional running Running ++ optional stop StopPending
                          ++ optional stopped Stopped.
Proof.
  destruct (service_lifecycle demo_process demo_service_run) as ((a & b & c & d & Hs & _) & _ & _ & He & _).
  split; [reflexivity|]. split.
  - destruct (He true eq_refl) as (s & [Hl|Hl] & H); [by exists s|discriminate Hl].
  - exists a, b, c, d. exact Hs.
Defined.
