(* ===== verification/WindowsFiles.v ===== *)
(** * WindowsFiles: private files under Windows ([src/windows/files.rs])

    The access list a private file is created with, the check of the list of a
    file that exists, and opening a private file. What the system makes of names
    of identities and of security descriptors is a parameter; the file system is
    a map from paths to files. *)
From stdpp Require Import gmap.
From S2P Require Import Prelude Bytes Text.
Local Open Scope Z_scope.

(** ** Names *)

(** [wide]: UTF-16 units, ended by a NUL. *)
Definition wide (units : list Z) : result (list Z) :=
  if existsb (Z.eqb 0) units then Err (Bail "Windows path/argument contains NUL") else Ok (units ++ [0]).

Definition SYSTEM : bytes := lit "S-1-5-18".
Definition ADMINISTRATORS : bytes := lit "S-1-5-32-544".

(** ** Access lists *)

Section Files.
Context {Sid : Type} `{EqDecision Sid}.

(** An entry: its type (0 allows, 1 denies), its flags, and whom it is about. *)
Record Ace : Type := MkAce { ace_type : Z; ace_flags : Z; ace_sid : Sid }.

Definition INHERIT_ONLY_ACE : Z := 8.
Definition FILE_ATTRIBUTE_REPARSE_POINT : Z := 1024.

(** A file as its handle shows it: an access list that is missing restricts
    nobody; reading it or an entry of it may fail. *)
Record File : Type := MkFile { is_file : bool; attributes : Z; dacl : result (option (list (result Ace))) }.

(** The identity of the process and whether it is an administrator's, and the
    parsing of identities and of security descriptors. *)
Record Identity : Type := MkIdentity { current_sid : result bytes; administrator : result bool }.
Context (parse_sid : bytes → result Sid) (parse_descriptor : bytes → result (list Ace)).

(** *** The list of a new file *)

Definition ace_text (sid : bytes) : bytes := lit "(A;OICI;FA;;;" ++ sid ++ lit ")".

(** [Security::private] *)
Definition private_descriptor (who : Identity) : result bytes :=
  map_err (Context "parse Administrators SID") (_ ← parse_sid ADMINISTRATORS; Ok tt);;
  admin ← map_err (Context "check administrative identity") (administrator who);
  user ← (if (admin : bool) then Ok [] else sid ← current_sid who; Ok (ace_text sid));
  Ok (lit "D:P" ++ ace_text (lit "SY") ++ ace_text (lit "BA") ++ user).

Definition from_sddl (sddl : bytes) : result (list Ace) :=
  map_err (Context "create private security descriptor") (parse_descriptor sddl).

Definition private_list (who : Identity) : result (list Ace) := sddl ← private_descriptor who; from_sddl sddl.

(** *** The check *)

Definition trusted_sids (who : Identity) : result (list Sid) :=
  current ← current_sid who;
  let parse sid := map_err (Context "parse trusted identity") (parse_sid sid) in
  user ← parse current; system ← parse SYSTEM; administrators ← parse ADMINISTRATORS;
  Ok [user; system; administrators].

(** The loop over the entries. *)
Fixpoint check_entries (trusted : list Sid) (entries : list (result Ace)) : result unit :=
  match entries with
  | [] => Ok tt
  | entry :: entries =>
      ace ← map_err (Context "read private file ACL entry") entry;
      if negb (Z.land (ace_flags ace) INHERIT_ONLY_ACE =? 0) then check_entries trusted entries
      else if ace_type ace =? 1 then check_entries trusted entries
      else if (ace_type ace =? 0) && bool_decide (ace_sid ace ∈ trusted) then check_entries trusted entries
      else Err (Bail "private file ACL grants access outside the service user, SYSTEM and Administrators; restrict it with icacls")
  end.

Definition validate_private (who : Identity) (file : File) : result unit :=
  if negb (is_file file) || negb (Z.land (attributes file) FILE_ATTRIBUTE_REPARSE_POINT =? 0)
  then Err (Bail "private path must be a regular file, not a reparse point")
  else
    acl ← map_err (Context "read private file ACL") (dacl file);
    match (acl : option (list (result Ace))) with
    | None => Err (Bail "private file has an unrestricted DACL")
    | Some entries => trusted ← trusted_sids who; check_entries trusted entries
    end.

(** ** Opening *)

Inductive Disposition : Type := CREATE_NEW | OPEN_ALWAYS | OPEN_EXISTING.

Definition disposition (writable exclusive : bool) : Disposition :=
  if exclusive then CREATE_NEW else if writable then OPEN_ALWAYS else OPEN_EXISTING.

Abbreviation Disk := (gmap (list Z) File).

(** [CreateFileW]: a new file is regular and has the list it is given; [allowed]
    is everything else the system may refuse. *)
Definition create_file (path : list Z) (acl : list Ace) (how : Disposition) (allowed : result unit) : M Disk File :=
  disk ← get;
  match (disk !! path : option File), how with
  | Some _, CREATE_NEW => bail "The file exists"
  | None, OPEN_EXISTING => bail "The system cannot find the file specified"
  | Some file, _ => lift allowed;; mret file
  | None, _ => lift allowed;; let file := MkFile true 0 (Ok (Some (Ok <$> acl))) in modify (<[path := file]>);; mret file
  end.

Definition open_private (who : Identity) (path : list Z) (writable exclusive : bool) (allowed : result unit) :
    M Disk File :=
  path ← lift (wide path);
  acl ← lift (private_list who);
  file ← catch_map (Context "open private Windows file")
           (create_file path acl (disposition writable exclusive) allowed);
  lift (validate_private who file);;
  mret file.

(** [LockFileEx]: the flags of a lock. *)
Definition lock_flags (exclusive nonblocking : bool) : Z :=
  Z.lor (if exclusive then 2 else 0) (if nonblocking then 1 else 0).

(** ** What a private file is *)

(** Whom an access list lets in: the entries that apply to the file itself and
    allow, or do something that is not known. *)
Definition lets_in (entries : list (result Ace)) (sid : Sid) : Prop :=
  ∃ ace, Ok ace ∈ entries ∧ Z.land (ace_flags ace) INHERIT_ONLY_ACE = 0 ∧ ace_type ace ≠ 1 ∧ ace_sid ace = sid.

Lemma check_entries_iff trusted entries :
  check_entries trusted entries = Ok tt ↔
    Forall (λ r, ∃ ace, r = Ok ace ∧
      (Z.land (ace_flags ace) INHERIT_ONLY_ACE ≠ 0 ∨ ace_type ace = 1 ∨ (ace_type ace = 0 ∧ ace_sid ace ∈ trusted))) entries.
Proof.
  induction entries as [|r entries IH]; [done|]. rewrite Forall_cons, <-IH. cbn [check_entries].
  destruct r as [ace|e]; simpl; [|split; [done|by intros [(? & ? & _) _]]].
  destruct (Z.land (ace_flags ace) INHERIT_ONLY_ACE =? 0) eqn:Ef; reflect_bools; simpl;
    [|split; [by eauto 8|by intros [_ ?]]].
  destruct (ace_type ace =? 1) eqn:E1; reflect_bools; [split; [by eauto 8|by intros [_ ?]]|].
  destruct (ace_type ace =? 0) eqn:E0; reflect_bools; simpl.
  - case_bool_decide as Hin; [split; [by eauto 8|by intros [_ ?]]|].
    split; [done|]. intros [(? & [= <-] & [?|[?|[_ ?]]]) _]; done.
  - split; [done|]. intros [(? & [= <-] & [?|[?|[? _]]]) _]; done.
Qed.

(** What is accepted lets in trusted identities only. *)
Lemma validated_lets_in who file :
  validate_private who file = Ok tt →
  is_file file = true ∧ ∃ entries trusted, dacl file = Ok (Some entries) ∧ trusted_sids who = Ok trusted
    ∧ ∀ sid, lets_in entries sid → sid ∈ trusted.
Proof.
  unfold validate_private. destruct (negb (is_file file) || _) eqn:E; [done|]. reflect_bools.
  intros (acl & Ha & Hacl)%result_bind_inv. destruct (dacl file) as [d|]; simpl in Ha; simplify_eq.
  destruct acl as [entries|]; [|done]. apply result_bind_inv in Hacl as (trusted & Ht & Hc).
  apply check_entries_iff in Hc. split; [done|]. exists entries, trusted. split_and!; [done|done|].
  intros sid (ace & Hin & Hf & H1 & <-). rewrite Forall_forall in Hc. apply Hc in Hin as (ace' & [= <-] & Hcase).
  naive_solver.
Qed.

(** The documented reading of a descriptor: a list of entries that allow, in
    order, by the abbreviations of the two groups or the text of an identity. *)
Definition reads_descriptors (system administrators : Sid) : Prop :=
  parse_sid SYSTEM = Ok system ∧ parse_sid ADMINISTRATORS = Ok administrators ∧
  parse_descriptor (lit "D:P" ++ ace_text (lit "SY") ++ ace_text (lit "BA"))
    = Ok [MkAce 0 3 system; MkAce 0 3 administrators] ∧
  (∀ text user, parse_sid text = Ok user →
     parse_descriptor (lit "D:P" ++ ace_text (lit "SY") ++ ace_text (lit "BA") ++ ace_text text)
     = Ok [MkAce 0 3 system; MkAce 0 3 administrators; MkAce 0 3 user]).

(** A list made for one identity passes the check of another. *)
Lemma private_list_checks system administrators maker reader list :
  reads_descriptors system administrators →
  private_list maker = Ok list → is_ok (trusted_sids maker) = true → is_ok (trusted_sids reader) = true →
  administrator maker = Ok true ∨ current_sid reader = current_sid maker →
  validate_private reader (MkFile true 0 (Ok (Some (Ok <$> list)))) = Ok tt.
Proof.
  intros (Hsys & Hadm & Htwo & Hthree) Hl Hm Hr Hwho. unfold validate_private. cbn [is_file attributes dacl map_err].
  destruct (trusted_sids reader) as [trusted|e] eqn:Et; [|done]. simpl.
  assert (Htr : system ∈ trusted ∧ administrators ∈ trusted ∧
    ∀ text user, current_sid reader = Ok text → parse_sid text = Ok user → user ∈ trusted).
  { unfold trusted_sids in Et. rewrite Hsys, Hadm in Et. destruct (current_sid reader) as [text|]; [|done]. simpl in Et.
    destruct (parse_sid text) as [user|] eqn:Eu; [|done]. simpl in Et. injection Et as <-.
    split_and!; [set_solver|set_solver|]. intros ? ? [= <-] Hu. rewrite Eu in Hu. simplify_eq. set_solver. }
  destruct Htr as (Hts & Hta & Htu). apply check_entries_iff.
  unfold private_list, private_descriptor, from_sddl in Hl. rewrite Hadm in Hl. cbn [mbind result_bind map_err] in Hl.
  destruct (administrator maker) as [[|]|] eqn:Eadm; cbn [mbind result_bind map_err] in Hl; [|destruct Hwho as [?|Hwho]; [done|]|done].
  - rewrite app_nil_r, Htwo in Hl. injection Hl as <-.
    repeat (apply Forall_cons; split); [eauto 8..|done].
  - unfold trusted_sids in Hm. destruct (current_sid maker) as [text|] eqn:Ec; [|done]. cbn [mbind result_bind] in Hl, Hm.
    destruct (parse_sid text) as [user|] eqn:Eu; [|done].
    rewrite (Hthree text user Eu) in Hl. injection Hl as <-.
    repeat (apply Forall_cons; split); [eauto 10 using Htu..|done].
Qed.

(** Private files. [validate_private] accepts a file only when it is a regular
    one and every entry of its access list that applies and does not deny is
    about the user of the process, SYSTEM or the administrators; an entry of a
    kind that is not known is refused. A file that [open_private] creates passes
    that check for the process itself, for its user later, and, when an
    administrator made it, for the service that runs as SYSTEM. Opening with
    [exclusive] never opens a file that exists, opening without writing never
    creates one, and a file that exists keeps its access list. *)
Theorem private_files system administrators who path writable exclusive allowed disk :
  reads_descriptors system administrators →
  let '(r, disk') := open_private who path writable exclusive allowed disk in
  (∀ p file, disk !! p = Some file → disk' !! p = Some file) ∧
  (exclusive = true → is_Some (disk !! (path ++ [0])) → is_ok r = false ∧ disk' = disk) ∧
  (writable = false → exclusive = false → disk' = disk) ∧
  (∀ file, r = Ok file →
     disk' !! (path ++ [0]) = Some file ∧ is_file file = true ∧
     ∃ entries trusted, dacl file = Ok (Some entries) ∧ trusted_sids who = Ok trusted
       ∧ ∀ sid, lets_in entries sid → sid ∈ trusted) ∧
  (∀ file reader, r = Ok file → disk !! (path ++ [0]) = None → is_ok (trusted_sids reader) = true →
     administrator who = Ok true ∨ current_sid reader = current_sid who → validate_private reader file = Ok tt).
Proof.
  intros Hdesc. unfold open_private, create_file, get, modify, lift, catch_map, bail, throw, mbind, M_bind, mret, M_ret.
  unfold wide. destruct (existsb _ path); [by split_and!|].
  destruct (private_list who) as [list|e] eqn:El; [|by split_and!].
  destruct (disk !! (path ++ [0])) as [old|] eqn:Eo; cbn [map_err].
  - assert (Hold : let '(r, disk') := (match validate_private who old with Ok _ => Ok old | Err e => Err e end, disk) in
      (exclusive = false → ∀ file, r = Ok file → disk' !! (path ++ [0]) = Some file ∧ is_file file = true ∧
       ∃ entries trusted, dacl file = Ok (Some entries) ∧ trusted_sids who = Ok trusted
         ∧ ∀ sid, lets_in entries sid → sid ∈ trusted)).
    { intros _ file Hf. destruct (validate_private who old) as [[]|] eqn:Ev; [|done]. injection Hf as <-. split; [done|].
      by apply validated_lets_in. }
    unfold disposition. destruct exclusive, writable, allowed as [[]|]; cbn [map_err]; try (by split_and!);
      (destruct (validate_private who old) as [[]|] eqn:Ev; [|by split_and!]);
      (split_and!; [done|done|done|by apply Hold|done]).
  - assert (Hk : ∀ p file new, disk !! p = Some file → <[path ++ [0] := new]> disk !! p = Some file).
    { intros p file new Hp. rewrite lookup_insert_ne; [done|]. intros <-. congruence. }
    set (new := MkFile true 0 (Ok (Some (Ok <$> list)))) in *.
    assert (Hnew : ∀ disk' : Disk, disk' !! (path ++ [0]) = Some new → validate_private who new = Ok tt →
      (∀ file, Ok new = Ok file → disk' !! (path ++ [0]) = Some file ∧ is_file file = true ∧
       ∃ entries trusted, dacl file = Ok (Some entries) ∧ trusted_sids who = Ok trusted
         ∧ ∀ sid, lets_in entries sid → sid ∈ trusted) ∧
      (∀ file reader, Ok new = Ok file → is_ok (trusted_sids reader) = true →
         administrator who = Ok true ∨ current_sid reader = current_sid who → validate_private reader file = Ok tt)).
    { intros disk' Hd Hv. destruct (validated_lets_in _ _ Hv) as (_ & entries & trusted & Hda & Htr & Hin).
      split; [intros file [= <-]; split_and!; [done|done|by exists entries, trusted]|].
      intros file reader [= <-] Hr Hwho. by apply (private_list_checks system administrators who); [..|rewrite Htr| |]. }
    unfold disposition. destruct exclusive, writable, allowed as [[]|]; cbn [map_err]; try (by split_and!);
      (destruct (validate_private who new) as [[]|] eqn:Ev;
       [destruct (Hnew (<[path ++ [0] := new]> disk) (lookup_insert_eq _ _ _) eq_refl) as [H1 H2];
        split_and!; [by eauto|by intros _ [? ?]|done|exact H1|by eauto]
       |by split_and!; [eauto|intros _ [? ?]|..]]).
Qed.
End Files.

(** ** Witness: a user's new log file *)

Definition demo_prefix : bytes := lit "D:P" ++ ace_text (lit "SY") ++ ace_text (lit "BA").
Definition demo_descriptor (sddl : bytes) : result (list (Ace (Sid := bytes))) :=
  match strip_prefix demo_prefix sddl with
  | None => Err (Bail "invalid descriptor")
  | Some [] => Ok [MkAce 0 3 SYSTEM; MkAce 0 3 ADMINISTRATORS]
  | Some user =>
      text ← ok_or (Bail "invalid descriptor") (strip_prefix (lit "(A;OICI;FA;;;") user);
      Ok [MkAce 0 3 SYSTEM; MkAce 0 3 ADMINISTRATORS; MkAce 0 3 (take (length text - 1) text)]
  end.

Lemma strip_prefix_app p l : strip_prefix p (p ++ l) = Some l.
Proof. unfold strip_prefix. rewrite (proj2 (starts_with_spec p (p ++ l))) by (by exists l). by rewrite drop_app_length. Qed.

Lemma demo_reads : reads_descriptors Ok demo_descriptor SYSTEM ADMINISTRATORS.
Proof.
  split_and!; [done|done|by vm_compute|].
  intros text user [= <-]. unfold demo_descriptor.
  replace (lit "D:P" ++ _ ++ _ ++ _) with (demo_prefix ++ ace_text text) by (unfold demo_prefix; by rewrite <-!app_assoc).
  rewrite strip_prefix_app. unfold ace_text. change (lit "(A;OICI;FA;;;" ++ text ++ lit ")") with (x28 :: lit "A;OICI;FA;;;" ++ text ++ lit ")").
  cbn match. change (x28 :: lit "A;OICI;FA;;;" ++ text ++ lit ")") with (lit "(A;OICI;FA;;;" ++ text ++ lit ")").
  rewrite strip_prefix_app. cbn [ok_or mbind result_bind].
  by rewrite length_app, Nat.add_sub, take_app_length.
Qed.

Definition demo_user : Identity := MkIdentity (Ok (lit "S-1-5-21-7")) (Ok false).

Lemma private_files_witness :
  ∃ file disk', open_private Ok demo_descriptor demo_user [65] true false (Ok tt) ∅ = (Ok file, disk')
    ∧ disk' !! [65; 0] = Some file ∧ validate_private Ok demo_user file = Ok tt.
Proof.
  pose proof (private_files Ok demo_descriptor SYSTEM ADMINISTRATORS demo_user [65] true false (Ok tt) ∅ demo_reads) as H.
  assert (Hok : is_ok (open_private Ok demo_descriptor demo_user [65] true false (Ok tt) ∅).1 = true)
    by (vm_compute; reflexivity).
  destruct (open_private _ _ _ _ _ _ _ _) as [[file|e] disk']; [|discriminate Hok].
  destruct H as (_ & _ & _ & H & Hv). exists file, disk'. split; [reflexivity|]. split; [apply (H file eq_refl)|].
  apply (Hv file demo_user eq_refl); [apply lookup_empty|reflexivity|right; reflexivity].
Defined.
