(* ===== verification/Limits.v ===== *)
(** * Limits: the limit on open files ([src/rlimit.rs])

    [raise_nofile_limit_unix] against the kernel's rules for [setrlimit], on
    Linux and on Darwin. A limit is a number, or unlimited. *)
From S2P Require Import Prelude Bytes.
Local Open Scope Z_scope.

(** [rlim_t]: an unsigned 64-bit integer; [RLIM_INFINITY] is the largest one on
    Linux and 2^63 - 1 on Darwin. *)
Record Platform : Type := MkPlatform { RLIM_INFINITY : Z; darwin : bool; maxfilesperproc : option Z }.

Record rlimit : Type := MkLimit { rlim_cur : Z; rlim_max : Z }.

#[export] Instance rlimit_eq_dec : EqDecision rlimit.
Proof. solve_decision. Defined.

Definition LARGE : Z := 2 ^ 20.

Section Raise.
Context (p : Platform).
(** What the kernel makes of a request in a state: [None] when it refuses. *)
Context (setrlimit : rlimit → rlimit → bool).

(** [set_nofile] *)
Definition set_nofile (soft hard : Z) : M rlimit unit := λ current,
  let lim := MkLimit soft hard in
  if setrlimit current lim then (Ok tt, lim) else (Err (Bail "setrlimit"), current).

Definition clamp_to_hard (wanted hard : Z) : Z :=
  if (hard =? RLIM_INFINITY p) || (wanted <=? hard) then wanted else hard.
Definition preferred_hard (soft hard : Z) : Z := if hard =? RLIM_INFINITY p then soft else hard.

(** A C [int] that is positive. *)
Definition darwin_maxfilesperproc : option Z :=
  match maxfilesperproc p with Some value => if 0 <? value then Some value else None | None => None end.

(** The attempt of Darwin alone. *)
Definition darwin_attempt (current : rlimit) : M rlimit (result unit) :=
  match (if darwin p then darwin_maxfilesperproc else None) with
  | Some max =>
      let hard := clamp_to_hard max (rlim_max current) in
      try_ (set_nofile hard (preferred_hard hard (rlim_max current)))
  | None => mret (Err (Bail "not tried"))
  end.

(** The attempts in order; [get_nofile] reads [current] once, at the start. *)
Definition raise_nofile_limit_unix : M rlimit unit :=
  current ← get;
  if rlim_cur current =? RLIM_INFINITY p then mret tt
  else
    first ← try_ (set_nofile (RLIM_INFINITY p) (RLIM_INFINITY p));
    if is_ok first then mret tt
    else
      second ← (if rlim_max current =? RLIM_INFINITY p then try_ (set_nofile (RLIM_INFINITY p) (rlim_max current))
                else mret (Err (Bail "not tried")));
      if is_ok second then mret tt
      else
        third ← darwin_attempt current;
        if is_ok third then mret tt
        else if rlim_max current =? RLIM_INFINITY p then
          try_ (set_nofile LARGE (RLIM_INFINITY p));; mret tt
        else if rlim_cur current <? rlim_max current then set_nofile (rlim_max current) (rlim_max current)
        else mret tt.

(** [raise_nofile_limit]: an error is only printed. *)
Definition raise_nofile_limit (current : rlimit) : bool * rlimit :=
  let '(r, after) := raise_nofile_limit_unix current in (is_ok r, after).

(** ** What the limit is afterwards *)

(** The kernel: a hard limit above the current one is refused unless the process
    is privileged; a soft limit up to a finite hard limit is granted. *)
Record kernel (privileged : bool) : Prop := {
  k_hard s l : privileged = false → setrlimit s l = true → rlim_max l <= rlim_max s;
  k_within s l : rlim_cur l <= rlim_max l → rlim_max l = rlim_max s → rlim_max s < RLIM_INFINITY p →
    setrlimit s l = true
}.

(** The limits of a process. *)
Definition limits_ok (s : rlimit) : Prop := 0 <= rlim_cur s <= rlim_max s ∧ rlim_max s <= RLIM_INFINITY p.

Lemma darwin_cases s :
  ∃ o s1, darwin_attempt s s = (Ok o, s1) ∧
    (is_ok o = false ∧ s1 = s ∨
     ∃ value, darwin p = true ∧ maxfilesperproc p = Some value ∧ is_ok o = true
       ∧ rlim_cur s1 = clamp_to_hard value (rlim_max s) ∧ setrlimit s s1 = true).
Proof.
  unfold darwin_attempt, darwin_maxfilesperproc, try_, set_nofile.
  destruct (darwin p) eqn:Ed; [|by eexists _, _; split; [|left]].
  destruct (maxfilesperproc p) as [value|] eqn:Ev; [|by eexists _, _; split; [|left]].
  destruct (0 <? value); [|by eexists _, _; split; [|left]].
  destruct (setrlimit s _) eqn:E; eexists _, _; (split; [done|]); [right|by left].
  exists value. by split_and!.
Qed.

(** Raising the limit on open files. An unprivileged process whose hard limit
    is finite ends with a soft limit at the hard limit, or at the ceiling Darwin
    gives per process where that is granted; one that is unlimited already is
    left alone. The hard limit of an unprivileged process never rises. Whatever
    the kernel refuses, the soft limit is never lowered when the hard limit is
    finite on Linux; and where the hard limit is unlimited it ends unlimited, at
    2^20, at the Darwin ceiling, or where it was. *)
Theorem nofile_raised privileged s :
  kernel privileged → limits_ok s → LARGE < RLIM_INFINITY p →
  let '(ok, s') := raise_nofile_limit s in
  (rlim_cur s = RLIM_INFINITY p → ok = true ∧ s' = s) ∧
  (privileged = false → rlim_max s' <= rlim_max s) ∧
  (darwin p = false → rlim_max s < RLIM_INFINITY p →
     ok = true ∧ rlim_cur s <= rlim_cur s' ∧ rlim_cur s' = rlim_max s' ∧ (privileged = false → s' = MkLimit (rlim_max s) (rlim_max s))) ∧
  (rlim_max s = RLIM_INFINITY p →
     rlim_cur s' ∈ [RLIM_INFINITY p; LARGE; rlim_cur s] ∨
     ∃ ceiling, darwin p = true ∧ maxfilesperproc p = Some ceiling ∧ rlim_cur s' = ceiling).
Proof.
  intros [Kh Kw] [Hs Hi] HL. unfold raise_nofile_limit, raise_nofile_limit_unix, set_nofile, try_, get, mbind, M_bind,
    mret, M_ret. cbv beta iota.
  destruct (rlim_cur s =? RLIM_INFINITY p) eqn:Ec; reflect_bools.
  { split_and!; [done|done|lia|]. intros _. left. set_solver. }
  destruct (setrlimit s (MkLimit (RLIM_INFINITY p) (RLIM_INFINITY p))) eqn:E1; simpl.
  { assert (H1 : privileged = false → RLIM_INFINITY p <= rlim_max s) by (intros Hp; exact (Kh s _ Hp E1)).
    split_and!; [done|exact H1|intros _ Hlt|set_solver].
    split_and!; [done|lia|done|]. intros Hp%H1. lia. }
  destruct (rlim_max s =? RLIM_INFINITY p) eqn:Em; reflect_bools.
  - rewrite Em, E1. simpl. destruct (darwin_cases s) as (o & s1 & -> & [[Ho ->]|(value & Hd & Hv & Ho & Hs1 & Hset)]);
      rewrite Ho.
    + destruct (setrlimit s (MkLimit LARGE (RLIM_INFINITY p))); simpl; (split_and!; [done|lia|lia|set_solver]).
    + pose proof (Kh s s1) as Hh. rewrite Hset in Hh.
      split_and!; [done|by intros Hp; rewrite <-Em; apply Hh|lia|].
      intros _. right. exists value. split_and!; [done..|]. rewrite Hs1, Em. unfold clamp_to_hard. by rewrite Z.eqb_refl.
  - simpl. destruct (darwin_cases s) as (o & s1 & -> & [[Ho ->]|(value & Hd & Hv & Ho & Hs1 & Hset)]); rewrite Ho.
    + destruct (rlim_cur s <? rlim_max s) eqn:Elt; reflect_bools.
      * rewrite (Kw s (MkLimit (rlim_max s) (rlim_max s))); simpl; [|lia|done|lia].
        split_and!; [done|lia|intros; split_and!; [done|lia|done|done]|done].
      * split_and!; [done|lia|intros _ _; split_and!; [done|lia|lia|]|done].
        intros _. destruct s; simpl in *; f_equal; lia.
    + pose proof (Kh s s1) as Hh. rewrite Hset in Hh. split_and!; [done|by intros Hp; apply Hh|congruence|done].
Qed.
End Raise.

(** ** Concrete kernels *)

Definition linux : Platform := MkPlatform (2 ^ 64 - 1) false None.
(** A kernel that also refuses a soft limit above [ceiling]. *)
Definition demo_kernel (ceiling : Z) (s l : rlimit) : bool :=
  (rlim_cur l <=? rlim_max l) && (rlim_max l <=? rlim_max s)
  && ((rlim_cur l <=? ceiling) || ((rlim_max l =? rlim_max s) && (rlim_max s <? 2 ^ 64 - 1))).

Lemma demo_kernel_ok ceiling : kernel linux (demo_kernel ceiling) false.
Proof.
  split.
  - intros s l _ H. unfold demo_kernel in H. by reflect_bools.
  - intros s l H1 H2 H3. unfold demo_kernel. simpl in H3. rewrite (proj2 (Z.leb_le _ _) H1), H2, Z.leb_refl, Z.eqb_refl.
    rewrite (proj2 (Z.ltb_lt _ _) H3). by rewrite orb_true_r.
Qed.

Lemma nofile_raised_witness :
  raise_nofile_limit linux (demo_kernel (2 ^ 30)) (MkLimit 1024 524288) = (true, MkLimit 524288 524288).
Proof.
  pose proof (nofile_raised linux (demo_kernel (2 ^ 30)) false (MkLimit 1024 524288) (demo_kernel_ok _)
    ltac:(vm_compute; repeat split; discriminate) ltac:(vm_compute; reflexivity)) as H.
  destruct (raise_nofile_limit _ _ _) as [ok s']. destruct H as (_ & _ & H & _).
  destruct (H eq_refl ltac:(vm_compute; reflexivity)) as (-> & _ & _ & Hs). rewrite (Hs eq_refl). reflexivity.
Defined.

(** Where the hard limit is unlimited and an unlimited soft limit is refused, a
    soft limit above 2^20 is lowered to it. *)
Lemma nofile_lowered :
  raise_nofile_limit linux (demo_kernel (2 ^ 30)) (MkLimit (2 ^ 21) (2 ^ 64 - 1)) = (true, MkLimit (2 ^ 20) (2 ^ 64 - 1)).
Proof. vm_compute. reflexivity. Qed.
