(* ===== verification/PerfTrace.v ===== *)
(** * PerfTrace: sampled traces of connections ([src/perftrace.rs])

    Which connections are traced, and the lines a trace prints. The statics are
    the state; the task-local [CURRENT] is an argument; what is printed is a list
    of lines. *)
From S2P Require Import Prelude Bytes Text.
From S2P Require TrafficTime.
Local Open Scope Z_scope.

Definition U64 : Z := 2 ^ 64.

(** The statics [NEXT_REQUEST] and [SAMPLE_EVERY]. *)
Record Statics : Type := MkStatics { NEXT_REQUEST : Z; SAMPLE_EVERY : Z }.
Record Trace : Type := MkTrace { request : Z; started : Z }.

Definition configure (sample_every : Z) (s : Statics) : Statics := MkStatics (NEXT_REQUEST s) (sample_every mod U64).
Definition configured (s : Statics) : bool := negb (SAMPLE_EVERY s =? 0).

(** [saturating_sub] and [is_multiple_of] *)
Definition should_sample (request sample_every : Z) : bool :=
  let before := Z.max 0 (request - 1) in
  if sample_every =? 0 then before =? 0 else before mod sample_every =? 0.

(** A field's value stays on its line. *)
Definition on_one_line (value : bytes) : bytes :=
  (λ b, if byteb b x0d || byteb b x0a then (x20 : byte) else b) <$> value.

Fixpoint append_fields (fields : list (bytes * bytes)) (message : bytes) : bytes :=
  match fields with
  | [] => message
  | (key, value) :: fields =>
      append_fields fields
        (if bool_decide (key = []) then message else message ++ lit " " ++ key ++ lit "=" ++ on_one_line value)
  end.

(** In microseconds; below 2^52 the quotient of the two floats is exact to the
    digits that are printed. *)
Definition format_duration (micros : Z) : bytes :=
  if 1000000 <=? micros
  then dec (micros / 1000000) ++ lit "." ++ TrafficTime.pad 6 (micros mod 1000000) ++ lit "s"
  else if 1000 <=? micros
  then dec (micros / 1000) ++ lit "." ++ TrafficTime.pad 3 (micros mod 1000) ++ lit "ms"
  else dec micros ++ [xc2; xb5] ++ lit "s".

(** [write], at a time. *)
Definition write (stage : bytes) (step : option Z) (status_ok : option bool) (fields : list (bytes * bytes))
    (now : Z) (current : option Trace) : list bytes :=
  match current with
  | None => []
  | Some trace =>
      let message := lit "perf request=" ++ TrafficTime.pad 6 (request trace) ++ lit " stage=" ++ stage in
      let message := message ++ match step with Some step => lit " step=" ++ format_duration step | None => [] end in
      let message := message ++ lit " total=" ++ format_duration (now - started trace) in
      let message := message ++ match status_ok with
                                | Some true => lit " status=ok" | Some false => lit " status=error" | None => [] end in
      [append_fields fields message]
  end.

Definition event (stage : bytes) (fields : list (bytes * bytes)) : Z → option Trace → list bytes :=
  write stage None None fields.
Definition stage (name : bytes) (since : Z) (status_ok : bool) (fields : list (bytes * bytes)) (now : Z) :
    option Trace → list bytes := write name (Some (now - since)) (Some status_ok) fields now.
Definition enabled (current : option Trace) : bool := bool_decide (is_Some current).

Definition diagnostic (name : bytes) (fields : list (bytes * bytes)) (s : Statics) : list bytes :=
  if configured s then [append_fields fields (lit "diagnostic stage=" ++ name)] else [].

(** [scope]: the trace a connection's task runs under, with the line it prints
    first; [outer] is the one around it. *)
Definition scope (now : Z) (outer : option Trace) (s : Statics) : option Trace * list bytes * Statics :=
  if SAMPLE_EVERY s =? 0 then (outer, [], s)
  else
    let request := (NEXT_REQUEST s + 1) mod U64 in
    let s := MkStatics request (SAMPLE_EVERY s) in
    if should_sample request (SAMPLE_EVERY s)
    then let trace := Some (MkTrace request now) in (trace, event (lit "socks.accept") [] now trace, s)
    else (outer, [], s).

(** ** What is traced *)

(** Connections that arrive one after the other: the traces they run under. *)
Fixpoint scopes (times : list Z) (s : Statics) : list (option Trace) :=
  match times with
  | [] => []
  | now :: times => let '(trace, _, s) := scope now None s in trace :: scopes times s
  end.

(** A text on one line: no line feed, no carriage return. *)
Definition one_line (text : bytes) : Prop := Forall (λ b, b ≠ x0a ∧ b ≠ x0d) text.

Lemma on_one_line_ok value : one_line (on_one_line value) ∧ length (on_one_line value) = length value.
Proof.
  split; [|apply length_fmap]. apply Forall_fmap, Forall_forall. intros b _. unfold compose.
  destruct (byteb b x0d) eqn:E1; [done|]. destruct (byteb b x0a) eqn:E2; [done|]. simpl.
  split; intros ->; [by rewrite (proj2 (byteb_eq x0a x0a)) in E2|by rewrite (proj2 (byteb_eq x0d x0d)) in E1].
Qed.

Lemma append_fields_one_line fields message :
  one_line message → Forall (one_line ∘ fst) fields → one_line (append_fields fields message).
Proof.
  unfold one_line. revert message. induction fields as [|[key value] fields IH]; intros message Hm Hf; [done|].
  apply Forall_cons in Hf as [Hk Hf]. apply IH; [|done]. case_bool_decide; [done|].
  repeat (apply Forall_app; split); try done; [by repeat constructor|by repeat constructor|apply on_one_line_ok].
Qed.

Lemma scopes_nth n times s i now :
  0 < n < U64 → SAMPLE_EVERY s = n → 0 <= NEXT_REQUEST s → NEXT_REQUEST s + Z.of_nat (length times) < U64 →
  times !! i = Some now →
  scopes times s !! i =
    Some (if (NEXT_REQUEST s + Z.of_nat i) mod n =? 0 then Some (MkTrace (NEXT_REQUEST s + Z.of_nat i + 1) now) else None).
Proof.
  intros Hn. revert s i. induction times as [|t times IH]; intros s i Hs Hr Hlen Hi; [done|].
  simpl in Hlen. cbn [scopes]. unfold scope at 1. rewrite Hs, (proj2 (Z.eqb_neq _ _)) by lia.
  rewrite Z.mod_small by lia. unfold should_sample at 1. cbn [SAMPLE_EVERY].
  rewrite Z.max_r by lia. replace (NEXT_REQUEST s + 1 - 1) with (NEXT_REQUEST s) by lia.
  rewrite (proj2 (Z.eqb_neq n 0)) by lia.
  set (s' := MkStatics (NEXT_REQUEST s + 1) n).
  assert (Htail : ∀ j, times !! j = Some now → scopes times s' !! j =
    Some (if (NEXT_REQUEST s + Z.of_nat (S j)) mod n =? 0 then Some (MkTrace (NEXT_REQUEST s + Z.of_nat (S j) + 1) now) else None)).
  { intros j Hj. rewrite (IH s' j) by (done || simpl; lia). unfold s'. simpl NEXT_REQUEST.
    by replace (NEXT_REQUEST s + 1 + Z.of_nat j) with (NEXT_REQUEST s + Z.of_nat (S j)) by lia. }
  destruct i as [|i]; simpl in Hi.
  - injection Hi as ->. rewrite Z.add_0_r. by destruct (NEXT_REQUEST s mod n =? 0).
  - destruct (NEXT_REQUEST s mod n =? 0); by apply Htail.
Qed.

(** *** Numbers have no line breaks *)

Lemma dec_one_line z : u64 z → one_line (dec z).
Proof. intros Hz. apply (Forall_impl _ _ _ (dec_digits z Hz)). intros b Hb. split; intros ->; by vm_compute in Hb. Qed.

Lemma pad_one_line width z : u64 z → one_line (TrafficTime.pad width z).
Proof.
  intros Hz. unfold TrafficTime.pad. rewrite (proj2 (Z.ltb_ge z 0)) by (unfold u64 in Hz; lia). apply Forall_app.
  split; [by apply Forall_replicate|by apply dec_one_line].
Qed.

Lemma lit_one_line text : forallb (λ b, negb (byteb b x0a) && negb (byteb b x0d)) text = true → one_line text.
Proof.
  intros H. apply Forall_forall. intros b Hb%list_elem_of_In. rewrite forallb_forall in H. specialize (H b Hb).
  reflect_bools. split; intros ->; [by rewrite (proj2 (byteb_eq x0a x0a)) in *|by rewrite (proj2 (byteb_eq x0d x0d)) in *].
Qed.

Lemma one_line_app l k : one_line l → one_line k → one_line (l ++ k).
Proof. intros. by apply Forall_app. Qed.

#[local] Hint Resolve one_line_app dec_one_line pad_one_line : lines.
#[local] Hint Extern 1 (one_line (lit _)) => apply lit_one_line; vm_compute; reflexivity : lines.
#[local] Hint Extern 1 (one_line [_; _]) => apply lit_one_line; vm_compute; reflexivity : lines.
#[local] Hint Extern 1 (one_line []) => by constructor : lines.

Lemma format_duration_one_line d : 0 <= d < U64 → one_line (format_duration d).
Proof.
  intros Hd. assert (H : ∀ k, 0 < k <= 10 ^ 6 → u64 (d / k) ∧ u64 (d mod k)).
  { intros k Hk. unfold u64, U64_MAX. unfold U64 in Hd. pose proof (Z.mod_pos_bound d k). pose proof (Z.div_pos d k).
    pose proof (Z.div_le_upper_bound d k d). nia. }
  destruct (H 1000000 ltac:(lia)), (H 1000 ltac:(lia)).
  assert (u64 d) by (unfold u64, U64_MAX; unfold U64 in Hd; lia).
  unfold format_duration. repeat case_match; eauto 6 with lines.
Qed.

(** Tracing. With an interval of [n], of the connections of a process exactly
    the first, the (n+1)-th, the (2n+1)-th and so on are traced, each under its
    own number and its own start; with an interval of zero none is and nothing is
    printed. A trace event prints one line and no more, whatever the values of
    its fields, outside a trace nothing; so no value can forge a line. *)
Theorem tracing_exact :
  (∀ n times i now s, 0 < n < U64 → NEXT_REQUEST s = 0 → Z.of_nat (length times) < U64 → times !! i = Some now →
     scopes times (configure n s) !! i =
       Some (if Z.of_nat i mod n =? 0 then Some (MkTrace (Z.of_nat i + 1) now) else None)) ∧
  (∀ now outer s, scope now outer (configure 0 s) = (outer, [], configure 0 s)) ∧
  (∀ name step status fields now current,
     one_line name → Forall (one_line ∘ fst) fields →
     (∀ trace, current = Some trace → 0 <= request trace < U64 ∧ 0 <= now - started trace < U64) →
     match step with Some d => 0 <= d < U64 | None => True end →
     Forall one_line (write name step status fields now current)
     ∧ length (write name step status fields now current) = if enabled current then 1%nat else 0%nat).
Proof.
  split_and!.
  - intros n times i now s Hn Hs Hlen Hi.
    rewrite (scopes_nth n _ _ _ now); simpl; rewrite ?Hs, ?(Z.mod_small n) by lia; try done; lia.
  - intros now outer s. done.
  - intros name step status fields now current Hname Hf Ht Hstep. unfold write. destruct current as [trace|]; [|by split].
    split; [|done]. destruct (Ht trace eq_refl) as [Hr Hnow]. apply Forall_singleton, append_fields_one_line; [|done].
    assert (u64 (request trace)) by (unfold u64, U64_MAX; unfold U64 in Hr; lia).
    pose proof (format_duration_one_line _ Hnow).
    destruct step as [d|]; [pose proof (format_duration_one_line _ Hstep)|];
      destruct status as [[|]|]; eauto 12 with lines.
Qed.
